(** * Maelstrom-WebUI: the pool data client ([src/lib/contract-client.ts])

    A shallow embedding of the [ContractClient] class and of the pieces of
    the JavaScript run time and of the viem library it relies on, followed
    by the properties of the client that the design document states.

    Layout:
    - [Js]: strings, thrown values, IEEE-754 binary64 numbers ([Number]),
      [BigInt], and the conversions between them;
    - [Viem]: [formatEther] and [parseEther];
    - the client: its state, the effect monad, and every method the
      properties mention, in the order of the source file;
    - lemmas and theorems. *)

From Stdlib Require Import ZArith QArith Qround Qabs Qcanon Qcabs.
From Stdlib Require Import String Ascii List Lia Bool Permutation Sorted.
From stdpp Require Import gmap strings.
Import ListNotations.

#[local] Open Scope string_scope.
#[local] Open Scope list_scope.
#[local] Open Scope Z_scope.

(* ================================================================== *)
(** * The JavaScript run time                                          *)
(* ================================================================== *)

Module Js.

(** ** Strings

    Strings are modelled as byte strings; [toLowerCase] folds the ASCII
    letters, which is what it does on the messages and patterns of
    [isExpectedReadFailure]. *)

Definition lower_ascii (c : ascii) : ascii :=
  let n := nat_of_ascii c in
  if ((65 <=? n)%nat && (n <=? 90)%nat)%bool then ascii_of_nat (n + 32) else c.

Fixpoint toLowerCase (s : string) : string :=
  match s with
  | EmptyString => EmptyString
  | String c r => String (lower_ascii c) (toLowerCase r)
  end.

(** [s.startsWith(p)] *)
Fixpoint startsWith (s p : string) : bool :=
  match p, s with
  | EmptyString, _ => true
  | String _ _, EmptyString => false
  | String b p', String a s' => (Ascii.eqb a b && startsWith s' p')%bool
  end.

(** [s.includes(p)] *)
Fixpoint includes (s p : string) : bool :=
  (startsWith s p ||
   match s with
   | EmptyString => false
   | String _ r => includes r p
   end)%bool.

Definition dquote : string := String (ascii_of_nat 34) EmptyString.

(** ** Thrown values

    A [catch] clause receives either an [Error] object or some other
    (non-nullish) value.  For the latter the model keeps what the client
    can observe: its [message] property ([None] is [undefined]) and its
    [String(...)] conversion. *)

Inductive Thrown : Type :=
| ErrorObject (message : string)
| OtherValue (message : option string) (text : string).

(** [(error as Error).message] inside a template literal. *)
Definition message_in_template (e : Thrown) : string :=
  match e with
  | ErrorObject m => m
  | OtherValue (Some m) _ => m
  | OtherValue None _ => "undefined"
  end.

(** ** Numbers: IEEE-754 binary64

    A finite number carries its exact rational value, kept in lowest
    terms; every arithmetic operation computes the exact result and rounds
    it to the nearest representable value, ties to even. *)

Inductive Number : Type :=
| NaN
| Infinity (neg : bool)
| NegZero
| Real (q : Q).

(** floor (log2 (p/d)) for positive [p] and [d] *)
Definition ilog2_ratio (p d : Z) : Z :=
  let g := Z.log2 p - Z.log2 d in
  if (if 0 <=? g then p <? d * 2 ^ g else p * 2 ^ (- g) <? d)
  then g - 1 else g.

(** nearest integer to [p/d], ties to even, for [0 <= p] and [0 < d] *)
Definition rne (p d : Z) : Z :=
  let q := p / d in
  match 2 * (p mod d) ?= d with
  | Lt => q
  | Gt => q + 1
  | Eq => if Z.even q then q else q + 1
  end.

(** the rational [m * 2^e], in lowest terms *)
Definition pow2Q (m e : Z) : Q :=
  if 0 <=? e then inject_Z (m * 2 ^ e)
  else Qred (m # Z.to_pos (2 ^ (- e))).

(** Rounding of the positive rational [p/d]: 53 significant bits, exponent
    of the last place at least -1074; [None] is overflow. *)
Definition round_mag (p d : Z) : option Q :=
  let e := Z.max (ilog2_ratio p d - 52) (-1074) in
  let m := if 0 <=? e then rne p (d * 2 ^ e) else rne (p * 2 ^ (- e)) d in
  if ((971 <? e) || ((e =? 971) && (2 ^ 53 <=? m)))%bool then None
  else Some (pow2Q m e).

Definition round (q : Q) : Number :=
  let q' := Qred q in
  let n := Qnum q' in
  if n =? 0 then Real 0
  else match round_mag (Z.abs n) (Zpos (Qden q')) with
       | None => Infinity (n <? 0)
       | Some a =>
           if Qnum a =? 0 then (if n <? 0 then NegZero else Real 0)
           else Real (if n <? 0 then Qopp a else a)
       end.

Definition ofZ (z : Z) : Number := round (inject_Z z).

Definition isNeg (x : Number) : bool :=
  match x with
  | NaN => false
  | Infinity s => s
  | NegZero => true
  | Real q => Qnum q <? 0
  end.

Definition isZero (x : Number) : bool :=
  match x with
  | NegZero => true
  | Real q => Qnum q =? 0
  | _ => false
  end.

Definition value (x : Number) : Q :=
  match x with
  | Real q => q
  | _ => 0%Q
  end.

Definition signedZero (neg : bool) : Number := if neg then NegZero else Real 0.

Definition neg (x : Number) : Number :=
  match x with
  | NaN => NaN
  | Infinity s => Infinity (negb s)
  | NegZero => Real 0
  | Real q => if Qnum q =? 0 then NegZero else Real (Qopp q)
  end.

Definition add (x y : Number) : Number :=
  match x, y with
  | NaN, _ | _, NaN => NaN
  | Infinity s, Infinity t => if Bool.eqb s t then Infinity s else NaN
  | Infinity s, _ | _, Infinity s => Infinity s
  | NegZero, NegZero => NegZero
  | NegZero, Real q | Real q, NegZero => Real q
  | Real a, Real b => round (a + b)
  end.

Definition sub (x y : Number) : Number := add x (neg y).

Definition mul (x y : Number) : Number :=
  match x, y with
  | NaN, _ | _, NaN => NaN
  | Infinity s, Infinity t => Infinity (xorb s t)
  | Infinity s, o | o, Infinity s =>
      if isZero o then NaN else Infinity (xorb s (isNeg o))
  | _, _ =>
      if (isZero x || isZero y)%bool then signedZero (xorb (isNeg x) (isNeg y))
      else round (value x * value y)
  end.

Definition div (x y : Number) : Number :=
  match x, y with
  | NaN, _ | _, NaN => NaN
  | Infinity _, Infinity _ => NaN
  | Infinity s, o => Infinity (xorb s (isNeg o))
  | o, Infinity s => signedZero (xorb s (isNeg o))
  | _, _ =>
      if isZero y then
        (if isZero x then NaN else Infinity (xorb (isNeg x) (isNeg y)))
      else if isZero x then signedZero (xorb (isNeg x) (isNeg y))
      else round (value x / value y)
  end.

(** [x < y]; any comparison with [NaN] is false. *)
Definition lt (x y : Number) : bool :=
  match x, y with
  | NaN, _ | _, NaN => false
  | Infinity s, Infinity t => (s && negb t)%bool
  | Infinity s, _ => s
  | _, Infinity t => negb t
  | _, _ =>
      let a := value x in let b := value y in
      match (a ?= b)%Q with Lt => true | _ => false end
  end.

Definition gt (x y : Number) : bool := lt y x.

(** [Math.round]: the nearest integer, halves towards +Infinity. *)
Definition Math_round (x : Number) : Number :=
  match x with
  | Real q =>
      let r := Qfloor (q + (1 # 2)) in
      if (r =? 0) && (Qnum q <? 0) then NegZero else Real (inject_Z r)
  | _ => x
  end.

(** [Math.min] and [Math.max] of two arguments. *)
Definition Math_min (x y : Number) : Number :=
  match x, y with
  | NaN, _ | _, NaN => NaN
  | _, _ => if lt y x then y
            else if lt x y then x
            else if isNeg x then x else y
  end.

Definition Math_max (x y : Number) : Number :=
  match x, y with
  | NaN, _ | _, NaN => NaN
  | _, _ => if lt x y then y
            else if lt y x then x
            else if isNeg x then y else x
  end.

(** ** Completions

    An evaluation returns a value or throws.  [OutOfFuel] belongs to the
    model only: the two [while] loops of the client are run with a step
    budget, and it marks a run that has exhausted the budget. *)

Inductive Outcome (A : Type) : Type :=
| Ok (a : A)
| Throw (e : Thrown)
| OutOfFuel.
Arguments Ok {A} a.
Arguments Throw {A} e.
Arguments OutOfFuel {A}.

(** ** Decimal digits and [BigInt] *)

Definition isDigit (c : ascii) : bool :=
  let n := nat_of_ascii c in ((48 <=? n)%nat && (n <=? 57)%nat)%bool.

Fixpoint allDigits (s : string) : bool :=
  match s with
  | EmptyString => true
  | String c r => (isDigit c && allDigits r)%bool
  end.

(** value of a digit in a base up to 16 *)
Definition digitValue (base : Z) (c : ascii) : option Z :=
  let n := Z.of_nat (nat_of_ascii c) in
  let v := if (48 <=? n) && (n <=? 57) then n - 48
           else if (97 <=? n) && (n <=? 102) then n - 87
           else if (65 <=? n) && (n <=? 70) then n - 55
           else 16 in
  if v <? base then Some v else None.

Fixpoint digitsValue (base : Z) (acc : Z) (s : string) : option Z :=
  match s with
  | EmptyString => Some acc
  | String c r =>
      match digitValue base c with
      | Some v => digitsValue base (acc * base + v) r
      | None => None
      end
  end.

(** a non-empty digit string in the given base *)
Definition numeral (base : Z) (s : string) : option Z :=
  match s with
  | EmptyString => None
  | _ => digitsValue base 0 s
  end.

Definition isWhiteSpace (c : ascii) : bool :=
  let n := nat_of_ascii c in
  ((n =? 32)%nat || ((9 <=? n)%nat && (n <=? 13)%nat))%bool.

Fixpoint trimStart (s : string) : string :=
  match s with
  | String c r => if isWhiteSpace c then trimStart r else s
  | EmptyString => EmptyString
  end.

Fixpoint trimEnd (s : string) : string :=
  match s with
  | EmptyString => EmptyString
  | String c r =>
      match trimEnd r with
      | EmptyString => if isWhiteSpace c then EmptyString else String c EmptyString
      | r' => String c r'
      end
  end.

Definition trim (s : string) : string := trimEnd (trimStart s).

(** the literals [0x..], [0o..], [0b..] *)
Definition radixLiteral (s : string) : option (option Z) :=
  match s with
  | String "0" (String c r) =>
      if (Ascii.eqb c "x" || Ascii.eqb c "X")%bool then Some (numeral 16 r)
      else if (Ascii.eqb c "o" || Ascii.eqb c "O")%bool then Some (numeral 8 r)
      else if (Ascii.eqb c "b" || Ascii.eqb c "B")%bool then Some (numeral 2 r)
      else None
  | _ => None
  end.

(** [StringToBigInt]; [None] is the [SyntaxError] of [BigInt(s)]. *)
Definition StringToBigInt (s : string) : option Z :=
  let t := trim s in
  match radixLiteral t with
  | Some r => r
  | None =>
      match t with
      | EmptyString => Some 0
      | String "-" r => option_map Z.opp (numeral 10 r)
      | String "+" r => numeral 10 r
      | _ => numeral 10 t
      end
  end.

(** [BigInt(s)] for a string [s] *)
Definition BigInt (s : string) : Outcome Z :=
  match StringToBigInt s with
  | Some z => Ok z
  | None => Throw (ErrorObject ("Cannot convert " +:+ s +:+ " to a BigInt"))
  end.

(** [z.toString()] and [String(z)] for a bigint [z]: the decimal digits,
    most significant first, after a minus sign for a negative [z] *)
Definition digitChar (d : Z) : ascii := ascii_of_nat (48 + Z.to_nat d).

Fixpoint decimalDigits (fuel : nat) (n : Z) (acc : string) : string :=
  match fuel with
  | O => acc
  | S f =>
      let acc' := String (digitChar (n mod 10)) acc in
      if n <? 10 then acc' else decimalDigits f (n / 10) acc'
  end.

(** a natural number has at most [log2 n + 1] decimal digits *)
Definition natToString (n : Z) : string :=
  decimalDigits (S (Z.to_nat (Z.log2 n))) n "".

Definition BigInt_toString (z : Z) : string :=
  if z <? 0 then "-" +:+ natToString (- z) else natToString z.

(** [Number(z)] for a bigint [z] *)
Definition Number_of_BigInt (z : Z) : Number := round (inject_Z z).

(** ** [Number(s)] for a string [s] *)

Fixpoint spanDigits (s : string) : string * string :=
  match s with
  | String c r =>
      if isDigit c then let (d, t) := spanDigits r in (String c d, t)
      else (EmptyString, s)
  | EmptyString => (EmptyString, EmptyString)
  end.

Definition decimalValue (s : string) : Z :=
  match digitsValue 10 0 s with Some v => v | None => 0 end.

Definition pow10Q (e : Z) : Q :=
  if 0 <=? e then inject_Z (10 ^ e) else 1 # Z.to_pos (10 ^ (- e)).

(** the exponent part: [e], an optional sign, digits *)
Definition exponentPart (s : string) : option Z :=
  match s with
  | EmptyString => Some 0
  | String c r =>
      if (Ascii.eqb c "e" || Ascii.eqb c "E")%bool then
        match r with
        | String "-" d => option_map Z.opp (numeral 10 d)
        | String "+" d => numeral 10 d
        | _ => numeral 10 r
        end
      else None
  end.

(** an unsigned decimal literal: its exact value *)
Definition unsignedDecimal (s : string) : option Q :=
  let (ip, r1) := spanDigits s in
  let (fp, r2) :=
    match r1 with
    | String "." r => spanDigits r
    | _ => (EmptyString, r1)
    end in
  if ((String.length ip =? 0)%nat && (String.length fp =? 0)%nat)%bool then None
  else
    match exponentPart r2 with
    | Some e =>
        let m := decimalValue (ip +:+ fp) in
        Some (inject_Z m * pow10Q (e - Z.of_nat (String.length fp)))%Q
    | None => None
    end.

Definition signedNumber (negative : bool) (s : string) : Number :=
  if String.eqb s "Infinity" then Infinity negative
  else match unsignedDecimal s with
       | Some q =>
           match round q with
           | Real a => if Qnum a =? 0 then signedZero negative
                       else Real (if negative then Qopp a else a)
           | Infinity _ => Infinity negative
           | other => other
           end
       | None => NaN
       end.

Definition Number_of_string (s : string) : Number :=
  let t := trim s in
  match radixLiteral t with
  | Some (Some z) => round (inject_Z z)
  | Some None => NaN
  | None =>
      match t with
      | EmptyString => Real 0
      | String "-" r => signedNumber true r
      | String "+" r => signedNumber false r
      | _ => signedNumber false t
      end
  end.

(** ** [String(x)] and [x.toString()] for a number [x] *)

(** floor (log10 (p/d)) for positive [p], [d], by stepping from [e] *)
Fixpoint ilog10_from (fuel : nat) (p d e : Z) : Z :=
  match fuel with
  | O => e
  | S f =>
      let below := if 0 <=? e then p <? d * 10 ^ e else p * 10 ^ (- e) <? d in
      let e1 := e + 1 in
      let reach := if 0 <=? e1 then d * 10 ^ e1 <=? p else d <=? p * 10 ^ (- e1) in
      if below then ilog10_from f p d (e - 1)
      else if reach then ilog10_from f p d (e + 1)
      else e
  end.

Definition ilog10_ratio (p d : Z) : Z := ilog10_from 400 p d 0.

Definition Qabs_diff (a b : Q) : Q := Qabs (a - b).

(** The digits [s] and the position [n] of the decimal point for a positive
    [q], with [k] significant digits: the candidates are the two [k]-digit
    decimals around [q]; [None] when neither rounds back to [q]. *)
Definition digitsAt (q : Q) (n0 k : Z) : option (Z * Z) :=
  let scale := pow10Q (n0 - k) in
  let lo := Qfloor (q / scale) in
  let hi := lo + 1 in
  let back c := match round (inject_Z c * scale) with
                | Real a => Qeq_bool a q
                | _ => false
                end in
  let norm c := if c =? 10 ^ k then (10 ^ (k - 1), n0 + 1) else (c, n0) in
  let dlo := Qabs_diff (inject_Z lo * scale) q in
  let dhi := Qabs_diff (inject_Z hi * scale) q in
  match back lo, back hi with
  | true, true =>
      match (dlo ?= dhi)%Q with
      | Lt => Some (norm lo)
      | Gt => Some (norm hi)
      | Eq => Some (norm (if Z.even lo then lo else hi))
      end
  | true, false => Some (norm lo)
  | false, true => Some (norm hi)
  | false, false => None
  end.

Fixpoint shortestDigits (fuel : nat) (q : Q) (n0 k : Z) : Z * Z :=
  match fuel with
  | O => (Qfloor (q / pow10Q (n0 - k)), n0)
  | S f =>
      match digitsAt q n0 k with
      | Some r => r
      | None => shortestDigits f q n0 (k + 1)
      end
  end.

Fixpoint zeros (n : nat) : string :=
  match n with
  | O => EmptyString
  | S m => String "0" (zeros m)
  end.

Definition slice_from (i : nat) (s : string) : string :=
  substring i (String.length s - i) s.

Definition slice (i j : nat) (s : string) : string := substring i (j - i) s.

(** the text of a positive finite number *)
Definition positiveToString (q : Q) : string :=
  let q' := Qred q in
  let n0 := ilog10_ratio (Qnum q') (Zpos (Qden q')) + 1 in
  let (s, n) := shortestDigits 17 q' n0 1 in
  let digits := BigInt_toString s in
  let k := Z.of_nat (String.length digits) in
  if (k <=? n) && (n <=? 21) then digits +:+ zeros (Z.to_nat (n - k))
  else if (0 <? n) && (n <=? 21) then
    slice 0 (Z.to_nat n) digits +:+ "." +:+ slice_from (Z.to_nat n) digits
  else if (-6 <? n) && (n <=? 0) then
    "0." +:+ zeros (Z.to_nat (- n)) +:+ digits
  else
    let e := n - 1 in
    let es := (if e <? 0 then "-" else "+") +:+ BigInt_toString (Z.abs e) in
    if k =? 1 then digits +:+ "e" +:+ es
    else slice 0 1 digits +:+ "." +:+ slice_from 1 digits +:+ "e" +:+ es.

Definition Number_toString (x : Number) : string :=
  match x with
  | NaN => "NaN"
  | Infinity false => "Infinity"
  | Infinity true => "-Infinity"
  | NegZero => "0"
  | Real q =>
      if Qnum q =? 0 then "0"
      else if Qnum q <? 0 then "-" +:+ positiveToString (Qopp q)
      else positiveToString q
  end.

(** [BigInt(x)] for a number [x]: a [RangeError] unless [x] is an integer. *)
Definition BigInt_of_Number (x : Number) : Outcome Z :=
  match x with
  | NegZero => Ok 0
  | Real q =>
      if Pos.eqb (Qden (Qred q)) 1 then Ok (Qnum (Qred q))
      else Throw (ErrorObject ("The number " +:+ Number_toString x +:+
             " cannot be converted to a BigInt because it is not an integer"))
  | _ => Throw (ErrorObject ("The number " +:+ Number_toString x +:+
             " cannot be converted to a BigInt because it is not an integer"))
  end.

End Js.

(* ================================================================== *)
(** * viem: unit conversion                                            *)
(* ================================================================== *)

Module Viem.
Import Js.

(** [s.replace(/(0+)$/, '')] *)
Fixpoint stripTrailingZeros (s : string) : string :=
  match s with
  | EmptyString => EmptyString
  | String c r =>
      match stripTrailingZeros r with
      | EmptyString => if Ascii.eqb c "0" then EmptyString else String c EmptyString
      | r' => String c r'
      end
  end.

(** [s.padStart(n, '0')] and [s.padEnd(n, '0')] *)
Definition padStart (n : nat) (s : string) : string :=
  zeros (n - String.length s) +:+ s.

Definition padEnd (n : nat) (s : string) : string :=
  s +:+ zeros (n - String.length s).

Definition isEmpty (s : string) : bool :=
  match s with EmptyString => true | _ => false end.

(** [formatUnits(value, decimals)] *)
Definition formatUnits (value : Z) (decimals : nat) : string :=
  let display := BigInt_toString value in
  let negative := startsWith display "-" in
  let display := if negative then slice_from 1 display else display in
  let display := padStart decimals display in
  let integer := slice 0 (String.length display - decimals) display in
  let fraction := slice_from (String.length display - decimals) display in
  let fraction := stripTrailingZeros fraction in
  (if negative then "-" else "") +:+
  (if isEmpty integer then "0" else integer) +:+
  (if isEmpty fraction then "" else "." +:+ fraction).

Definition formatEther (wei : Z) : string := formatUnits wei 18.

(** the validity test of [parseUnits]: an optional minus sign, digits,
    an optional dot, digits *)
Definition validDecimal (s : string) : bool :=
  let s1 := match s with String "-" r => r | _ => s end in
  let (_, r1) := spanDigits s1 in
  let r2 := match r1 with String "." r => r | _ => r1 end in
  allDigits r2.

(** [value.split('.')], for a value with at most one dot *)
Fixpoint splitDot (s : string) : string * option string :=
  match s with
  | EmptyString => (EmptyString, None)
  | String c r =>
      if Ascii.eqb c "." then (EmptyString, Some r)
      else let (a, b) := splitDot r in (String c a, b)
  end.

Definition bindO {A B} (o : Outcome A) (f : A -> Outcome B) : Outcome B :=
  match o with
  | Ok a => f a
  | Throw e => Throw e
  | OutOfFuel => OutOfFuel
  end.

(** [parseUnits(value, decimals)] *)
Definition parseUnits (value : string) (decimals : nat) : Outcome Z :=
  if negb (validDecimal value) then
    Throw (ErrorObject ("Number " +:+ dquote +:+ value +:+ dquote +:+
                        " is not a valid decimal number."))
  else
    let (integer, frac) := splitDot value in
    let fraction := match frac with Some f => f | None => "0" end in
    let negative := startsWith integer "-" in
    let integer := if negative then slice_from 1 integer else integer in
    let fraction := stripTrailingZeros fraction in
    let finish (integer fraction : string) :=
      BigInt ((if negative then "-" else "") +:+ integer +:+ fraction) in
    if (decimals =? 0)%nat then
      match Math_round (Number_of_string ("." +:+ fraction)) with
      | Real 1 => bindO (BigInt integer) (fun i => finish (BigInt_toString (i + 1)) "")
      | _ => finish integer ""
      end
    else if (decimals <? String.length fraction)%nat then
      let left := slice 0 (decimals - 1) fraction in
      let unit := slice (decimals - 1) decimals fraction in
      let right := slice_from decimals fraction in
      let rounded := Math_round (Number_of_string (unit +:+ "." +:+ right)) in
      bindO (if gt rounded (ofZ 9)
             then bindO (BigInt left) (fun l =>
                    Ok (padStart (String.length left + 1) (BigInt_toString (l + 1) +:+ "0")))
             else Ok (left +:+ Number_toString rounded))
        (fun fraction =>
           if (decimals <? String.length fraction)%nat then
             bindO (BigInt integer) (fun i =>
               finish (BigInt_toString (i + 1)) (slice 0 decimals (slice_from 1 fraction)))
           else finish integer (slice 0 decimals fraction))
    else finish integer (padEnd decimals fraction).

Definition parseEther (ether : string) : Outcome Z := parseUnits ether 18.

End Viem.

(* ================================================================== *)
(** * The data model ([@/types])                                       *)
(* ================================================================== *)

Import Js.

Definition Address : Type := string.

(** [None] in a field is [undefined]: [getToken] casts what the reads
    return without checking it. *)
Record Token : Type := {
  address : Address;
  symbol : option string;
  name : option string;
  decimals : option Number
}.

Record LiquidityPoolToken : Type := {
  lp_address : Address;
  lp_symbol : option string;
  lp_name : option string;
  lp_decimals : option Number;
  totalSupply : string;
  balance : string
}.

Record Reserve : Type := { tokenReserve : string; ethReserve : string }.

Record Pool : Type := {
  token : Token;
  reserve : Reserve;
  lpToken : LiquidityPoolToken;
  buyPrice : string;
  sellPrice : string;
  avgPrice : string;
  tokenRatio : string;
  volume24h : string;
  totalLiquidty : string;
  apr : Number;
  lastExchangeTs : Number;
  lastUpdated : Number
}.

Record PoolFeesEvent : Type := { timestamp : Number; fee : string }.

Record BuyTrade : Type := {
  buy_token : Token;
  buy_buyPrice : string;
  buy_updatedBuyPrice : string;
  buy_ethAmount : string;
  buy_sellPrice : string;
  buy_timestamp : Number
}.

Record SellTrade : Type := {
  sell_token : Token;
  sell_sellPrice : string;
  sell_updatedSellPrice : string;
  sell_ethAmount : string;
  sell_buyPrice : string;
  sell_timestamp : Number
}.

Record SwapTrade : Type := {
  tokenIn : Token;
  tokenOut : Token;
  amountIn : string;
  amountOut : string;
  swap_sellPrice : string;
  swap_buyPrice : string;
  swap_updatedBuyPrice : string;
  swap_updatedSellPrice : string;
  swap_timestamp : Number
}.

Record DepositRequest : Type := {
  dep_token : Token;
  tokenAmount : string;
  ethAmount : string
}.

Record DepositResult : Type := {
  success : bool;
  depositRequest : DepositRequest;
  txHash : string;
  dep_timestamp : Number;
  error : string
}.

(* ================================================================== *)
(** * The two external interfaces                                      *)
(* ================================================================== *)

(** A contract call as it is handed to [writeContract] or [readContract]. *)
Inductive Arg : Type :=
| AddressArg (a : Address)
| UintArg (z : Z).

Record ContractCall : Type := {
  target : Address;
  functionName : string;
  args : list Arg;
  value : option Z
}.

(** Decoded event logs, with the block they were emitted in. *)
Record BuyTradeLog : Type := {
  bl_blockNumber : Z;
  bl_token : Address;
  bl_trader : Address;
  bl_amountEther : Z;
  bl_amountToken : Z;
  bl_tradeBuyPrice : Z;
  bl_updatedBuyPrice : Z;
  bl_sellPrice : Z
}.

Record SellTradeLog : Type := {
  sl_blockNumber : Z;
  sl_token : Address;
  sl_trader : Address;
  sl_amountToken : Z;
  sl_amountEther : Z;
  sl_tradeSellPrice : Z;
  sl_updatedSellPrice : Z;
  sl_buyPrice : Z
}.

Record SwapTradeLog : Type := {
  wl_blockNumber : Z;
  wl_tokenSold : Address;
  wl_tokenBought : Address;
  wl_trader : Address;
  wl_amountTokenSold : Z;
  wl_amountTokenBought : Z;
  wl_tradeSellPrice : Z;
  wl_updatedSellPrice : Z;
  wl_tradeBuyPrice : Z;
  wl_updatedBuyPrice : Z
}.

(** The ledger-read handle.  viem types the result of [readContract] by
    the ABI entry of the function called, so the model has one answer
    function per contract function the client reads; [None] is a nullish
    result.  Every answer is a function of the request alone: the ledger
    is observed at one point in time. *)
Record PublicClient : Type := {
  read_poolToken : Address -> Address -> Outcome (option Address);
  read_reserves : Address -> Address -> Outcome (option (Z * Z));
  read_priceBuy : Address -> Address -> Outcome (option Z);
  read_priceSell : Address -> Address -> Outcome (option Z);
  read_tokenPerETHRatio : Address -> Address -> Outcome (option Z);
  read_pools : Address -> Address -> Outcome (option (Z * Z * Z));
  read_getPoolFeeEventsCount : Address -> Address -> Outcome (option Z);
  read_getPoolFeeList :
    Address -> Address -> Z -> Z -> Outcome (option (list (Z * Z)));
  read_decimals : Address -> Outcome (option Number);
  read_symbol : Address -> Outcome (option string);
  read_name : Address -> Outcome (option string);
  read_totalSupply : Address -> Outcome (option Z);
  read_balanceOf : Address -> Address -> Outcome (option Z);
  getLogs_BuyTrade :
    Address -> Z -> Z -> option Address -> option Address ->
    Outcome (list BuyTradeLog);
  getLogs_SellTrade :
    Address -> Z -> Z -> option Address -> option Address ->
    Outcome (list SellTradeLog);
  getLogs_SwapTrade :
    Address -> Z -> Z -> option Address -> option Address -> option Address ->
    Outcome (list SwapTradeLog);
  getBlock : Z -> Outcome Z;
  getBlockNumber : Outcome Z
}.

(** What the client does to the outside, in the order it does it. *)
Inductive Event : Type :=
| ConsoleError (text : string)
| ConsoleWarn (text : string)
| ConsoleLog (text : string)
| WriteContract (call : ContractCall)
| ReadContract (call : ContractCall)
| GetLogs (event : string) (fromBlock toBlock : Z)
| GetBlock (blockNumber : Z)
| GetBlockNumber.

(* ================================================================== *)
(** * The client                                                       *)
(* ================================================================== *)

Record ContractClient : Type := {
  contractAddress : Address;
  writeContract : ContractCall -> Outcome string;
  publicClient : option PublicClient;
  chainId : Z
}.

(** The state a method runs in: the object itself ([this]), the wall
    clock read by [Date.now()] (milliseconds, held fixed while one
    operation runs) and the trace of external effects. *)
Record State : Type := {
  self : ContractClient;
  clock : Z;
  events : list Event
}.

Definition M (A : Type) : Type := State -> Outcome A * State.

Definition ret {A} (a : A) : M A := fun s => (Ok a, s).

Definition bind {A B} (m : M A) (f : A -> M B) : M B :=
  fun s =>
    match m s with
    | (Ok a, s') => f a s'
    | (Throw e, s') => (Throw e, s')
    | (OutOfFuel, s') => (OutOfFuel, s')
    end.

Definition throw {A} (e : Thrown) : M A := fun s => (Throw e, s).

Definition outOfFuel {A} : M A := fun s => (OutOfFuel, s).

Definition lift {A} (o : Outcome A) : M A := fun s => (o, s).

(** [try { m } catch (error) { h error }] *)
Definition tryCatch {A} (m : M A) (h : Thrown -> M A) : M A :=
  fun s =>
    match m s with
    | (Throw e, s') => h e s'
    | r => r
    end.

Definition emit (ev : Event) : M unit :=
  fun s => (Ok tt, {| self := self s; clock := clock s;
                      events := events s ++ [ev] |}).

Definition this : M ContractClient := fun s => (Ok (self s), s).

Definition Date_now : M Number := fun s => (Ok (ofZ (clock s)), s).

Notation "'let*' x ':=' m 'in' k" := (bind m (fun x => k))
  (at level 10, x pattern, m at level 100, k at level 200).
Notation "m ';;' k" := (bind m (fun _ => k))
  (at level 100, k at level 200, right associativity).

(** [Promise.all]: every computation is run, also after one of them has
    failed; they are run one after the other, each to its end, and the
    failure reported, if there is one, is the first in the order of the
    list.  This is one schedule of the JavaScript, that in which every
    request is answered before the next computation goes on: there the
    computations run interleaved and the failure reported is that of the
    promise that settles first, which depends on the node.  A property
    stated for every node must turn neither on the interleaving of the
    requests of different computations nor on which of several failures
    is reported. *)
Definition settle {A} (m : M A) : M (Outcome A) :=
  fun s => let (r, s') := m s in (Ok r, s').

Definition Promise_all2 {A B} (a : M A) (b : M B) : M (A * B) :=
  let* ra := settle a in
  let* rb := settle b in
  lift (Viem.bindO ra (fun x => Viem.bindO rb (fun y => Ok (x, y)))).

Definition Promise_all3 {A B C} (a : M A) (b : M B) (c : M C) : M (A * B * C) :=
  let* ra := settle a in
  let* rb := settle b in
  let* rc := settle c in
  lift (Viem.bindO ra (fun x => Viem.bindO rb (fun y =>
        Viem.bindO rc (fun z => Ok (x, y, z))))).

Fixpoint sequenceO {A} (l : list (Outcome A)) : Outcome (list A) :=
  match l with
  | [] => Ok []
  | o :: r => Viem.bindO o (fun x => Viem.bindO (sequenceO r) (fun xs => Ok (x :: xs)))
  end.

Fixpoint settleAll {A} (l : list (M A)) : M (list (Outcome A)) :=
  match l with
  | [] => ret []
  | m :: r => let* o := settle m in let* os := settleAll r in ret (o :: os)
  end.

Definition Promise_all {A} (l : list (M A)) : M (list A) :=
  let* os := settleAll l in lift (sequenceO os).

(** Thrown when chainId is not in CONTRACT_ADDRESSES *)
Definition UNSUPPORTED_CHAIN : string := "UNSUPPORTED_CHAIN".

(** Fatal: publicClient not available *)
Definition PUBLIC_CLIENT_UNAVAILABLE : string := "PUBLIC_CLIENT_UNAVAILABLE".

Definition getErrorMessage (err : Thrown) : string :=
  match err with
  | ErrorObject m => m
  | OtherValue _ text => text
  end.

Definition isExpectedReadFailure (error : Thrown) : bool :=
  let msg := toLowerCase (getErrorMessage error) in
  includes msg "returned no data" ||
  includes msg "no data (0x)" ||
  (includes msg "contract" &&
     (includes msg "not deployed" || includes msg "could not be found")) ||
  includes msg "no logs" ||
  includes msg "no events" ||
  (includes msg "pool" && includes msg "not instantiated") ||
  (includes msg "execution reverted" &&
     (includes msg "0x" || includes msg "no data")).

Definition ZERO_ADDRESS : Address := "0x0000000000000000000000000000000000000000".

Definition TypeError_undefined (prop : string) : Thrown :=
  ErrorObject ("Cannot read properties of undefined (reading '" +:+ prop +:+ "')").

(** [x!.f] and [x.f] on a possibly nullish [x] *)
Definition defined {A} (prop : string) (x : option A) : M A :=
  match x with
  | Some a => ret a
  | None => throw (TypeError_undefined prop)
  end.

Section Client.

(** The chain-to-address table of [@/types/contract], a module constant. *)
Variable CONTRACT_ADDRESSES : gmap Z Address.

(** [new ContractClient(writeContract, publicClient, chainId)]; the
    constructor runs before there is a state to thread, so it returns the
    object together with what it wrote to the console. *)
Definition constructor (writeContract : ContractCall -> Outcome string)
    (publicClient : option PublicClient) (chainId : option Z)
  : Outcome ContractClient * list Event :=
  let chainId := match chainId with Some c => c | None => 63 end in
  match CONTRACT_ADDRESSES !! chainId with
  | None =>
      (Throw (ErrorObject UNSUPPORTED_CHAIN),
       [ConsoleError "[ContractClient] Unsupported chain."])
  | Some addr =>
      (Ok {| contractAddress := addr; writeContract := writeContract;
             publicClient := publicClient; chainId := chainId |}, [])
  end.

(** Call before any read. *)
Definition ensureCanRead : M unit :=
  let* c := this in
  match CONTRACT_ADDRESSES !! chainId c with
  | None =>
      emit (ConsoleError "[ContractClient] Unsupported chain.") ;;
      throw (ErrorObject UNSUPPORTED_CHAIN)
  | Some _ =>
      match publicClient c with
      | None =>
          emit (ConsoleError "[ContractClient] publicClient is undefined.") ;;
          throw (ErrorObject PUBLIC_CLIENT_UNAVAILABLE)
      | Some _ => ret tt
      end
  end.

(** Run a read-only call; on expected failures return fallback; on fatal
    errors rethrow. *)
Definition safeRead {T} (methodName : string) (fallback : T) (fn : M T) : M T :=
  ensureCanRead ;;
  tryCatch fn (fun error =>
    let* c := this in
    if isExpectedReadFailure error then
      emit (ConsoleWarn ("[ContractClient] Expected read failure (" +:+ methodName
                         +:+ "), returning fallback. chainId="
                         +:+ BigInt_toString (chainId c))) ;;
      ret fallback
    else
      emit (ConsoleError ("[ContractClient] Fatal read error (" +:+ methodName
                          +:+ "). chainId=" +:+ BigInt_toString (chainId c))) ;;
      throw error).

(** [this.writeContract(call)] *)
Definition callWriteContract (call : ContractCall) : M string :=
  let* c := this in
  emit (WriteContract call) ;;
  lift (writeContract c call).

(** [this.publicClient!.f(...)]: the handle, a [TypeError] without one *)
Definition publicClient_bang (prop : string) : M PublicClient :=
  let* c := this in defined prop (publicClient c).

(** [this.publicClient?.readContract(call)], answered by [answer] *)
Definition readContract_opt {A} (call : ContractCall)
    (answer : PublicClient -> Outcome (option A)) : M (option A) :=
  let* c := this in
  match publicClient c with
  | None => ret None
  | Some pc => emit (ReadContract call) ;; lift (answer pc)
  end.

(** [this.publicClient!.readContract(call)], answered by [answer] *)
Definition readContract_bang {A} (call : ContractCall)
    (answer : PublicClient -> Outcome (option A)) : M (option A) :=
  let* pc := publicClient_bang "readContract" in
  emit (ReadContract call) ;;
  lift (answer pc).

Definition poolCall (c : ContractClient) (f : string) (a : list Arg) : ContractCall :=
  {| target := contractAddress c; functionName := f; args := a; value := None |}.

Definition erc20Call (tok : Address) (f : string) (a : list Arg) : ContractCall :=
  {| target := tok; functionName := f; args := a; value := None |}.

Definition approveToken (token : Address) (amount : Z) : M unit :=
  tryCatch
    (let* c := this in
     callWriteContract
       {| target := token; functionName := "approve";
          args := [AddressArg (contractAddress c); UintArg amount];
          value := None |} ;;
     ret tt)
    (fun error =>
       throw (ErrorObject ("Token approval failed: " +:+ message_in_template error))).

Definition isPoolInstantiated (token : Address) : M bool :=
  let* c := this in
  let* data := readContract_opt (poolCall c "poolToken" [AddressArg token])
                 (fun pc => read_poolToken pc (contractAddress c) token) in
  emit (ConsoleLog "isPoolInstantiated data:") ;;
  match data with
  | Some d =>
      if negb (Viem.isEmpty d) && String.eqb d ZERO_ADDRESS then ret false
      else ret true
  | None => ret true
  end.

Definition deposit (depositReq : DepositRequest) : M DepositResult :=
  tryCatch
    (let* now := Date_now in
     let result := {| success := true; depositRequest := depositReq;
                      txHash := ""; dep_timestamp := now; error := "" |} in
     let* amount := lift (BigInt (tokenAmount depositReq)) in
     approveToken (address (dep_token depositReq)) amount ;;
     let* c := this in
     let* v := lift (BigInt (ethAmount depositReq)) in
     let* txHash := callWriteContract
       {| target := contractAddress c; functionName := "deposit";
          args := [AddressArg (address (dep_token depositReq))];
          value := Some v |} in
     ret {| success := success result; depositRequest := depositRequest result;
            txHash := txHash; dep_timestamp := dep_timestamp result;
            error := error result |})
    (fun error =>
       throw (ErrorObject ("Deposit failed: " +:+ message_in_template error))).

Definition getToken (token : Address) : M Token :=
  tryCatch
    (let* (decimals, symbol, name) :=
       Promise_all3
         (readContract_opt (erc20Call token "decimals" []) (fun pc => read_decimals pc token))
         (readContract_opt (erc20Call token "symbol" []) (fun pc => read_symbol pc token))
         (readContract_opt (erc20Call token "name" []) (fun pc => read_name pc token)) in
     ret {| address := token; symbol := symbol; name := name; decimals := decimals |})
    (fun error =>
       throw (ErrorObject ("Error fetching token data: " +:+ message_in_template error))).

Definition getLPToken (token : Token) (user : Address) : M LiquidityPoolToken :=
  tryCatch
    (let* c := this in
     let* tokenAddress :=
       readContract_opt (poolCall c "poolToken" [AddressArg (address token)])
         (fun pc => read_poolToken pc (contractAddress c) (address token)) in
     match tokenAddress with
     | Some tokenAddress =>
         if Viem.isEmpty tokenAddress
         then throw (ErrorObject "No LP token found for the given token.")
         else
           let* (totalSupply, balance) :=
             Promise_all2
               (readContract_opt (erc20Call tokenAddress "totalSupply" [])
                  (fun pc => read_totalSupply pc tokenAddress))
               (readContract_opt (erc20Call tokenAddress "balanceOf" [AddressArg user])
                  (fun pc => read_balanceOf pc tokenAddress user)) in
           let* tokenMetaData := getToken tokenAddress in
           let* totalSupply := defined "toString" totalSupply in
           let* balance := defined "toString" balance in
           ret {| lp_address := tokenAddress;
                  lp_symbol := symbol tokenMetaData;
                  lp_name := name tokenMetaData;
                  lp_decimals := decimals tokenMetaData;
                  totalSupply := BigInt_toString totalSupply;
                  balance := BigInt_toString balance |}
     | None => throw (ErrorObject "No LP token found for the given token.")
     end)
    (fun error =>
       throw (ErrorObject ("Error fetching LP token data: " +:+ message_in_template error))).

Definition getReserves (token : Token) : M Reserve :=
  safeRead "getReserves" {| tokenReserve := "0"; ethReserve := "0" |}
    (let* c := this in
     let* data := readContract_bang (poolCall c "reserves" [AddressArg (address token)])
                    (fun pc => read_reserves pc (contractAddress c) (address token)) in
     match data with
     | None => ret {| tokenReserve := "0"; ethReserve := "0" |}
     | Some (d0, d1) =>
         ret {| tokenReserve := BigInt_toString d1; ethReserve := BigInt_toString d0 |}
     end).

(** the shape shared by [getBuyPrice], [getSellPrice], [getTokenRatio] and
    [getTotalPoolFee]: one [uint256] read, ["0"] when it is nullish *)
Definition readAmount (methodName f : string) (token : Token)
    (answer : PublicClient -> Address -> Address -> Outcome (option Z)) : M string :=
  safeRead methodName "0"
    (let* c := this in
     let* data := readContract_bang (poolCall c f [AddressArg (address token)])
                    (fun pc => answer pc (contractAddress c) (address token)) in
     ret (match data with Some d => BigInt_toString d | None => "0" end)).

Definition getBuyPrice (token : Token) : M string :=
  readAmount "getBuyPrice" "priceBuy" token read_priceBuy.

Definition getSellPrice (token : Token) : M string :=
  readAmount "getSellPrice" "priceSell" token read_priceSell.

Definition getTokenRatio (token : Token) : M string :=
  readAmount "getTokenRatio" "tokenPerETHRatio" token read_tokenPerETHRatio.

Definition getTotalLiquidity (avgPrice : string) (reserve : Reserve) : Outcome string :=
  Viem.bindO (BigInt (tokenReserve reserve)) (fun tr =>
  let tokenInEth := Viem.formatEther tr in
  Viem.bindO (BigInt (ethReserve reserve)) (fun er =>
  let liquidity :=
    add (div (mul (Number_of_string avgPrice) (Number_of_string tokenInEth))
             (ofZ (10 ^ 18)))
        (Number_of_string (Viem.formatEther er)) in
  Viem.bindO (Viem.parseEther (Number_toString liquidity)) (fun wei =>
  Ok (BigInt_toString wei)))).

Definition getAvgPrice (buyPrice sellPrice : string) : string :=
  Number_toString
    (div (add (Number_of_string buyPrice) (Number_of_string sellPrice)) (ofZ 2)).

Definition getAPR (poolYield : string) : string :=
  Number_toString (mul (mul (Number_of_string poolYield) (ofZ 365)) (ofZ 100)).

Definition getBlockTimestamp (blockNumber : Z) : M Number :=
  tryCatch
    (let* c := this in
     match publicClient c with
     | None => throw (TypeError_undefined "timestamp")
     | Some pc =>
         emit (GetBlock blockNumber) ;;
         let* ts := lift (getBlock pc blockNumber) in
         ret (mul (Number_of_BigInt ts) (ofZ 1000))
     end)
    (fun error =>
       throw (ErrorObject ("Error fetching block timestamp: " +:+ message_in_template error))).

Definition getBlockNumber_bang : M Z :=
  let* pc := publicClient_bang "getBlockNumber" in
  emit GetBlockNumber ;;
  lift (getBlockNumber pc).

(** [Promise.all(logs.map(log => this.getBlockTimestamp(log.blockNumber)))] *)
Definition timestampsOf {L} (blockNumber : L -> Z) (logs : list L) : M (list Number) :=
  Promise_all (map (fun log => getBlockTimestamp (blockNumber log)) logs).

Definition tokensOf {L} (tokenAddress : L -> Address) (logs : list L) : M (list Token) :=
  Promise_all (map (fun log => getToken (tokenAddress log)) logs).

Definition buyTrade (log : BuyTradeLog) (tok : Token) (ts : Number) : BuyTrade :=
  {| buy_token := tok;
     buy_buyPrice := BigInt_toString (bl_tradeBuyPrice log);
     buy_updatedBuyPrice := BigInt_toString (bl_updatedBuyPrice log);
     buy_ethAmount := BigInt_toString (bl_amountEther log);
     buy_sellPrice := BigInt_toString (bl_sellPrice log);
     buy_timestamp := ts |}.

Definition getBuyTradeEventLogs (fromBlock toBlock : Number)
    (token : option Token) (user : option Address) : M (list BuyTrade) :=
  safeRead "getBuyTradeEventLogs" []
    (let* pc := publicClient_bang "getLogs" in
     let* c := this in
     let* fb := lift (BigInt_of_Number fromBlock) in
     let* tb := lift (BigInt_of_Number toBlock) in
     emit (GetLogs "BuyTrade" fb tb) ;;
     let* logs := lift (getLogs_BuyTrade pc (contractAddress c) fb tb
                          (option_map address token) user) in
     let* timestamps := timestampsOf bl_blockNumber logs in
     match token with
     | None =>
         let* tokens := tokensOf bl_token logs in
         ret (map (fun x => buyTrade (fst (fst x)) (snd (fst x)) (snd x))
                  (combine (combine logs tokens) timestamps))
     | Some token =>
         ret (map (fun x => buyTrade (fst x) token (snd x)) (combine logs timestamps))
     end).

Definition sellTrade (log : SellTradeLog) (tok : Token) (ts : Number) : SellTrade :=
  {| sell_token := tok;
     sell_sellPrice := BigInt_toString (sl_tradeSellPrice log);
     sell_updatedSellPrice := BigInt_toString (sl_updatedSellPrice log);
     sell_ethAmount := BigInt_toString (sl_amountEther log);
     sell_buyPrice := BigInt_toString (sl_buyPrice log);
     sell_timestamp := ts |}.

Definition getSellTradeEventLogs (fromBlock toBlock : Number)
    (token : option Token) (user : option Address) : M (list SellTrade) :=
  safeRead "getSellTradeEventLogs" []
    (let* pc := publicClient_bang "getLogs" in
     let* c := this in
     let* fb := lift (BigInt_of_Number fromBlock) in
     let* tb := lift (BigInt_of_Number toBlock) in
     emit (GetLogs "SellTrade" fb tb) ;;
     let* logs := lift (getLogs_SellTrade pc (contractAddress c) fb tb
                          (option_map address token) user) in
     let* timestamps := timestampsOf sl_blockNumber logs in
     match token with
     | None =>
         let* tokens := tokensOf sl_token logs in
         ret (map (fun x => sellTrade (fst (fst x)) (snd (fst x)) (snd x))
                  (combine (combine logs tokens) timestamps))
     | Some token =>
         ret (map (fun x => sellTrade (fst x) token (snd x)) (combine logs timestamps))
     end).

Definition swapTrade (log : SwapTradeLog) (tIn tOut : Token) (ts : Number) : SwapTrade :=
  {| tokenIn := tIn;
     tokenOut := tOut;
     amountIn := BigInt_toString (wl_amountTokenSold log);
     amountOut := BigInt_toString (wl_amountTokenBought log);
     swap_sellPrice := BigInt_toString (wl_tradeSellPrice log);
     swap_buyPrice := BigInt_toString (wl_tradeBuyPrice log);
     swap_updatedBuyPrice := BigInt_toString (wl_updatedBuyPrice log);
     swap_updatedSellPrice := BigInt_toString (wl_updatedSellPrice log);
     swap_timestamp := ts |}.

Definition swapInEventLogs (fromBlock toBlock : Number) (tokenIn : option Token)
  : M (list SwapTrade) :=
  safeRead "swapInEventLogs" []
    (let* pc := publicClient_bang "getLogs" in
     let* c := this in
     let* fb := lift (BigInt_of_Number fromBlock) in
     let* tb := lift (BigInt_of_Number toBlock) in
     let* tokenIn := defined "address" tokenIn in
     emit (GetLogs "SwapTrade" fb tb) ;;
     let* logs := lift (getLogs_SwapTrade pc (contractAddress c) fb tb
                          (Some (address tokenIn)) None None) in
     let* timestamps := timestampsOf wl_blockNumber logs in
     let* tokensOut := tokensOf wl_tokenBought logs in
     ret (map (fun x => swapTrade (fst (fst x)) tokenIn (snd (fst x)) (snd x))
              (combine (combine logs tokensOut) timestamps))).

Definition swapOutEventLogs (fromBlock toBlock : Number) (tokenOut : option Token)
  : M (list SwapTrade) :=
  safeRead "swapOutEventLogs" []
    (let* pc := publicClient_bang "getLogs" in
     let* c := this in
     let* fb := lift (BigInt_of_Number fromBlock) in
     let* tb := lift (BigInt_of_Number toBlock) in
     let* tokenOut := defined "address" tokenOut in
     emit (GetLogs "SwapTrade" fb tb) ;;
     let* logs := lift (getLogs_SwapTrade pc (contractAddress c) fb tb
                          None (Some (address tokenOut)) None) in
     let* timestamps := timestampsOf wl_blockNumber logs in
     let* tokensIn := tokensOf wl_tokenSold logs in
     ret (map (fun x => swapTrade (fst (fst x)) (snd (fst x)) tokenOut (snd x))
              (combine (combine logs tokensIn) timestamps))).

Definition getSwapTradeEventLogs (fromBlock toBlock : Number)
    (token : option Token) (user : option Address) : M (list SwapTrade) :=
  safeRead "getSwapTradeEventLogs" []
    (if match user with Some u => negb (Viem.isEmpty u) | None => false end then
       let* pc := publicClient_bang "getLogs" in
       let* c := this in
       let* fb := lift (BigInt_of_Number fromBlock) in
       let* tb := lift (BigInt_of_Number toBlock) in
       emit (GetLogs "SwapTrade" fb tb) ;;
       let* logs := lift (getLogs_SwapTrade pc (contractAddress c) fb tb None None user) in
       let* timestamps := timestampsOf wl_blockNumber logs in
       let* tokensIn := tokensOf wl_tokenSold logs in
       let* tokensOut := tokensOf wl_tokenBought logs in
       ret (map (fun x => swapTrade (fst (fst (fst x))) (snd (fst (fst x)))
                                    (snd (fst x)) (snd x))
                (combine (combine (combine logs tokensIn) tokensOut) timestamps))
     else
       let* swapInTrades := swapInEventLogs fromBlock toBlock token in
       let* swapOutTrades := swapOutEventLogs fromBlock toBlock token in
       ret (swapInTrades ++ swapOutTrades)).

(** The [while] loop of [get24hBeforeBlock], with a budget of iterations. *)
Fixpoint get24hBeforeBlock_loop (fuel : nat) (lowBlock highBlock : Z) : M Z :=
  match fuel with
  | O => outOfFuel
  | S fuel' =>
      if lowBlock <=? highBlock then
        let midBlock :=
          Math_round (div (Number_of_BigInt (lowBlock + highBlock)) (ofZ 2)) in
        let* mid := lift (BigInt_of_Number midBlock) in
        let* midTimestamp := getBlockTimestamp mid in
        let* now := Date_now in
        if lt (sub now midTimestamp) (ofZ (24 * 60 * 60 * 1000)) then
          get24hBeforeBlock_loop fuel' lowBlock (mid - 1)
        else
          get24hBeforeBlock_loop fuel' (mid + 1) highBlock
      else ret lowBlock
  end.

Definition get24hBeforeBlock (fuel : nat) : M Z :=
  let lowBlock := 0 in
  let* highBlock := getBlockNumber_bang in
  get24hBeforeBlock_loop fuel lowBlock highBlock.

Definition BLOCK_BATCH_SIZE : Number := ofZ 999.

(** The batch loop of [get24hVolume], with a budget of iterations: it
    returns the three accumulated lists. *)
Fixpoint scanBatches (fuel : nat) (token : Token) (currentBlock targetBlock : Number)
    (buyLogs : list BuyTrade) (sellLogs : list SellTrade) (swapLogs : list SwapTrade)
  : M (list BuyTrade * list SellTrade * list SwapTrade) :=
  match fuel with
  | O => outOfFuel
  | S fuel' =>
      if lt currentBlock targetBlock then
        let batchEndBlock := Math_min (add currentBlock BLOCK_BATCH_SIZE) targetBlock in
        let* (batchBuyLogs, batchSellLogs, batchSwapLogs) :=
          Promise_all3
            (getBuyTradeEventLogs currentBlock batchEndBlock (Some token) None)
            (getSellTradeEventLogs currentBlock batchEndBlock (Some token) None)
            (getSwapTradeEventLogs currentBlock batchEndBlock (Some token) None) in
        scanBatches fuel' token (add batchEndBlock (ofZ 1)) targetBlock
          (buyLogs ++ batchBuyLogs) (sellLogs ++ batchSellLogs)
          (swapLogs ++ batchSwapLogs)
      else ret (buyLogs, sellLogs, swapLogs)
  end.

Definition swapVolume (token : Token) (volume : Number) (log : SwapTrade) : Number :=
  if String.eqb (address (tokenIn log)) (address token) then
    add volume (div (mul (Number_of_string (amountIn log))
                         (Number_of_string (swap_sellPrice log))) (ofZ (10 ^ 18)))
  else if String.eqb (address (tokenOut log)) (address token) then
    add volume (div (mul (Number_of_string (amountOut log))
                         (Number_of_string (swap_buyPrice log))) (ofZ (10 ^ 18)))
  else volume.

(** the accumulation at the end of [get24hVolume] *)
Definition volumeOf (token : Token) (buyLogs : list BuyTrade)
    (sellLogs : list SellTrade) (swapLogs : list SwapTrade) : Number :=
  let volume := Real 0 in
  let volume :=
    fold_left (fun v log => add v (Number_of_string (buy_ethAmount log))) buyLogs volume in
  let volume :=
    fold_left (fun v log => add v (Number_of_string (sell_ethAmount log))) sellLogs volume in
  fold_left (swapVolume token) swapLogs volume.

Definition get24hVolume (fuel : nat) (token : Token) : M string :=
  safeRead "get24hVolume" "0"
    (let* toBlock := getBlockNumber_bang in
     let* fromBlock := get24hBeforeBlock fuel in
     let currentBlock := Number_of_BigInt fromBlock in
     let targetBlock := Number_of_BigInt toBlock in
     let* (buyLogs, sellLogs, swapLogs) :=
       scanBatches fuel token currentBlock targetBlock [] [] [] in
     ret (Number_toString (volumeOf token buyLogs sellLogs swapLogs))).

Definition getLastExchangeTimestamp (token : Token) : M Number :=
  safeRead "getLastExchangeTimestamp" (Real 0)
    (let* c := this in
     let* data := readContract_bang (poolCall c "pools" [AddressArg (address token)])
                    (fun pc => read_pools pc (contractAddress c) (address token)) in
     ret (match data with
          | Some (_, _, d2) => mul (Number_of_BigInt d2) (ofZ 1000)
          | None => Real 0
          end)).

(** Default pool shape when contract returns no data. *)
Definition buildDefaultPool (token : Token) : M Pool :=
  let reserve := {| tokenReserve := "0"; ethReserve := "0" |} in
  let lpToken := {| lp_address := address token;
                    lp_symbol := Some "LP";
                    lp_name := Some "LP Token";
                    lp_decimals := Some (ofZ 18);
                    totalSupply := "0";
                    balance := "0" |} in
  let* now := Date_now in
  ret {| token := token; reserve := reserve; lpToken := lpToken;
         buyPrice := "0"; sellPrice := "0"; avgPrice := "0"; tokenRatio := "0";
         volume24h := "0"; totalLiquidty := "0";
         apr := Real 0; lastExchangeTs := Real 0; lastUpdated := now |}.

Definition getPoolFeeEventsCount (token : Token) : M Number :=
  safeRead "getPoolFeeEventsCount" (Real 0)
    (let* c := this in
     let* data := readContract_bang
                    (poolCall c "getPoolFeeEventsCount" [AddressArg (address token)])
                    (fun pc => read_getPoolFeeEventsCount pc (contractAddress c) (address token)) in
     ret (match data with Some d => Number_of_BigInt d | None => Real 0 end)).

Definition getPoolFeeEvents (token : Token) (startIndex endIndex : Number)
  : M (list PoolFeesEvent) :=
  safeRead "getPoolFeeEvents" []
    (let* c := this in
     let* pc := publicClient_bang "readContract" in
     let* si := lift (BigInt_of_Number startIndex) in
     let* ei := lift (BigInt_of_Number endIndex) in
     emit (ReadContract (poolCall c "getPoolFeeList"
                           [AddressArg (address token); UintArg si; UintArg ei])) ;;
     let* data := lift (read_getPoolFeeList pc (contractAddress c) (address token) si ei) in
     match data with
     | None => ret []
     | Some items =>
         ret (map (fun item =>
                     {| timestamp := mul (Number_of_BigInt (fst item)) (ofZ 1000);
                        fee := BigInt_toString (snd item) |}) items)
     end).

Definition getYield (feeEvents : list PoolFeesEvent) (totalLiquidity : string)
  : Outcome Number :=
  let totalFees :=
    fold_left (fun t event => add t (Number_of_string (fee event))) feeEvents (Real 0) in
  match last feeEvents, head feeEvents with
  | Some l, Some f =>
      let totalTime :=
        div (sub (timestamp l) (timestamp f)) (mul (mul (ofZ 60) (ofZ 60)) (ofZ 24)) in
      Ok (div totalFees (mul totalTime (Number_of_string totalLiquidity)))
  | _, _ => Throw (TypeError_undefined "timestamp")
  end.

Definition getPool (fuel : nat) (token : Token) (user : Address) : M Pool :=
  let* fallback := buildDefaultPool token in
  safeRead "getPool" fallback
    (let* lpToken := getLPToken token user in
     let* reserve := getReserves token in
     let* buyPrice := getBuyPrice token in
     let* sellPrice := getSellPrice token in
     let* tokenRatio := getTokenRatio token in
     let* volume24h := get24hVolume fuel token in
     let avgPrice := getAvgPrice buyPrice sellPrice in
     let* totalLiquidity := lift (getTotalLiquidity avgPrice reserve) in
     let* feeEventsCount := getPoolFeeEventsCount token in
     let* poolFeesEvents :=
       if gt feeEventsCount (Real 0)
       then getPoolFeeEvents token (Math_max (sub feeEventsCount (ofZ 10)) (Real 0))
                             (sub feeEventsCount (ofZ 1))
       else ret [] in
     let* poolYield :=
       if gt feeEventsCount (Real 0) && negb (Nat.eqb (length poolFeesEvents) 0)
       then lift (getYield poolFeesEvents totalLiquidity)
       else ret (Real 0) in
     let apr := getAPR (Number_toString poolYield) in
     let* lastExchangeTs := getLastExchangeTimestamp token in
     let* now := Date_now in
     ret {| token := token; reserve := reserve; lpToken := lpToken;
            buyPrice := buyPrice; sellPrice := sellPrice; avgPrice := avgPrice;
            tokenRatio := tokenRatio; volume24h := volume24h;
            totalLiquidty := totalLiquidity;
            apr := Number_of_string apr;
            lastExchangeTs := lastExchangeTs; lastUpdated := now |}).

End Client.

(* ================================================================== *)
(** * Vocabulary of the properties                                     *)
(* ================================================================== *)

(** The number whose value is the integer [z]. *)
Definition int (z : Z) : Number := Real (inject_Z z).

(** The state [st] after the external effects [tr]. *)
Definition after (st : State) (tr : list Event) : State :=
  {| self := self st; clock := clock st; events := events st ++ tr |}.

(** The Connection Guard lets this client read. *)
Definition canRead (CONTRACT_ADDRESSES : gmap Z Address) (c : ContractClient) : bool :=
  match CONTRACT_ADDRESSES !! chainId c, publicClient c with
  | Some _, Some _ => true
  | _, _ => false
  end.

(** The log queries of a trace, in order. *)
Definition getLogsOf (tr : list Event) : list (string * Z * Z) :=
  flat_map (fun ev => match ev with
                      | GetLogs n a b => [(n, a, b)]
                      | _ => []
                      end) tr.

(** The contract calls submitted for signing in a trace, in order. *)
Definition writesOf (tr : list Event) : list ContractCall :=
  flat_map (fun ev => match ev with
                      | WriteContract call => [call]
                      | _ => []
                      end) tr.

(** The ledger reads and queries of a trace: everything but the console. *)
Definition networkOf (tr : list Event) : list Event :=
  List.filter (fun ev => match ev with
                    | ConsoleError _ | ConsoleWarn _ | ConsoleLog _ => false
                    | _ => true
                    end) tr.

Definition DAY_MS : Z := 24 * 60 * 60 * 1000.

(** Block [b], stamped [ts] seconds, is within the last 24 hours of [now]
    (milliseconds): the test of [get24hBeforeBlock]. *)
Definition recent (now : Z) (ts : Z -> Z) (b : Z) : Prop :=
  now - ts b * 1000 < DAY_MS.

(** [b] is the boundary block of the search over blocks [0..latest]: the
    blocks below it are not recent, the blocks from it on are. *)
Definition boundaryBlock (now : Z) (ts : Z -> Z) (latest b : Z) : Prop :=
  0 <= b <= latest + 1 /\
  (forall j, 0 <= j < b -> ~ recent now ts j) /\
  (forall j, b <= j <= latest -> recent now ts j).

(** [b] is the lowest block of [0..latest] that is recent. *)
Definition lowestRecentBlock (now : Z) (ts : Z -> Z) (latest b : Z) : Prop :=
  0 <= b <= latest /\ recent now ts b /\
  (forall j, 0 <= j < b -> ~ recent now ts j).

(** The ranges [n] successive batch requests cover, from block [from]:
    a request spans the blocks [start .. start + 999], cut at [to], and
    the next one starts at the block after its last. *)
Fixpoint batchRanges (n : nat) (from to : Z) : list (Z * Z) :=
  match n with
  | O => []
  | S m =>
      let e := Z.min (from + 999) to in
      (from, e) :: batchRanges m (e + 1) to
  end.

(** The number of batch requests for the range [from..to]. *)
Definition batchCount (from to : Z) : nat :=
  if from <? to then Z.to_nat ((to - from + 999) / 1000) else O.

(** The four log queries of one batch. *)
Definition batchQueries (r : Z * Z) : list (string * Z * Z) :=
  [("BuyTrade", fst r, snd r); ("SellTrade", fst r, snd r);
   ("SwapTrade", fst r, snd r); ("SwapTrade", fst r, snd r)].

(** The approval [deposit] submits, and the primary call it submits next. *)
Definition approvalCall (c : ContractClient) (req : DepositRequest) (amount : Z)
  : ContractCall :=
  {| target := address (dep_token req); functionName := "approve";
     args := [AddressArg (contractAddress c); UintArg amount]; value := None |}.

Definition depositCall (c : ContractClient) (req : DepositRequest) (v : Z)
  : ContractCall :=
  {| target := contractAddress c; functionName := "deposit";
     args := [AddressArg (address (dep_token req))]; value := Some v |}.

(** The decimal text of an integer: an optional minus sign and at least
    one digit. *)
Definition isIntegerString (s : string) : bool :=
  match s with
  | String "-" (String c r) => isDigit c && allDigits r
  | String c r => isDigit c && allDigits r
  | EmptyString => false
  end.

(** The total liquidity as the design document defines it, in exact
    arithmetic and in minor units: the token reserve, converted to whole
    units, valued at the average price, plus the ETH reserve. *)
Definition spec_totalLiquidity (avgPrice tokenReserve ethReserve : Z) : Q :=
  (inject_Z avgPrice * (inject_Z tokenReserve / inject_Z (10 ^ 18))
   + inject_Z ethReserve)%Q.

(** The yield as the design document defines it, in exact arithmetic: the
    sum of the fees over the window in days times the total liquidity.
    The window runs from [first] to [last], both in milliseconds. *)
Definition spec_yield (fees : list Z) (first last : Z) (totalLiquidity : Z) : Q :=
  (inject_Z (fold_right Z.add 0%Z fees)
   / ((inject_Z (last - first) / inject_Z DAY_MS) * inject_Z totalLiquidity))%Q.

(** ** A synthetic ledger

    A fixed log set, a block-to-timestamp mapping and the state reads of a
    pool contract, with the read handle that answers from them. *)

Definition inRange (a b n : Z) : bool := (a <=? n) && (n <=? b).

Definition matches (f : option Address) (x : Address) : bool :=
  match f with
  | Some a => String.eqb a x
  | None => true
  end.

Record Ledger : Type := {
  ledger_latest : Z;
  ledger_time : Z -> Z;
  ledger_buys : list BuyTradeLog;
  ledger_sells : list SellTradeLog;
  ledger_swaps : list SwapTradeLog;
  ledger_poolToken : Address -> Outcome (option Address);
  ledger_reserves : Address -> Outcome (option (Z * Z));
  ledger_priceBuy : Address -> Outcome (option Z);
  ledger_priceSell : Address -> Outcome (option Z);
  ledger_fees : Address -> list (Z * Z)
}.

Definition feeSlice (l : list (Z * Z)) (s e : Z) : list (Z * Z) :=
  firstn (Z.to_nat (e - s + 1)) (skipn (Z.to_nat s) l).

Definition syntheticClient (l : Ledger) : PublicClient :=
  {| read_poolToken := fun _ t => ledger_poolToken l t;
     read_reserves := fun _ t => ledger_reserves l t;
     read_priceBuy := fun _ t => ledger_priceBuy l t;
     read_priceSell := fun _ t => ledger_priceSell l t;
     read_tokenPerETHRatio := fun _ _ => Ok (Some 2);
     read_pools := fun _ _ => Ok (Some (0, 0, ledger_time l (ledger_latest l)));
     read_getPoolFeeEventsCount :=
       fun _ t => Ok (Some (Z.of_nat (length (ledger_fees l t))));
     read_getPoolFeeList := fun _ t s e => Ok (Some (feeSlice (ledger_fees l t) s e));
     read_decimals := fun _ => Ok (Some (int 18));
     read_symbol := fun a => Ok (Some ("S-" +:+ a));
     read_name := fun a => Ok (Some ("N-" +:+ a));
     read_totalSupply := fun _ => Ok (Some 1000);
     read_balanceOf := fun _ _ => Ok (Some 10);
     getLogs_BuyTrade := fun _ a b tok trader =>
       Ok (List.filter (fun x => inRange a b (bl_blockNumber x)
                            && matches tok (bl_token x)
                            && matches trader (bl_trader x)) (ledger_buys l));
     getLogs_SellTrade := fun _ a b tok trader =>
       Ok (List.filter (fun x => inRange a b (sl_blockNumber x)
                            && matches tok (sl_token x)
                            && matches trader (sl_trader x)) (ledger_sells l));
     getLogs_SwapTrade := fun _ a b sold bought trader =>
       Ok (List.filter (fun x => inRange a b (wl_blockNumber x)
                            && matches sold (wl_tokenSold x)
                            && matches bought (wl_tokenBought x)
                            && matches trader (wl_trader x)) (ledger_swaps l));
     getBlock := fun b => Ok (ledger_time l b);
     getBlockNumber := Ok (ledger_latest l) |}.

(** ** What the client gets from a synthetic ledger *)

(** The client runs on the client object [c]. *)
Definition onLedger (c : ContractClient) (st : State) : Prop := self st = c.

(** The log set is in block order. *)
Definition blockOrdered {L} (blockNumber : L -> Z) (logs : list L) : Prop :=
  StronglySorted (fun x y => blockNumber x <= blockNumber y) logs.

(** [x] is a log of the blocks [a..b] that passes the filter [P]. *)
Definition inside {L} (bn : L -> Z) (P : L -> bool) (a b : Z) (x : L) : bool :=
  inRange a b (bn x) && P x.

Definition stamp (l : Ledger) (b : Z) : Number :=
  mul (Number_of_BigInt (ledger_time l b)) (ofZ 1000).

Definition metadata (a : Address) : Token :=
  {| address := a; symbol := Some ("S-" +:+ a); name := Some ("N-" +:+ a);
     decimals := Some (int 18) |}.

Definition metadataReads (a : Address) : list Event :=
  [ReadContract (erc20Call a "decimals" []);
   ReadContract (erc20Call a "symbol" []);
   ReadContract (erc20Call a "name" [])].

Definition buysIn (l : Ledger) (tok : Token) (a b : Z) : list BuyTradeLog :=
  List.filter (fun x => inRange a b (bl_blockNumber x)
                        && matches (Some (address tok)) (bl_token x)
                        && matches None (bl_trader x)) (ledger_buys l).

Definition sellsIn (l : Ledger) (tok : Token) (a b : Z) : list SellTradeLog :=
  List.filter (fun x => inRange a b (sl_blockNumber x)
                        && matches (Some (address tok)) (sl_token x)
                        && matches None (sl_trader x)) (ledger_sells l).

Definition swapsSoldIn (l : Ledger) (tok : Token) (a b : Z) : list SwapTradeLog :=
  List.filter (fun x => inRange a b (wl_blockNumber x)
                        && matches (Some (address tok)) (wl_tokenSold x)
                        && matches None (wl_tokenBought x)
                        && matches None (wl_trader x)) (ledger_swaps l).

Definition swapsBoughtIn (l : Ledger) (tok : Token) (a b : Z) : list SwapTradeLog :=
  List.filter (fun x => inRange a b (wl_blockNumber x)
                        && matches None (wl_tokenSold x)
                        && matches (Some (address tok)) (wl_tokenBought x)
                        && matches None (wl_trader x)) (ledger_swaps l).

Definition buyScan (l : Ledger) (tok : Token) (a b : Z) : list BuyTrade :=
  map (fun x => buyTrade x tok (stamp l (bl_blockNumber x))) (buysIn l tok a b).

Definition sellScan (l : Ledger) (tok : Token) (a b : Z) : list SellTrade :=
  map (fun x => sellTrade x tok (stamp l (sl_blockNumber x))) (sellsIn l tok a b).

Definition swapInScan (l : Ledger) (tok : Token) (a b : Z) : list SwapTrade :=
  map (fun x => swapTrade x tok (metadata (wl_tokenBought x)) (stamp l (wl_blockNumber x)))
      (swapsSoldIn l tok a b).

Definition swapOutScan (l : Ledger) (tok : Token) (a b : Z) : list SwapTrade :=
  map (fun x => swapTrade x (metadata (wl_tokenSold x)) tok (stamp l (wl_blockNumber x)))
      (swapsBoughtIn l tok a b).

(** The external effects of the four log fetchers on the range [a..b]. *)
Definition buyTrace (l : Ledger) (tok : Token) (a b : Z) : list Event :=
  GetLogs "BuyTrade" a b
  :: flat_map (fun x => [GetBlock (bl_blockNumber x)]) (buysIn l tok a b).

Definition sellTrace (l : Ledger) (tok : Token) (a b : Z) : list Event :=
  GetLogs "SellTrade" a b
  :: flat_map (fun x => [GetBlock (sl_blockNumber x)]) (sellsIn l tok a b).

Definition swapInTrace (l : Ledger) (tok : Token) (a b : Z) : list Event :=
  GetLogs "SwapTrade" a b ::
  flat_map (fun x => [GetBlock (wl_blockNumber x)]) (swapsSoldIn l tok a b) ++
  flat_map (fun x => metadataReads (wl_tokenBought x)) (swapsSoldIn l tok a b).

Definition swapOutTrace (l : Ledger) (tok : Token) (a b : Z) : list Event :=
  GetLogs "SwapTrade" a b ::
  flat_map (fun x => [GetBlock (wl_blockNumber x)]) (swapsBoughtIn l tok a b) ++
  flat_map (fun x => metadataReads (wl_tokenSold x)) (swapsBoughtIn l tok a b).

(** ** Fixtures *)

Module Fixture.

Definition CONTRACT_ADDRESSES : gmap Z Address :=
  {[ 63 := "0x00000000000000000000000000000000000000c1" ]}.

Definition TKN : Token :=
  {| address := "0x00000000000000000000000000000000000000a1";
     symbol := Some "TKN"; name := Some "Token"; decimals := Some (int 18) |}.

Definition LP_ADDRESS : Address := "0x00000000000000000000000000000000000000b1".
Definition USER : Address := "0x00000000000000000000000000000000000000e1".
Definition OTHER : Address := "0x00000000000000000000000000000000000000a2".

Definition wallet (answer : ContractCall -> Outcome string) (l : Ledger)
  : ContractClient :=
  {| contractAddress := "0x00000000000000000000000000000000000000c1";
     writeContract := answer;
     publicClient := Some (syntheticClient l);
     chainId := 63 |}.

Definition accepting : ContractCall -> Outcome string := fun _ => Ok "0xhash".

(** a wallet in which the user rejects the approval *)
Definition rejectingApproval : ContractCall -> Outcome string :=
  fun call => if String.eqb (functionName call) "approve"
              then Throw (ErrorObject "User rejected the request.")
              else Ok "0xhash".

Definition start (c : ContractClient) (now : Z) : State :=
  {| self := c; clock := now; events := [] |}.

Definition quietLedger (latest : Z) (time : Z -> Z) : Ledger :=
  {| ledger_latest := latest; ledger_time := time;
     ledger_buys := []; ledger_sells := []; ledger_swaps := [];
     ledger_poolToken := fun _ => Ok (Some LP_ADDRESS);
     ledger_reserves := fun _ => Ok (Some (5 * 10 ^ 18, 7 * 10 ^ 18));
     ledger_priceBuy := fun _ => Ok (Some 200);
     ledger_priceSell := fun _ => Ok (Some 100);
     ledger_fees := fun _ => [] |}.

(** a chain whose blocks are all older than 24 hours *)
Definition staleLedger : Ledger := quietLedger 0 (fun _ => 0).
Definition staleNow : Z := 10 ^ 12.

(** a chain of 21 blocks, 12 seconds apart, of which 11..20 are recent *)
Definition steadyTime : Z -> Z := fun b => 1000000 + b * 12.
Definition steadyLedger : Ledger := quietLedger 20 steadyTime.
Definition steadyNow : Z := 1000000000 + 86400000 + 120000.

(** a pool whose [reserves] read comes back empty *)
Definition noReservesLedger : Ledger :=
  {| ledger_latest := 20; ledger_time := steadyTime;
     ledger_buys := []; ledger_sells := []; ledger_swaps := [];
     ledger_poolToken := fun _ => Ok (Some LP_ADDRESS);
     ledger_reserves :=
       fun _ => Throw (ErrorObject "The contract function returned no data (0x).");
     ledger_priceBuy := fun _ => Ok (Some 200);
     ledger_priceSell := fun _ => Ok (Some 100);
     ledger_fees := fun _ => [] |}.

(** a node that fails on the [reserves] read *)
Definition brokenLedger : Ledger :=
  {| ledger_latest := 20; ledger_time := steadyTime;
     ledger_buys := []; ledger_sells := []; ledger_swaps := [];
     ledger_poolToken := fun _ => Ok (Some LP_ADDRESS);
     ledger_reserves := fun _ => Throw (ErrorObject "unknown RPC error");
     ledger_priceBuy := fun _ => Ok (Some 200);
     ledger_priceSell := fun _ => Ok (Some 100);
     ledger_fees := fun _ => [] |}.

(** a pool that is not deployed on this chain *)
Definition noPoolLedger : Ledger :=
  {| ledger_latest := 20; ledger_time := steadyTime;
     ledger_buys := []; ledger_sells := []; ledger_swaps := [];
     ledger_poolToken :=
       fun _ => Throw (ErrorObject "The contract function returned no data (0x).");
     ledger_reserves := fun _ => Ok (Some (0, 0));
     ledger_priceBuy := fun _ => Ok (Some 0);
     ledger_priceSell := fun _ => Ok (Some 0);
     ledger_fees := fun _ => [] |}.

(** two fee events one day apart, as the contract stores them (seconds) *)
Definition feeLedger : Ledger :=
  {| ledger_latest := 20; ledger_time := steadyTime;
     ledger_buys := []; ledger_sells := []; ledger_swaps := [];
     ledger_poolToken := fun _ => Ok (Some LP_ADDRESS);
     ledger_reserves := fun _ => Ok (Some (0, 0));
     ledger_priceBuy := fun _ => Ok (Some 0);
     ledger_priceSell := fun _ => Ok (Some 0);
     ledger_fees := fun _ => [(0, 5); (86400, 5)] |}.

Definition oneDayFees : list PoolFeesEvent :=
  [ {| timestamp := int 0; fee := "5" |};
    {| timestamp := int 86400000; fee := "5" |} ].

(** a swap that buys the token in block 5 and one that sells it in block
    1200, and a purchase in block 1000 *)
Definition swapA : SwapTradeLog :=
  {| wl_blockNumber := 5; wl_tokenSold := OTHER; wl_tokenBought := address TKN;
     wl_trader := USER; wl_amountTokenSold := 10; wl_amountTokenBought := 1;
     wl_tradeSellPrice := 3; wl_updatedSellPrice := 3;
     wl_tradeBuyPrice := 4; wl_updatedBuyPrice := 4 |}.

Definition swapB : SwapTradeLog :=
  {| wl_blockNumber := 1200; wl_tokenSold := address TKN; wl_tokenBought := OTHER;
     wl_trader := USER; wl_amountTokenSold := 2; wl_amountTokenBought := 20;
     wl_tradeSellPrice := 3; wl_updatedSellPrice := 3;
     wl_tradeBuyPrice := 4; wl_updatedBuyPrice := 4 |}.

Definition buyC : BuyTradeLog :=
  {| bl_blockNumber := 1000; bl_token := address TKN; bl_trader := USER;
     bl_amountEther := 7; bl_amountToken := 1; bl_tradeBuyPrice := 7;
     bl_updatedBuyPrice := 7; bl_sellPrice := 6 |}.

Definition tradingLedger : Ledger :=
  {| ledger_latest := 3000; ledger_time := steadyTime;
     ledger_buys := [buyC]; ledger_sells := []; ledger_swaps := [swapA; swapB];
     ledger_poolToken := fun _ => Ok (Some LP_ADDRESS);
     ledger_reserves := fun _ => Ok (Some (5 * 10 ^ 18, 7 * 10 ^ 18));
     ledger_priceBuy := fun _ => Ok (Some 200);
     ledger_priceSell := fun _ => Ok (Some 100);
     ledger_fees := fun _ => [] |}.

End Fixture.

(* ================================================================== *)
(** * The rest of the client                                           *)
(* ================================================================== *)

(** ** Requests and results of the other mutations ([@/types/trades],
    [@/types/pool]), with the fields the client uses *)

Record InitPool : Type := {
  init_token : Address;
  init_tokenAmount : string;
  initialBuyPrice : string;
  initialSellPrice : string;
  init_ethAmount : string
}.

Record InitPoolResult : Type := {
  init_success : bool;
  init_txHash : string;
  init_timestamp : Number;
  init_error : string
}.

Record WithdrawRequest : Type := {
  wd_token : Token;
  wd_lpToken : LiquidityPoolToken;
  lpTokenAmount : string
}.

Record WithdrawResult : Type := {
  wd_success : bool;
  wd_txHash : string;
  wd_timestamp : Number;
  wd_error : string;
  withdrawRequest : WithdrawRequest
}.

Record SwapRequest : Type := {
  sw_tokenIn : Token;
  sw_tokenOut : Token;
  sw_amountIn : string;
  minimumTokenOut : string
}.

Record SwapResult : Type := {
  sw_success : bool;
  sw_txHash : string;
  sw_timestamp : Number;
  sw_error : string;
  swapRequest : SwapRequest
}.

Record BuyRequest : Type := {
  br_token : Token;
  minimumAmountToBuy : string;
  br_amountIn : string
}.

Record BuyResult : Type := {
  br_success : bool;
  br_txHash : string;
  buyRequest : BuyRequest;
  br_amountOut : string;
  br_timestamp : Number
}.

Record SellRequest : Type := {
  sr_token : Token;
  sr_amountIn : string;
  minimumEthAmount : string
}.

Record SellResult : Type := {
  sr_success : bool;
  sr_txHash : string;
  sellRequest : SellRequest;
  sr_amountOut : string;
  sr_timestamp : Number
}.

(** a row of the pool list *)
Record RowPool : Type := {
  row_token : Token;
  row_buyPrice : string;
  row_sellPrice : string;
  row_totalLiquidity : string;
  row_lpToken : option LiquidityPoolToken
}.

(** liquidity events *)
Record Deposit : Type := {
  de_token : Token;
  de_ethAmount : string;
  de_tokenAmount : string;
  lpTokensMinted : string;
  de_timestamp : Number
}.

Record Withdraw : Type := {
  wi_token : Token;
  wi_ethAmount : string;
  wi_tokenAmount : string;
  lpTokensBurnt : string;
  wi_timestamp : Number
}.

Record DepositLog : Type := {
  dl_blockNumber : Z;
  dl_token : Address;
  dl_user : Address;
  dl_amountEther : Z;
  dl_amountToken : Z;
  dl_lpTokensMinted : Z
}.

Record WithdrawLog : Type := {
  vl_blockNumber : Z;
  vl_token : Address;
  vl_user : Address;
  vl_amountEther : Z;
  vl_amountToken : Z;
  vl_lpTokensBurned : Z
}.

(** The answers of a read handle for the contract functions and events
    that [PublicClient] does not list: the pool list, the counters, the
    fee totals, the balances of a user and the liquidity events. *)
Record PoolViews : Type := {
  read_poolUserBalances : Address -> Address -> Address -> Outcome (option (Z * Z));
  read_getPoolList : Address -> Z -> Z -> Outcome (option (list Address));
  read_getUserPools : Address -> Address -> Z -> Z -> Outcome (option (list Address));
  read_getTotalPools : Address -> Outcome (option Z);
  read_getUserTotalPools : Address -> Address -> Outcome (option Z);
  read_totalFees : Address -> Outcome (option Z);
  read_totalPoolFees : Address -> Address -> Outcome (option Z);
  getLogs_Deposit :
    Address -> Z -> Z -> option Address -> option Address ->
    Outcome (list DepositLog);
  getLogs_Withdraw :
    Address -> Z -> Z -> option Address -> option Address ->
    Outcome (list WithdrawLog)
}.

Section ClientRest.

Variable CONTRACT_ADDRESSES : gmap Z Address.

(** what a read handle answers for the functions of [PoolViews] *)
Variable views : PublicClient -> PoolViews.

Definition initializePool (initPool : InitPool) : M InitPoolResult :=
  tryCatch
    (let* now := Date_now in
     let result := {| init_success := true; init_txHash := "";
                      init_timestamp := now; init_error := "" |} in
     let* amount := lift (BigInt (init_tokenAmount initPool)) in
     approveToken (init_token initPool) amount ;;
     let* c := this in
     let* tokenAmount := lift (BigInt (init_tokenAmount initPool)) in
     let* buyPrice := lift (BigInt (initialBuyPrice initPool)) in
     let* sellPrice := lift (BigInt (initialSellPrice initPool)) in
     let* v := lift (BigInt (init_ethAmount initPool)) in
     let* txHash := callWriteContract
       {| target := contractAddress c; functionName := "initializePool";
          args := [AddressArg (init_token initPool); UintArg tokenAmount;
                   UintArg buyPrice; UintArg sellPrice];
          value := Some v |} in
     ret {| init_success := init_success result; init_txHash := txHash;
            init_timestamp := init_timestamp result;
            init_error := init_error result |})
    (fun error =>
       throw (ErrorObject ("Pool initialization failed: " +:+ message_in_template error))).

Definition withdraw (withdrawReq : WithdrawRequest) : M WithdrawResult :=
  tryCatch
    (let* now := Date_now in
     let result := {| wd_success := true; wd_txHash := ""; wd_timestamp := now;
                      wd_error := ""; withdrawRequest := withdrawReq |} in
     let* amount := lift (BigInt (lpTokenAmount withdrawReq)) in
     approveToken (lp_address (wd_lpToken withdrawReq)) amount ;;
     let* c := this in
     let* lpAmount := lift (BigInt (lpTokenAmount withdrawReq)) in
     let* txHash := callWriteContract
       {| target := contractAddress c; functionName := "withdraw";
          args := [AddressArg (address (wd_token withdrawReq)); UintArg lpAmount];
          value := None |} in
     ret {| wd_success := wd_success result; wd_txHash := txHash;
            wd_timestamp := wd_timestamp result; wd_error := wd_error result;
            withdrawRequest := withdrawRequest result |})
    (fun error =>
       throw (ErrorObject ("Withdraw failed: " +:+ message_in_template error))).

Definition swap (swapReq : SwapRequest) : M SwapResult :=
  tryCatch
    (let* now := Date_now in
     let result := {| sw_success := true; sw_txHash := ""; sw_timestamp := now;
                      sw_error := ""; swapRequest := swapReq |} in
     let* amount := lift (BigInt (sw_amountIn swapReq)) in
     approveToken (address (sw_tokenIn swapReq)) amount ;;
     let* c := this in
     let* amountIn := lift (BigInt (sw_amountIn swapReq)) in
     let* minimumOut := lift (BigInt (minimumTokenOut swapReq)) in
     let* txHash := callWriteContract
       {| target := contractAddress c; functionName := "swap";
          args := [AddressArg (address (sw_tokenIn swapReq));
                   AddressArg (address (sw_tokenOut swapReq));
                   UintArg amountIn; UintArg minimumOut];
          value := None |} in
     ret {| sw_success := sw_success result; sw_txHash := txHash;
            sw_timestamp := sw_timestamp result; sw_error := sw_error result;
            swapRequest := swapRequest result |})
    (fun error =>
       throw (ErrorObject ("Swap failed: " +:+ message_in_template error))).

Definition buy (buyReq : BuyRequest) : M BuyResult :=
  tryCatch
    (let* now := Date_now in
     let result := {| br_success := true; br_txHash := ""; buyRequest := buyReq;
                      br_amountOut := ""; br_timestamp := now |} in
     let* c := this in
     let* minimum := lift (BigInt (minimumAmountToBuy buyReq)) in
     let* v := lift (BigInt (br_amountIn buyReq)) in
     let* txHash := callWriteContract
       {| target := contractAddress c; functionName := "buy";
          args := [AddressArg (address (br_token buyReq)); UintArg minimum];
          value := Some v |} in
     ret {| br_success := br_success result; br_txHash := txHash;
            buyRequest := buyRequest result; br_amountOut := br_amountOut result;
            br_timestamp := br_timestamp result |})
    (fun error =>
       throw (ErrorObject ("Buy failed: " +:+ message_in_template error))).

Definition sell (sellReq : SellRequest) : M SellResult :=
  tryCatch
    (let* now := Date_now in
     let result := {| sr_success := true; sr_txHash := ""; sellRequest := sellReq;
                      sr_amountOut := ""; sr_timestamp := now |} in
     let* amount := lift (BigInt (sr_amountIn sellReq)) in
     approveToken (address (sr_token sellReq)) amount ;;
     let* c := this in
     let* amountIn := lift (BigInt (sr_amountIn sellReq)) in
     let* minimumEth := lift (BigInt (minimumEthAmount sellReq)) in
     let* txHash := callWriteContract
       {| target := contractAddress c; functionName := "sell";
          args := [AddressArg (address (sr_token sellReq));
                   UintArg amountIn; UintArg minimumEth];
          value := None |} in
     ret {| sr_success := sr_success result; sr_txHash := txHash;
            sellRequest := sellRequest result; sr_amountOut := sr_amountOut result;
            sr_timestamp := sr_timestamp result |})
    (fun error =>
       throw (ErrorObject ("Sell failed: " +:+ message_in_template error))).

Definition getUserBalance (token : Token) (user : Address) : M Reserve :=
  tryCatch
    (let* c := this in
     let* data :=
       readContract_opt
         (poolCall c "poolUserBalances" [AddressArg (address token); AddressArg user])
         (fun pc => read_poolUserBalances (views pc) (contractAddress c)
                      (address token) user) in
     let* d := defined "0" data in
     ret {| tokenReserve := BigInt_toString (fst d);
            ethReserve := BigInt_toString (snd d) |})
    (fun error =>
       throw (ErrorObject ("Error fetching user reserves: " +:+ message_in_template error))).

Definition depositEvent (log : DepositLog) (tok : Token) (ts : Number) : Deposit :=
  {| de_token := tok;
     de_ethAmount := BigInt_toString (dl_amountEther log);
     de_tokenAmount := BigInt_toString (dl_amountToken log);
     lpTokensMinted := BigInt_toString (dl_lpTokensMinted log);
     de_timestamp := ts |}.

Definition getDepositEventLogs (fromBlock toBlock : Number)
    (token : option Token) (user : option Address) : M (list Deposit) :=
  safeRead CONTRACT_ADDRESSES "getDepositEventLogs" []
    (let* pc := publicClient_bang "getLogs" in
     let* c := this in
     let* fb := lift (BigInt_of_Number fromBlock) in
     let* tb := lift (BigInt_of_Number toBlock) in
     emit (GetLogs "Deposit" fb tb) ;;
     let* logs := lift (getLogs_Deposit (views pc) (contractAddress c) fb tb
                          (option_map address token) user) in
     let* timestamps := timestampsOf dl_blockNumber logs in
     match token with
     | None =>
         let* tokens := tokensOf dl_token logs in
         ret (map (fun x => depositEvent (fst (fst x)) (snd (fst x)) (snd x))
                  (combine (combine logs tokens) timestamps))
     | Some token =>
         ret (map (fun x => depositEvent (fst x) token (snd x)) (combine logs timestamps))
     end).

Definition withdrawEvent (log : WithdrawLog) (tok : Token) (ts : Number) : Withdraw :=
  {| wi_token := tok;
     wi_ethAmount := BigInt_toString (vl_amountEther log);
     wi_tokenAmount := BigInt_toString (vl_amountToken log);
     lpTokensBurnt := BigInt_toString (vl_lpTokensBurned log);
     wi_timestamp := ts |}.

Definition getWithdrawEventLogs (fromBlock toBlock : Number)
    (token : option Token) (user : option Address) : M (list Withdraw) :=
  safeRead CONTRACT_ADDRESSES "getWithdrawEventLogs" []
    (let* pc := publicClient_bang "getLogs" in
     let* c := this in
     let* fb := lift (BigInt_of_Number fromBlock) in
     let* tb := lift (BigInt_of_Number toBlock) in
     emit (GetLogs "Withdraw" fb tb) ;;
     let* logs := lift (getLogs_Withdraw (views pc) (contractAddress c) fb tb
                          (option_map address token) user) in
     let* timestamps := timestampsOf vl_blockNumber logs in
     match token with
     | None =>
         let* tokens := tokensOf vl_token logs in
         ret (map (fun x => withdrawEvent (fst (fst x)) (snd (fst x)) (snd x))
                  (combine (combine logs tokens) timestamps))
     | Some token =>
         ret (map (fun x => withdrawEvent (fst x) token (snd x)) (combine logs timestamps))
     end).

(** the part [getPools] and [getUserPools] share: the tokens of the
    addresses, then their prices, reserves and liquidity *)
Definition rowData (addresses : list Address)
  : M (list Token * list string * list string * list string) :=
  let* tokens := Promise_all (map getToken addresses) in
  let* buyPrices := Promise_all (map (getBuyPrice CONTRACT_ADDRESSES) tokens) in
  let* sellPrices := Promise_all (map (getSellPrice CONTRACT_ADDRESSES) tokens) in
  let* reserves := Promise_all (map (getReserves CONTRACT_ADDRESSES) tokens) in
  let* liquidity :=
    lift (sequenceO
            (map (fun x => getTotalLiquidity (getAvgPrice (fst (fst x)) (snd (fst x)))
                             (snd x))
                 (combine (combine buyPrices sellPrices) reserves))) in
  ret (tokens, buyPrices, sellPrices, liquidity).

Definition rowPool (lp : option LiquidityPoolToken)
    (x : Token * string * string * string) : RowPool :=
  {| row_token := fst (fst (fst x));
     row_buyPrice := snd (fst (fst x));
     row_sellPrice := snd (fst x);
     row_totalLiquidity := snd x;
     row_lpToken := lp |}.

Definition getPools (startIndex offset : Number) : M (list RowPool) :=
  safeRead CONTRACT_ADDRESSES "getPools" []
    (let* c := this in
     let* pc := publicClient_bang "readContract" in
     let* si := lift (BigInt_of_Number startIndex) in
     let* off := lift (BigInt_of_Number offset) in
     emit (ReadContract (poolCall c "getPoolList" [UintArg si; UintArg off])) ;;
     let* data := lift (read_getPoolList (views pc) (contractAddress c) si off) in
     let addresses := match data with Some a => a | None => [] end in
     if Nat.eqb (length addresses) 0 then ret []
     else
       let* (tokens, buyPrices, sellPrices, liquidity) := rowData addresses in
       ret (map (rowPool None)
                (combine (combine (combine tokens buyPrices) sellPrices) liquidity))).

Definition getUserPools (user : Address) (startIndex offset : Number)
  : M (list RowPool) :=
  safeRead CONTRACT_ADDRESSES "getUserPools" []
    (let* c := this in
     let* pc := publicClient_bang "readContract" in
     let* si := lift (BigInt_of_Number startIndex) in
     let* off := lift (BigInt_of_Number offset) in
     emit (ReadContract (poolCall c "getUserPools"
                           [AddressArg user; UintArg si; UintArg off])) ;;
     let* data := lift (read_getUserPools (views pc) (contractAddress c) user si off) in
     let addresses := match data with Some a => a | None => [] end in
     if Nat.eqb (length addresses) 0 then ret []
     else
       let* (tokens, buyPrices, sellPrices, liquidity) := rowData addresses in
       let* lpTokens := Promise_all (map (fun token => getLPToken token user) tokens) in
       ret (map (fun x => rowPool (Some (snd x)) (fst x))
                (combine (combine (combine (combine tokens buyPrices) sellPrices) liquidity)
                         lpTokens))).

(** the shape shared by [getPoolCount] and [getUserPoolCount]: one
    [uint256] read turned into a number, [0] when it is nullish *)
Definition readCount (methodName f : string) (a : list Arg)
    (answer : PublicClient -> Address -> Outcome (option Z)) : M Number :=
  safeRead CONTRACT_ADDRESSES methodName (Real 0)
    (let* c := this in
     let* data := readContract_bang (poolCall c f a)
                    (fun pc => answer pc (contractAddress c)) in
     ret (match data with Some d => Number_of_BigInt d | None => Real 0 end)).

Definition getPoolCount : M Number :=
  readCount "getPoolCount" "getTotalPools" []
    (fun pc => read_getTotalPools (views pc)).

Definition getUserPoolCount (user : Address) : M Number :=
  readCount "getUserPoolCount" "getUserTotalPools" [AddressArg user]
    (fun pc c => read_getUserTotalPools (views pc) c user).

Definition getTotalFees : M string :=
  safeRead CONTRACT_ADDRESSES "getTotalFees" "0"
    (let* c := this in
     let* data := readContract_bang (poolCall c "totalFees" [])
                    (fun pc => read_totalFees (views pc) (contractAddress c)) in
     ret (match data with Some d => BigInt_toString d | None => "0" end)).

Definition getTotalPoolFee (token : Token) : M string :=
  readAmount CONTRACT_ADDRESSES "getTotalPoolFee" "totalPoolFees" token
    (fun pc => read_totalPoolFees (views pc)).

End ClientRest.

(** ** Vocabulary of the further properties *)

(** The allowance request for [amount] of the token at [tok], with the
    pool contract as the spender. *)
Definition approveCall (c : ContractClient) (tok : Address) (amount : Z)
  : ContractCall :=
  {| target := tok; functionName := "approve";
     args := [AddressArg (contractAddress c); UintArg amount]; value := None |}.

Definition initializePoolCall (c : ContractClient) (p : InitPool)
    (tokenAmount buyPrice sellPrice v : Z) : ContractCall :=
  {| target := contractAddress c; functionName := "initializePool";
     args := [AddressArg (init_token p); UintArg tokenAmount;
              UintArg buyPrice; UintArg sellPrice];
     value := Some v |}.

Definition withdrawCall (c : ContractClient) (req : WithdrawRequest) (amount : Z)
  : ContractCall :=
  {| target := contractAddress c; functionName := "withdraw";
     args := [AddressArg (address (wd_token req)); UintArg amount];
     value := None |}.

Definition swapCall (c : ContractClient) (req : SwapRequest) (amountIn minimumOut : Z)
  : ContractCall :=
  {| target := contractAddress c; functionName := "swap";
     args := [AddressArg (address (sw_tokenIn req));
              AddressArg (address (sw_tokenOut req));
              UintArg amountIn; UintArg minimumOut];
     value := None |}.

Definition buyCall (c : ContractClient) (req : BuyRequest) (minimum v : Z)
  : ContractCall :=
  {| target := contractAddress c; functionName := "buy";
     args := [AddressArg (address (br_token req)); UintArg minimum];
     value := Some v |}.

Definition sellCall (c : ContractClient) (req : SellRequest) (amountIn minimumEth : Z)
  : ContractCall :=
  {| target := contractAddress c; functionName := "sell";
     args := [AddressArg (address (sr_token req));
              UintArg amountIn; UintArg minimumEth];
     value := None |}.

(** The fee event [getPoolFeeEvents] makes of an item of the contract's
    list, a pair of a timestamp in seconds and a fee. *)
Definition feeEvent (item : Z * Z) : PoolFeesEvent :=
  {| timestamp := mul (Number_of_BigInt (fst item)) (ofZ 1000);
     fee := BigInt_toString (snd item) |}.

(** The blocks fetched in a trace, in order. *)
Definition blocksFetched (tr : list Event) : list Z :=
  flat_map (fun ev => match ev with
                      | GetBlock b => [b]
                      | _ => []
                      end) tr.

(** What [getToken] returns for the address [a] on the read handle [pc]:
    the token of the three answers, or the first failure among them. *)
Definition tokenOutcome (pc : PublicClient) (a : Address) : Outcome Token :=
  match read_decimals pc a, read_symbol pc a, read_name pc a with
  | Ok d, Ok s, Ok n => Ok {| address := a; symbol := s; name := n; decimals := d |}
  | Ok _, Ok _, Throw e | Ok _, Throw e, _ | Throw e, _, _ =>
      Throw (ErrorObject ("Error fetching token data: " +:+ message_in_template e))
  | _, _, _ => OutOfFuel
  end.

(** A read that answers, and a read that fails with an [Error] that
    [isExpectedReadFailure] accepts. *)
Definition answers {A} (r : Outcome A) : Prop := exists x, r = Ok x.

Definition failsAsExpected {A} (r : Outcome A) : Prop :=
  exists m, r = Throw (ErrorObject m) /\ isExpectedReadFailure (ErrorObject m) = true.

(** ** Further fixtures *)

Module Listing.

(** the answers of a registry that lists [pools], for every user, with
    one deposit in block 7 and no withdrawal *)
Definition registry (pools : list Address) : PublicClient -> PoolViews :=
  fun _ =>
    {| read_poolUserBalances := fun _ _ _ => Ok (Some (3, 4));
       read_getPoolList :=
         fun _ s n => Ok (Some (firstn (Z.to_nat n) (skipn (Z.to_nat s) pools)));
       read_getUserPools :=
         fun _ _ s n => Ok (Some (firstn (Z.to_nat n) (skipn (Z.to_nat s) pools)));
       read_getTotalPools := fun _ => Ok (Some (Z.of_nat (length pools)));
       read_getUserTotalPools := fun _ _ => Ok (Some (Z.of_nat (length pools)));
       read_totalFees := fun _ => Ok (Some 12);
       read_totalPoolFees := fun _ _ => Ok (Some 7);
       getLogs_Deposit :=
         fun _ a b tok user =>
           Ok (List.filter (fun x => inRange a b (dl_blockNumber x)
                                && matches tok (dl_token x)
                                && matches user (dl_user x))
                 [ {| dl_blockNumber := 7;
                      dl_token := "0x00000000000000000000000000000000000000a1";
                      dl_user := "0x00000000000000000000000000000000000000e1";
                      dl_amountEther := 5; dl_amountToken := 50;
                      dl_lpTokensMinted := 9 |} ]);
       getLogs_Withdraw := fun _ _ _ _ _ => Ok [] |}.

(** a node on which every [totalFees] read reverts without data *)
Definition noFees : PublicClient -> PoolViews :=
  fun _ =>
    {| read_poolUserBalances :=
         fun _ _ _ => Throw (ErrorObject "The contract function returned no data (0x).");
       read_getPoolList := fun _ _ _ => Ok None;
       read_getUserPools := fun _ _ _ _ => Ok None;
       read_getTotalPools :=
         fun _ => Throw (ErrorObject "The contract function returned no data (0x).");
       read_getUserTotalPools := fun _ _ => Ok None;
       read_totalFees :=
         fun _ => Throw (ErrorObject "The contract function returned no data (0x).");
       read_totalPoolFees := fun _ _ => Ok None;
       getLogs_Deposit := fun _ _ _ _ _ => Ok [];
       getLogs_Withdraw := fun _ _ _ _ _ => Ok [] |}.

(** a pool contract that has no LP token for any token *)
Definition unlistedLedger : Ledger :=
  {| ledger_latest := 20; ledger_time := Fixture.steadyTime;
     ledger_buys := []; ledger_sells := []; ledger_swaps := [];
     ledger_poolToken := fun _ => Ok None;
     ledger_reserves := fun _ => Ok (Some (0, 0));
     ledger_priceBuy := fun _ => Ok (Some 0);
     ledger_priceSell := fun _ => Ok (Some 0);
     ledger_fees := fun _ => [] |}.

(** the node of [steadyLedger], except that the contract at [bad] does
    not answer [decimals] *)
Definition unreadable (bad : Address) : PublicClient :=
  let pc := syntheticClient Fixture.steadyLedger in
  {| read_poolToken := read_poolToken pc;
     read_reserves := read_reserves pc;
     read_priceBuy := read_priceBuy pc;
     read_priceSell := read_priceSell pc;
     read_tokenPerETHRatio := read_tokenPerETHRatio pc;
     read_pools := read_pools pc;
     read_getPoolFeeEventsCount := read_getPoolFeeEventsCount pc;
     read_getPoolFeeList := read_getPoolFeeList pc;
     read_decimals :=
       fun a => if String.eqb a bad
                then Throw (ErrorObject "The contract function returned no data (0x).")
                else read_decimals pc a;
     read_symbol := read_symbol pc;
     read_name := read_name pc;
     read_totalSupply := read_totalSupply pc;
     read_balanceOf := read_balanceOf pc;
     getLogs_BuyTrade := getLogs_BuyTrade pc;
     getLogs_SellTrade := getLogs_SellTrade pc;
     getLogs_SwapTrade := getLogs_SwapTrade pc;
     getBlock := getBlock pc;
     getBlockNumber := getBlockNumber pc |}.

(** a client on [unreadable bad] *)
Definition onUnreadable (bad : Address) : ContractClient :=
  {| contractAddress := "0x00000000000000000000000000000000000000c1";
     writeContract := Fixture.accepting;
     publicClient := Some (unreadable bad);
     chainId := 63 |}.

(** a pool that holds one wei of ether and no tokens *)
Definition dustLedger : Ledger :=
  {| ledger_latest := 20; ledger_time := Fixture.steadyTime;
     ledger_buys := []; ledger_sells := []; ledger_swaps := [];
     ledger_poolToken := fun _ => Ok (Some Fixture.LP_ADDRESS);
     ledger_reserves := fun _ => Ok (Some (1, 0));
     ledger_priceBuy := fun _ => Ok (Some 200);
     ledger_priceSell := fun _ => Ok (Some 100);
     ledger_fees := fun _ => [] |}.

(** a day with one purchase, of 1000 ether, in block 15 *)
Definition largeBuyLedger : Ledger :=
  {| ledger_latest := 20; ledger_time := Fixture.steadyTime;
     ledger_buys :=
       [ {| bl_blockNumber := 15; bl_token := address Fixture.TKN;
            bl_trader := Fixture.USER;
            bl_amountEther := 1000 * 10 ^ 18; bl_amountToken := 5 * 10 ^ 18;
            bl_tradeBuyPrice := 200; bl_updatedBuyPrice := 200;
            bl_sellPrice := 100 |} ];
     ledger_sells := []; ledger_swaps := [];
     ledger_poolToken := fun _ => Ok (Some Fixture.LP_ADDRESS);
     ledger_reserves := fun _ => Ok (Some (5 * 10 ^ 18, 7 * 10 ^ 18));
     ledger_priceBuy := fun _ => Ok (Some 200);
     ledger_priceSell := fun _ => Ok (Some 101);
     ledger_fees := fun _ => [] |}.

(** a day with one swap, of 3 units of the token at the price 5 * 10^17,
    in block 15 *)
Definition smallSwapLedger : Ledger :=
  {| ledger_latest := 20; ledger_time := Fixture.steadyTime;
     ledger_buys := []; ledger_sells := [];
     ledger_swaps :=
       [ {| wl_blockNumber := 15; wl_tokenSold := address Fixture.TKN;
            wl_tokenBought := Fixture.OTHER; wl_trader := Fixture.USER;
            wl_amountTokenSold := 3; wl_amountTokenBought := 20;
            wl_tradeSellPrice := 5 * 10 ^ 17; wl_updatedSellPrice := 5 * 10 ^ 17;
            wl_tradeBuyPrice := 4; wl_updatedBuyPrice := 4 |} ];
     ledger_poolToken := fun _ => Ok (Some Fixture.LP_ADDRESS);
     ledger_reserves := fun _ => Ok (Some (5 * 10 ^ 18, 7 * 10 ^ 18));
     ledger_priceBuy := fun _ => Ok (Some 200);
     ledger_priceSell := fun _ => Ok (Some 100);
     ledger_fees := fun _ => [] |}.

End Listing.

(* ================================================================== *)
(** * Properties                                                       *)
(* ================================================================== *)

(** a fact about a character that is decided by its eight bits *)
Ltac by_ascii c :=
  destruct c as [[|] [|] [|] [|] [|] [|] [|] [|]]; try discriminate; reflexivity.

(** ** Exact arithmetic on safe integers

    A rational with at most 53 significant bits is its own rounding, so
    the operations of [Number] agree with those of [Z] on the integers
    below 2^53, and halving such an integer is exact. *)

Section NumberFacts.

Lemma rne_exact p d m : 0 < d -> p = m * d -> rne p d = m.
Proof.
  intros Hd ->. unfold rne.
  rewrite Z.mod_mul, Z.div_mul by lia.
  replace (2 * 0) with 0 by lia.
  destruct (Z.compare_spec 0 d); lia.
Qed.

Lemma ilog2_ratio_upper p d a k :
  0 < p -> 0 < d -> 0 < a < 2 ^ 53 -> 0 <= k -> p * 2 ^ k = a * d ->
  ilog2_ratio p d <= 52 - k.
Proof.
  intros Hp Hd Ha Hk Heq. unfold ilog2_ratio.
  pose proof (Z.log2_spec p Hp) as [Hp1 Hp2].
  pose proof (Z.log2_spec d Hd) as [Hd1 Hd2].
  pose proof (Z.log2_nonneg p) as Hlp. pose proof (Z.log2_nonneg d) as Hld.
  set (lp := Z.log2 p) in *. set (ld := Z.log2 d) in *.
  assert (Hg : lp - ld <= 53 - k).
  { assert (2 ^ (lp + k) < 2 ^ (54 + ld)).
    { rewrite Z.pow_add_r by lia. 
      replace (54 + ld) with (53 + Z.succ ld) by lia. rewrite Z.pow_add_r by lia.
      assert (0 < 2 ^ k) by (apply Z.pow_pos_nonneg; lia).
      nia. }
    apply Z.pow_lt_mono_r_iff in H; lia. }
  assert (H2k : 0 < 2 ^ k) by (apply Z.pow_pos_nonneg; lia).
  destruct (Z.eq_dec (lp - ld) (53 - k)) as [E|NE].
  2:{ destruct (if 0 <=? lp - ld then _ else _); lia. }
  rewrite E.
  destruct (Z.leb_spec 0 (53 - k)).
  - assert (p < d * 2 ^ (53 - k)).
    { assert (2 ^ 53 = 2 ^ (53 - k) * 2 ^ k).
      { rewrite <- Z.pow_add_r by lia. f_equal. lia. }
      nia. }
    apply Z.ltb_lt in H0. rewrite H0. lia.
  - assert (p * 2 ^ (- (53 - k)) < d).
    { assert (2 ^ k = 2 ^ (- (53 - k)) * 2 ^ 53).
      { rewrite <- Z.pow_add_r by lia. f_equal. lia. }
      assert (0 < 2 ^ (- (53 - k))) by (apply Z.pow_pos_nonneg; lia).
      nia. }
    apply Z.ltb_lt in H0. rewrite H0. lia.
Qed.

Lemma Qred_inject_Z z : Qred (inject_Z z) = inject_Z z.
Proof.
  apply Qred_identity. unfold inject_Z. simpl. apply Z.gcd_1_r.
Qed.

Lemma pos_pow2 k : 0 <= k -> Zpos (Z.to_pos (2 ^ k)) = 2 ^ k.
Proof. intros. apply Z2Pos.id. apply Z.pow_pos_nonneg; lia. Qed.

Lemma round_mag_exact p d a k :
  0 < p -> 0 < d -> 0 < a < 2 ^ 53 -> 0 <= k <= 1074 -> p * 2 ^ k = a * d ->
  round_mag p d = Some (Qred (a # Z.to_pos (2 ^ k))).
Proof.
  intros Hp Hd Ha Hk Heq.
  pose proof (ilog2_ratio_upper p d a k Hp Hd Ha (proj1 Hk) Heq) as HE.
  unfold round_mag.
  remember (Z.max (ilog2_ratio p d - 52) (-1074)) as e eqn:Ee.
  assert (He : e <= - k) by lia. clear Ee HE.
  assert (H2k : 0 < 2 ^ k) by (apply Z.pow_pos_nonneg; lia).
  assert (Hm : (if 0 <=? e then rne p (d * 2 ^ e) else rne (p * 2 ^ (- e)) d)
               = a * 2 ^ (- e - k)).
  { destruct (Z.leb_spec 0 e).
    - assert (e = 0) by lia. assert (k = 0) by lia. subst k e.
      apply rne_exact; simpl in *; lia.
    - apply rne_exact; [lia|].
      replace (- e) with (k + (- e - k)) at 1 by lia.
      rewrite Z.pow_add_r by lia. nia. }
  rewrite Hm.
  assert (H2e : 0 < 2 ^ (- e - k)) by (apply Z.pow_pos_nonneg; lia).
  replace ((971 <? e) || (e =? 971) && (2 ^ 53 <=? a * 2 ^ (- e - k))) with false.
  2:{ symmetry. apply orb_false_iff. split; [apply Z.ltb_ge; lia|].
      apply andb_false_iff. left. apply Z.eqb_neq. lia. }
  f_equal. unfold pow2Q.
  destruct (Z.leb_spec 0 e).
  - assert (e = 0) by lia. assert (k = 0) by lia. subst k e.
    simpl. rewrite !Z.mul_1_r. symmetry. apply Qred_inject_Z.
  - apply Qred_complete. unfold Qeq. simpl.
    rewrite !pos_pow2 by lia.
    replace (- e) with ((- e - k) + k) at 2 by lia.
    rewrite Z.pow_add_r by lia. ring.
Qed.

Lemma Qnum_Qred_sign q : (Qnum (Qred q) ?= 0) = (Qnum q ?= 0).
Proof.
  pose proof (Qred_correct q) as H. unfold Qeq in H.
  destruct (Qred q) as [n d], q as [n' d']. simpl in *.
  destruct (Z.compare_spec n 0), (Z.compare_spec n' 0); try reflexivity; nia.
Qed.

Lemma round_exact q a k :
  0 < a < 2 ^ 53 -> 0 <= k <= 1074 ->
  (Qabs q == a # Z.to_pos (2 ^ k))%Q -> round q = Real (Qred q).
Proof.
  intros Ha Hk Hq. unfold round.
  assert (Habs : (Qabs (Qred q) == a # Z.to_pos (2 ^ k))%Q).
  { rewrite <- Qred_abs. rewrite Qred_correct. exact Hq. }
  assert (Hred : Qred (a # Z.to_pos (2 ^ k)) = Qabs (Qred q)).
  { rewrite <- Qred_abs. apply Qred_complete. symmetry. exact Hq. }
  destruct (Qred q) as [n d] eqn:Eq. simpl Qnum. simpl Qden.
  unfold Qeq in Habs. simpl in Habs. rewrite pos_pow2 in Habs by lia.
  assert (H2k : 0 < 2 ^ k) by (apply Z.pow_pos_nonneg; lia).
  assert (Hn : n <> 0) by (intros ->; simpl in Habs; nia).
  apply Z.eqb_neq in Hn as Hn'. rewrite Hn'.
  rewrite (round_mag_exact (Z.abs n) (Zpos d) a k); try lia.
  rewrite Hred. simpl.
  replace (Z.abs n =? 0) with false by (symmetry; apply Z.eqb_neq; lia).
  destruct (Z.ltb_spec n 0).
  - f_equal. unfold Qopp. simpl. f_equal. lia.
  - f_equal. f_equal. lia.
Qed.

Lemma round_int q z :
  (q == inject_Z z)%Q -> Z.abs z < 2 ^ 53 -> round q = int z.
Proof.
  intros Hq Hz. destruct (Z.eq_dec z 0) as [->|Hne].
  - unfold round. assert (Qred q = 0%Q) as ->.
    { rewrite (Qred_complete _ _ Hq). reflexivity. }
    reflexivity.
  - rewrite (round_exact q (Z.abs z) 0); try lia.
    + unfold int. f_equal. rewrite (Qred_complete _ _ Hq). apply Qred_inject_Z.
    + rewrite Hq. unfold Qabs, inject_Z. simpl. reflexivity.
Qed.

Lemma round_half q z :
  (q == z # 2)%Q -> Z.abs z < 2 ^ 53 -> z <> 0 -> round q = Real (Qred (z # 2)).
Proof.
  intros Hq Hz Hne.
  rewrite (round_exact q (Z.abs z) 1); try lia.
  - f_equal. apply Qred_complete. exact Hq.
  - rewrite Hq. unfold Qabs. simpl. reflexivity.
Qed.

Lemma ofZ_int z : Z.abs z < 2 ^ 53 -> ofZ z = int z.
Proof. intros. apply round_int; [reflexivity | assumption]. Qed.

Lemma Number_of_BigInt_int z : Z.abs z < 2 ^ 53 -> Number_of_BigInt z = int z.
Proof. apply ofZ_int. Qed.

Lemma add_int a b : Z.abs (a + b) < 2 ^ 53 -> add (int a) (int b) = int (a + b).
Proof.
  intros. unfold add, int. apply round_int; [|assumption].
  rewrite inject_Z_plus. reflexivity.
Qed.

Lemma neg_int a : a <> 0 -> neg (int a) = int (- a).
Proof.
  intros. unfold neg, int. simpl.
  apply Z.eqb_neq in H. rewrite H. reflexivity.
Qed.

Lemma sub_int a b : Z.abs (a - b) < 2 ^ 53 -> sub (int a) (int b) = int (a - b).
Proof.
  intros. unfold sub. destruct (Z.eq_dec b 0) as [->|Hb].
  - simpl. rewrite Z.sub_0_r. reflexivity.
  - rewrite neg_int by assumption. rewrite add_int by (replace (a + - b) with (a - b) by lia; lia).
    f_equal. 
Qed.

Lemma mul_int a b :
  0 <= a -> 0 <= b -> a * b < 2 ^ 53 -> mul (int a) (int b) = int (a * b).
Proof.
  intros Ha Hb H. unfold mul, int. simpl.
  destruct (Z.eqb_spec a 0) as [->|Na].
  { simpl. replace (b <? 0) with false by (symmetry; apply Z.ltb_ge; lia). reflexivity. }
  destruct (Z.eqb_spec b 0) as [->|Nb].
  { simpl. rewrite Z.mul_0_r.
    replace (a <? 0) with false by (symmetry; apply Z.ltb_ge; lia). reflexivity. }
  simpl. apply round_int; [|lia].
  rewrite inject_Z_mult. reflexivity.
Qed.

Lemma lt_int a b : lt (int a) (int b) = (a <? b).
Proof.
  unfold lt, int. simpl. unfold Qcompare. simpl. rewrite !Z.mul_1_r.
  unfold Z.ltb. destruct (a ?= b); reflexivity.
Qed.

Lemma BigInt_of_Number_int z : BigInt_of_Number (int z) = Ok z.
Proof. unfold BigInt_of_Number, int. rewrite Qred_inject_Z. reflexivity. Qed.

Lemma Math_round_half x :
  0 <= x < 2 ^ 53 ->
  Math_round (div (int x) (ofZ 2)) = int ((x + 1) / 2).
Proof.
  intros Hx. rewrite ofZ_int by (simpl; lia).
  destruct (Z.eq_dec x 0) as [->|Hne]; [reflexivity|].
  unfold div, int. simpl isZero.
  replace (x =? 0) with false by (symmetry; apply Z.eqb_neq; lia).
  simpl. rewrite (round_half _ x); try lia.
  2:{ unfold Qdiv, Qmult, Qinv, inject_Z, Qeq. simpl. lia. }
  unfold Math_round.
  assert (Hf : Qfloor (Qred (x # 2) + (1 # 2)) = (x + 1) / 2).
  { rewrite Qred_correct. 
    assert (((x # 2) + (1 # 2) == (x + 1) # 2)%Q) as ->.
    { unfold Qeq, Qplus. simpl. lia. }
    reflexivity. }
  rewrite Hf.
  assert (Hs : (Qnum (Qred (x # 2)) <? 0) = false).
  { apply Z.ltb_ge. pose proof (Qnum_Qred_sign (x # 2)) as H. simpl in H.
    destruct (Z.compare_spec (Qnum (Qred (x # 2))) 0) as [?|Hlt|?]; try lia.
    destruct (Z.compare_spec x 0); try discriminate; lia. }
  rewrite Hs, andb_false_r. reflexivity.
Qed.

Lemma Math_min_int a b : Math_min (int a) (int b) = int (Z.min a b).
Proof.
  unfold Math_min. rewrite !lt_int. 
  destruct (Z.ltb_spec b a).
  - rewrite Z.min_r by lia. reflexivity.
  - destruct (Z.ltb_spec a b).
    + rewrite Z.min_l by lia. reflexivity.
    + assert (a = b) by lia. subst. rewrite Z.min_id. 
      destruct (isNeg (int b)); reflexivity.
Qed.

End NumberFacts.

(** ** The effect monad *)

Lemma after_nil st : after st [] = st.
Proof. destruct st. unfold after. simpl. rewrite app_nil_r. reflexivity. Qed.

Lemma after_after st tr1 tr2 : after (after st tr1) tr2 = after st (tr1 ++ tr2).
Proof. unfold after. simpl. rewrite app_assoc. reflexivity. Qed.

Lemma emit_after ev st : emit ev st = (Ok tt, after st [ev]).
Proof. reflexivity. Qed.

Lemma getLogsOf_app tr1 tr2 : getLogsOf (tr1 ++ tr2) = getLogsOf tr1 ++ getLogsOf tr2.
Proof. unfold getLogsOf. apply flat_map_app. Qed.

Lemma writesOf_app tr1 tr2 : writesOf (tr1 ++ tr2) = writesOf tr1 ++ writesOf tr2.
Proof. unfold writesOf. apply flat_map_app. Qed.

(** ** String matching *)

Lemma toLowerCase_app s t : toLowerCase (s +:+ t) = toLowerCase s +:+ toLowerCase t.
Proof. induction s as [|c s IH]; simpl; [reflexivity | now rewrite IH]. Qed.

Lemma includes_cons c s p : includes s p = true -> includes (String c s) p = true.
Proof.
  intros H. change (includes (String c s) p)
    with (startsWith (String c s) p || includes s p)%bool.
  rewrite H. apply orb_true_r.
Qed.

Lemma includes_prefixed pre s p : includes s p = true -> includes (pre +:+ s) p = true.
Proof.
  intros H. induction pre as [|c pre IH]; simpl String.app; [exact H|].
  now apply includes_cons.
Qed.

(** Wrapping an error message with a prefix, as the [catch] clauses of the
    client do, keeps it an expected read failure. *)
Lemma isExpectedReadFailure_prefixed pre m :
  isExpectedReadFailure (ErrorObject m) = true ->
  isExpectedReadFailure (ErrorObject (pre +:+ m)) = true.
Proof.
  unfold isExpectedReadFailure, getErrorMessage.
  rewrite toLowerCase_app.
  set (l := toLowerCase m). set (q := toLowerCase pre).
  intros H.
  repeat match type of H with
         | (_ || _)%bool = true => apply orb_true_iff in H; destruct H as [H|H]
         end;
  repeat match type of H with
         | (_ && _)%bool = true =>
             let H1 := fresh "H" in apply andb_true_iff in H; destruct H as [H1 H]
         end;
  repeat match type of H with
         | (_ || _)%bool = true => apply orb_true_iff in H; destruct H as [H|H]
         end;
  repeat match goal with
         | K : includes l ?p = true |- _ =>
             apply (includes_prefixed q) in K; rewrite K; clear K
         end;
  simpl; rewrite ?orb_true_r; reflexivity.
Qed.

Section ClientFacts.

Context (CA : gmap Z Address).

(** ** The Connection Guard and the Safe Read Wrapper *)

Lemma canRead_after st tr : canRead CA (self (after st tr)) = canRead CA (self st).
Proof. reflexivity. Qed.

Lemma ensureCanRead_ok st :
  canRead CA (self st) = true -> ensureCanRead CA st = (Ok tt, st).
Proof.
  unfold canRead, ensureCanRead, bind, this. simpl.
  destruct (CA !! chainId (self st)); [|discriminate].
  destruct (publicClient (self st)); [|discriminate]. reflexivity.
Qed.

Lemma safeRead_returns {T} methodName (fallback : T) fn st r st' :
  canRead CA (self st) = true -> fn st = (Ok r, st') ->
  safeRead CA methodName fallback fn st = (Ok r, st').
Proof.
  intros Hg Hfn. unfold safeRead, bind. rewrite (ensureCanRead_ok st Hg).
  unfold tryCatch. rewrite Hfn. reflexivity.
Qed.

Lemma safeRead_fallback {T} methodName (fallback : T) fn st e st' :
  canRead CA (self st) = true -> fn st = (Throw e, st') ->
  isExpectedReadFailure e = true ->
  exists w, safeRead CA methodName fallback fn st = (Ok fallback, after st' [ConsoleWarn w]).
Proof.
  intros Hg Hfn He. unfold safeRead, bind. rewrite (ensureCanRead_ok st Hg).
  unfold tryCatch. rewrite Hfn. unfold this. rewrite He.
  rewrite emit_after. eexists. reflexivity.
Qed.

Lemma safeRead_rethrows {T} methodName (fallback : T) fn st e st' :
  canRead CA (self st) = true -> fn st = (Throw e, st') ->
  isExpectedReadFailure e = false ->
  exists w, safeRead CA methodName fallback fn st = (Throw e, after st' [ConsoleError w]).
Proof.
  intros Hg Hfn He. unfold safeRead, bind. rewrite (ensureCanRead_ok st Hg).
  unfold tryCatch. rewrite Hfn. unfold this. rewrite He.
  rewrite emit_after. eexists. reflexivity.
Qed.

Lemma safeRead_outOfFuel {T} methodName (fallback : T) fn st st' :
  canRead CA (self st) = true -> fn st = (OutOfFuel, st') ->
  safeRead CA methodName fallback fn st = (OutOfFuel, st').
Proof.
  intros Hg Hfn. unfold safeRead, bind. rewrite (ensureCanRead_ok st Hg).
  unfold tryCatch. rewrite Hfn. reflexivity.
Qed.

Lemma publicClient_of_canRead c :
  canRead CA c = true -> exists pc, publicClient c = Some pc.
Proof.
  unfold canRead. destruct (CA !! chainId c); [|discriminate].
  destruct (publicClient c) as [pc|]; [eauto | discriminate].
Qed.

Lemma readContract_bang_some {A} call (answer : PublicClient -> Outcome (option A)) st pc :
  publicClient (self st) = Some pc ->
  readContract_bang call answer st = (answer pc, after st [ReadContract call]).
Proof.
  intros Hpc. unfold readContract_bang, publicClient_bang, bind, this, defined.
  rewrite Hpc. unfold ret. rewrite emit_after. unfold lift.
  destruct (answer pc); reflexivity.
Qed.

Lemma readContract_opt_some {A} call (answer : PublicClient -> Outcome (option A)) st pc :
  publicClient (self st) = Some pc ->
  readContract_opt call answer st = (answer pc, after st [ReadContract call]).
Proof.
  intros Hpc. unfold readContract_opt, bind, this. rewrite Hpc.
  rewrite emit_after. unfold lift. destruct (answer pc); reflexivity.
Qed.

(** What [getReserves] reads, and what it makes of the answer. *)
Lemma getReserves_inner st pc token :
  publicClient (self st) = Some pc ->
  let call := poolCall (self st) "reserves" [AddressArg (address token)] in
  (let* c := this in
   let* data := readContract_bang (poolCall c "reserves" [AddressArg (address token)])
                  (fun pc => read_reserves pc (contractAddress c) (address token)) in
   match data with
   | None => ret {| tokenReserve := "0"; ethReserve := "0" |}
   | Some (d0, d1) =>
       ret {| tokenReserve := BigInt_toString d1; ethReserve := BigInt_toString d0 |}
   end) st
  = (match read_reserves pc (contractAddress (self st)) (address token) with
     | Ok None => Ok {| tokenReserve := "0"; ethReserve := "0" |}
     | Ok (Some (d0, d1)) =>
         Ok {| tokenReserve := BigInt_toString d1; ethReserve := BigInt_toString d0 |}
     | Throw e => Throw e
     | OutOfFuel => OutOfFuel
     end, after st [ReadContract call]).
Proof.
  intros Hpc call. unfold bind at 1. unfold this at 1.
  unfold bind. rewrite (readContract_bang_some _ _ st pc Hpc).
  destruct (read_reserves pc _ _) as [[[d0 d1]|]| |]; reflexivity.
Qed.

(** C1. For every read wrapped by [safeRead] that the Connection Guard
    lets through: if the inner read throws an error that
    [isExpectedReadFailure] recognises, the wrapper returns the fallback
    it was given and does not throw; if the inner read throws any other
    error, the wrapper rethrows that very error.  In particular
    [getReserves] turns an expected failure of the [reserves] read into
    exactly [{tokenReserve: "0", ethReserve: "0"}] and rethrows any other
    failure of it unchanged. *)
Theorem safeRead_fallback_or_rethrow :
  forall (T : Type) (methodName : string) (fallback : T) (fn : M T)
         (st st1 : State) (e : Thrown),
    canRead CA (self st) = true ->
    fn st = (Throw e, st1) ->
    (isExpectedReadFailure e = true ->
       fst (safeRead CA methodName fallback fn st) = Ok fallback) /\
    (isExpectedReadFailure e = false ->
       fst (safeRead CA methodName fallback fn st) = Throw e) /\
    (forall (token : Token) (pc : PublicClient) (e' : Thrown),
       publicClient (self st) = Some pc ->
       read_reserves pc (contractAddress (self st)) (address token) = Throw e' ->
       (isExpectedReadFailure e' = true ->
          fst (getReserves CA token st)
          = Ok {| tokenReserve := "0"; ethReserve := "0" |}) /\
       (isExpectedReadFailure e' = false ->
          fst (getReserves CA token st) = Throw e')).
Proof.
  intros T methodName fallback fn st st1 e Hg Hfn. split; [|split].
  - intros He. destruct (safeRead_fallback methodName fallback fn st e st1 Hg Hfn He)
      as [w ->]. reflexivity.
  - intros He. destruct (safeRead_rethrows methodName fallback fn st e st1 Hg Hfn He)
      as [w ->]. reflexivity.
  - intros tok pc e' Hpc Hread.
    pose proof (getReserves_inner st pc tok Hpc) as Hin. simpl in Hin.
    rewrite Hread in Hin. unfold getReserves. split; intros He.
    + destruct (safeRead_fallback "getReserves"
                  {| tokenReserve := "0"; ethReserve := "0" |} _ st e' _ Hg Hin He)
        as [w ->]. reflexivity.
    + destruct (safeRead_rethrows "getReserves"
                  {| tokenReserve := "0"; ethReserve := "0" |} _ st e' _ Hg Hin He)
        as [w ->]. reflexivity.
Qed.

(** ** Construction *)

(** C8. For every chain identifier that is not in the chain-to-address
    table, constructing the client throws an [Error] whose message is
    [UNSUPPORTED_CHAIN]; the constructor only writes to the console, it
    performs no ledger read and submits no transaction, whatever the chain
    identifier. *)
Theorem constructor_unsupported_chain :
  forall (writeContract : ContractCall -> Outcome string)
         (publicClient : option PublicClient) (chainId : option Z),
    CA !! (match chainId with Some c => c | None => 63 end) = None ->
    fst (constructor CA writeContract publicClient chainId)
    = Throw (ErrorObject UNSUPPORTED_CHAIN) /\
    (forall chainId',
       networkOf (snd (constructor CA writeContract publicClient chainId')) = []).
Proof.
  intros wc pc cid Hnone. split.
  - unfold constructor. rewrite Hnone. reflexivity.
  - clear Hnone. intros cid'. unfold constructor.
    destruct (CA !! _); reflexivity.
Qed.

(** ** Pool instantiation *)

Lemma isPoolInstantiated_eval st pc token data :
  publicClient (self st) = Some pc ->
  read_poolToken pc (contractAddress (self st)) token = Ok data ->
  fst (isPoolInstantiated token st)
  = Ok (match data with
        | Some d => negb (String.eqb d ZERO_ADDRESS)
        | None => true
        end).
Proof.
  intros Hpc Hread. unfold isPoolInstantiated.
  unfold bind at 1. unfold this at 1. unfold bind at 1.
  rewrite (readContract_opt_some _ _ st pc Hpc). rewrite Hread.
  unfold bind. rewrite emit_after.
  destruct data as [d|]; [|reflexivity].
  destruct (String.eqb d ZERO_ADDRESS) eqn:E.
  - apply String.eqb_eq in E. subst d. reflexivity.
  - rewrite andb_false_r. reflexivity.
Qed.

(** C9. For every queried token whose [poolToken] read resolves to an
    address, [isPoolInstantiated] returns [false] if and only if that
    address is the all-zero address, and [true] for any other address. *)
Theorem isPoolInstantiated_iff_nonzero :
  forall (st : State) (pc : PublicClient) (token addr : Address),
    publicClient (self st) = Some pc ->
    read_poolToken pc (contractAddress (self st)) token = Ok (Some addr) ->
    (fst (isPoolInstantiated token st) = Ok false <-> addr = ZERO_ADDRESS) /\
    (fst (isPoolInstantiated token st) = Ok true <-> addr <> ZERO_ADDRESS).
Proof.
  intros st pc token addr Hpc Hread.
  rewrite (isPoolInstantiated_eval st pc token (Some addr) Hpc Hread).
  destruct (String.eqb_spec addr ZERO_ADDRESS) as [E|NE]; simpl; split; split;
    intros H; try congruence; try reflexivity.
Qed.

End ClientFacts.

(** ** Mutations: approve, then write *)

Section DepositFacts.

Lemma approveToken_eval st tok amount :
  let call := {| target := tok; functionName := "approve";
                 args := [AddressArg (contractAddress (self st)); UintArg amount];
                 value := None |} in
  approveToken tok amount st
  = (match writeContract (self st) call with
     | Ok _ => Ok tt
     | Throw e => Throw (ErrorObject ("Token approval failed: " +:+ message_in_template e))
     | OutOfFuel => OutOfFuel
     end, after st [WriteContract call]).
Proof.
  intros call. unfold approveToken, tryCatch, bind, this, callWriteContract, bind, this.
  rewrite emit_after. unfold lift. fold call.
  destruct (writeContract (self st) call); reflexivity.
Qed.

Lemma deposit_eval req st :
  deposit req st
  = match BigInt (tokenAmount req) with
    | Ok amount =>
        match writeContract (self st) (approvalCall (self st) req amount) with
        | Ok _ =>
            match BigInt (ethAmount req) with
            | Ok v =>
                match writeContract (self st) (depositCall (self st) req v) with
                | Ok h =>
                    (Ok {| success := true; depositRequest := req; txHash := h;
                           dep_timestamp := ofZ (clock st); error := "" |},
                     after st [WriteContract (approvalCall (self st) req amount);
                               WriteContract (depositCall (self st) req v)])
                | Throw e =>
                    (Throw (ErrorObject ("Deposit failed: " +:+ message_in_template e)),
                     after st [WriteContract (approvalCall (self st) req amount);
                               WriteContract (depositCall (self st) req v)])
                | OutOfFuel =>
                    (OutOfFuel,
                     after st [WriteContract (approvalCall (self st) req amount);
                               WriteContract (depositCall (self st) req v)])
                end
            | Throw e =>
                (Throw (ErrorObject ("Deposit failed: " +:+ message_in_template e)),
                 after st [WriteContract (approvalCall (self st) req amount)])
            | OutOfFuel =>
                (OutOfFuel, after st [WriteContract (approvalCall (self st) req amount)])
            end
        | Throw e =>
            (Throw (ErrorObject ("Deposit failed: " +:+ "Token approval failed: "
                                 +:+ message_in_template e)),
             after st [WriteContract (approvalCall (self st) req amount)])
        | OutOfFuel =>
            (OutOfFuel, after st [WriteContract (approvalCall (self st) req amount)])
        end
    | Throw e =>
        (Throw (ErrorObject ("Deposit failed: " +:+ message_in_template e)), st)
    | OutOfFuel => (OutOfFuel, st)
    end.
Proof.
  unfold deposit, tryCatch. unfold bind at 1. unfold Date_now at 1.
  unfold bind at 1. unfold lift at 1.
  destruct (BigInt (tokenAmount req)) as [amount|e|]; try reflexivity.
  unfold bind at 1. rewrite approveToken_eval.
  fold (approvalCall (self st) req amount).
  destruct (writeContract (self st) (approvalCall (self st) req amount))
    as [h1|e|]; try reflexivity.
  unfold bind at 1. unfold this at 1. unfold bind at 1. unfold lift at 1.
  destruct (BigInt (ethAmount req)) as [v|e|]; try reflexivity.
  unfold bind at 1. unfold callWriteContract, bind, this.
  rewrite emit_after. unfold lift. rewrite after_after. simpl app.
  change (self (after st _)) with (self st).
  fold (depositCall (self st) req v).
  destruct (writeContract (self st) (depositCall (self st) req v)); reflexivity.
Qed.

(** C7. For every deposit request, if the approval phase ([approveToken])
    throws, then the ['deposit'] contract call is never submitted (the
    approval is the only call handed to the wallet), the client object is
    unchanged, and the caller gets an [Error] whose message starts with
    ["Deposit failed: "] and carries the approval error's message.  There
    is no partial success: whenever [deposit] returns a result, its
    [success] flag is [true] and both the approval and the ['deposit']
    call were accepted; whenever it throws, the error is a deposit
    failure. *)
Theorem deposit_approval_failure :
  forall (req : DepositRequest) (st st1 : State) (amount : Z) (e : Thrown),
    BigInt (tokenAmount req) = Ok amount ->
    approveToken (address (dep_token req)) amount st = (Throw e, st1) ->
    deposit req st
    = (Throw (ErrorObject ("Deposit failed: " +:+ message_in_template e)), st1) /\
    self st1 = self st /\
    events st1 = events st ++ [WriteContract (approvalCall (self st) req amount)] /\
    (forall call, In call (writesOf (events st1)) ->
                  In call (writesOf (events st)) \/ functionName call = "approve") /\
    (forall req' st' r st'',
       deposit req' st' = (Ok r, st'') ->
       success r = true /\
       exists amount' v h,
         writeContract (self st') (approvalCall (self st') req' amount') = Ok h /\
         writeContract (self st') (depositCall (self st') req' v) = Ok (txHash r) /\
         st'' = after st' [WriteContract (approvalCall (self st') req' amount');
                           WriteContract (depositCall (self st') req' v)]) /\
    (forall req' st' e' st'',
       deposit req' st' = (Throw e', st'') ->
       exists m, e' = ErrorObject ("Deposit failed: " +:+ m)).
Proof.
  intros req st st1 amount e Hamount Happrove.
  rewrite approveToken_eval in Happrove.
  fold (approvalCall (self st) req amount) in Happrove.
  assert (Hst1 : st1 = after st [WriteContract (approvalCall (self st) req amount)])
    by (inversion Happrove; reflexivity).
  split; [|split; [|split; [|split; [|split]]]].
  - rewrite deposit_eval, Hamount.
    destruct (writeContract (self st) (approvalCall (self st) req amount))
      as [h|e0|]; inversion Happrove; subst. reflexivity.
  - subst st1. reflexivity.
  - subst st1. reflexivity.
  - subst st1. simpl events. rewrite writesOf_app. intros call Hin.
    apply in_app_or in Hin. destruct Hin as [Hin|Hin]; [now left|right].
    simpl in Hin. destruct Hin as [<-|[]]. reflexivity.
  - intros req' st' r st'' Hdep. rewrite deposit_eval in Hdep.
    destruct (BigInt (tokenAmount req')) as [amount'|?|]; try discriminate.
    destruct (writeContract (self st') (approvalCall (self st') req' amount'))
      as [h|?|] eqn:Hw1; try discriminate.
    destruct (BigInt (ethAmount req')) as [v|?|]; try discriminate.
    destruct (writeContract (self st') (depositCall (self st') req' v))
      as [h2|?|] eqn:Hw2; try discriminate.
    inversion Hdep; subst. split; [reflexivity|].
    exists amount', v, h. repeat split; assumption.
  - intros req' st' e' st'' Hdep. rewrite deposit_eval in Hdep.
    destruct (BigInt (tokenAmount req')) as [amount'|?|]; try discriminate;
      [|inversion Hdep; eauto].
    destruct (writeContract (self st') (approvalCall (self st') req' amount'))
      as [h|?|]; try discriminate; [|inversion Hdep; eauto].
    destruct (BigInt (ethAmount req')) as [v|?|]; try discriminate;
      [|inversion Hdep; eauto].
    destruct (writeContract (self st') (depositCall (self st') req' v))
      as [h2|?|]; try discriminate. inversion Hdep; eauto.
Qed.

End DepositFacts.

(** ** Amounts are decimal integers, derived metrics are doubles *)

(** *** Decimal digits of a bigint *)

Lemma app_cons c (a b : string) : String c a +:+ b = String c (a +:+ b).
Proof. reflexivity. Qed.

Lemma app_nil_l_s (b : string) : "" +:+ b = b.
Proof. reflexivity. Qed.

Lemma app_assoc_s (a b c : string) : (a +:+ b) +:+ c = a +:+ (b +:+ c).
Proof.
  induction a as [|x a IH]; [reflexivity|]. rewrite !app_cons. now rewrite IH.
Qed.

Lemma app_empty_r (a : string) : a +:+ "" = a.
Proof.
  induction a as [|x a IH]; [reflexivity|]. rewrite app_cons. now rewrite IH.
Qed.

Lemma length_app_s (a b : string) :
  String.length (a +:+ b) = (String.length a + String.length b)%nat.
Proof.
  induction a as [|x a IH]; [reflexivity|]. rewrite app_cons. simpl. now rewrite IH.
Qed.

(** the accumulator is a suffix of the result *)
Lemma decimalDigits_acc fuel : forall n acc,
  decimalDigits fuel n acc = decimalDigits fuel n "" +:+ acc.
Proof.
  induction fuel as [|f IH]; intros n acc; [reflexivity|].
  cbn [decimalDigits]. destruct (n <? 10); [reflexivity|].
  rewrite IH. rewrite (IH _ (String _ "")). rewrite app_assoc_s. reflexivity.
Qed.

(** any fuel that covers the digits gives the same text *)
Lemma decimalDigits_fuel f1 : forall f2 n,
  f1 <> O -> f2 <> O ->
  0 <= n < 10 ^ Z.of_nat f1 -> n < 10 ^ Z.of_nat f2 ->
  decimalDigits f1 n "" = decimalDigits f2 n "".
Proof.
  induction f1 as [|f1 IH]; intros f2 n N1 N2 H1 H2; [congruence|].
  destruct f2 as [|f2]; [congruence|].
  cbn [decimalDigits]. destruct (Z.ltb_spec n 10) as [Hs|Hb]; [reflexivity|].
  rewrite decimalDigits_acc. rewrite (decimalDigits_acc f2).
  f_equal. rewrite Nat2Z.inj_succ, Z.pow_succ_r in H1, H2 by lia.
  apply IH.
  - intros ->. simpl in H1. lia.
  - intros ->. simpl in H2. lia.
  - split; [apply Z.div_pos; lia|]. apply Z.div_lt_upper_bound; lia.
  - apply Z.div_lt_upper_bound; lia.
Qed.

Lemma lt_pow10_log2 n : 0 <= n -> n < 10 ^ Z.of_nat (S (Z.to_nat (Z.log2 n))).
Proof.
  intros Hn. rewrite Nat2Z.inj_succ, Z2Nat.id by apply Z.log2_nonneg.
  destruct (Z.eq_dec n 0) as [->|Hne]; [reflexivity|].
  assert (Hlt : n < 2 ^ Z.succ (Z.log2 n)) by (apply Z.log2_spec; lia).
  eapply Z.lt_le_trans; [exact Hlt|].
  apply Z.pow_le_mono_l. pose proof (Z.log2_nonneg n). lia.
Qed.

(** the two equations of the printer: one digit below ten, and above it the
    text of [n / 10] followed by the last digit *)
Lemma natToString_small n : 0 <= n < 10 -> natToString n = String (digitChar n) "".
Proof.
  intros H. unfold natToString. cbn [decimalDigits].
  replace (n <? 10) with true by (symmetry; apply Z.ltb_lt; lia).
  rewrite Z.mod_small by lia. reflexivity.
Qed.

Lemma natToString_step n :
  10 <= n -> natToString n = natToString (n / 10) +:+ String (digitChar (n mod 10)) "".
Proof.
  intros H. unfold natToString at 1. cbn [decimalDigits].
  replace (n <? 10) with false by (symmetry; apply Z.ltb_ge; lia).
  rewrite decimalDigits_acc. f_equal.
  assert (0 <= n / 10) by (apply Z.div_pos; lia).
  assert (Hl : 3 <= Z.log2 n) by (apply Z.log2_le_pow2; simpl; lia).
  unfold natToString. apply decimalDigits_fuel.
  - intros E. apply (f_equal Z.of_nat) in E. rewrite Z2Nat.id in E by lia. simpl in E. lia.
  - discriminate.
  - split; [assumption|].
    assert (Hlt : n < 2 ^ Z.succ (Z.log2 n)) by (apply Z.log2_spec; lia).
    rewrite Z2Nat.id by lia.
    apply Z.div_lt_upper_bound; [lia|].
    eapply Z.lt_le_trans; [exact Hlt|].
    rewrite Z.pow_succ_r by lia.
    assert (2 ^ Z.log2 n <= 10 ^ Z.log2 n) by (apply Z.pow_le_mono_l; lia).
    lia.
  - apply lt_pow10_log2. assumption.
Qed.

(** induction on the decimal digits of a natural number *)
Lemma digits_ind (P : Z -> Prop) :
  (forall n, 0 <= n < 10 -> P n) ->
  (forall n, 10 <= n -> P (n / 10) -> P n) ->
  forall n, 0 <= n -> P n.
Proof.
  intros Hs Hb n Hn.
  assert (H : 0 <= n -> P n); [|exact (H Hn)].
  pattern n. apply Z_lt_induction; [|exact Hn].
  clear n Hn. intros n IH Hn. destruct (Z_lt_ge_dec n 10) as [Hlt|Hge].
  - apply Hs. lia.
  - apply Hb; [lia|]. apply IH.
    + split; [apply Z.div_pos; lia|]. apply Z.div_lt; lia.
    + apply Z.div_pos; lia.
Qed.

Lemma isDigit_digitChar d : 0 <= d < 10 -> isDigit (digitChar d) = true.
Proof.
  intros H. assert (d = 0 \/ d = 1 \/ d = 2 \/ d = 3 \/ d = 4 \/ d = 5 \/ d = 6
                    \/ d = 7 \/ d = 8 \/ d = 9) as Hd by lia.
  repeat (destruct Hd as [->|Hd]; [reflexivity|]). subst. reflexivity.
Qed.

Lemma digitValue_digitChar d : 0 <= d < 10 -> digitValue 10 (digitChar d) = Some d.
Proof.
  intros H. assert (d = 0 \/ d = 1 \/ d = 2 \/ d = 3 \/ d = 4 \/ d = 5 \/ d = 6
                    \/ d = 7 \/ d = 8 \/ d = 9) as Hd by lia.
  repeat (destruct Hd as [->|Hd]; [reflexivity|]). subst. reflexivity.
Qed.

Lemma allDigits_app a b : allDigits (a +:+ b) = allDigits a && allDigits b.
Proof.
  induction a as [|x a IH]; [reflexivity|]. rewrite app_cons. simpl.
  rewrite IH. now rewrite andb_assoc.
Qed.

Lemma allDigits_natToString n : 0 <= n -> allDigits (natToString n) = true.
Proof.
  intros Hn. pattern n. apply digits_ind; [| |exact Hn]; clear n Hn.
  - intros n H. rewrite natToString_small by assumption. cbn [allDigits].
    now rewrite isDigit_digitChar.
  - intros n H IH. rewrite natToString_step by assumption.
    rewrite allDigits_app, IH. cbn [allDigits andb].
    rewrite isDigit_digitChar; [reflexivity|]. apply Z.mod_pos_bound. lia.
Qed.

Lemma natToString_nonempty n : 0 <= n -> exists c r, natToString n = String c r.
Proof.
  intros Hn. pattern n. apply digits_ind; [| |exact Hn]; clear n Hn.
  - intros n H. rewrite natToString_small by assumption. eauto.
  - intros n H [c [r IH]]. rewrite natToString_step, IH by assumption.
    rewrite app_cons. eauto.
Qed.

Lemma isIntegerString_digits s :
  allDigits s = true -> (exists c r, s = String c r) -> isIntegerString s = true.
Proof.
  intros Hd [c [r ->]]. simpl in Hd. apply andb_true_iff in Hd as [Hc Hr].
  unfold isIntegerString.
  destruct (Ascii.eqb_spec c "-") as [->|Hne]; [discriminate|].
  destruct c as [[|] [|] [|] [|] [|] [|] [|] [|]]; try discriminate;
    simpl; rewrite ?Hr; try reflexivity; try (exfalso; apply Hne; reflexivity).
Qed.

Lemma isIntegerString_BigInt_toString z : isIntegerString (BigInt_toString z) = true.
Proof.
  unfold BigInt_toString. destruct (Z.ltb_spec z 0) as [Hneg|Hpos].
  - destruct (natToString_nonempty (- z)) as [c [r E]]; [lia|].
    pose proof (allDigits_natToString (- z) ltac:(lia)) as Hd.
    rewrite E in *. simpl in *. exact Hd.
  - apply isIntegerString_digits.
    + now apply allDigits_natToString.
    + now apply natToString_nonempty.
Qed.

(** *** Reading a digit string back *)

Lemma digitsValue_app a : forall b acc,
  digitsValue 10 acc (a +:+ b)
  = match digitsValue 10 acc a with
    | Some v => digitsValue 10 v b
    | None => None
    end.
Proof.
  induction a as [|c a IH]; intros b acc; [reflexivity|].
  rewrite app_cons. cbn [digitsValue].
  destruct (digitValue 10 c); [apply IH | reflexivity].
Qed.

(** reading the printed digits gives the number back *)
Lemma digitsValue_natToString n :
  0 <= n -> digitsValue 10 0 (natToString n) = Some n.
Proof.
  intros Hn. pattern n. apply digits_ind; [| |exact Hn]; clear n Hn.
  - intros n H. rewrite natToString_small by assumption. cbn [digitsValue].
    rewrite digitValue_digitChar by assumption. reflexivity.
  - intros n H IH. rewrite natToString_step by assumption.
    rewrite digitsValue_app, IH. cbn [digitsValue].
    rewrite digitValue_digitChar by (apply Z.mod_pos_bound; lia).
    f_equal. pose proof (Z.div_mod n 10). lia.
Qed.

Lemma digitsValue_zeros j : forall v,
  digitsValue 10 v (zeros j) = Some (v * 10 ^ Z.of_nat j).
Proof.
  induction j as [|j IH]; intros v.
  - simpl. f_equal. lia.
  - cbn [zeros digitsValue]. change (digitValue 10 "0") with (Some 0).
    cbv iota. rewrite IH. f_equal. rewrite Nat2Z.inj_succ, Z.pow_succ_r by lia. ring.
Qed.

Lemma isDigit_not_space c : isDigit c = true -> isWhiteSpace c = false.
Proof.
  by_ascii c.
Qed.

Lemma trimEnd_digits s : allDigits s = true -> trimEnd s = s.
Proof.
  induction s as [|c s IH]; [reflexivity|]. cbn [allDigits]. intros H.
  apply andb_true_iff in H as [Hc Hs]. cbn [trimEnd]. rewrite (IH Hs).
  destruct s; [|reflexivity]. now rewrite (isDigit_not_space c Hc).
Qed.

Lemma trim_digits s : allDigits s = true -> trim s = s.
Proof.
  intros H. unfold trim. destruct s as [|c s]; [reflexivity|].
  pose proof H as H'. cbn [allDigits] in H'. apply andb_true_iff in H' as [Hc Hs].
  cbn [trimStart]. rewrite (isDigit_not_space c Hc). now apply trimEnd_digits.
Qed.

Lemma radixLiteral_digits s : allDigits s = true -> radixLiteral s = None.
Proof.
  destruct s as [|c [|c' s]]; try reflexivity.
  - destruct c as [[|] [|] [|] [|] [|] [|] [|] [|]]; reflexivity.
  - cbn [allDigits]. intros H. apply andb_true_iff in H as [Hc H].
    apply andb_true_iff in H as [Hc' _]. unfold radixLiteral.
    destruct c as [[|] [|] [|] [|] [|] [|] [|] [|]]; try reflexivity.
    by_ascii c'.
Qed.

Lemma StringToBigInt_digits s v :
  allDigits s = true -> (exists c r, s = String c r) ->
  digitsValue 10 0 s = Some v -> StringToBigInt s = Some v.
Proof.
  intros Hd [c [r ->]] Hv. unfold StringToBigInt.
  rewrite (trim_digits _ Hd), (radixLiteral_digits _ Hd).
  pose proof Hd as Hd'. cbn [allDigits] in Hd'. apply andb_true_iff in Hd' as [Hc _].
  destruct c as [[|] [|] [|] [|] [|] [|] [|] [|]]; try discriminate; exact Hv.
Qed.

(** [BigInt(n.toString())] is [n] *)
Lemma BigInt_natToString n : 0 <= n -> BigInt (natToString n) = Ok n.
Proof.
  intros Hn. unfold BigInt.
  rewrite (StringToBigInt_digits _ n); [reflexivity| | |].
  - now apply allDigits_natToString.
  - now apply natToString_nonempty.
  - now apply digitsValue_natToString.
Qed.

Lemma BigInt_toString_nonneg n : 0 <= n -> BigInt_toString n = natToString n.
Proof.
  intros H. unfold BigInt_toString.
  now replace (n <? 0) with false by (symmetry; apply Z.ltb_ge; lia).
Qed.

Lemma allDigits_zeros j : allDigits (zeros j) = true.
Proof. induction j; [reflexivity|]. simpl. exact IHj. Qed.

Lemma BigInt_natToString_zeros n j :
  0 <= n -> BigInt (natToString n +:+ zeros j) = Ok (n * 10 ^ Z.of_nat j).
Proof.
  intros Hn. unfold BigInt.
  destruct (natToString_nonempty n Hn) as [c [r E]].
  rewrite (StringToBigInt_digits _ (n * 10 ^ Z.of_nat j)); [reflexivity| | |].
  - rewrite allDigits_app, allDigits_natToString, allDigits_zeros by assumption.
    reflexivity.
  - rewrite E, app_cons. eauto.
  - rewrite digitsValue_app, digitsValue_natToString by assumption.
    apply digitsValue_zeros.
Qed.

Lemma natToString_times10 n : 1 <= n -> natToString (n * 10) = natToString n +:+ "0".
Proof.
  intros H. rewrite natToString_step by lia.
  rewrite Z.div_mul, Z.mod_mul by lia. reflexivity.
Qed.

Lemma zeros_snoc j : zeros j +:+ "0" = zeros (S j).
Proof. induction j as [|j IH]; [reflexivity|]. cbn [zeros]. rewrite app_cons, IH. reflexivity. Qed.

(** multiplying by a power of ten appends zeros *)
Lemma natToString_pow10 n j :
  1 <= n -> natToString (n * 10 ^ Z.of_nat j) = natToString n +:+ zeros j.
Proof.
  intros H. induction j as [|j IH].
  - simpl. rewrite Z.mul_1_r, app_empty_r. reflexivity.
  - rewrite Nat2Z.inj_succ, Z.pow_succ_r by lia.
    replace (n * (10 * 10 ^ Z.of_nat j)) with (n * 10 ^ Z.of_nat j * 10) by ring.
    rewrite natToString_times10.
    + rewrite IH, app_assoc_s, zeros_snoc. reflexivity.
    + assert (0 < 10 ^ Z.of_nat j) by (apply Z.pow_pos_nonneg; lia). nia.
Qed.

Lemma length_zeros j : String.length (zeros j) = j.
Proof. induction j; simpl; congruence. Qed.

(** a number in [[10^(k-1), 10^k)] prints with [k] digits *)
Lemma length_natToString n k :
  1 <= k -> 10 ^ (k - 1) <= n < 10 ^ k ->
  Z.of_nat (String.length (natToString n)) = k.
Proof.
  intros Hk Hn. assert (H0 : 0 <= n).
  { assert (0 < 10 ^ (k - 1)) by (apply Z.pow_pos_nonneg; lia). lia. }
  revert k Hk Hn. pattern n. apply digits_ind; [| |exact H0]; clear n H0.
  - intros n H k Hk Hn. rewrite natToString_small by assumption. simpl.
    destruct (Z.eq_dec k 1) as [->|Hne]; [reflexivity|]. exfalso.
    assert (10 ^ 1 <= 10 ^ (k - 1)) by (apply Z.pow_le_mono_r; lia).
    simpl in H0. lia.
  - intros n H IH k Hk Hn. rewrite natToString_step by assumption.
    rewrite length_app_s. cbn [String.length].
    assert (Hk2 : 2 <= k).
    { destruct (Z_lt_ge_dec k 2); [|lia]. assert (k = 1) by lia. subst k.
      simpl in Hn. lia. }
    rewrite Nat2Z.inj_add. rewrite (IH (k - 1)); [simpl; lia|lia|].
    replace (10 ^ k) with (10 * 10 ^ (k - 1)) in Hn
      by (rewrite <- Z.pow_succ_r by lia; f_equal; lia).
    replace (10 ^ (k - 1)) with (10 * 10 ^ (k - 1 - 1)) in Hn at 1
      by (rewrite <- Z.pow_succ_r by lia; f_equal; lia).
    split.
    + apply Z.div_le_lower_bound; lia.
    + apply Z.div_lt_upper_bound; lia.
Qed.

(** *** Unit conversion of whole amounts *)

Lemma substring_0_0 s : substring 0 0 s = "".
Proof. destruct s; reflexivity. Qed.

Lemma substring_prefix a b : substring 0 (String.length a) (a +:+ b) = a.
Proof.
  induction a as [|c a IH].
  - apply substring_0_0.
  - rewrite app_cons. cbn [String.length substring]. now rewrite IH.
Qed.

Lemma substring_all b : substring 0 (String.length b) b = b.
Proof.
  induction b as [|c b IH]; [reflexivity|]. cbn [String.length substring].
  now rewrite IH.
Qed.

Lemma substring_suffix a b :
  substring (String.length a) (String.length b) (a +:+ b) = b.
Proof.
  induction a as [|c a IH].
  - apply substring_all.
  - rewrite app_cons. cbn [String.length substring]. exact IH.
Qed.

Lemma startsWith_minus_digits s :
  allDigits s = true -> startsWith s "-" = false.
Proof.
  destruct s as [|c s]; [reflexivity|]. cbn [allDigits]. intros H.
  apply andb_true_iff in H as [Hc _].
  by_ascii c.
Qed.

Lemma isEmpty_natToString n : 0 <= n -> Viem.isEmpty (natToString n) = false.
Proof. intros H. destruct (natToString_nonempty n H) as [c [r ->]]. reflexivity. Qed.

Lemma padStart_long d s : (d <= String.length s)%nat -> Viem.padStart d s = s.
Proof.
  intros H. unfold Viem.padStart.
  replace (d - String.length s)%nat with 0%nat by lia. apply app_nil_l_s.
Qed.

Lemma slice_prefix a b n :
  String.length b = n -> slice 0 (String.length (a +:+ b) - n) (a +:+ b) = a.
Proof.
  intros <-. unfold slice. rewrite length_app_s.
  replace (String.length a + String.length b - String.length b - 0)%nat
    with (String.length a) by lia.
  apply substring_prefix.
Qed.

Lemma slice_from_suffix a b n :
  String.length b = n -> slice_from (String.length (a +:+ b) - n) (a +:+ b) = b.
Proof.
  intros <-. unfold slice_from. rewrite length_app_s.
  replace (String.length a + String.length b - String.length b)%nat
    with (String.length a) by lia.
  replace (String.length a + String.length b - String.length a)%nat
    with (String.length b) by lia.
  apply substring_suffix.
Qed.

Lemma stripTrailingZeros_zeros d : Viem.stripTrailingZeros (zeros d) = "".
Proof. induction d as [|d IH]; [reflexivity|]. cbn [zeros Viem.stripTrailingZeros]. now rewrite IH. Qed.

(** a value whose text ends in [d] zeros has no fraction *)
Lemma formatUnits_whole value s d :
  BigInt_toString value = s +:+ zeros d -> allDigits s = true ->
  Viem.isEmpty s = false -> Viem.formatUnits value d = s.
Proof.
  intros E Hs Hne. unfold Viem.formatUnits. rewrite E. cbv zeta.
  assert (Hd : allDigits (s +:+ zeros d) = true).
  { rewrite allDigits_app, Hs, allDigits_zeros. reflexivity. }
  rewrite (startsWith_minus_digits _ Hd).
  rewrite padStart_long by (rewrite length_app_s, length_zeros; lia).
  rewrite slice_prefix by apply length_zeros.
  rewrite slice_from_suffix by apply length_zeros.
  rewrite Hne, stripTrailingZeros_zeros.
  cbn [Viem.isEmpty]. rewrite app_empty_r. reflexivity.
Qed.

Lemma formatEther_whole t :
  0 <= t -> Viem.formatEther (t * 10 ^ 18) = natToString t.
Proof.
  intros Ht. destruct (Z.eq_dec t 0) as [->|Hne]; [vm_compute; reflexivity|].
  apply formatUnits_whole.
  - rewrite BigInt_toString_nonneg by lia.
    apply (natToString_pow10 t 18). lia.
  - apply allDigits_natToString; lia.
  - apply isEmpty_natToString; lia.
Qed.

Lemma spanDigits_digits s : allDigits s = true -> spanDigits s = (s, "").
Proof.
  induction s as [|c s IH]; [reflexivity|]. cbn [allDigits]. intros H.
  apply andb_true_iff in H as [Hc Hs]. cbn [spanDigits]. rewrite Hc, (IH Hs).
  reflexivity.
Qed.

Lemma isDigit_not_dot c : isDigit c = true -> Ascii.eqb c "." = false.
Proof.
  by_ascii c.
Qed.

Lemma splitDot_digits s : allDigits s = true -> Viem.splitDot s = (s, None).
Proof.
  induction s as [|c s IH]; [reflexivity|]. cbn [allDigits]. intros H.
  apply andb_true_iff in H as [Hc Hs]. cbn [Viem.splitDot].
  rewrite (isDigit_not_dot c Hc), (IH Hs). reflexivity.
Qed.

Lemma validDecimal_digits s : allDigits s = true -> Viem.validDecimal s = true.
Proof.
  intros H. unfold Viem.validDecimal.
  assert (E : match s with String "-" r => r | _ => s end = s).
  { destruct s as [|c s]; [reflexivity|]. cbn [allDigits] in H.
    apply andb_true_iff in H as [Hc _].
    by_ascii c. }
  rewrite E, (spanDigits_digits s H). reflexivity.
Qed.

(** [parseEther] of a digit string multiplies by 10^18 *)
Lemma parseEther_whole n :
  0 <= n -> Viem.parseEther (natToString n) = Ok (n * 10 ^ 18).
Proof.
  intros Hn. unfold Viem.parseEther, Viem.parseUnits.
  pose proof (allDigits_natToString n Hn) as Hd.
  rewrite (validDecimal_digits _ Hd). cbn [negb].
  rewrite (splitDot_digits _ Hd), (startsWith_minus_digits _ Hd).
  change (Viem.stripTrailingZeros "0") with "".
  cbn [Nat.eqb Nat.ltb Nat.leb String.length].
  unfold Viem.padEnd. cbn [String.length Nat.sub]. rewrite !app_nil_l_s.
  apply (BigInt_natToString_zeros n 18 Hn).
Qed.

(** *** Doubles that are exact: integers scaled by a power of two *)

Lemma round_Qeq q q' : (q == q')%Q -> round q = round q'.
Proof. intros H. unfold round. now rewrite (Qred_complete _ _ H). Qed.

Lemma ilog2_ratio_int p : 0 < p -> ilog2_ratio p 1 = Z.log2 p.
Proof.
  intros Hp. unfold ilog2_ratio. change (Z.log2 1) with 0. rewrite Z.sub_0_r.
  pose proof (Z.log2_nonneg p) as H0. pose proof (Z.log2_spec p Hp) as [H1 _].
  replace (0 <=? Z.log2 p) with true by (symmetry; apply Z.leb_le; lia).
  replace (p <? 1 * 2 ^ Z.log2 p) with false by (symmetry; apply Z.ltb_ge; lia).
  reflexivity.
Qed.

(** an integer [a * 2^j] with [a] below 2^53 is a double *)
Lemma round_mag_scaled a j :
  0 < a < 2 ^ 53 -> 0 <= j <= 971 ->
  round_mag (a * 2 ^ j) 1 = Some (inject_Z (a * 2 ^ j)).
Proof.
  intros Ha Hj. assert (H2j : 0 < 2 ^ j) by (apply Z.pow_pos_nonneg; lia).
  assert (Hp : 0 < a * 2 ^ j) by nia.
  unfold round_mag. rewrite ilog2_ratio_int by assumption.
  assert (Hl : Z.log2 (a * 2 ^ j) < 53 + j).
  { apply Z.log2_lt_pow2; [assumption|]. rewrite Z.pow_add_r by lia. nia. }
  pose proof (Z.log2_nonneg (a * 2 ^ j)) as Hl0.
  remember (Z.max (Z.log2 (a * 2 ^ j) - 52) (-1074)) as e eqn:Ee.
  assert (He : -1074 <= e <= j) by lia. clear Ee Hl Hl0.
  assert (Hm : (if 0 <=? e then rne (a * 2 ^ j) (1 * 2 ^ e)
                else rne (a * 2 ^ j * 2 ^ (- e)) 1)
               = a * 2 ^ (j - e)).
  { destruct (Z.leb_spec 0 e).
    - apply rne_exact; [rewrite Z.mul_1_l; apply Z.pow_pos_nonneg; lia|].
      rewrite Z.mul_1_l, <- Z.mul_assoc, <- Z.pow_add_r by lia.
      f_equal; try (f_equal; lia).
    - apply rne_exact; [lia|].
      rewrite Z.mul_1_r, <- Z.mul_assoc, <- Z.pow_add_r by lia.
      f_equal; try (f_equal; lia). }
  rewrite Hm.
  replace ((971 <? e) || (e =? 971) && (2 ^ 53 <=? a * 2 ^ (j - e))) with false.
  2:{ symmetry. apply orb_false_iff. split; [apply Z.ltb_ge; lia|].
      destruct (Z.eqb_spec e 971) as [->|]; [|reflexivity].
      assert (j = 971) by lia. subst j. rewrite Z.sub_diag, Z.mul_1_r.
      apply Z.leb_gt. lia. }
  f_equal. unfold pow2Q. destruct (Z.leb_spec 0 e).
  - f_equal. rewrite <- Z.mul_assoc, <- Z.pow_add_r by lia. f_equal; try (f_equal; lia).
  - rewrite <- (Qred_inject_Z (a * 2 ^ j)). apply Qred_complete.
    unfold Qeq, inject_Z. cbn [Qnum Qden]. rewrite pos_pow2 by lia.
    rewrite <- !Z.mul_assoc, <- Z.pow_add_r by lia.
    rewrite Z.mul_1_r. f_equal; try (f_equal; lia).
Qed.

Lemma round_scaled q a j :
  0 < a < 2 ^ 53 -> 0 <= j <= 971 -> (q == inject_Z (a * 2 ^ j))%Q ->
  round q = Real (inject_Z (a * 2 ^ j)).
Proof.
  intros Ha Hj Hq. rewrite (round_Qeq _ _ Hq). unfold round.
  rewrite Qred_inject_Z. cbn [Qnum Qden inject_Z].
  assert (H2j : 0 < 2 ^ j) by (apply Z.pow_pos_nonneg; lia).
  assert (Hp : 0 < a * 2 ^ j) by nia.
  replace (a * 2 ^ j =? 0) with false by (symmetry; apply Z.eqb_neq; lia).
  rewrite Z.abs_eq by lia. rewrite round_mag_scaled by assumption.
  cbn [Qnum inject_Z].
  replace (a * 2 ^ j =? 0) with false by (symmetry; apply Z.eqb_neq; lia).
  replace (a * 2 ^ j <? 0) with false by (symmetry; apply Z.ltb_ge; lia).
  reflexivity.
Qed.

(** [Number(s)] for a digit string [s] whose value is a double *)
Lemma Number_of_string_digits s v :
  allDigits s = true -> Viem.isEmpty s = false ->
  digitsValue 10 0 s = Some v ->
  round (inject_Z v) = Real (inject_Z v) ->
  Number_of_string s = Real (inject_Z v).
Proof.
  intros Hd Hne Hv Hr. unfold Number_of_string.
  rewrite (trim_digits _ Hd), (radixLiteral_digits _ Hd).
  assert (E : match s with
              | EmptyString => Real 0
              | String "-" r => signedNumber true r
              | String "+" r => signedNumber false r
              | _ => signedNumber false s
              end = signedNumber false s).
  { destruct s as [|c r]; [discriminate|]. cbn [allDigits] in Hd.
    apply andb_true_iff in Hd as [Hc _].
    by_ascii c. }
  rewrite E. clear E. unfold signedNumber.
  assert (E : String.eqb s "Infinity" = false).
  { destruct s as [|c r]; [discriminate|]. cbn [allDigits] in Hd.
    apply andb_true_iff in Hd as [Hc _].
    by_ascii c. }
  rewrite E. clear E. unfold unsignedDecimal.
  rewrite (spanDigits_digits _ Hd).
  assert (E : (String.length s =? 0)%nat = false).
  { destruct s; [discriminate|reflexivity]. }
  rewrite E. clear E. cbn [andb exponentPart String.length].
  rewrite app_empty_r. unfold decimalValue. rewrite Hv.
  rewrite (round_Qeq _ (inject_Z v)).
  2:{ change (pow10Q (0 - Z.of_nat 0)) with (inject_Z 1). ring. }
  rewrite Hr. cbn [Qnum inject_Z].
  destruct (Z.eqb_spec v 0) as [->|]; reflexivity.
Qed.

Lemma Number_of_string_natToString n :
  0 <= n < 2 ^ 53 -> Number_of_string (natToString n) = int n.
Proof.
  intros Hn. apply Number_of_string_digits.
  - apply allDigits_natToString; lia.
  - apply isEmpty_natToString; lia.
  - apply digitsValue_natToString; lia.
  - apply round_int; [reflexivity|lia].
Qed.

Lemma Number_of_string_scaled a j :
  0 < a < 2 ^ 53 -> 0 <= j <= 971 ->
  Number_of_string (natToString (a * 2 ^ j)) = Real (inject_Z (a * 2 ^ j)).
Proof.
  intros Ha Hj. assert (H2j : 0 < 2 ^ j) by (apply Z.pow_pos_nonneg; lia).
  assert (Hp : 0 < a * 2 ^ j) by nia.
  apply Number_of_string_digits.
  - apply allDigits_natToString; lia.
  - apply isEmpty_natToString; lia.
  - apply digitsValue_natToString; lia.
  - apply round_scaled; [assumption..|reflexivity].
Qed.

(** *** The text of an integer double *)

(** every positive integer lies between two consecutive powers of ten *)
Lemma decimal_order n : 1 <= n -> exists E, 0 <= E /\ 10 ^ E <= n < 10 ^ (E + 1).
Proof.
  intros Hn. assert (H0 : 0 <= n) by lia. revert Hn. pattern n.
  apply digits_ind; [| |exact H0]; clear n H0.
  - intros n H Hn. exists 0. simpl. lia.
  - intros n H IH _. destruct IH as [E [HE [H1 H2]]].
    { assert (10 / 10 <= n / 10) by (apply Z.div_le_mono; lia).
      change (10 / 10) with 1 in *. lia. }
    exists (E + 1). split; [lia|].
    rewrite (Z.pow_add_r 10 (E + 1) 1), (Z.pow_add_r 10 E 1) by lia.
    change (10 ^ 1) with 10. pose proof (Z.div_mod n 10).
    pose proof (Z.mod_pos_bound n 10). rewrite (Z.pow_add_r 10 E 1) in H2 by lia.
    change (10 ^ 1) with 10 in H2. lia.
Qed.

Lemma ilog10_from_int fuel : forall n e E,
  0 <= e <= E -> 10 ^ E <= n < 10 ^ (E + 1) -> E - e < Z.of_nat fuel ->
  ilog10_from fuel n 1 e = E.
Proof.
  induction fuel as [|f IH]; intros n e E He Hn Hf; [simpl in Hf; lia|].
  cbn [ilog10_from].
  assert (Hle : 10 ^ e <= 10 ^ E) by (apply Z.pow_le_mono_r; lia).
  replace (0 <=? e) with true by (symmetry; apply Z.leb_le; lia).
  replace (n <? 1 * 10 ^ e) with false by (symmetry; apply Z.ltb_ge; lia).
  replace (0 <=? e + 1) with true by (symmetry; apply Z.leb_le; lia).
  destruct (Z.eq_dec e E) as [->|Hne].
  - replace (1 * 10 ^ (E + 1) <=? n) with false by (symmetry; apply Z.leb_gt; lia).
    reflexivity.
  - assert (10 ^ (e + 1) <= 10 ^ E) by (apply Z.pow_le_mono_r; lia).
    replace (1 * 10 ^ (e + 1) <=? n) with true by (symmetry; apply Z.leb_le; lia).
    apply IH; lia.
Qed.

Lemma Qfloor_div_int a b : 0 < b -> Qfloor (inject_Z a / inject_Z b) = a / b.
Proof.
  intros Hb. destruct b as [|p|p]; try lia.
  unfold Qdiv, Qinv, Qmult, inject_Z, Qfloor. cbn [Qnum Qden].
  rewrite Z.mul_1_r. reflexivity.
Qed.

(** For an integer [n] below 2^52 with [L] digits, [k] significant digits
    are enough exactly when the other [L - k] digits are zeros: both
    candidates are integers below 2^53, hence exact doubles. *)
Lemma digitsAt_int n L k :
  1 <= n < 2 ^ 52 -> 10 ^ (L - 1) <= n < 10 ^ L -> 1 <= k <= L ->
  digitsAt (inject_Z n) L k
  = if n mod 10 ^ (L - k) =? 0 then Some (n / 10 ^ (L - k), L) else None.
Proof.
  intros Hn HL Hk. unfold digitsAt, pow10Q.
  replace (0 <=? L - k) with true by (symmetry; apply Z.leb_le; lia).
  set (m := 10 ^ (L - k)).
  assert (Hm : 0 < m) by (apply Z.pow_pos_nonneg; lia).
  assert (Hm1 : m <= 10 ^ (L - 1)) by (apply Z.pow_le_mono_r; lia).
  rewrite Qfloor_div_int by assumption.
  pose proof (Z.div_mod n m ltac:(lia)) as Hdm.
  pose proof (Z.mod_pos_bound n m Hm) as Hmod.
  assert (Hlo0 : 0 <= n / m) by (apply Z.div_pos; lia).
  assert (Hlo : round (inject_Z (n / m) * inject_Z m) = int (n / m * m)).
  { apply round_int; [rewrite inject_Z_mult; reflexivity|]. nia. }
  assert (Hhi : round (inject_Z (n / m + 1) * inject_Z m) = int ((n / m + 1) * m)).
  { apply round_int; [rewrite inject_Z_mult; reflexivity|]. nia. }
  rewrite Hlo, Hhi. unfold int, Qeq_bool, inject_Z. cbn [Qnum Qden].
  rewrite !Z.mul_1_r.
  replace ((n / m + 1) * m =? n) with false by (symmetry; apply Z.eqb_neq; nia).
  assert (Hk10 : n / m < 10 ^ k).
  { apply Z.div_lt_upper_bound; [assumption|]. unfold m.
    rewrite <- Z.pow_add_r by lia. replace (L - k + k) with L by lia. lia. }
  destruct (Z.eqb_spec (n / m * m) n) as [E|E].
  - replace (n mod m =? 0) with true by (symmetry; apply Z.eqb_eq; lia).
    replace (n / m =? 10 ^ k) with false by (symmetry; apply Z.eqb_neq; lia).
    reflexivity.
  - replace (n mod m =? 0) with false by (symmetry; apply Z.eqb_neq; lia).
    reflexivity.
Qed.

(** the search stops at some [k'] up to [L] with the digits of [n] without
    its trailing zeros *)
Lemma shortestDigits_int n L fuel : forall k,
  1 <= n < 2 ^ 52 -> 10 ^ (L - 1) <= n < 10 ^ L -> 1 <= k <= L ->
  L - k < Z.of_nat fuel ->
  exists k', (k <= k' <= L) /\ (n mod 10 ^ (L - k') = 0) /\ 
    (shortestDigits fuel (inject_Z n) L k = (n / 10 ^ (L - k'), L)).
Proof.
  induction fuel as [|f IH]; intros k Hn HL Hk Hf; [simpl in Hf; lia|].
  cbn [shortestDigits]. rewrite digitsAt_int by assumption.
  destruct (Z.eqb_spec (n mod 10 ^ (L - k)) 0) as [E|E].
  - exists k. split; [lia|]. split; [exact E|reflexivity].
  - assert (k <> L).
    { intros ->. rewrite Z.sub_diag in E. change (10 ^ 0) with 1 in E.
      rewrite Z.mod_1_r in E. lia. }
    destruct (IH (k + 1)) as [k' [H1 [H2 H3]]]; try assumption; try lia.
    exists k'. split; [lia|]. split; assumption.
Qed.

Lemma positiveToString_int n :
  1 <= n < 2 ^ 52 -> positiveToString (inject_Z n) = natToString n.
Proof.
  intros Hn. destruct (decimal_order n) as [E [HE HnE]]; [lia|].
  assert (HE16 : E < 16).
  { apply (Z.pow_lt_mono_r_iff 10); [lia|lia|].
    change (10 ^ 16) with 10000000000000000. change (2 ^ 52) with 4503599627370496 in Hn.
    lia. }
  unfold positiveToString. rewrite Qred_inject_Z. cbn [Qnum Qden inject_Z].
  unfold ilog10_ratio. rewrite (ilog10_from_int 400 n 0 E) by (simpl; lia).
  destruct (shortestDigits_int n (E + 1) 17 1) as [k [Hk [Hmod Hs]]];
    try lia.
  { replace (E + 1 - 1) with E by lia. assumption. }
  rewrite Hs.
  set (m := 10 ^ (E + 1 - k)) in *.
  assert (Hm : 0 < m) by (apply Z.pow_pos_nonneg; lia).
  pose proof (Z.div_mod n m ltac:(lia)) as Hdm.
  assert (Hs1 : 10 ^ (k - 1) <= n / m < 10 ^ k).
  { split.
    - apply Z.div_le_lower_bound; [assumption|]. unfold m.
      rewrite <- Z.pow_add_r by lia. replace (E + 1 - k + (k - 1)) with E by lia. lia.
    - apply Z.div_lt_upper_bound; [assumption|]. unfold m.
      rewrite <- Z.pow_add_r by lia. replace (E + 1 - k + k) with (E + 1) by lia. lia. }
  assert (Hpos : 1 <= n / m).
  { assert (0 < 10 ^ (k - 1)) by (apply Z.pow_pos_nonneg; lia). lia. }
  rewrite BigInt_toString_nonneg by lia.
  rewrite (length_natToString (n / m) k) by (try assumption; lia).
  replace (k <=? E + 1) with true by (symmetry; apply Z.leb_le; lia).
  replace (E + 1 <=? 21) with true by (symmetry; apply Z.leb_le; lia).
  cbn [andb]. rewrite <- natToString_pow10 by assumption.
  f_equal. rewrite Z2Nat.id by lia. fold m. lia.
Qed.

(** [String(n)] for an integer double below 2^52 is its decimal text *)
Lemma Number_toString_int n :
  0 <= n < 2 ^ 52 -> Number_toString (int n) = natToString n.
Proof.
  intros Hn. destruct (Z.eq_dec n 0) as [->|Hne]; [reflexivity|].
  unfold Number_toString, int. cbn [Qnum inject_Z].
  replace (n =? 0) with false by (symmetry; apply Z.eqb_neq; lia).
  replace (n <? 0) with false by (symmetry; apply Z.ltb_ge; lia).
  change (n # 1) with (inject_Z n). apply positiveToString_int. lia.
Qed.

(** *** Whole-ether amounts in [getTotalLiquidity] *)

Lemma ether_scaled a : a * 10 ^ 18 = a * 5 ^ 18 * 2 ^ 18.
Proof. change (10 ^ 18) with (5 ^ 18 * 2 ^ 18). ring. Qed.

Lemma Number_of_string_ether a :
  0 <= a -> a * 5 ^ 18 < 2 ^ 53 ->
  Number_of_string (natToString (a * 10 ^ 18)) = Real (inject_Z (a * 10 ^ 18)).
Proof.
  intros Ha Hb. destruct (Z.eq_dec a 0) as [->|Hne]; [reflexivity|].
  rewrite ether_scaled. apply Number_of_string_scaled; lia.
Qed.

Lemma ofZ_ether : ofZ (10 ^ 18) = Real (inject_Z (10 ^ 18)).
Proof.
  unfold ofZ. change (10 ^ 18) with (5 ^ 18 * 2 ^ 18).
  apply round_scaled; [lia|lia|reflexivity].
Qed.

(** [a * 10^18 * t / 1e18] is computed exactly when [a * t * 5^18] is below
    2^53 *)
Lemma mul_div_ether a t :
  0 <= a -> 0 <= t -> a * t * 5 ^ 18 < 2 ^ 53 ->
  div (mul (Real (inject_Z (a * 10 ^ 18))) (int t)) (ofZ (10 ^ 18)) = int (a * t).
Proof.
  intros Ha Ht Hb. rewrite ofZ_ether.
  assert (H10 : 0 < 10 ^ 18) by lia.
  destruct (Z.eq_dec a 0) as [->|Na].
  { unfold mul, int. cbn [isZero Qnum inject_Z Z.mul Z.eqb orb isNeg Z.ltb Z.compare xorb].
    replace (t <? 0) with false by (symmetry; apply Z.ltb_ge; lia). reflexivity. }
  destruct (Z.eq_dec t 0) as [->|Nt].
  { unfold mul, int. cbn [isZero Qnum inject_Z isNeg].
    replace (a * 10 ^ 18 =? 0) with false by (symmetry; apply Z.eqb_neq; nia).
    replace (a * 10 ^ 18 <? 0) with false by (symmetry; apply Z.ltb_ge; nia).
    rewrite Z.mul_0_r. reflexivity. }
  assert (Hm : mul (Real (inject_Z (a * 10 ^ 18))) (int t)
               = Real (inject_Z (a * t * 10 ^ 18))).
  { unfold mul, int. cbn [isZero Qnum inject_Z Js.value].
    replace (a * 10 ^ 18 =? 0) with false by (symmetry; apply Z.eqb_neq; nia).
    replace (t =? 0) with false by (symmetry; apply Z.eqb_neq; lia).
    cbn [orb]. rewrite (ether_scaled (a * t)).
    apply round_scaled; [nia|lia|].
    rewrite <- ether_scaled. change (a * 10 ^ 18 # 1) with (inject_Z (a * 10 ^ 18)).
    change (t # 1) with (inject_Z t). rewrite <- inject_Z_mult.
    apply inject_Z_injective. ring. }
  rewrite Hm. unfold div. cbn [isZero Qnum inject_Z Js.value].
  replace (10 ^ 18 =? 0) with false by reflexivity.
  replace (a * t * 10 ^ 18 =? 0) with false by (symmetry; apply Z.eqb_neq; nia).
  apply round_int.
  - change (a * t * 10 ^ 18 # 1) with (inject_Z (a * t * 10 ^ 18)).
    change (10 ^ 18 # 1) with (inject_Z (10 ^ 18)).
    rewrite inject_Z_mult. field. intros H. vm_compute in H. discriminate.
  - assert (1 <= 5 ^ 18) by lia. nia.
Qed.

Lemma getTotalLiquidity_integer avg r s :
  getTotalLiquidity avg r = Ok s -> isIntegerString s = true.
Proof.
  unfold getTotalLiquidity, Viem.bindO. intros H.
  destruct (BigInt (tokenReserve r)); try discriminate.
  destruct (BigInt (ethReserve r)); try discriminate.
  destruct (Viem.parseEther _); try discriminate.
  inversion H. apply isIntegerString_BigInt_toString.
Qed.

Section AmountFacts.

Context (CA : gmap Z Address).

Lemma safeRead_Ok_inv {T} methodName (fallback : T) fn st r st' :
  safeRead CA methodName fallback fn st = (Ok r, st') ->
  r = fallback \/ exists st1, fn st = (Ok r, st1).
Proof.
  unfold safeRead, bind, ensureCanRead, bind, this.
  destruct (CA !! chainId (self st)).
  2:{ rewrite emit_after. unfold throw. discriminate. }
  destruct (publicClient (self st)).
  2:{ rewrite emit_after. unfold throw. discriminate. }
  unfold ret, tryCatch.
  destruct (fn st) as [[r0|e|] st1] eqn:Hfn.
  - intros H. inversion H; subst. right. eauto.
  - destruct (isExpectedReadFailure e).
    + rewrite emit_after. unfold ret. intros H. inversion H. now left.
    + rewrite emit_after. unfold throw. discriminate.
  - discriminate.
Qed.

Lemma getReserves_integer tok st r st' :
  getReserves CA tok st = (Ok r, st') ->
  isIntegerString (tokenReserve r) = true /\ isIntegerString (ethReserve r) = true.
Proof.
  intros H. apply safeRead_Ok_inv in H. destruct H as [->|[st1 H]]; [now split|].
  unfold bind, this, readContract_bang, publicClient_bang, bind, this, defined in H.
  destruct (publicClient (self st)) as [pc|]; [|discriminate].
  unfold ret in H. rewrite emit_after in H. unfold lift in H.
  destruct (read_reserves pc _ _) as [[[d0 d1]|]| |]; try discriminate;
    inversion H; simpl; split;
    (apply isIntegerString_BigInt_toString || reflexivity).
Qed.

Lemma readAmount_integer methodName f tok answer st s st' :
  readAmount CA methodName f tok answer st = (Ok s, st') ->
  isIntegerString s = true.
Proof.
  intros H. apply safeRead_Ok_inv in H. destruct H as [->|[st1 H]]; [reflexivity|].
  unfold bind, this, readContract_bang, publicClient_bang, bind, this, defined in H.
  destruct (publicClient (self st)) as [pc|]; [|discriminate].
  unfold ret in H. rewrite emit_after in H. unfold lift in H.
  destruct (answer pc _ _) as [[d|]| |]; try discriminate;
    inversion H; (apply isIntegerString_BigInt_toString || reflexivity).
Qed.

Lemma getPoolFeeEvents_integer tok a b st l st' :
  getPoolFeeEvents CA tok a b st = (Ok l, st') ->
  Forall (fun ev => isIntegerString (fee ev) = true) l.
Proof.
  intros H. apply safeRead_Ok_inv in H. destruct H as [->|[st1 H]]; [constructor|].
  unfold bind, this, publicClient_bang, bind, this, defined, lift in H.
  destruct (publicClient (self st)) as [pc|]; [|discriminate].
  unfold ret in H.
  destruct (BigInt_of_Number a); try discriminate.
  destruct (BigInt_of_Number b); try discriminate.
  rewrite emit_after in H.
  destruct (read_getPoolFeeList pc _ _ _ _) as [[items|]| |]; try discriminate;
    inversion H; [|constructor].
  apply List.Forall_forall. intros ev Hin. apply in_map_iff in Hin.
  destruct Hin as [item [<- _]]. simpl. apply isIntegerString_BigInt_toString.
Qed.

End AmountFacts.

Lemma bind_Ok {A B} (m : M A) (f : A -> M B) st a st' :
  m st = (Ok a, st') -> bind m f st = f a st'.
Proof. intros H. unfold bind. rewrite H. reflexivity. Qed.

Lemma getBlockTimestamp_eval st pc b t :
  publicClient (self st) = Some pc -> getBlock pc b = Ok t ->
  getBlockTimestamp b st
  = (Ok (mul (Number_of_BigInt t) (ofZ 1000)), after st [GetBlock b]).
Proof.
  intros Hpc Hb. unfold getBlockTimestamp, tryCatch, bind, this.
  rewrite Hpc, emit_after. unfold lift. rewrite Hb. reflexivity.
Qed.

(** ** The block-for-timestamp binary search *)

Section Search.

Variables (pc : PublicClient) (latest now : Z) (ts : Z -> Z).
Hypothesis Hlatest : 0 <= latest < 2 ^ 52.
Hypothesis Hblocks : forall b, 0 <= b <= latest -> getBlock pc b = Ok (ts b).
Hypothesis Hts : forall b, 0 <= b <= latest -> 0 <= ts b /\ ts b * 1000 < 2 ^ 53.
Hypothesis Hnow : 0 <= now < 2 ^ 53.
Hypothesis Hmono : forall i j, 0 <= i <= j -> j <= latest -> ts i <= ts j.

Lemma recent_upward i j :
  0 <= i <= j -> j <= latest -> recent now ts i -> recent now ts j.
Proof.
  unfold recent. intros Hij Hj Hi. pose proof (Hmono i j Hij Hj). lia.
Qed.

Lemma get24hBeforeBlock_loop_spec fuel :
  forall low high st,
    publicClient (self st) = Some pc -> clock st = now ->
    0 <= low -> high <= latest -> low <= high + 1 ->
    (Z.to_nat (high - low + 1) < fuel)%nat ->
    (forall j, 0 <= j < low -> ~ recent now ts j) ->
    (forall j, high < j <= latest -> recent now ts j) ->
    exists b tr,
      get24hBeforeBlock_loop fuel low high st = (Ok b, after st tr) /\
      boundaryBlock now ts latest b.
Proof.
  induction fuel as [|fuel IH]; intros low high st Hpc Hclock Hlow Hhigh Hle Hfuel Hbelow Habove.
  - lia.
  - simpl get24hBeforeBlock_loop.
    destruct (Z.leb_spec low high) as [Hlh|Hlh].
    2:{ exists low, []. rewrite after_nil. split; [reflexivity|].
        assert (low = high + 1) by lia. subst low.
        repeat split; try lia; auto. intros j Hj. apply Habove. lia. }
    assert (H2 : 2 ^ 52 + 2 ^ 52 = 2 ^ 53) by reflexivity.
    rewrite Number_of_BigInt_int by lia.
    rewrite Math_round_half by lia.
    set (mid := (low + high + 1) / 2).
    assert (Hmid : low <= mid <= high).
    { unfold mid. split.
      - apply Z.div_le_lower_bound; lia.
      - assert ((low + high + 1) / 2 < high + 1)
          by (apply Z.div_lt_upper_bound; lia).
        lia. }
    unfold bind at 1. unfold lift at 1. rewrite BigInt_of_Number_int.
    erewrite bind_Ok;
      [|apply (getBlockTimestamp_eval st pc mid (ts mid) Hpc); apply Hblocks; lia].
    unfold bind at 1. unfold Date_now at 1.
    change (clock (after st [GetBlock mid])) with (clock st). rewrite Hclock.
    destruct (Hts mid) as [Hts0 Hts1]; [lia|].
    rewrite (ofZ_int now) by lia.
    rewrite Number_of_BigInt_int by lia.
    rewrite (ofZ_int 1000) by (simpl; lia).
    rewrite mul_int by lia.
    rewrite sub_int by lia.
    rewrite (ofZ_int (24 * 60 * 60 * 1000)) by (simpl; lia).
    rewrite lt_int.
    destruct (Z.ltb_spec (now - ts mid * 1000) (24 * 60 * 60 * 1000)) as [Hr|Hr].
    + destruct (IH low (mid - 1) (after st [GetBlock mid])) as [b [tr [Heq Hb]]];
        try assumption; try lia.
      * intros j Hj. apply (recent_upward mid j); [lia|lia|exact Hr].
      * exists b, ([GetBlock mid] ++ tr). rewrite <- after_after. split; assumption.
    + destruct (IH (mid + 1) high (after st [GetBlock mid])) as [b [tr [Heq Hb]]];
        try assumption; try lia.
      * intros j Hj Hrec.
        destruct (Z.lt_ge_cases j low) as [Hjl|Hjl]; [apply (Hbelow j); [lia|assumption]|].
        assert (recent now ts mid) by (apply (recent_upward j mid); [lia|lia|exact Hrec]).
        unfold recent, DAY_MS in H. lia.
      * exists b, ([GetBlock mid] ++ tr). rewrite <- after_after. split; assumption.
Qed.

End Search.

Lemma getBlockNumber_bang_eval st pc :
  publicClient (self st) = Some pc ->
  getBlockNumber_bang st = (getBlockNumber pc, after st [GetBlockNumber]).
Proof.
  intros Hpc. unfold getBlockNumber_bang, publicClient_bang, bind, this, defined.
  rewrite Hpc. unfold ret. rewrite emit_after. unfold lift.
  destruct (getBlockNumber pc); reflexivity.
Qed.

Lemma boundaryBlock_lowest now ts latest b :
  boundaryBlock now ts latest b ->
  (exists j, 0 <= j <= latest /\ recent now ts j) ->
  lowestRecentBlock now ts latest b.
Proof.
  intros [Hb [Hlow Hhigh]] [j [Hj Hr]].
  assert (b <= j) by (destruct (Z.le_gt_cases b j); [assumption|]; exfalso; apply (Hlow j); [lia|assumption]).
  repeat split; try lia.
  - apply Hhigh. lia.
  - exact Hlow.
Qed.

(** C2, amended.  For every block-to-timestamp mapping that is
    non-decreasing on the blocks [0..latestBlock], with block numbers and
    millisecond timestamps in the range where [Number] is exact
    (latestBlock below 2^52, times below 2^53), and every current time,
    [get24hBeforeBlock] terminates and returns the boundary block: the
    lowest block of [0..latestBlock] whose timestamp is strictly within
    the last 24 hours of now when there is one (so 0 when every block is
    that recent), and [latestBlock + 1] when no block is that recent. *)
Theorem get24hBeforeBlock_finds_boundary :
  forall (st : State) (pc : PublicClient) (latest : Z) (ts : Z -> Z) (fuel : nat),
    publicClient (self st) = Some pc ->
    getBlockNumber pc = Ok latest ->
    (forall b, 0 <= b <= latest -> getBlock pc b = Ok (ts b)) ->
    0 <= latest < 2 ^ 52 ->
    (forall b, 0 <= b <= latest -> 0 <= ts b /\ ts b * 1000 < 2 ^ 53) ->
    0 <= clock st < 2 ^ 53 ->
    (forall i j, 0 <= i <= j -> j <= latest -> ts i <= ts j) ->
    (Z.to_nat latest + 1 < fuel)%nat ->
    exists b,
      fst (get24hBeforeBlock fuel st) = Ok b /\
      boundaryBlock (clock st) ts latest b /\
      ((exists j, 0 <= j <= latest /\ recent (clock st) ts j) ->
         lowestRecentBlock (clock st) ts latest b) /\
      ((forall j, 0 <= j <= latest -> recent (clock st) ts j) -> b = 0) /\
      ((forall j, 0 <= j <= latest -> ~ recent (clock st) ts j) -> b = latest + 1).
Proof.
  intros st pc latest ts fuel Hpc Hnum Hblocks Hlatest Hts Hnow Hmono Hfuel.
  unfold get24hBeforeBlock.
  erewrite bind_Ok; [|rewrite (getBlockNumber_bang_eval st pc Hpc), Hnum; reflexivity].
  destruct (get24hBeforeBlock_loop_spec pc latest (clock st) ts Hlatest Hblocks Hts
              Hnow Hmono fuel 0 latest (after st [GetBlockNumber]))
    as [b [tr [Heq Hb]]]; try assumption; try reflexivity; try lia.
  exists b. rewrite Heq. split; [reflexivity|]. split; [exact Hb|].
  split; [|split].
  - apply boundaryBlock_lowest. exact Hb.
  - intros Hall. destruct Hb as [Hb [Hlow _]].
    destruct (Z.eq_dec b 0) as [E|NE]; [exact E|].
    exfalso. apply (Hlow 0); [lia|]. apply Hall. lia.
  - intros Hnone. destruct Hb as [Hb [_ Hhigh]].
    destruct (Z.eq_dec b (latest + 1)) as [E|NE]; [exact E|].
    exfalso. apply (Hnone b); [lia|]. apply Hhigh. lia.
Qed.

(** ** Batched log scanning *)


Lemma sequenceO_Ok {A} (xs : list A) : sequenceO (map Ok xs) = Ok xs.
Proof. induction xs as [|x xs IH]; simpl; [reflexivity|]. rewrite IH. reflexivity. Qed.

Lemma Promise_all_map {X A} (P : State -> Prop) (f : X -> M A) (g : X -> A)
    (t : X -> list Event) :
  (forall st tr, P st -> P (after st tr)) ->
  (forall x st, P st -> f x st = (Ok (g x), after st (t x))) ->
  forall xs st, P st ->
    Promise_all (map f xs) st = (Ok (map g xs), after st (flat_map t xs)).
Proof.
  intros HP Hf xs st Hst. unfold Promise_all.
  assert (Hs : forall xs st, P st ->
             settleAll (map f xs) st
             = (Ok (map Ok (map g xs)), after st (flat_map t xs))).
  { clear xs st Hst. induction xs as [|x xs IH]; intros st Hst; simpl.
    - unfold ret. rewrite after_nil. reflexivity.
    - unfold bind at 1. unfold settle. rewrite (Hf x st Hst).
      unfold bind at 1. rewrite (IH (after st (t x))) by (apply HP; exact Hst).
      unfold ret. rewrite after_after. reflexivity. }
  erewrite bind_Ok; [|apply Hs; exact Hst].
  unfold lift. rewrite sequenceO_Ok. reflexivity.
Qed.

Lemma map_combine_map {X A B} (h : X -> A -> B) (g : X -> A) (xs : list X) :
  map (fun p => h (fst p) (snd p)) (combine xs (map g xs)) = map (fun x => h x (g x)) xs.
Proof. induction xs as [|x xs IH]; simpl; [reflexivity|]. now rewrite IH. Qed.

Lemma map_combine_map2 {X A B C} (h : X -> A -> B -> C) (g1 : X -> A) (g2 : X -> B)
    (xs : list X) :
  map (fun p => h (fst (fst p)) (snd (fst p)) (snd p))
      (combine (combine xs (map g1 xs)) (map g2 xs))
  = map (fun x => h x (g1 x) (g2 x)) xs.
Proof. induction xs as [|x xs IH]; simpl; [reflexivity|]. now rewrite IH. Qed.

Lemma publicClient_bang_eval p st pc :
  publicClient (self st) = Some pc -> publicClient_bang p st = (Ok pc, st).
Proof.
  intros Hpc. unfold publicClient_bang, bind, this, defined. rewrite Hpc. reflexivity.
Qed.

Section Scan.

Context (CA : gmap Z Address) (l : Ledger) (c : ContractClient) (tok : Token).
Hypothesis Hpc : publicClient c = Some (syntheticClient l).
Hypothesis Hcan : canRead CA c = true.

Lemma onLedger_after st tr : onLedger c st -> onLedger c (after st tr).
Proof. unfold onLedger. intros H. exact H. Qed.

Lemma timestamp_on_ledger b st :
  onLedger c st -> getBlockTimestamp b st = (Ok (stamp l b), after st [GetBlock b]).
Proof.
  intros Hst. apply (getBlockTimestamp_eval st (syntheticClient l)).
  - rewrite Hst. exact Hpc.
  - reflexivity.
Qed.

Lemma timestampsOf_on_ledger {L} (bn : L -> Z) logs st :
  onLedger c st ->
  timestampsOf bn logs st
  = (Ok (map (fun x => stamp l (bn x)) logs),
     after st (flat_map (fun x => [GetBlock (bn x)]) logs)).
Proof.
  intros Hst. unfold timestampsOf.
  apply (Promise_all_map (onLedger c) (fun log => getBlockTimestamp (bn log))
           (fun x => stamp l (bn x)) (fun x => [GetBlock (bn x)])).
  - intros. now apply onLedger_after.
  - intros x st' Hst'. now apply timestamp_on_ledger.
  - exact Hst.
Qed.

Lemma getToken_on_ledger a st :
  onLedger c st -> getToken a st = (Ok (metadata a), after st (metadataReads a)).
Proof.
  intros Hst. unfold getToken, tryCatch, Promise_all3.
  assert (Hp : forall st', onLedger c st' -> publicClient (self st') = Some (syntheticClient l)).
  { intros st' H'. rewrite H'. exact Hpc. }
  unfold bind at 1. unfold bind at 1. unfold settle at 1.
  rewrite (readContract_opt_some _ _ st _ (Hp st Hst)).
  unfold bind at 1. unfold settle at 1.
  rewrite (readContract_opt_some _ _ (after st _) _ (Hp _ (onLedger_after _ _ Hst))).
  unfold bind at 1. unfold settle at 1.
  rewrite (readContract_opt_some _ _ (after (after st _) _) _
             (Hp _ (onLedger_after _ _ (onLedger_after _ _ Hst)))).
  simpl. rewrite !after_after. reflexivity.
Qed.

Lemma tokensOf_on_ledger {L} (ta : L -> Address) logs st :
  onLedger c st ->
  tokensOf ta logs st
  = (Ok (map (fun x => metadata (ta x)) logs),
     after st (flat_map (fun x => metadataReads (ta x)) logs)).
Proof.
  intros Hst. unfold tokensOf.
  apply (Promise_all_map (onLedger c) (fun log => getToken (ta log))
           (fun x => metadata (ta x)) (fun x => metadataReads (ta x))).
  - intros. now apply onLedger_after.
  - intros x st' Hst'. now apply getToken_on_ledger.
  - exact Hst.
Qed.


Lemma self_pc st : onLedger c st -> publicClient (self st) = Some (syntheticClient l).
Proof. intros H. rewrite H. exact Hpc. Qed.

Lemma canRead_on_ledger st : onLedger c st -> canRead CA (self st) = true.
Proof. intros H. rewrite H. exact Hcan. Qed.

Lemma getBuyTradeEventLogs_on_ledger a b st :
  onLedger c st ->
  getBuyTradeEventLogs CA (int a) (int b) (Some tok) None st
  = (Ok (buyScan l tok a b), after st (buyTrace l tok a b)).
Proof.
  intros Hst. unfold getBuyTradeEventLogs.
  apply safeRead_returns; [now apply canRead_on_ledger|].
  erewrite bind_Ok; [|apply publicClient_bang_eval; now apply self_pc].
  erewrite bind_Ok; [|reflexivity].
  rewrite !BigInt_of_Number_int.
  erewrite bind_Ok; [|reflexivity].
  erewrite bind_Ok; [|reflexivity].
  erewrite bind_Ok; [|apply emit_after].
  erewrite bind_Ok; [|reflexivity].
  erewrite bind_Ok; [|apply timestampsOf_on_ledger; now apply onLedger_after].
  unfold ret. rewrite after_after.
  rewrite (map_combine_map (fun x ts => buyTrade x tok ts)).
  reflexivity.
Qed.

Lemma getSellTradeEventLogs_on_ledger a b st :
  onLedger c st ->
  getSellTradeEventLogs CA (int a) (int b) (Some tok) None st
  = (Ok (sellScan l tok a b), after st (sellTrace l tok a b)).
Proof.
  intros Hst. unfold getSellTradeEventLogs.
  apply safeRead_returns; [now apply canRead_on_ledger|].
  erewrite bind_Ok; [|apply publicClient_bang_eval; now apply self_pc].
  erewrite bind_Ok; [|reflexivity].
  rewrite !BigInt_of_Number_int.
  erewrite bind_Ok; [|reflexivity].
  erewrite bind_Ok; [|reflexivity].
  erewrite bind_Ok; [|apply emit_after].
  erewrite bind_Ok; [|reflexivity].
  erewrite bind_Ok; [|apply timestampsOf_on_ledger; now apply onLedger_after].
  unfold ret. rewrite after_after.
  rewrite (map_combine_map (fun x ts => sellTrade x tok ts)).
  reflexivity.
Qed.

Lemma swapInEventLogs_on_ledger a b st :
  onLedger c st ->
  swapInEventLogs CA (int a) (int b) (Some tok) st
  = (Ok (swapInScan l tok a b), after st (swapInTrace l tok a b)).
Proof.
  intros Hst. unfold swapInEventLogs.
  apply safeRead_returns; [now apply canRead_on_ledger|].
  erewrite bind_Ok; [|apply publicClient_bang_eval; now apply self_pc].
  erewrite bind_Ok; [|reflexivity].
  rewrite !BigInt_of_Number_int.
  erewrite bind_Ok; [|reflexivity].
  erewrite bind_Ok; [|reflexivity].
  erewrite bind_Ok; [|reflexivity].
  erewrite bind_Ok; [|apply emit_after].
  erewrite bind_Ok; [|reflexivity].
  erewrite bind_Ok; [|apply timestampsOf_on_ledger; now apply onLedger_after].
  erewrite bind_Ok;
    [|apply tokensOf_on_ledger; now repeat apply onLedger_after].
  unfold ret. rewrite !after_after.
  rewrite (map_combine_map2 (fun x t ts => swapTrade x tok t ts)).
  reflexivity.
Qed.

Lemma swapOutEventLogs_on_ledger a b st :
  onLedger c st ->
  swapOutEventLogs CA (int a) (int b) (Some tok) st
  = (Ok (swapOutScan l tok a b), after st (swapOutTrace l tok a b)).
Proof.
  intros Hst. unfold swapOutEventLogs.
  apply safeRead_returns; [now apply canRead_on_ledger|].
  erewrite bind_Ok; [|apply publicClient_bang_eval; now apply self_pc].
  erewrite bind_Ok; [|reflexivity].
  rewrite !BigInt_of_Number_int.
  erewrite bind_Ok; [|reflexivity].
  erewrite bind_Ok; [|reflexivity].
  erewrite bind_Ok; [|reflexivity].
  erewrite bind_Ok; [|apply emit_after].
  erewrite bind_Ok; [|reflexivity].
  erewrite bind_Ok; [|apply timestampsOf_on_ledger; now apply onLedger_after].
  erewrite bind_Ok;
    [|apply tokensOf_on_ledger; now repeat apply onLedger_after].
  unfold ret. rewrite !after_after.
  rewrite (map_combine_map2 (fun x t ts => swapTrade x t tok ts)).
  reflexivity.
Qed.

Lemma getSwapTradeEventLogs_on_ledger a b st :
  onLedger c st ->
  getSwapTradeEventLogs CA (int a) (int b) (Some tok) None st
  = (Ok (swapInScan l tok a b ++ swapOutScan l tok a b),
     after st (swapInTrace l tok a b ++ swapOutTrace l tok a b)).
Proof.
  intros Hst. unfold getSwapTradeEventLogs.
  apply safeRead_returns; [now apply canRead_on_ledger|].
  erewrite bind_Ok; [|now apply swapInEventLogs_on_ledger].
  erewrite bind_Ok; [|apply swapOutEventLogs_on_ledger; now apply onLedger_after].
  unfold ret. rewrite after_after. reflexivity.
Qed.


Lemma getLogsOf_blocks {L} (bn : L -> Z) (logs : list L) :
  getLogsOf (flat_map (fun x => [GetBlock (bn x)]) logs) = [].
Proof. induction logs as [|x xs IH]; simpl; [reflexivity|exact IH]. Qed.

Lemma getLogsOf_metadataReads {L} (ta : L -> Address) (logs : list L) :
  getLogsOf (flat_map (fun x => metadataReads (ta x)) logs) = [].
Proof. induction logs as [|x xs IH]; simpl; [reflexivity|exact IH]. Qed.

Lemma getLogsOf_batch a b :
  getLogsOf (buyTrace l tok a b ++ sellTrace l tok a b ++ swapInTrace l tok a b ++ swapOutTrace l tok a b)
  = batchQueries (a, b).
Proof.
  unfold buyTrace, sellTrace, swapInTrace, swapOutTrace.
  rewrite !getLogsOf_app. simpl.
  rewrite !getLogsOf_app, !getLogsOf_blocks, !getLogsOf_metadataReads.
  reflexivity.
Qed.

Lemma Promise_all3_Ok {A B C} (ma : M A) (mb : M B) (mc : M C) st a b c' t1 t2 t3 :
  ma st = (Ok a, after st t1) ->
  mb (after st t1) = (Ok b, after (after st t1) t2) ->
  mc (after (after st t1) t2) = (Ok c', after (after (after st t1) t2) t3) ->
  Promise_all3 ma mb mc st = (Ok (a, b, c'), after st (t1 ++ t2 ++ t3)).
Proof.
  intros Ha Hb Hc. unfold Promise_all3, bind, settle.
  rewrite Ha, Hb, Hc. simpl. rewrite !after_after. reflexivity.
Qed.

Lemma batchCount_step cur target :
  cur < target ->
  batchCount cur target = S (batchCount (Z.min (cur + 999) target + 1) target).
Proof.
  intros Hlt. unfold batchCount.
  replace (cur <? target) with true by (symmetry; apply Z.ltb_lt; lia).
  destruct (Z.ltb_spec (Z.min (cur + 999) target + 1) target) as [H|H].
  - assert (Z.min (cur + 999) target = cur + 999) as -> by lia.
    replace (target - cur + 999) with ((target - (cur + 999 + 1) + 999) + 1 * 1000) by lia.
    rewrite Z.div_add by lia.
    rewrite Z2Nat.inj_add; [|apply Z.div_pos; lia|lia].
    change (Z.to_nat 1) with 1%nat. rewrite Nat.add_1_r. reflexivity.
  - assert (0 < target - cur <= 1000) by lia.
    assert ((target - cur + 999) / 1000 = 1) as ->.
    { symmetry. apply (Z.div_unique _ _ 1 (target - cur - 1)); lia. }
    reflexivity.
Qed.

Lemma batchCount_done cur target : target <= cur -> batchCount cur target = O.
Proof.
  intros H. unfold batchCount.
  replace (cur <? target) with false by (symmetry; apply Z.ltb_ge; lia). reflexivity.
Qed.

Lemma scanBatches_on_ledger fuel :
  forall cur target B S W st,
    onLedger c st -> 0 <= cur <= 2 ^ 52 -> 0 <= target < 2 ^ 52 ->
    (Z.to_nat (target - cur) < fuel)%nat ->
    let rs := batchRanges (batchCount cur target) cur target in
    exists tr,
      scanBatches CA fuel tok (int cur) (int target) B S W st
      = (Ok (B ++ flat_map (fun r => buyScan l tok (fst r) (snd r)) rs,
             S ++ flat_map (fun r => sellScan l tok (fst r) (snd r)) rs,
             W ++ flat_map (fun r => swapInScan l tok (fst r) (snd r)
                                     ++ swapOutScan l tok (fst r) (snd r)) rs),
         after st tr) /\
      getLogsOf tr = flat_map batchQueries rs.
Proof.
  induction fuel as [|fuel IH]; intros cur target B S W st Hst Hcur Htarget Hfuel rs.
  - lia.
  - cbn [scanBatches]. rewrite lt_int.
    assert (H2 : 2 ^ 52 + 2 ^ 52 = 2 ^ 53) by reflexivity.
    destruct (Z.ltb_spec cur target) as [Hlt|Hge].
    2:{ exists []. subst rs. rewrite batchCount_done by lia. simpl.
        rewrite !app_nil_r, after_nil. split; reflexivity. }
    unfold BLOCK_BATCH_SIZE. rewrite (ofZ_int 999) by (simpl; lia).
    rewrite (ofZ_int 1) by (simpl; lia).
    rewrite add_int by lia. rewrite Math_min_int. rewrite add_int by lia.
    set (e := Z.min (cur + 999) target).
    erewrite bind_Ok.
    2:{ apply Promise_all3_Ok.
        - now apply getBuyTradeEventLogs_on_ledger.
        - apply getSellTradeEventLogs_on_ledger. now apply onLedger_after.
        - apply getSwapTradeEventLogs_on_ledger. now repeat apply onLedger_after. }
    cbv beta iota.
    destruct (IH (e + 1) target
                (B ++ buyScan l tok cur e) (S ++ sellScan l tok cur e)
                (W ++ (swapInScan l tok cur e ++ swapOutScan l tok cur e))
                (after st (buyTrace l tok cur e ++ sellTrace l tok cur e
                           ++ swapInTrace l tok cur e ++ swapOutTrace l tok cur e)))
      as [tr [Heq Hlogs]].
    + now apply onLedger_after.
    + subst e. lia.
    + lia.
    + subst e. lia.
    + exists ((buyTrace l tok cur e ++ sellTrace l tok cur e
               ++ swapInTrace l tok cur e ++ swapOutTrace l tok cur e) ++ tr).
      rewrite Heq. rewrite after_after. split.
      * subst rs. rewrite (batchCount_step cur target Hlt).
        cbn [batchRanges flat_map fst snd]. fold e.
        rewrite <- !app_assoc. reflexivity.
      * subst rs. rewrite (batchCount_step cur target Hlt).
        cbn [batchRanges flat_map fst snd]. fold e.
        rewrite getLogsOf_app, Hlogs, getLogsOf_batch. reflexivity.
Qed.

End Scan.


Section Ranges.

Context {L : Type} (bn : L -> Z) (P : L -> bool).

Lemma filter_above logs x b :
  List.Forall (fun y => bn x <= bn y) logs -> b < bn x ->
  forall a, List.filter (inside bn P a b) logs = [].
Proof.
  intros Hall Hb a. induction Hall as [|y ys Hy _ IH]; [reflexivity|].
  simpl. unfold inside at 1, inRange.
  replace (bn y <=? b) with false by (symmetry; apply Z.leb_gt; lia).
  rewrite andb_false_r. simpl. exact IH.
Qed.

Lemma filter_range_split logs a b c :
  blockOrdered bn logs -> a <= b + 1 -> b <= c ->
  List.filter (inside bn P a c) logs
  = List.filter (inside bn P a b) logs ++ List.filter (inside bn P (b + 1) c) logs.
Proof.
  intros Hs Hab Hbc. induction Hs as [|x xs Hs IH Hall]; [reflexivity|].
  pose proof (filter_above xs x b Hall) as Habove.
  unfold inside, inRange in *. cbn [List.filter].
  destruct (Z.leb_spec a (bn x)) as [H1|H1];
    destruct (Z.leb_spec (bn x) b) as [H2|H2];
    destruct (Z.leb_spec (bn x) c) as [H3|H3];
    destruct (Z.leb_spec (b + 1) (bn x)) as [H4|H4]; try lia;
    cbn [andb]; destruct (P x); cbn [andb]; rewrite ?IH; try reflexivity.
  all: rewrite (Habove ltac:(lia) a); reflexivity.
Qed.

Lemma filter_empty_range logs a b : b < a -> List.filter (inside bn P a b) logs = [].
Proof.
  intros H. induction logs as [|x xs IH]; [reflexivity|].
  simpl. unfold inside at 1, inRange.
  destruct (Z.leb_spec a (bn x)); destruct (Z.leb_spec (bn x) b); try lia; simpl; exact IH.
Qed.

End Ranges.

Lemma batches_cover {A} (F : Z -> Z -> list A) :
  (forall a b c, a <= b + 1 -> b <= c -> F a c = F a b ++ F (b + 1) c) ->
  forall n from to,
    n = batchCount from to -> from < to -> (to - from) mod 1000 <> 0 ->
    flat_map (fun r => F (fst r) (snd r)) (batchRanges n from to) = F from to.
Proof.
  intros Hsplit. induction n as [|n IH]; intros from to Hn Hlt Hmod.
  - exfalso. rewrite (batchCount_step from to Hlt) in Hn. discriminate.
  - rewrite (batchCount_step from to Hlt) in Hn. injection Hn as Hn.
    cbn [batchRanges flat_map fst snd].
    destruct (Z.le_gt_cases to (from + 999)) as [Hlast|Hmore].
    + rewrite Z.min_r in * by lia.
      rewrite batchCount_done in Hn by lia. subst n. simpl. apply app_nil_r.
    + rewrite Z.min_l in * by lia.
      assert (to <> from + 1000).
      { intros ->. apply Hmod. replace (from + 1000 - from) with (1 * 1000) by lia.
        apply Z.mod_mul. lia. }
      rewrite (IH (from + 999 + 1) to Hn) by
        (try lia; replace (to - (from + 999 + 1)) with (to - from + (-1) * 1000) by lia;
         rewrite Z.mod_add by lia; exact Hmod).
      symmetry. apply Hsplit; lia.
Qed.

Lemma flat_map_app_perm {X A} (f g : X -> list A) (xs : list X) :
  Permutation (flat_map (fun x => f x ++ g x) xs) (flat_map f xs ++ flat_map g xs).
Proof.
  induction xs as [|x xs IH]; simpl; [constructor|].
  rewrite IH. rewrite <- !app_assoc. apply Permutation_app_head.
  apply Permutation_app_swap_app.
Qed.

Section Cover.

Context (CA : gmap Z Address) (l : Ledger) (tok : Token).

Lemma buyScan_split a b c :
  blockOrdered bl_blockNumber (ledger_buys l) -> a <= b + 1 -> b <= c ->
  buyScan l tok a c = buyScan l tok a b ++ buyScan l tok (b + 1) c.
Proof.
  intros Hs Hab Hbc. unfold buyScan. rewrite <- map_app. f_equal.
  pose (P := fun x => matches (Some (address tok)) (bl_token x) && matches None (bl_trader x)).
  assert (E : forall a b, buysIn l tok a b = List.filter (inside bl_blockNumber P a b) (ledger_buys l)).
  { intros a' b'. apply List.filter_ext. intros x. unfold inside, P.
    now rewrite !andb_assoc. }
  rewrite !E.
  now apply filter_range_split.
Qed.

Lemma sellScan_split a b c :
  blockOrdered sl_blockNumber (ledger_sells l) -> a <= b + 1 -> b <= c ->
  sellScan l tok a c = sellScan l tok a b ++ sellScan l tok (b + 1) c.
Proof.
  intros Hs Hab Hbc. unfold sellScan. rewrite <- map_app. f_equal.
  pose (P := fun x => matches (Some (address tok)) (sl_token x) && matches None (sl_trader x)).
  assert (E : forall a b, sellsIn l tok a b = List.filter (inside sl_blockNumber P a b) (ledger_sells l)).
  { intros a' b'. apply List.filter_ext. intros x. unfold inside, P.
    now rewrite !andb_assoc. }
  rewrite !E.
  now apply filter_range_split.
Qed.

Lemma swapInScan_split a b c :
  blockOrdered wl_blockNumber (ledger_swaps l) -> a <= b + 1 -> b <= c ->
  swapInScan l tok a c = swapInScan l tok a b ++ swapInScan l tok (b + 1) c.
Proof.
  intros Hs Hab Hbc. unfold swapInScan. rewrite <- map_app. f_equal.
  pose (P := fun x => matches (Some (address tok)) (wl_tokenSold x)
                      && matches None (wl_tokenBought x) && matches None (wl_trader x)).
  assert (E : forall a b, swapsSoldIn l tok a b = List.filter (inside wl_blockNumber P a b) (ledger_swaps l)).
  { intros a' b'. apply List.filter_ext. intros x. unfold inside, P.
    now rewrite !andb_assoc. }
  rewrite !E.
  now apply filter_range_split.
Qed.

Lemma swapOutScan_split a b c :
  blockOrdered wl_blockNumber (ledger_swaps l) -> a <= b + 1 -> b <= c ->
  swapOutScan l tok a c = swapOutScan l tok a b ++ swapOutScan l tok (b + 1) c.
Proof.
  intros Hs Hab Hbc. unfold swapOutScan. rewrite <- map_app. f_equal.
  pose (P := fun x => matches None (wl_tokenSold x)
                      && matches (Some (address tok)) (wl_tokenBought x)
                      && matches None (wl_trader x)).
  assert (E : forall a b, swapsBoughtIn l tok a b = List.filter (inside wl_blockNumber P a b) (ledger_swaps l)).
  { intros a' b'. apply List.filter_ext. intros x. unfold inside, P.
    now rewrite !andb_assoc. }
  rewrite !E.
  now apply filter_range_split.
Qed.

(** C3, amended.  For every synthetic ledger with its log set in block
    order and every block range [from..to] (below 2^52) with [from < to]
    whose length [to - from] is not a multiple of 1000, the batch loop of
    [get24hVolume] terminates, having issued [ceil((to - from) / 1000)]
    batches one after the other; batch [i] queries the blocks
    [start .. min(start + 999, to)] -- buy, sell and swap logs, the swap
    logs once by token sold and once by token bought -- and the next batch
    starts at the block after.  The concatenation of the per-batch buy
    results equals the result of a single scan of [from..to] by
    [getBuyTradeEventLogs], and likewise for the sell results; the
    concatenation of the per-batch swap results is a permutation of the
    result of a single scan by [getSwapTradeEventLogs].  A range with
    [2000 < to - from < 3000] is scanned in exactly 3 batches. *)
Theorem batched_scan_matches_single_scan :
  forall (st : State) (from to : Z) (fuel : nat),
    publicClient (self st) = Some (syntheticClient l) ->
    canRead CA (self st) = true ->
    blockOrdered bl_blockNumber (ledger_buys l) ->
    blockOrdered sl_blockNumber (ledger_sells l) ->
    blockOrdered wl_blockNumber (ledger_swaps l) ->
    0 <= from < to -> to < 2 ^ 52 -> (to - from) mod 1000 <> 0 ->
    (Z.to_nat (to - from) < fuel)%nat ->
    exists buys sells swaps tr,
      scanBatches CA fuel tok (Number_of_BigInt from) (Number_of_BigInt to) [] [] [] st
      = (Ok (buys, sells, swaps), after st tr) /\
      getLogsOf tr = flat_map batchQueries (batchRanges (batchCount from to) from to) /\
      fst (getBuyTradeEventLogs CA (Number_of_BigInt from) (Number_of_BigInt to)
             (Some tok) None st) = Ok buys /\
      fst (getSellTradeEventLogs CA (Number_of_BigInt from) (Number_of_BigInt to)
             (Some tok) None st) = Ok sells /\
      (exists single,
          fst (getSwapTradeEventLogs CA (Number_of_BigInt from) (Number_of_BigInt to)
                 (Some tok) None st) = Ok single /\
          Permutation swaps single) /\
      (2000 < to - from < 3000 -> batchCount from to = 3%nat).
Proof.
  intros st from to fuel Hpc Hcan Hb Hs Hw Hfrom Hto Hmod Hfuel.
  assert (H2 : 2 ^ 52 + 2 ^ 52 = 2 ^ 53) by reflexivity.
  rewrite !Number_of_BigInt_int by lia.
  destruct (scanBatches_on_ledger CA l (self st) tok Hpc Hcan fuel from to [] [] [] st)
    as [tr [Heq Hlogs]]; try reflexivity; try lia.
  simpl app in Heq.
  rewrite (batches_cover (buyScan l tok)) in Heq
    by (try reflexivity; try lia; intros; now apply buyScan_split).
  rewrite (batches_cover (sellScan l tok)) in Heq
    by (try reflexivity; try lia; intros; now apply sellScan_split).
  eexists _, _, _, tr. split; [exact Heq|]. split; [exact Hlogs|].
  split; [|split; [|split]].
  - rewrite (getBuyTradeEventLogs_on_ledger CA l (self st) tok Hpc Hcan); reflexivity.
  - rewrite (getSellTradeEventLogs_on_ledger CA l (self st) tok Hpc Hcan); reflexivity.
  - eexists. split.
    + rewrite (getSwapTradeEventLogs_on_ledger CA l (self st) tok Hpc Hcan); reflexivity.
    + rewrite flat_map_app_perm.
      rewrite (batches_cover (swapInScan l tok))
        by (try reflexivity; try lia; intros; now apply swapInScan_split).
      rewrite (batches_cover (swapOutScan l tok))
        by (try reflexivity; try lia; intros; now apply swapOutScan_split).
      reflexivity.
  - intros Hd. unfold batchCount.
    replace (from <? to) with true by (symmetry; apply Z.ltb_lt; lia).
    assert ((to - from + 999) / 1000 = 3) as ->; [|reflexivity].
    symmetry. apply (Z.div_unique _ _ 3 (to - from + 999 - 3000)); lia.
Qed.

End Cover.

(** ** The pool snapshot and its placeholder *)

Section PoolFacts.

Context (CA : gmap Z Address).

Lemma getLPToken_poolToken_fails tok user st pc e :
  publicClient (self st) = Some pc ->
  read_poolToken pc (contractAddress (self st)) (address tok) = Throw e ->
  getLPToken tok user st
  = (Throw (ErrorObject ("Error fetching LP token data: " +:+ message_in_template e)),
     after st [ReadContract (poolCall (self st) "poolToken" [AddressArg (address tok)])]).
Proof.
  intros Hpc Hread. unfold getLPToken, tryCatch.
  unfold bind at 1. unfold this at 1. unfold bind at 1.
  rewrite (readContract_opt_some _ _ st pc Hpc), Hread. reflexivity.
Qed.

Lemma getPool_of_getLPToken_failure fuel tok user st e st1 :
  canRead CA (self st) = true ->
  getLPToken tok user st = (Throw e, st1) ->
  isExpectedReadFailure e = true ->
  fst (getPool CA fuel tok user st)
  = Ok {| token := tok;
          reserve := {| tokenReserve := "0"; ethReserve := "0" |};
          lpToken := {| lp_address := address tok; lp_symbol := Some "LP";
                        lp_name := Some "LP Token"; lp_decimals := Some (ofZ 18);
                        totalSupply := "0"; balance := "0" |};
          buyPrice := "0"; sellPrice := "0"; avgPrice := "0"; tokenRatio := "0";
          volume24h := "0"; totalLiquidty := "0";
          apr := Real 0; lastExchangeTs := Real 0;
          lastUpdated := ofZ (clock st) |}.
Proof.
  intros Hg Hlp He. unfold getPool.
  erewrite bind_Ok; [|reflexivity].
  match goal with
  | |- fst (safeRead CA ?n ?fb ?fn st) = _ =>
      assert (Hfn : fn st = (Throw e, st1))
        by (unfold bind at 1; rewrite Hlp; reflexivity);
      destruct (safeRead_fallback CA n fb fn st e st1 Hg Hfn He) as [w ->]
  end.
  reflexivity.
Qed.

(** C10, amended.  For every token and user, when [getLPToken] -- the one
    step of [getPool] that is not wrapped on its own -- fails with an
    expected-recoverable error (as when the [poolToken] read throws an
    [Error] with such a message), [getPool] does not throw and returns the
    placeholder Pool: every monetary field ["0"], [apr] and
    [lastExchangeTs] 0, and a synthetic [lpToken] with the queried token's
    own address, symbol ["LP"], name ["LP Token"], 18 decimals and
    [totalSupply] and [balance] ["0"]. *)
Theorem getPool_placeholder_on_lp_failure :
  forall (fuel : nat) (tok : Token) (user : Address) (st : State),
    canRead CA (self st) = true ->
    let placeholder :=
      {| token := tok;
         reserve := {| tokenReserve := "0"; ethReserve := "0" |};
         lpToken := {| lp_address := address tok; lp_symbol := Some "LP";
                       lp_name := Some "LP Token"; lp_decimals := Some (int 18);
                       totalSupply := "0"; balance := "0" |};
         buyPrice := "0"; sellPrice := "0"; avgPrice := "0"; tokenRatio := "0";
         volume24h := "0"; totalLiquidty := "0";
         apr := int 0; lastExchangeTs := int 0;
         lastUpdated := ofZ (clock st) |} in
    (forall e st1,
        getLPToken tok user st = (Throw e, st1) ->
        isExpectedReadFailure e = true ->
        fst (getPool CA fuel tok user st) = Ok placeholder) /\
    (forall pc m,
        publicClient (self st) = Some pc ->
        read_poolToken pc (contractAddress (self st)) (address tok)
        = Throw (ErrorObject m) ->
        isExpectedReadFailure (ErrorObject m) = true ->
        fst (getPool CA fuel tok user st) = Ok placeholder).
Proof.
  intros fuel tok user st Hg placeholder. split.
  - intros e st1 Hlp He.
    rewrite (getPool_of_getLPToken_failure fuel tok user st e st1 Hg Hlp He).
    reflexivity.
  - intros pc m Hpc Hread He.
    rewrite (getPool_of_getLPToken_failure fuel tok user st _ _ Hg
               (getLPToken_poolToken_fails tok user st pc _ Hpc Hread)).
    + reflexivity.
    + simpl message_in_template. now apply isExpectedReadFailure_prefixed.
Qed.

End PoolFacts.

(* ================================================================== *)
(** * The properties on concrete ledgers                               *)
(* ================================================================== *)

Import Fixture.

(** C1 at a pool whose [reserves] read returns no data. *)
Lemma safeRead_fallback_or_rethrow_witness :
  fst (safeRead CONTRACT_ADDRESSES "getTotalFees" "0"
         (throw (ErrorObject "execution reverted: 0x"))
         (start (wallet accepting noReservesLedger) steadyNow)) = Ok "0" /\
  fst (getReserves CONTRACT_ADDRESSES TKN
         (start (wallet accepting noReservesLedger) steadyNow))
  = Ok {| tokenReserve := "0"; ethReserve := "0" |}.
Proof.
  destruct (safeRead_fallback_or_rethrow CONTRACT_ADDRESSES string "getTotalFees" "0"
              (throw (ErrorObject "execution reverted: 0x"))
              (start (wallet accepting noReservesLedger) steadyNow)
              (start (wallet accepting noReservesLedger) steadyNow)
              (ErrorObject "execution reverted: 0x"))
    as [H1 [_ H3]].
  - vm_compute. reflexivity.
  - reflexivity.
  - split.
    + apply H1. vm_compute. reflexivity.
    + apply (H3 TKN (syntheticClient noReservesLedger)
               (ErrorObject "The contract function returned no data (0x).")).
      * reflexivity.
      * reflexivity.
      * vm_compute. reflexivity.
Defined.

(** An unknown RPC error is not an expected read failure: [getReserves]
    rethrows it. *)
Example getReserves_rethrows_unknown_error :
  isExpectedReadFailure (ErrorObject "unknown RPC error") = false /\
  fst (getReserves CONTRACT_ADDRESSES TKN
         (start (wallet accepting brokenLedger) steadyNow))
  = Throw (ErrorObject "unknown RPC error").
Proof. split; vm_compute; reflexivity. Qed.

(** C2 at a chain of 21 blocks of which the blocks from 11 on are recent. *)
Lemma get24hBeforeBlock_finds_boundary_witness :
  exists b,
    fst (get24hBeforeBlock 30 (start (wallet accepting steadyLedger) steadyNow)) = Ok b /\
    lowestRecentBlock steadyNow steadyTime 20 b.
Proof.
  assert (E53 : 2 ^ 53 = 9007199254740992) by reflexivity.
  assert (E52 : 2 ^ 52 = 4503599627370496) by reflexivity.
  destruct (get24hBeforeBlock_finds_boundary
              (start (wallet accepting steadyLedger) steadyNow)
              (syntheticClient steadyLedger) 20 steadyTime 30)
    as [b [Hb [_ [Hlow _]]]].
  - reflexivity.
  - reflexivity.
  - intros b _. reflexivity.
  - lia.
  - intros b Hb. unfold steadyTime. lia.
  - unfold steadyNow. simpl clock. lia.
  - intros i j Hi Hj. unfold steadyTime. lia.
  - simpl. lia.
  - exists b. split; [exact Hb|]. apply Hlow.
    exists 15. unfold recent, steadyNow, steadyTime, DAY_MS. simpl. lia.
Defined.

(** C2, as stated, fails on a chain whose blocks are all older than 24
    hours: the search returns [latestBlock + 1], which is no block of
    [0..latestBlock], and no block is the lowest recent one. *)
Lemma get24hBeforeBlock_stale_chain :
  (forall i j, i <= j -> ledger_time staleLedger i <= ledger_time staleLedger j) /\
  fst (get24hBeforeBlock 5 (start (wallet accepting staleLedger) staleNow)) = Ok 1 /\
  ledger_latest staleLedger = 0 /\
  forall b, ~ lowestRecentBlock staleNow (ledger_time staleLedger)
                (ledger_latest staleLedger) b.
Proof.
  split; [intros; simpl; lia|]. split; [vm_compute; reflexivity|].
  split; [reflexivity|].
  intros b [_ [Hr _]]. unfold recent, staleNow, DAY_MS in Hr. simpl in Hr. lia.
Qed.

(** C7 at a wallet in which the user rejects the approval. *)
Lemma deposit_approval_failure_witness :
  deposit {| dep_token := TKN; tokenAmount := "100"; ethAmount := "5" |}
    (start (wallet rejectingApproval steadyLedger) steadyNow)
  = (Throw (ErrorObject
              "Deposit failed: Token approval failed: User rejected the request."),
     after (start (wallet rejectingApproval steadyLedger) steadyNow)
       [WriteContract
          (approvalCall (wallet rejectingApproval steadyLedger)
             {| dep_token := TKN; tokenAmount := "100"; ethAmount := "5" |} 100)]).
Proof.
  destruct (deposit_approval_failure
              {| dep_token := TKN; tokenAmount := "100"; ethAmount := "5" |}
              (start (wallet rejectingApproval steadyLedger) steadyNow)
              (after (start (wallet rejectingApproval steadyLedger) steadyNow)
                 [WriteContract
                    (approvalCall (wallet rejectingApproval steadyLedger)
                       {| dep_token := TKN; tokenAmount := "100"; ethAmount := "5" |}
                       100)])
              100
              (ErrorObject "Token approval failed: User rejected the request."))
    as [H _].
  - vm_compute. reflexivity.
  - reflexivity.
  - exact H.
Defined.

(** C8 at chain 1, which the table does not list. *)
Lemma constructor_unsupported_chain_witness :
  fst (constructor CONTRACT_ADDRESSES accepting None (Some 1))
  = Throw (ErrorObject UNSUPPORTED_CHAIN).
Proof.
  apply (constructor_unsupported_chain CONTRACT_ADDRESSES accepting None (Some 1)).
  vm_compute. reflexivity.
Defined.

(** C9 at a pool whose LP token is deployed. *)
Lemma isPoolInstantiated_iff_nonzero_witness :
  fst (isPoolInstantiated (address TKN)
         (start (wallet accepting steadyLedger) steadyNow)) = Ok true.
Proof.
  apply (isPoolInstantiated_iff_nonzero
           (start (wallet accepting steadyLedger) steadyNow)
           (syntheticClient steadyLedger) (address TKN) LP_ADDRESS).
  - reflexivity.
  - reflexivity.
  - discriminate.
Defined.

(** C10 at a pool that is not deployed: the [poolToken] read returns no
    data. *)
Lemma getPool_placeholder_on_lp_failure_witness :
  fst (getPool CONTRACT_ADDRESSES 30 TKN USER
         (start (wallet accepting noPoolLedger) steadyNow))
  = Ok {| token := TKN;
          reserve := {| tokenReserve := "0"; ethReserve := "0" |};
          lpToken := {| lp_address := address TKN; lp_symbol := Some "LP";
                        lp_name := Some "LP Token"; lp_decimals := Some (int 18);
                        totalSupply := "0"; balance := "0" |};
          buyPrice := "0"; sellPrice := "0"; avgPrice := "0"; tokenRatio := "0";
          volume24h := "0"; totalLiquidty := "0";
          apr := int 0; lastExchangeTs := int 0;
          lastUpdated := ofZ steadyNow |}.
Proof.
  destruct (getPool_placeholder_on_lp_failure CONTRACT_ADDRESSES 30 TKN USER
              (start (wallet accepting noPoolLedger) steadyNow))
    as [_ H].
  - vm_compute. reflexivity.
  - apply (H (syntheticClient noPoolLedger)
             "The contract function returned no data (0x).").
    + reflexivity.
    + reflexivity.
    + vm_compute. reflexivity.
Defined.

(** C10, as stated, fails when the failing read is one that is wrapped on
    its own: an expected failure of the [reserves] read is absorbed by
    [getReserves], and [getPool] returns a regular Pool -- the real LP
    token, the real prices -- with zero reserves, not the placeholder. *)
Lemma getPool_absorbs_wrapped_read_failure :
  read_reserves (syntheticClient noReservesLedger)
    (contractAddress (wallet accepting noReservesLedger)) (address TKN)
  = Throw (ErrorObject "The contract function returned no data (0x).") /\
  isExpectedReadFailure
    (ErrorObject "The contract function returned no data (0x).") = true /\
  match fst (getPool CONTRACT_ADDRESSES 30 TKN USER
               (start (wallet accepting noReservesLedger) steadyNow)) with
  | Ok p =>
      reserve p = {| tokenReserve := "0"; ethReserve := "0" |} /\
      lp_address (lpToken p) = LP_ADDRESS /\
      lp_address (lpToken p) <> address TKN /\
      lp_symbol (lpToken p) <> Some "LP" /\
      totalSupply (lpToken p) = "1000" /\
      buyPrice p = "200" /\ sellPrice p = "100" /\ avgPrice p = "150"
  | _ => False
  end.
Proof.
  split; [reflexivity|]. split; [vm_compute; reflexivity|].
  vm_compute. repeat split; try reflexivity; discriminate.
Qed.

(** C3 at a ledger with two swaps and a purchase, over the blocks 0..1500. *)
Lemma batched_scan_matches_single_scan_witness :
  exists buys sells swaps tr,
    scanBatches CONTRACT_ADDRESSES 1501 TKN (Number_of_BigInt 0) (Number_of_BigInt 1500)
      [] [] [] (start (wallet accepting tradingLedger) steadyNow)
    = (Ok (buys, sells, swaps),
       after (start (wallet accepting tradingLedger) steadyNow) tr) /\
    getLogsOf tr = batchQueries (0, 999) ++ batchQueries (1000, 1500) /\
    fst (getBuyTradeEventLogs CONTRACT_ADDRESSES (Number_of_BigInt 0)
           (Number_of_BigInt 1500) (Some TKN) None
           (start (wallet accepting tradingLedger) steadyNow)) = Ok buys.
Proof.
  assert (E52 : 2 ^ 52 = 4503599627370496) by reflexivity.
  destruct (batched_scan_matches_single_scan CONTRACT_ADDRESSES tradingLedger TKN
              (start (wallet accepting tradingLedger) steadyNow) 0 1500 1501)
    as [buys [sells [swaps [tr [H1 [H2 [H3 _]]]]]]].
  - reflexivity.
  - vm_compute. reflexivity.
  - repeat constructor.
  - repeat constructor.
  - repeat constructor; simpl; lia.
  - lia.
  - lia.
  - vm_compute. discriminate.
  - simpl. lia.
  - exists buys, sells, swaps, tr. split; [exact H1|]. split; [exact H2|exact H3].
Defined.

(** C3, as stated, fails on the swap logs: a batch returns its swaps with
    the token sold before those with the token bought, so across two
    batches the concatenation keeps the block order (block 5, then block
    1200) while a single scan of the same range returns the swap of block
    1200 first. *)
Lemma batched_swaps_differ_from_single_scan :
  blockOrdered wl_blockNumber (ledger_swaps tradingLedger) /\
  exists buys sells batched single,
    fst (scanBatches CONTRACT_ADDRESSES 10 TKN (Number_of_BigInt 0)
           (Number_of_BigInt 1500) [] [] []
           (start (wallet accepting tradingLedger) steadyNow))
    = Ok (buys, sells, batched) /\
    fst (getSwapTradeEventLogs CONTRACT_ADDRESSES (Number_of_BigInt 0)
           (Number_of_BigInt 1500) (Some TKN) None
           (start (wallet accepting tradingLedger) steadyNow)) = Ok single /\
    map amountIn batched = ["10"; "2"] /\
    map amountIn single = ["2"; "10"] /\
    batched <> single.
Proof.
  split; [repeat constructor; simpl; lia|].
  exists (buyScan tradingLedger TKN 1000 1500), [],
    (swapOutScan tradingLedger TKN 0 999 ++ swapInScan tradingLedger TKN 1000 1500),
    (swapInScan tradingLedger TKN 0 1500 ++ swapOutScan tradingLedger TKN 0 1500).
  split; [vm_compute; reflexivity|].
  split; [vm_compute; reflexivity|].
  split; [vm_compute; reflexivity|]. split; [vm_compute; reflexivity|].
  intros H. apply (f_equal (map amountIn)) in H. vm_compute in H. discriminate.
Qed.

(** The loop stops as soon as the next batch would start at [to]: when
    [to - from] is a multiple of 1000, the logs of block [to] are never
    fetched, though a single scan of [from..to] returns them. *)
Example scanBatches_skips_last_block :
  fst (scanBatches CONTRACT_ADDRESSES 10 TKN (Number_of_BigInt 0) (Number_of_BigInt 1000)
         [] [] [] (start (wallet accepting tradingLedger) steadyNow))
  = Ok ([], [], swapInScan tradingLedger TKN 0 999 ++ swapOutScan tradingLedger TKN 0 999) /\
  getLogsOf (events (snd (scanBatches CONTRACT_ADDRESSES 10 TKN (Number_of_BigInt 0)
                            (Number_of_BigInt 1000) [] [] []
                            (start (wallet accepting tradingLedger) steadyNow))))
  = batchQueries (0, 999) /\
  option_map (map buy_ethAmount)
    (match fst (getBuyTradeEventLogs CONTRACT_ADDRESSES (Number_of_BigInt 0)
                  (Number_of_BigInt 1000) (Some TKN) None
                  (start (wallet accepting tradingLedger) steadyNow))
     with Ok l => Some l | _ => None end)
  = Some ["7"].
Proof. repeat split; vm_compute; reflexivity. Qed.

(** C4.  [getPoolFeeEvents] turns the contract's timestamps (seconds) into
    milliseconds, and [getYield] divides their difference by 60*60*24, the
    number of seconds in a day: for two fee events one day apart, of 5 wei
    each, and a total liquidity of 10 wei, the window comes out as 1000
    "days" and the yield as 0.001, where the sum of the fees divided by
    (the window in days times the liquidity) is 1. *)
Theorem getYield_divides_milliseconds_by_seconds_per_day :
  fst (getPoolFeeEvents CONTRACT_ADDRESSES TKN (int 0) (int 1)
         (start (wallet accepting feeLedger) steadyNow)) = Ok oneDayFees /\
  Viem.bindO (getYield oneDayFees "10") (fun y => Ok (Number_toString y))
  = Ok "0.001" /\
  Qeq (spec_yield [5; 5] 0 86400000 10) 1%Q.
Proof.
  split; [vm_compute; reflexivity|]. split; vm_compute; reflexivity.
Qed.

(** Rounding in [getTotalLiquidity]: with no tokens and an ETH reserve of
    10^18 + 1 wei the exact value is 10^18 + 1, but the reserve is turned
    into the double 1.000000000000000001, which is 1, and the result is
    10^18. *)
Lemma getTotalLiquidity_rounds_to_double :
  getTotalLiquidity "0"
    {| tokenReserve := "0"; ethReserve := "1000000000000000001" |}
  = Ok "1000000000000000000" /\
  Qeq (spec_totalLiquidity 0 0 1000000000000000001) (inject_Z 1000000000000000001) /\
  BigInt_toString 1000000000000000001 = "1000000000000000001" /\
  getTotalLiquidity "0"
    {| tokenReserve := "0"; ethReserve := "1000000000000000001" |}
  <> Ok (BigInt_toString 1000000000000000001).
Proof.
  split; [vm_compute; reflexivity|]. split; [vm_compute; reflexivity|].
  split; [vm_compute; reflexivity|]. vm_compute. discriminate.
Qed.

(** The average of the prices 1 and 2 is the text of the double 1.5. *)
Lemma getAvgPrice_can_be_fractional :
  isIntegerString "1" = true /\ isIntegerString "2" = true /\
  getAvgPrice "1" "2" = "1.5" /\
  isIntegerString (getAvgPrice "1" "2") = false.
Proof. repeat split; vm_compute; reflexivity. Qed.

Section LedgerAmounts.

Context (CA : gmap Z Address).

Lemma getLPToken_integer tok user st lp st' :
  getLPToken tok user st = (Ok lp, st') ->
  isIntegerString (totalSupply lp) = true /\ isIntegerString (balance lp) = true.
Proof.
  unfold getLPToken, tryCatch. intros H.
  match type of H with
  | match ?m st with _ => _ end = _ => destruct (m st) as [[lp0|e|] st0] eqn:Hm
  end; try discriminate.
  inversion H; subst lp0 st0. clear H.
  unfold bind at 1 in Hm. unfold this at 1 in Hm. unfold bind at 1 in Hm.
  destruct (readContract_opt _ _ st) as [[[ta|]|e|] s1]; try discriminate.
  destruct (Viem.isEmpty ta); [discriminate|].
  unfold bind at 1 in Hm.
  destruct (Promise_all2 _ _ s1) as [[[ts bal]|e|] s2]; try discriminate.
  unfold bind at 1 in Hm.
  destruct (getToken ta s2) as [[meta|e|] s3]; try discriminate.
  unfold bind at 1 in Hm. unfold defined in Hm.
  destruct ts as [ts|]; [|discriminate]. unfold ret at 1 in Hm.
  unfold bind at 1 in Hm. destruct bal as [bal|]; [|discriminate].
  unfold ret in Hm. inversion Hm; subst. simpl.
  split; apply isIntegerString_BigInt_toString.
Qed.

(** The amounts read from the ledger.  Every monetary amount the client
    takes from the ledger -- reserves, buy and sell price, token ratio, fee amounts, the supply
    and balance of the LP token, the amounts and prices of the buy, sell
    and swap records -- is the decimal string of an integer in minor
    units, and so is the result of [getTotalLiquidity] whenever it returns
    one.  (The derived metrics [getAvgPrice] and [get24hVolume] are the
    text of a double-precision number.) *)
Theorem ledger_amounts_are_integer_strings :
  (forall tok st r st',
      getReserves CA tok st = (Ok r, st') ->
      isIntegerString (tokenReserve r) = true /\
      isIntegerString (ethReserve r) = true) /\
  (forall tok st s st',
      getBuyPrice CA tok st = (Ok s, st') -> isIntegerString s = true) /\
  (forall tok st s st',
      getSellPrice CA tok st = (Ok s, st') -> isIntegerString s = true) /\
  (forall tok st s st',
      getTokenRatio CA tok st = (Ok s, st') -> isIntegerString s = true) /\
  (forall tok a b st l st',
      getPoolFeeEvents CA tok a b st = (Ok l, st') ->
      List.Forall (fun ev => isIntegerString (fee ev) = true) l) /\
  (forall tok user st lp st',
      getLPToken tok user st = (Ok lp, st') ->
      isIntegerString (totalSupply lp) = true /\
      isIntegerString (balance lp) = true) /\
  (forall avg r s,
      getTotalLiquidity avg r = Ok s -> isIntegerString s = true) /\
  (forall log tok ts,
      isIntegerString (buy_ethAmount (buyTrade log tok ts)) = true /\
      isIntegerString (buy_buyPrice (buyTrade log tok ts)) = true /\
      isIntegerString (buy_sellPrice (buyTrade log tok ts)) = true) /\
  (forall log tok ts,
      isIntegerString (sell_ethAmount (sellTrade log tok ts)) = true /\
      isIntegerString (sell_sellPrice (sellTrade log tok ts)) = true /\
      isIntegerString (sell_buyPrice (sellTrade log tok ts)) = true) /\
  (forall log tIn tOut ts,
      isIntegerString (amountIn (swapTrade log tIn tOut ts)) = true /\
      isIntegerString (amountOut (swapTrade log tIn tOut ts)) = true /\
      isIntegerString (swap_sellPrice (swapTrade log tIn tOut ts)) = true /\
      isIntegerString (swap_buyPrice (swapTrade log tIn tOut ts)) = true).
Proof.
  repeat match goal with |- _ /\ _ => split end.
  - intros tok st r st'. apply getReserves_integer.
  - intros tok st s st'. apply readAmount_integer.
  - intros tok st s st'. apply readAmount_integer.
  - intros tok st s st'. apply readAmount_integer.
  - intros tok a b st l st'. apply getPoolFeeEvents_integer.
  - intros tok user st lp st'. apply getLPToken_integer.
  - intros avg r s. apply getTotalLiquidity_integer.
  - intros; simpl; repeat split; apply isIntegerString_BigInt_toString.
  - intros; simpl; repeat split; apply isIntegerString_BigInt_toString.
  - intros; simpl; repeat split; apply isIntegerString_BigInt_toString.
Qed.

End LedgerAmounts.

(** The reserves of a pool holding 7 tokens and 5 ETH. *)
Lemma ledger_amounts_are_integer_strings_witness :
  isIntegerString "7000000000000000000" = true /\
  isIntegerString "5000000000000000000" = true.
Proof.
  destruct (ledger_amounts_are_integer_strings CONTRACT_ADDRESSES) as [H _].
  apply (H TKN (start (wallet accepting steadyLedger) steadyNow)
           {| tokenReserve := "7000000000000000000";
              ethReserve := "5000000000000000000" |}
           (after (start (wallet accepting steadyLedger) steadyNow)
              [ReadContract (poolCall (wallet accepting steadyLedger) "reserves"
                               [AddressArg (address TKN)])])).
  reflexivity.
Defined.

(** Where [getTotalLiquidity] is exact.  It evaluates avgPrice times the
    token reserve in whole units, divided by 10^18, plus the ETH reserve
    in whole units, in double-precision arithmetic, and converts the
    result back to minor units.  When the three inputs are whole multiples of
    10^18, say a, t and e units, and small enough for every intermediate
    double to be exact, the result is (a * t + e) * 10^18, which is the
    exact value avgPrice * tokenReserve / 10^18 + ethReserve. *)
Theorem getTotalLiquidity_whole_units a t e :
  0 <= a -> 0 <= t -> 0 <= e ->
  a * 5 ^ 18 < 2 ^ 53 -> t < 2 ^ 53 -> a * t * 5 ^ 18 < 2 ^ 53 ->
  a * t + e < 2 ^ 52 ->
  getTotalLiquidity (BigInt_toString (a * 10 ^ 18))
    {| tokenReserve := BigInt_toString (t * 10 ^ 18);
       ethReserve := BigInt_toString (e * 10 ^ 18) |}
  = Ok (BigInt_toString ((a * t + e) * 10 ^ 18)) /\
  Qeq (spec_totalLiquidity (a * 10 ^ 18) (t * 10 ^ 18) (e * 10 ^ 18))
      (inject_Z ((a * t + e) * 10 ^ 18)).
Proof.
  intros Ha Ht He Hab Htb Hatb Hsum. split.
  - unfold getTotalLiquidity. cbn [tokenReserve ethReserve].
    rewrite !BigInt_toString_nonneg by nia.
    rewrite !BigInt_natToString by nia. cbn [Viem.bindO].
    rewrite !formatEther_whole by assumption.
    rewrite Number_of_string_ether by assumption.
    rewrite !Number_of_string_natToString by nia.
    rewrite mul_div_ether by assumption.
    rewrite add_int by nia.
    rewrite Number_toString_int by nia.
    rewrite parseEther_whole by nia. cbn [Viem.bindO].
    rewrite BigInt_toString_nonneg by nia. reflexivity.
  - unfold spec_totalLiquidity. rewrite !inject_Z_mult, inject_Z_plus, inject_Z_mult.
    field. intros H. vm_compute in H. discriminate.
Qed.

(** The fixture of the design document: a price of 2 * 10^18, a token
    reserve of 10^18 and an ETH reserve of 10^18 give 3 * 10^18. *)
Lemma getTotalLiquidity_whole_units_witness :
  getTotalLiquidity "2000000000000000000"
    {| tokenReserve := "1000000000000000000"; ethReserve := "1000000000000000000" |}
  = Ok "3000000000000000000" /\
  Qeq (spec_totalLiquidity 2000000000000000000 1000000000000000000 1000000000000000000)
      (inject_Z 3000000000000000000).
Proof.
  exact (getTotalLiquidity_whole_units 2 1 1
           ltac:(lia) ltac:(lia) ltac:(lia) ltac:(reflexivity) ltac:(reflexivity)
           ltac:(reflexivity) ltac:(reflexivity)).
Defined.

(* ================================================================== *)
(** * Properties of the rest of the client                          *)
(* ================================================================== *)

(** ** The other mutations *)

Section MutationFacts.

Lemma callWriteContract_eval call st :
  callWriteContract call st = (writeContract (self st) call, after st [WriteContract call]).
Proof.
  unfold callWriteContract, bind, this. rewrite emit_after. unfold lift.
  destruct (writeContract (self st) call); reflexivity.
Qed.

Lemma withdraw_eval req st :
  withdraw req st
  = match BigInt (lpTokenAmount req) with
    | Ok amount =>
        let approval := approveCall (self st) (lp_address (wd_lpToken req)) amount in
        let call := withdrawCall (self st) req amount in
        match writeContract (self st) approval with
        | Ok _ =>
            match writeContract (self st) call with
            | Ok h =>
                (Ok {| wd_success := true; wd_txHash := h;
                       wd_timestamp := ofZ (clock st); wd_error := "";
                       withdrawRequest := req |},
                 after st [WriteContract approval; WriteContract call])
            | Throw e =>
                (Throw (ErrorObject ("Withdraw failed: " +:+ message_in_template e)),
                 after st [WriteContract approval; WriteContract call])
            | OutOfFuel =>
                (OutOfFuel, after st [WriteContract approval; WriteContract call])
            end
        | Throw e =>
            (Throw (ErrorObject ("Withdraw failed: " +:+ "Token approval failed: "
                                 +:+ message_in_template e)),
             after st [WriteContract approval])
        | OutOfFuel => (OutOfFuel, after st [WriteContract approval])
        end
    | Throw e =>
        (Throw (ErrorObject ("Withdraw failed: " +:+ message_in_template e)), st)
    | OutOfFuel => (OutOfFuel, st)
    end.
Proof.
  unfold withdraw, tryCatch. unfold bind at 1. unfold Date_now at 1.
  unfold bind at 1. unfold lift at 1.
  destruct (BigInt (lpTokenAmount req)) as [amount|e|] eqn:Ha; try reflexivity.
  unfold bind at 1. rewrite approveToken_eval.
  fold (approveCall (self st) (lp_address (wd_lpToken req)) amount).
  cbv zeta.
  destruct (writeContract (self st) (approveCall _ _ _)) as [h1|e|]; try reflexivity.
  unfold bind at 1. unfold this at 1. unfold bind at 1. unfold lift at 1.
  unfold bind at 1. rewrite callWriteContract_eval.
  rewrite after_after. cbn [app].
  change (self (after st _)) with (self st).
  fold (withdrawCall (self st) req amount).
  destruct (writeContract (self st) (withdrawCall (self st) req amount)); reflexivity.
Qed.

Lemma swap_eval req st :
  swap req st
  = match BigInt (sw_amountIn req) with
    | Ok amount =>
        let approval := approveCall (self st) (address (sw_tokenIn req)) amount in
        match writeContract (self st) approval with
        | Ok _ =>
            match BigInt (minimumTokenOut req) with
            | Ok minimumOut =>
                let call := swapCall (self st) req amount minimumOut in
                match writeContract (self st) call with
                | Ok h =>
                    (Ok {| sw_success := true; sw_txHash := h;
                           sw_timestamp := ofZ (clock st); sw_error := "";
                           swapRequest := req |},
                     after st [WriteContract approval; WriteContract call])
                | Throw e =>
                    (Throw (ErrorObject ("Swap failed: " +:+ message_in_template e)),
                     after st [WriteContract approval; WriteContract call])
                | OutOfFuel =>
                    (OutOfFuel, after st [WriteContract approval; WriteContract call])
                end
            | Throw e =>
                (Throw (ErrorObject ("Swap failed: " +:+ message_in_template e)),
                 after st [WriteContract approval])
            | OutOfFuel => (OutOfFuel, after st [WriteContract approval])
            end
        | Throw e =>
            (Throw (ErrorObject ("Swap failed: " +:+ "Token approval failed: "
                                 +:+ message_in_template e)),
             after st [WriteContract approval])
        | OutOfFuel => (OutOfFuel, after st [WriteContract approval])
        end
    | Throw e => (Throw (ErrorObject ("Swap failed: " +:+ message_in_template e)), st)
    | OutOfFuel => (OutOfFuel, st)
    end.
Proof.
  unfold swap, tryCatch. unfold bind at 1. unfold Date_now at 1.
  unfold bind at 1. unfold lift at 1.
  destruct (BigInt (sw_amountIn req)) as [amount|e|]; try reflexivity.
  unfold bind at 1. rewrite approveToken_eval.
  fold (approveCall (self st) (address (sw_tokenIn req)) amount). cbv zeta.
  destruct (writeContract (self st) (approveCall _ _ _)) as [h1|e|]; try reflexivity.
  unfold bind at 1. unfold this at 1. unfold bind at 1. unfold lift at 1.
  unfold bind at 1. unfold lift at 1.
  destruct (BigInt (minimumTokenOut req)) as [minimumOut|e|]; try reflexivity.
  unfold bind at 1. rewrite callWriteContract_eval.
  rewrite after_after. cbn [app].
  change (self (after st _)) with (self st).
  fold (swapCall (self st) req amount minimumOut).
  destruct (writeContract (self st) (swapCall (self st) req amount minimumOut));
    reflexivity.
Qed.

Lemma sell_eval req st :
  sell req st
  = match BigInt (sr_amountIn req) with
    | Ok amount =>
        let approval := approveCall (self st) (address (sr_token req)) amount in
        match writeContract (self st) approval with
        | Ok _ =>
            match BigInt (minimumEthAmount req) with
            | Ok minimumEth =>
                let call := sellCall (self st) req amount minimumEth in
                match writeContract (self st) call with
                | Ok h =>
                    (Ok {| sr_success := true; sr_txHash := h; sellRequest := req;
                           sr_amountOut := ""; sr_timestamp := ofZ (clock st) |},
                     after st [WriteContract approval; WriteContract call])
                | Throw e =>
                    (Throw (ErrorObject ("Sell failed: " +:+ message_in_template e)),
                     after st [WriteContract approval; WriteContract call])
                | OutOfFuel =>
                    (OutOfFuel, after st [WriteContract approval; WriteContract call])
                end
            | Throw e =>
                (Throw (ErrorObject ("Sell failed: " +:+ message_in_template e)),
                 after st [WriteContract approval])
            | OutOfFuel => (OutOfFuel, after st [WriteContract approval])
            end
        | Throw e =>
            (Throw (ErrorObject ("Sell failed: " +:+ "Token approval failed: "
                                 +:+ message_in_template e)),
             after st [WriteContract approval])
        | OutOfFuel => (OutOfFuel, after st [WriteContract approval])
        end
    | Throw e => (Throw (ErrorObject ("Sell failed: " +:+ message_in_template e)), st)
    | OutOfFuel => (OutOfFuel, st)
    end.
Proof.
  unfold sell, tryCatch. unfold bind at 1. unfold Date_now at 1.
  unfold bind at 1. unfold lift at 1.
  destruct (BigInt (sr_amountIn req)) as [amount|e|]; try reflexivity.
  unfold bind at 1. rewrite approveToken_eval.
  fold (approveCall (self st) (address (sr_token req)) amount). cbv zeta.
  destruct (writeContract (self st) (approveCall _ _ _)) as [h1|e|]; try reflexivity.
  unfold bind at 1. unfold this at 1. unfold bind at 1. unfold lift at 1.
  unfold bind at 1. unfold lift at 1.
  destruct (BigInt (minimumEthAmount req)) as [minimumEth|e|]; try reflexivity.
  unfold bind at 1. rewrite callWriteContract_eval.
  rewrite after_after. cbn [app].
  change (self (after st _)) with (self st).
  fold (sellCall (self st) req amount minimumEth).
  destruct (writeContract (self st) (sellCall (self st) req amount minimumEth));
    reflexivity.
Qed.

Lemma buy_eval req st :
  buy req st
  = match BigInt (minimumAmountToBuy req) with
    | Ok minimum =>
        match BigInt (br_amountIn req) with
        | Ok v =>
            let call := buyCall (self st) req minimum v in
            match writeContract (self st) call with
            | Ok h =>
                (Ok {| br_success := true; br_txHash := h; buyRequest := req;
                       br_amountOut := ""; br_timestamp := ofZ (clock st) |},
                 after st [WriteContract call])
            | Throw e =>
                (Throw (ErrorObject ("Buy failed: " +:+ message_in_template e)),
                 after st [WriteContract call])
            | OutOfFuel => (OutOfFuel, after st [WriteContract call])
            end
        | Throw e => (Throw (ErrorObject ("Buy failed: " +:+ message_in_template e)), st)
        | OutOfFuel => (OutOfFuel, st)
        end
    | Throw e => (Throw (ErrorObject ("Buy failed: " +:+ message_in_template e)), st)
    | OutOfFuel => (OutOfFuel, st)
    end.
Proof.
  unfold buy, tryCatch. unfold bind at 1. unfold Date_now at 1.
  unfold bind at 1. unfold this at 1. unfold bind at 1. unfold lift at 1.
  destruct (BigInt (minimumAmountToBuy req)) as [minimum|e|]; try reflexivity.
  unfold bind at 1. unfold lift at 1.
  destruct (BigInt (br_amountIn req)) as [v|e|]; try reflexivity.
  unfold bind at 1. rewrite callWriteContract_eval.
  fold (buyCall (self st) req minimum v). cbv zeta.
  destruct (writeContract (self st) (buyCall (self st) req minimum v)); reflexivity.
Qed.

Lemma initializePool_eval p st :
  initializePool p st
  = match BigInt (init_tokenAmount p) with
    | Ok amount =>
        let approval := approveCall (self st) (init_token p) amount in
        match writeContract (self st) approval with
        | Ok _ =>
            match BigInt (initialBuyPrice p) with
            | Ok buyPrice =>
                match BigInt (initialSellPrice p) with
                | Ok sellPrice =>
                    match BigInt (init_ethAmount p) with
                    | Ok v =>
                        let call :=
                          initializePoolCall (self st) p amount buyPrice sellPrice v in
                        match writeContract (self st) call with
                        | Ok h =>
                            (Ok {| init_success := true; init_txHash := h;
                                   init_timestamp := ofZ (clock st);
                                   init_error := "" |},
                             after st [WriteContract approval; WriteContract call])
                        | Throw e =>
                            (Throw (ErrorObject ("Pool initialization failed: "
                                                 +:+ message_in_template e)),
                             after st [WriteContract approval; WriteContract call])
                        | OutOfFuel =>
                            (OutOfFuel,
                             after st [WriteContract approval; WriteContract call])
                        end
                    | Throw e =>
                        (Throw (ErrorObject ("Pool initialization failed: "
                                             +:+ message_in_template e)),
                         after st [WriteContract approval])
                    | OutOfFuel => (OutOfFuel, after st [WriteContract approval])
                    end
                | Throw e =>
                    (Throw (ErrorObject ("Pool initialization failed: "
                                         +:+ message_in_template e)),
                     after st [WriteContract approval])
                | OutOfFuel => (OutOfFuel, after st [WriteContract approval])
                end
            | Throw e =>
                (Throw (ErrorObject ("Pool initialization failed: "
                                     +:+ message_in_template e)),
                 after st [WriteContract approval])
            | OutOfFuel => (OutOfFuel, after st [WriteContract approval])
            end
        | Throw e =>
            (Throw (ErrorObject ("Pool initialization failed: "
                                 +:+ "Token approval failed: "
                                 +:+ message_in_template e)),
             after st [WriteContract approval])
        | OutOfFuel => (OutOfFuel, after st [WriteContract approval])
        end
    | Throw e =>
        (Throw (ErrorObject ("Pool initialization failed: " +:+ message_in_template e)),
         st)
    | OutOfFuel => (OutOfFuel, st)
    end.
Proof.
  unfold initializePool, tryCatch. unfold bind at 1. unfold Date_now at 1.
  unfold bind at 1. unfold lift at 1.
  destruct (BigInt (init_tokenAmount p)) as [amount|e|]; try reflexivity.
  unfold bind at 1. rewrite approveToken_eval.
  fold (approveCall (self st) (init_token p) amount). cbv zeta.
  destruct (writeContract (self st) (approveCall _ _ _)) as [h1|e|]; try reflexivity.
  unfold bind at 1. unfold this at 1. unfold bind at 1. unfold lift at 1.
  unfold bind at 1. unfold lift at 1.
  destruct (BigInt (initialBuyPrice p)) as [buyPrice|e|]; try reflexivity.
  unfold bind at 1. unfold lift at 1.
  destruct (BigInt (initialSellPrice p)) as [sellPrice|e|]; try reflexivity.
  unfold bind at 1. unfold lift at 1.
  destruct (BigInt (init_ethAmount p)) as [v|e|]; try reflexivity.
  unfold bind at 1. rewrite callWriteContract_eval.
  rewrite after_after. cbn [app].
  change (self (after st _)) with (self st).
  fold (initializePoolCall (self st) p amount buyPrice sellPrice v).
  destruct (writeContract (self st) (initializePoolCall _ _ _ _ _ _)); reflexivity.
Qed.

End MutationFacts.

(** [withdraw] hands the wallet at most two calls and nothing else:
    first the allowance of [lpTokenAmount] of the LP token to the pool
    contract, and, once that is accepted, ['withdraw'] with the token and
    the same amount.  It returns a result only when both were accepted;
    a rejected approval is reported as a withdraw failure and the
    ['withdraw'] call is never submitted; a malformed amount fails before
    anything is submitted. *)
Theorem withdraw_approves_then_withdraws :
  forall (req : WithdrawRequest) (st : State),
    (exists tr,
       snd (withdraw req st) = after st tr /\
       (tr = [] \/
        exists amount,
          BigInt (lpTokenAmount req) = Ok amount /\
          (tr = [WriteContract (approveCall (self st) (lp_address (wd_lpToken req)) amount)] \/
           tr = [WriteContract (approveCall (self st) (lp_address (wd_lpToken req)) amount);
                 WriteContract (withdrawCall (self st) req amount)]))) /\
    (forall r st',
       withdraw req st = (Ok r, st') ->
       exists amount h,
         BigInt (lpTokenAmount req) = Ok amount /\
         writeContract (self st)
           (approveCall (self st) (lp_address (wd_lpToken req)) amount) = Ok h /\
         writeContract (self st) (withdrawCall (self st) req amount) = Ok (wd_txHash r) /\
         st' = after st
                 [WriteContract (approveCall (self st) (lp_address (wd_lpToken req)) amount);
                  WriteContract (withdrawCall (self st) req amount)] /\
         wd_success r = true /\ withdrawRequest r = req) /\
    (forall amount e,
       BigInt (lpTokenAmount req) = Ok amount ->
       writeContract (self st)
         (approveCall (self st) (lp_address (wd_lpToken req)) amount) = Throw e ->
       withdraw req st
       = (Throw (ErrorObject ("Withdraw failed: Token approval failed: "
                              +:+ message_in_template e)),
          after st [WriteContract
                      (approveCall (self st) (lp_address (wd_lpToken req)) amount)])) /\
    (forall e,
       BigInt (lpTokenAmount req) = Throw e ->
       withdraw req st
       = (Throw (ErrorObject ("Withdraw failed: " +:+ message_in_template e)), st)).
Proof.
  intros req st. rewrite withdraw_eval. split; [|split; [|split]].
  - destruct (BigInt (lpTokenAmount req)) as [amount|e|].
    + cbv zeta.
      destruct (writeContract (self st) (approveCall _ _ _)) as [h|e|];
        [destruct (writeContract (self st) (withdrawCall _ _ _)) as [h2|e|]|..];
        eexists; (split; [reflexivity|]); right; exists amount;
        (split; [reflexivity|]); auto.
    + exists []. rewrite after_nil. auto.
    + exists []. rewrite after_nil. auto.
  - intros r st' H.
    destruct (BigInt (lpTokenAmount req)) as [amount|e|]; try discriminate.
    cbv zeta in H.
    destruct (writeContract (self st) (approveCall _ _ _)) as [h|e|] eqn:H1;
      try discriminate.
    destruct (writeContract (self st) (withdrawCall _ _ _)) as [h2|e|] eqn:H2;
      try discriminate.
    inversion H; subst. exists amount, h. repeat split; auto.
  - intros amount e Ha Hw. rewrite Ha. cbv zeta. rewrite Hw. reflexivity.
  - intros e Ha. rewrite Ha. reflexivity.
Qed.

(** [swap] hands the wallet at most two calls and nothing else: the
    allowance of [amountIn] of the token sold to the pool contract, then
    ['swap'].  A rejected approval is a swap failure and ['swap'] is never
    submitted.  The minimum output is parsed only after the approval: when
    it is malformed the approval has already been submitted and accepted,
    and ['swap'] is not submitted. *)
Theorem swap_approves_then_swaps :
  forall (req : SwapRequest) (st : State),
    (exists tr,
       snd (swap req st) = after st tr /\
       (tr = [] \/
        exists amount,
          BigInt (sw_amountIn req) = Ok amount /\
          (tr = [WriteContract (approveCall (self st) (address (sw_tokenIn req)) amount)] \/
           exists minimumOut,
             BigInt (minimumTokenOut req) = Ok minimumOut /\
             tr = [WriteContract (approveCall (self st) (address (sw_tokenIn req)) amount);
                   WriteContract (swapCall (self st) req amount minimumOut)]))) /\
    (forall r st',
       swap req st = (Ok r, st') ->
       exists amount minimumOut h,
         BigInt (sw_amountIn req) = Ok amount /\
         BigInt (minimumTokenOut req) = Ok minimumOut /\
         writeContract (self st)
           (approveCall (self st) (address (sw_tokenIn req)) amount) = Ok h /\
         writeContract (self st) (swapCall (self st) req amount minimumOut)
         = Ok (sw_txHash r) /\
         st' = after st
                 [WriteContract (approveCall (self st) (address (sw_tokenIn req)) amount);
                  WriteContract (swapCall (self st) req amount minimumOut)] /\
         sw_success r = true /\ swapRequest r = req) /\
    (forall amount e,
       BigInt (sw_amountIn req) = Ok amount ->
       writeContract (self st)
         (approveCall (self st) (address (sw_tokenIn req)) amount) = Throw e ->
       swap req st
       = (Throw (ErrorObject ("Swap failed: Token approval failed: "
                              +:+ message_in_template e)),
          after st [WriteContract
                      (approveCall (self st) (address (sw_tokenIn req)) amount)])) /\
    (forall amount h e,
       BigInt (sw_amountIn req) = Ok amount ->
       writeContract (self st)
         (approveCall (self st) (address (sw_tokenIn req)) amount) = Ok h ->
       BigInt (minimumTokenOut req) = Throw e ->
       swap req st
       = (Throw (ErrorObject ("Swap failed: " +:+ message_in_template e)),
          after st [WriteContract
                      (approveCall (self st) (address (sw_tokenIn req)) amount)])).
Proof.
  intros req st. rewrite swap_eval. split; [|split; [|split]].
  - destruct (BigInt (sw_amountIn req)) as [amount|e|].
    + cbv zeta.
      destruct (writeContract (self st) (approveCall _ _ _)) as [h|e|].
      * destruct (BigInt (minimumTokenOut req)) as [minimumOut|e|].
        -- destruct (writeContract (self st) (swapCall _ _ _ _)) as [h2|e|];
             eexists; (split; [reflexivity|]); right; exists amount;
             (split; [reflexivity|]); right; exists minimumOut; auto.
        -- eexists; split; [reflexivity|]. right. exists amount. auto.
        -- eexists; split; [reflexivity|]. right. exists amount. auto.
      * eexists; split; [reflexivity|]. right. exists amount. auto.
      * eexists; split; [reflexivity|]. right. exists amount. auto.
    + exists []. rewrite after_nil. auto.
    + exists []. rewrite after_nil. auto.
  - intros r st' H.
    destruct (BigInt (sw_amountIn req)) as [amount|e|]; try discriminate.
    cbv zeta in H.
    destruct (writeContract (self st) (approveCall _ _ _)) as [h|e|] eqn:H1;
      try discriminate.
    destruct (BigInt (minimumTokenOut req)) as [minimumOut|e|]; try discriminate.
    destruct (writeContract (self st) (swapCall _ _ _ _)) as [h2|e|] eqn:H2;
      try discriminate.
    inversion H; subst. exists amount, minimumOut, h. repeat split; auto.
  - intros amount e Ha Hw. rewrite Ha. cbv zeta. rewrite Hw. reflexivity.
  - intros amount h e Ha Hw Hm. rewrite Ha. cbv zeta. rewrite Hw, Hm. reflexivity.
Qed.

(** [sell] hands the wallet at most two calls and nothing else: the
    allowance of [amountIn] of the token to the pool contract, then
    ['sell'].  A rejected approval is a sell failure and ['sell'] is never
    submitted; a malformed [minimumEthAmount] is found only after the
    approval was submitted and accepted. *)
Theorem sell_approves_then_sells :
  forall (req : SellRequest) (st : State),
    (exists tr,
       snd (sell req st) = after st tr /\
       (tr = [] \/
        exists amount,
          BigInt (sr_amountIn req) = Ok amount /\
          (tr = [WriteContract (approveCall (self st) (address (sr_token req)) amount)] \/
           exists minimumEth,
             BigInt (minimumEthAmount req) = Ok minimumEth /\
             tr = [WriteContract (approveCall (self st) (address (sr_token req)) amount);
                   WriteContract (sellCall (self st) req amount minimumEth)]))) /\
    (forall r st',
       sell req st = (Ok r, st') ->
       exists amount minimumEth h,
         BigInt (sr_amountIn req) = Ok amount /\
         BigInt (minimumEthAmount req) = Ok minimumEth /\
         writeContract (self st)
           (approveCall (self st) (address (sr_token req)) amount) = Ok h /\
         writeContract (self st) (sellCall (self st) req amount minimumEth)
         = Ok (sr_txHash r) /\
         st' = after st
                 [WriteContract (approveCall (self st) (address (sr_token req)) amount);
                  WriteContract (sellCall (self st) req amount minimumEth)] /\
         sr_success r = true /\ sellRequest r = req /\ sr_amountOut r = "") /\
    (forall amount e,
       BigInt (sr_amountIn req) = Ok amount ->
       writeContract (self st)
         (approveCall (self st) (address (sr_token req)) amount) = Throw e ->
       sell req st
       = (Throw (ErrorObject ("Sell failed: Token approval failed: "
                              +:+ message_in_template e)),
          after st [WriteContract
                      (approveCall (self st) (address (sr_token req)) amount)])) /\
    (forall amount h e,
       BigInt (sr_amountIn req) = Ok amount ->
       writeContract (self st)
         (approveCall (self st) (address (sr_token req)) amount) = Ok h ->
       BigInt (minimumEthAmount req) = Throw e ->
       sell req st
       = (Throw (ErrorObject ("Sell failed: " +:+ message_in_template e)),
          after st [WriteContract
                      (approveCall (self st) (address (sr_token req)) amount)])).
Proof.
  intros req st. rewrite sell_eval. split; [|split; [|split]].
  - destruct (BigInt (sr_amountIn req)) as [amount|e|].
    + cbv zeta.
      destruct (writeContract (self st) (approveCall _ _ _)) as [h|e|].
      * destruct (BigInt (minimumEthAmount req)) as [minimumEth|e|].
        -- destruct (writeContract (self st) (sellCall _ _ _ _)) as [h2|e|];
             eexists; (split; [reflexivity|]); right; exists amount;
             (split; [reflexivity|]); right; exists minimumEth; auto.
        -- eexists; split; [reflexivity|]. right. exists amount. auto.
        -- eexists; split; [reflexivity|]. right. exists amount. auto.
      * eexists; split; [reflexivity|]. right. exists amount. auto.
      * eexists; split; [reflexivity|]. right. exists amount. auto.
    + exists []. rewrite after_nil. auto.
    + exists []. rewrite after_nil. auto.
  - intros r st' H.
    destruct (BigInt (sr_amountIn req)) as [amount|e|]; try discriminate.
    cbv zeta in H.
    destruct (writeContract (self st) (approveCall _ _ _)) as [h|e|] eqn:H1;
      try discriminate.
    destruct (BigInt (minimumEthAmount req)) as [minimumEth|e|]; try discriminate.
    destruct (writeContract (self st) (sellCall _ _ _ _)) as [h2|e|] eqn:H2;
      try discriminate.
    inversion H; subst. exists amount, minimumEth, h. repeat split; auto.
  - intros amount e Ha Hw. rewrite Ha. cbv zeta. rewrite Hw. reflexivity.
  - intros amount h e Ha Hw Hm. rewrite Ha. cbv zeta. rewrite Hw, Hm. reflexivity.
Qed.

(** [buy] never asks for a token allowance: the only call it can hand
    the wallet is ['buy'] on the pool contract, carrying [amountIn] as the
    value sent and [minimumAmountToBuy] as the argument; when either
    amount is malformed nothing is submitted.  The result it returns has
    an empty [amountOut]. *)
Theorem buy_submits_one_call :
  forall (req : BuyRequest) (st : State),
    (exists tr,
       snd (buy req st) = after st tr /\
       (tr = [] \/
        exists minimum v,
          BigInt (minimumAmountToBuy req) = Ok minimum /\
          BigInt (br_amountIn req) = Ok v /\
          tr = [WriteContract (buyCall (self st) req minimum v)])) /\
    (forall call,
       In call (writesOf (events (snd (buy req st)))) ->
       In call (writesOf (events st)) \/ functionName call = "buy") /\
    (forall r st',
       buy req st = (Ok r, st') ->
       exists minimum v,
         BigInt (minimumAmountToBuy req) = Ok minimum /\
         BigInt (br_amountIn req) = Ok v /\
         writeContract (self st) (buyCall (self st) req minimum v) = Ok (br_txHash r) /\
         st' = after st [WriteContract (buyCall (self st) req minimum v)] /\
         br_success r = true /\ buyRequest r = req /\ br_amountOut r = "") /\
    (forall e st',
       buy req st = (Throw e, st') ->
       exists m, e = ErrorObject ("Buy failed: " +:+ m)).
Proof.
  intros req st.
  assert (Htr : exists tr,
             snd (buy req st) = after st tr /\
             (tr = [] \/
              exists minimum v,
                BigInt (minimumAmountToBuy req) = Ok minimum /\
                BigInt (br_amountIn req) = Ok v /\
                tr = [WriteContract (buyCall (self st) req minimum v)])).
  { rewrite buy_eval.
    destruct (BigInt (minimumAmountToBuy req)) as [minimum|e|];
      [destruct (BigInt (br_amountIn req)) as [v|e|]|..];
      try (exists []; rewrite after_nil; auto; fail).
    cbv zeta.
    destruct (writeContract (self st) (buyCall _ _ _ _)) as [h|e|];
      eexists; (split; [reflexivity|]); right; exists minimum, v; auto. }
  split; [exact Htr|]. split; [|split].
  - destruct Htr as [tr [-> Htr]]. intros call Hin.
    cbn [events after] in Hin. rewrite writesOf_app in Hin.
    apply in_app_or in Hin. destruct Hin as [Hin|Hin]; [now left|right].
    destruct Htr as [->|[minimum [v [_ [_ ->]]]]]; [destruct Hin|].
    cbn in Hin. destruct Hin as [<-|[]]. reflexivity.
  - rewrite buy_eval. intros r st' H.
    destruct (BigInt (minimumAmountToBuy req)) as [minimum|e|]; try discriminate.
    destruct (BigInt (br_amountIn req)) as [v|e|]; try discriminate.
    cbv zeta in H.
    destruct (writeContract (self st) (buyCall _ _ _ _)) as [h|e|] eqn:Hw;
      try discriminate.
    inversion H; subst. exists minimum, v. repeat split; auto.
  - rewrite buy_eval. intros e st' H.
    destruct (BigInt (minimumAmountToBuy req)) as [minimum|e0|]; try discriminate;
      [|inversion H; eauto].
    destruct (BigInt (br_amountIn req)) as [v|e0|]; try discriminate;
      [|inversion H; eauto].
    cbv zeta in H.
    destruct (writeContract (self st) (buyCall _ _ _ _)) as [h|e0|];
      try discriminate. inversion H; eauto.
Qed.

(** [initializePool] hands the wallet at most two calls and nothing
    else: the allowance of [tokenAmount] of the token to the pool
    contract, then ['initializePool'] with the token, the same amount and
    the two initial prices, carrying [ethAmount] as the value sent.  A
    rejected approval is reported as a pool initialization failure and
    ['initializePool'] is never submitted; the prices and the ETH amount
    are parsed only after the approval was accepted. *)
Theorem initializePool_approves_then_initializes :
  forall (p : InitPool) (st : State),
    (exists tr,
       snd (initializePool p st) = after st tr /\
       (tr = [] \/
        exists amount,
          BigInt (init_tokenAmount p) = Ok amount /\
          (tr = [WriteContract (approveCall (self st) (init_token p) amount)] \/
           exists buyPrice sellPrice v,
             BigInt (initialBuyPrice p) = Ok buyPrice /\
             BigInt (initialSellPrice p) = Ok sellPrice /\
             BigInt (init_ethAmount p) = Ok v /\
             tr = [WriteContract (approveCall (self st) (init_token p) amount);
                   WriteContract
                     (initializePoolCall (self st) p amount buyPrice sellPrice v)]))) /\
    (forall r st',
       initializePool p st = (Ok r, st') ->
       exists amount buyPrice sellPrice v h,
         BigInt (init_tokenAmount p) = Ok amount /\
         BigInt (initialBuyPrice p) = Ok buyPrice /\
         BigInt (initialSellPrice p) = Ok sellPrice /\
         BigInt (init_ethAmount p) = Ok v /\
         writeContract (self st) (approveCall (self st) (init_token p) amount) = Ok h /\
         writeContract (self st)
           (initializePoolCall (self st) p amount buyPrice sellPrice v)
         = Ok (init_txHash r) /\
         st' = after st
                 [WriteContract (approveCall (self st) (init_token p) amount);
                  WriteContract
                    (initializePoolCall (self st) p amount buyPrice sellPrice v)] /\
         init_success r = true) /\
    (forall amount e,
       BigInt (init_tokenAmount p) = Ok amount ->
       writeContract (self st) (approveCall (self st) (init_token p) amount) = Throw e ->
       initializePool p st
       = (Throw (ErrorObject ("Pool initialization failed: Token approval failed: "
                              +:+ message_in_template e)),
          after st [WriteContract (approveCall (self st) (init_token p) amount)])) /\
    (forall amount h e,
       BigInt (init_tokenAmount p) = Ok amount ->
       writeContract (self st) (approveCall (self st) (init_token p) amount) = Ok h ->
       BigInt (initialBuyPrice p) = Throw e ->
       initializePool p st
       = (Throw (ErrorObject ("Pool initialization failed: " +:+ message_in_template e)),
          after st [WriteContract (approveCall (self st) (init_token p) amount)])).
Proof.
  intros p st. rewrite initializePool_eval. split; [|split; [|split]].
  - destruct (BigInt (init_tokenAmount p)) as [amount|e|];
      try (exists []; rewrite after_nil; auto; fail).
    cbv zeta.
    destruct (writeContract (self st) (approveCall _ _ _)) as [h|e|];
      try (eexists; split; [reflexivity|]; right; exists amount; auto; fail).
    destruct (BigInt (initialBuyPrice p)) as [buyPrice|e|];
      try (eexists; split; [reflexivity|]; right; exists amount; auto; fail).
    destruct (BigInt (initialSellPrice p)) as [sellPrice|e|];
      try (eexists; split; [reflexivity|]; right; exists amount; auto; fail).
    destruct (BigInt (init_ethAmount p)) as [v|e|];
      try (eexists; split; [reflexivity|]; right; exists amount; auto; fail).
    destruct (writeContract (self st) (initializePoolCall _ _ _ _ _ _)) as [h2|e|];
      eexists; (split; [reflexivity|]); right; exists amount;
      (split; [reflexivity|]); right; exists buyPrice, sellPrice, v; auto.
  - intros r st' H.
    destruct (BigInt (init_tokenAmount p)) as [amount|e|]; try discriminate.
    cbv zeta in H.
    destruct (writeContract (self st) (approveCall _ _ _)) as [h|e|] eqn:H1;
      try discriminate.
    destruct (BigInt (initialBuyPrice p)) as [buyPrice|e|]; try discriminate.
    destruct (BigInt (initialSellPrice p)) as [sellPrice|e|]; try discriminate.
    destruct (BigInt (init_ethAmount p)) as [v|e|]; try discriminate.
    destruct (writeContract (self st) (initializePoolCall _ _ _ _ _ _))
      as [h2|e|] eqn:H2; try discriminate.
    inversion H; subst. exists amount, buyPrice, sellPrice, v, h.
    repeat split; auto.
  - intros amount e Ha Hw. rewrite Ha. cbv zeta. rewrite Hw. reflexivity.
  - intros amount h e Ha Hw Hm. rewrite Ha. cbv zeta. rewrite Hw, Hm. reflexivity.
Qed.

(** ** The guard, outside its good case *)

Section GuardFacts.

Context (CA : gmap Z Address).

Lemma ensureCanRead_unsupported st :
  CA !! chainId (self st) = None ->
  ensureCanRead CA st
  = (Throw (ErrorObject UNSUPPORTED_CHAIN),
     after st [ConsoleError "[ContractClient] Unsupported chain."]).
Proof.
  intros H. unfold ensureCanRead, bind, this. rewrite H.
  rewrite emit_after. reflexivity.
Qed.

Lemma ensureCanRead_unavailable st a :
  CA !! chainId (self st) = Some a -> publicClient (self st) = None ->
  ensureCanRead CA st
  = (Throw (ErrorObject PUBLIC_CLIENT_UNAVAILABLE),
     after st [ConsoleError "[ContractClient] publicClient is undefined."]).
Proof.
  intros H1 H2. unfold ensureCanRead, bind, this. rewrite H1, H2.
  rewrite emit_after. reflexivity.
Qed.

Lemma safeRead_blocked {T} methodName (fallback : T) fn st e st1 :
  ensureCanRead CA st = (Throw e, st1) ->
  safeRead CA methodName fallback fn st = (Throw e, st1).
Proof. intros H. unfold safeRead. unfold bind at 1. rewrite H. reflexivity. Qed.

(** A read that the Connection Guard stops is never run and never
    answered with the fallback: whatever the wrapped read and the
    fallback are, [safeRead] throws [UNSUPPORTED_CHAIN] when the chain is
    not in the table (also when the read handle is missing as well) and
    [PUBLIC_CLIENT_UNAVAILABLE] when the chain is known and the handle is
    missing; the only effect is one line on the error console. *)
Theorem safeRead_stopped_by_guard :
  forall (T : Type) (methodName : string) (fallback : T) (fn : M T) (st : State),
    (CA !! chainId (self st) = None ->
     safeRead CA methodName fallback fn st
     = (Throw (ErrorObject UNSUPPORTED_CHAIN),
        after st [ConsoleError "[ContractClient] Unsupported chain."])) /\
    (CA !! chainId (self st) <> None -> publicClient (self st) = None ->
     safeRead CA methodName fallback fn st
     = (Throw (ErrorObject PUBLIC_CLIENT_UNAVAILABLE),
        after st [ConsoleError "[ContractClient] publicClient is undefined."])) /\
    (canRead CA (self st) = false ->
     forall fallback' fn',
       safeRead CA methodName fallback' fn' st = safeRead CA methodName fallback fn st) /\
    isExpectedReadFailure (ErrorObject UNSUPPORTED_CHAIN) = false /\
    isExpectedReadFailure (ErrorObject PUBLIC_CLIENT_UNAVAILABLE) = false.
Proof.
  intros T methodName fallback fn st. split; [|split; [|split; [|split]]].
  - intros H. apply safeRead_blocked, ensureCanRead_unsupported, H.
  - intros H1 H2. destruct (CA !! chainId (self st)) as [a|] eqn:E; [|congruence].
    apply safeRead_blocked, (ensureCanRead_unavailable st a E H2).
  - intros Hg fallback' fn'. unfold canRead in Hg.
    destruct (CA !! chainId (self st)) as [a|] eqn:E.
    + destruct (publicClient (self st)) as [pc|] eqn:P; [discriminate|].
      rewrite !(safeRead_blocked _ _ _ st _ _ (ensureCanRead_unavailable st a E P)).
      reflexivity.
    + rewrite !(safeRead_blocked _ _ _ st _ _ (ensureCanRead_unsupported st E)).
      reflexivity.
  - vm_compute. reflexivity.
  - vm_compute. reflexivity.
Qed.

(** A client that the constructor returned passes the chain test of
    the Connection Guard for good: the constructor wrote nothing to the
    console, recorded the chain it was given (63 when none was given) and
    the pool address the table lists for it, and kept the two handles;
    on such a client the guard succeeds exactly when a read handle was
    supplied, and fails with [PUBLIC_CLIENT_UNAVAILABLE], never with
    [UNSUPPORTED_CHAIN], when it was not. *)
Theorem constructed_client_passes_chain_test :
  forall (writeContract0 : ContractCall -> Outcome string)
         (publicClient0 : option PublicClient) (chainId0 : option Z)
         (c : ContractClient) (log : list Event),
    constructor CA writeContract0 publicClient0 chainId0 = (Ok c, log) ->
    log = [] /\
    chainId c = match chainId0 with Some n => n | None => 63 end /\
    CA !! chainId c = Some (contractAddress c) /\
    writeContract c = writeContract0 /\
    publicClient c = publicClient0 /\
    (forall st, self st = c ->
       (publicClient0 <> None -> ensureCanRead CA st = (Ok tt, st)) /\
       (publicClient0 = None ->
        ensureCanRead CA st
        = (Throw (ErrorObject PUBLIC_CLIENT_UNAVAILABLE),
           after st [ConsoleError "[ContractClient] publicClient is undefined."]))).
Proof.
  intros wc pc cid c log H. unfold constructor in H.
  destruct (CA !! match cid with Some n => n | None => 63 end) as [addr|] eqn:E;
    [|discriminate].
  inversion H; subst c log. clear H. cbn [chainId contractAddress writeContract publicClient].
  repeat split; try assumption.
  - intros Hpc. apply ensureCanRead_ok. unfold canRead. rewrite H.
    cbn [chainId publicClient]. rewrite E. destruct pc; [reflexivity|congruence].
  - intros Hpc. apply (ensureCanRead_unavailable st addr).
    + rewrite H. exact E.
    + rewrite H. exact Hpc.
Qed.

End GuardFacts.

(** ** Recognising an expected failure inside a longer message *)

Lemma startsWith_app s post p : startsWith s p = true -> startsWith (s +:+ post) p = true.
Proof.
  revert s. induction p as [|b p IH]; intros s H;
    [destruct (s +:+ post); reflexivity|].
  destruct s as [|a s]; [discriminate|]. cbn [startsWith] in H.
  apply andb_true_iff in H as [H1 H2]. rewrite app_cons. cbn [startsWith].
  rewrite H1, (IH s H2). reflexivity.
Qed.

Lemma includes_unfold s p :
  includes s p
  = (startsWith s p || match s with EmptyString => false | String _ r => includes r p end).
Proof. destruct s; reflexivity. Qed.

Lemma includes_suffixed s post p : includes s p = true -> includes (s +:+ post) p = true.
Proof.
  induction s as [|a s IH]; intros H.
  - rewrite includes_unfold in H. rewrite orb_false_r in H.
    rewrite includes_unfold. rewrite (startsWith_app "" post p H). reflexivity.
  - rewrite includes_unfold in H. apply orb_true_iff in H as [H|H].
    + rewrite includes_unfold. rewrite (startsWith_app _ post p H). reflexivity.
    + rewrite app_cons. apply includes_cons. apply IH. exact H.
Qed.

Lemma isExpectedReadFailure_suffixed m post :
  isExpectedReadFailure (ErrorObject m) = true ->
  isExpectedReadFailure (ErrorObject (m +:+ post)) = true.
Proof.
  unfold isExpectedReadFailure, getErrorMessage.
  rewrite toLowerCase_app.
  set (l := toLowerCase m). set (q := toLowerCase post).
  intros H.
  repeat match type of H with
         | (_ || _)%bool = true => apply orb_true_iff in H; destruct H as [H|H]
         end;
  repeat match type of H with
         | (_ && _)%bool = true =>
             let H1 := fresh "H" in apply andb_true_iff in H; destruct H as [H1 H]
         end;
  repeat match type of H with
         | (_ || _)%bool = true => apply orb_true_iff in H; destruct H as [H|H]
         end;
  repeat match goal with
         | K : includes l ?p = true |- _ =>
             apply (fun K => includes_suffixed l q _ K) in K; rewrite K; clear K
         end;
  simpl; rewrite ?orb_true_r; reflexivity.
Qed.

Lemma lower_ascii_idem c : lower_ascii (lower_ascii c) = lower_ascii c.
Proof. by_ascii c. Qed.

Lemma toLowerCase_idem s : toLowerCase (toLowerCase s) = toLowerCase s.
Proof.
  induction s as [|c s IH]; [reflexivity|]. cbn [toLowerCase].
  now rewrite lower_ascii_idem, IH.
Qed.

(** Whether an error is an expected read failure depends on its
    message only up to letter case and is kept when the message is put
    inside a longer text: an error whose message carries an expected
    failure's message anywhere in it is expected too.  This is why the
    errors that [getToken], [getLPToken] and [getBlockTimestamp] rethrow
    under their own prefix still get the fallback of an enclosing
    [safeRead], and the value thrown need not be an [Error] object: any
    other value is judged by its text. *)
Theorem isExpectedReadFailure_inside_longer_message :
  forall (m : string),
    isExpectedReadFailure (ErrorObject m) = true ->
    (forall before behind,
       isExpectedReadFailure (ErrorObject (before +:+ m +:+ behind)) = true) /\
    isExpectedReadFailure (ErrorObject (toLowerCase m)) = true /\
    (forall message,
       isExpectedReadFailure (OtherValue message m) = true) /\
    isExpectedReadFailure (ErrorObject ("Error fetching token data: " +:+ m)) = true /\
    isExpectedReadFailure
      (ErrorObject ("Error fetching LP token data: Error fetching token data: " +:+ m))
    = true /\
    isExpectedReadFailure (ErrorObject ("Error fetching block timestamp: " +:+ m)) = true.
Proof.
  intros m H. split; [|split; [|split; [|split; [|split]]]].
  - intros before behind. apply isExpectedReadFailure_prefixed.
    apply isExpectedReadFailure_suffixed. exact H.
  - unfold isExpectedReadFailure, getErrorMessage in *.
    rewrite toLowerCase_idem. exact H.
  - intros message. exact H.
  - apply isExpectedReadFailure_prefixed. exact H.
  - apply isExpectedReadFailure_prefixed. exact H.
  - apply isExpectedReadFailure_prefixed. exact H.
Qed.

(** ** Token metadata and user balances: reads without the guard *)

Section UnguardedReads.

Context (CA : gmap Z Address) (views : PublicClient -> PoolViews).

Lemma readContract_opt_none {A} call (answer : PublicClient -> Outcome (option A)) st :
  publicClient (self st) = None -> readContract_opt call answer st = (Ok None, st).
Proof. intros H. unfold readContract_opt, bind, this. rewrite H. reflexivity. Qed.

Lemma getToken_eval a st pc :
  publicClient (self st) = Some pc ->
  getToken a st
  = (match read_decimals pc a, read_symbol pc a, read_name pc a with
     | Ok d, Ok s, Ok n =>
         Ok {| address := a; symbol := s; name := n; decimals := d |}
     | Ok _, Ok _, Throw e | Ok _, Throw e, _ | Throw e, _, _ =>
         Throw (ErrorObject ("Error fetching token data: " +:+ message_in_template e))
     | _, _, _ => OutOfFuel
     end, after st (metadataReads a)).
Proof.
  intros Hpc. unfold getToken, tryCatch, Promise_all3.
  unfold bind at 1. unfold bind at 1. unfold settle at 1.
  rewrite (readContract_opt_some _ _ st pc Hpc).
  unfold bind at 1. unfold settle at 1.
  rewrite (readContract_opt_some _ _ _ pc) by exact Hpc.
  unfold bind at 1. unfold settle at 1.
  rewrite (readContract_opt_some _ _ _ pc) by exact Hpc.
  rewrite !after_after. cbn [app]. fold (metadataReads a).
  unfold lift, Viem.bindO, ret.
  destruct (read_decimals pc a) as [d|e|], (read_symbol pc a) as [s|e'|],
    (read_name pc a) as [n|e''|]; reflexivity.
Qed.

(** [getToken] asks the token contract for [decimals], [symbol] and
    [name], in this order, and issues all three reads also when one of
    them fails; the token it returns carries the address it was asked
    about, and any failure is rethrown under the prefix ["Error fetching
    token data: "].  It is not guarded: without a read handle it issues no
    read and returns a token whose three fields are undefined instead of
    throwing. *)
Theorem getToken_reads_three_fields :
  forall (a : Address) (st : State),
    (publicClient (self st) = None ->
     getToken a st
     = (Ok {| address := a; symbol := None; name := None; decimals := None |}, st)) /\
    (forall pc,
       publicClient (self st) = Some pc ->
       snd (getToken a st) = after st (metadataReads a) /\
       (forall d s n,
          read_decimals pc a = Ok d -> read_symbol pc a = Ok s ->
          read_name pc a = Ok n ->
          fst (getToken a st)
          = Ok {| address := a; symbol := s; name := n; decimals := d |})) /\
    (forall tok, fst (getToken a st) = Ok tok -> address tok = a) /\
    (forall e, fst (getToken a st) = Throw e ->
               exists m, e = ErrorObject ("Error fetching token data: " +:+ m)).
Proof.
  intros a st.
  assert (Hnone : publicClient (self st) = None ->
                  getToken a st
                  = (Ok {| address := a; symbol := None; name := None;
                           decimals := None |}, st)).
  { intros H. unfold getToken, tryCatch, Promise_all3.
    unfold bind at 1. unfold bind at 1. unfold settle at 1.
    rewrite (readContract_opt_none _ _ st H).
    unfold bind at 1. unfold settle at 1. rewrite (readContract_opt_none _ _ st H).
    unfold bind at 1. unfold settle at 1. rewrite (readContract_opt_none _ _ st H).
    reflexivity. }
  split; [exact Hnone|]. split; [|split].
  - intros pc Hpc. rewrite (getToken_eval a st pc Hpc). split; [reflexivity|].
    intros d s n -> -> ->. reflexivity.
  - intros tok. destruct (publicClient (self st)) as [pc|] eqn:Hpc.
    + rewrite (getToken_eval a st pc Hpc). cbn [fst].
      destruct (read_decimals pc a) as [d|e|], (read_symbol pc a) as [s|e'|],
        (read_name pc a) as [n|e''|]; intros H; inversion H; reflexivity.
    + rewrite (Hnone eq_refl). intros H; inversion H; reflexivity.
  - intros e. destruct (publicClient (self st)) as [pc|] eqn:Hpc.
    + rewrite (getToken_eval a st pc Hpc). cbn [fst].
      destruct (read_decimals pc a) as [d|e0|], (read_symbol pc a) as [s|e'|],
        (read_name pc a) as [n|e''|]; intros H; inversion H; eauto.
    + rewrite (Hnone eq_refl). discriminate.
Qed.

Lemma getUserBalance_eval tok user st pc :
  publicClient (self st) = Some pc ->
  getUserBalance views tok user st
  = (match read_poolUserBalances (views pc) (contractAddress (self st))
             (address tok) user with
     | Ok (Some d) =>
         Ok {| tokenReserve := BigInt_toString (fst d);
               ethReserve := BigInt_toString (snd d) |}
     | Ok None =>
         Throw (ErrorObject ("Error fetching user reserves: "
                             +:+ message_in_template (TypeError_undefined "0")))
     | Throw e =>
         Throw (ErrorObject ("Error fetching user reserves: " +:+ message_in_template e))
     | OutOfFuel => OutOfFuel
     end,
     after st [ReadContract (poolCall (self st) "poolUserBalances"
                               [AddressArg (address tok); AddressArg user])]).
Proof.
  intros Hpc. unfold getUserBalance, tryCatch.
  unfold bind at 1. unfold this at 1. unfold bind at 1.
  rewrite (readContract_opt_some _ _ st pc Hpc).
  destruct (read_poolUserBalances (views pc) _ _ _) as [[d|]|e|]; reflexivity.
Qed.

(** [getUserBalance] is neither guarded nor given a fallback: it
    issues the one read [poolUserBalances(token, user)], returns the first
    component of the answer as [tokenReserve] and the second as
    [ethReserve] (decimal strings), and rethrows every failure of the
    read, an expected one included, under the prefix ["Error fetching
    user reserves: "]; without a read handle, and on a nullish answer, the
    failure is the [TypeError] of indexing [undefined]. *)
Theorem getUserBalance_never_falls_back :
  forall (tok : Token) (user : Address) (st : State),
    let call := poolCall (self st) "poolUserBalances"
                  [AddressArg (address tok); AddressArg user] in
    let undefinedIndexed :=
      Throw (ErrorObject
               "Error fetching user reserves: Cannot read properties of undefined (reading '0')") in
    (publicClient (self st) = None ->
     getUserBalance views tok user st = (undefinedIndexed, st)) /\
    (forall pc,
       publicClient (self st) = Some pc ->
       snd (getUserBalance views tok user st) = after st [ReadContract call] /\
       (forall a b,
          read_poolUserBalances (views pc) (contractAddress (self st)) (address tok) user
          = Ok (Some (a, b)) ->
          fst (getUserBalance views tok user st)
          = Ok {| tokenReserve := BigInt_toString a; ethReserve := BigInt_toString b |}) /\
       (read_poolUserBalances (views pc) (contractAddress (self st)) (address tok) user
        = Ok None ->
        fst (getUserBalance views tok user st) = undefinedIndexed) /\
       (forall e,
          read_poolUserBalances (views pc) (contractAddress (self st)) (address tok) user
          = Throw e ->
          fst (getUserBalance views tok user st)
          = Throw (ErrorObject ("Error fetching user reserves: "
                                +:+ message_in_template e)))).
Proof.
  intros tok user st call undefinedIndexed. split.
  - intros H. unfold getUserBalance, tryCatch.
    unfold bind at 1. unfold this at 1. unfold bind at 1.
    rewrite (readContract_opt_none _ _ st H). reflexivity.
  - intros pc Hpc. rewrite (getUserBalance_eval tok user st pc Hpc).
    split; [reflexivity|]. split; [|split].
    + intros a b ->. reflexivity.
    + intros ->. reflexivity.
    + intros e ->. reflexivity.
Qed.

(** When the [poolToken] read answers with no address (a nullish or
    empty answer), [getLPToken] throws ["No LP token found for the given
    token."] under its prefix, and [getPool] does not turn this into the
    placeholder pool: the message is not an expected read failure, so the
    [safeRead] around [getPool] rethrows it to the caller. *)
Theorem getPool_rethrows_missing_lp_token :
  forall (fuel : nat) (tok : Token) (user : Address) (st : State) (pc : PublicClient),
    canRead CA (self st) = true ->
    publicClient (self st) = Some pc ->
    (read_poolToken pc (contractAddress (self st)) (address tok) = Ok None \/
     read_poolToken pc (contractAddress (self st)) (address tok) = Ok (Some "")) ->
    let failure :=
      ErrorObject "Error fetching LP token data: No LP token found for the given token." in
    fst (getLPToken tok user st) = Throw failure /\
    isExpectedReadFailure failure = false /\
    fst (getPool CA fuel tok user st) = Throw failure.
Proof.
  intros fuel tok user st pc Hg Hpc Hread failure.
  assert (Hlp : getLPToken tok user st
                = (Throw failure,
                   after st [ReadContract (poolCall (self st) "poolToken"
                                             [AddressArg (address tok)])])).
  { unfold getLPToken, tryCatch.
    unfold bind at 1. unfold this at 1. unfold bind at 1.
    rewrite (readContract_opt_some _ _ st pc Hpc).
    destruct Hread as [-> | ->]; reflexivity. }
  assert (He : isExpectedReadFailure failure = false) by (vm_compute; reflexivity).
  split; [rewrite Hlp; reflexivity|]. split; [exact He|].
  unfold getPool. erewrite bind_Ok; [|reflexivity].
  match goal with
  | |- fst (safeRead CA ?n ?fb ?fn st) = _ =>
      assert (Hfn : fn st = (Throw failure,
                             after st [ReadContract (poolCall (self st) "poolToken"
                                                       [AddressArg (address tok)])]))
        by (unfold bind at 1; rewrite Hlp; reflexivity);
      destruct (safeRead_rethrows CA n fb fn st failure _ Hg Hfn He) as [w ->]
  end.
  reflexivity.
Qed.

End UnguardedReads.

(** ** The yield over a window of no length *)

Lemma rne_lower p d : 0 <= p -> 0 < d -> p / d <= rne p d.
Proof.
  intros Hp Hd. unfold rne.
  destruct (2 * (p mod d) ?= d); [destruct (Z.even (p / d))|..]; lia.
Qed.

(** the double of a positive integer *)
Lemma round_int_eval v :
  1 <= v ->
  round (inject_Z v)
  = (let e := Z.log2 v - 52 in
     if e <? 0 then Real (inject_Z v)
     else
       let m := rne v (2 ^ e) in
       if (971 <? e) || ((e =? 971) && (2 ^ 53 <=? m)) then Infinity false
       else Real (inject_Z (m * 2 ^ e))).
Proof.
  intros Hv. unfold round. rewrite Qred_inject_Z. cbn [Qnum Qden inject_Z].
  replace (v =? 0) with false by (symmetry; apply Z.eqb_neq; lia).
  replace (v <? 0) with false by (symmetry; apply Z.ltb_ge; lia).
  replace (Z.abs v) with v by lia.
  unfold round_mag. rewrite ilog2_ratio_int by lia.
  pose proof (Z.log2_nonneg v) as Hl.
  pose proof (Z.log2_spec v ltac:(lia)) as [Hl1 Hl2].
  rewrite Z.max_l by lia. cbv zeta.
  set (e := Z.log2 v - 52) in *.
  destruct (Z.ltb_spec e 0) as [He|He].
  - replace (0 <=? e) with false by (symmetry; apply Z.leb_gt; lia).
    assert (H2e : 0 < 2 ^ (- e)) by (apply Z.pow_pos_nonneg; lia).
    rewrite (rne_exact (v * 2 ^ (- e)) 1 (v * 2 ^ (- e))) by lia.
    replace (971 <? e) with false by (symmetry; apply Z.ltb_ge; lia).
    replace (e =? 971) with false by (symmetry; apply Z.eqb_neq; lia).
    cbn [orb andb]. unfold pow2Q.
    replace (0 <=? e) with false by (symmetry; apply Z.leb_gt; lia).
    assert (E : Qred (v * 2 ^ (- e) # Z.to_pos (2 ^ (- e))) = inject_Z v).
    { rewrite <- (Qred_inject_Z v). apply Qred_complete.
      unfold Qeq, inject_Z. cbn [Qnum Qden]. rewrite pos_pow2 by lia. ring. }
    rewrite E. cbn [Qnum inject_Z].
    replace (v =? 0) with false by (symmetry; apply Z.eqb_neq; lia).
    reflexivity.
  - replace (0 <=? e) with true by (symmetry; apply Z.leb_le; lia).
    rewrite Z.mul_1_l.
    assert (H2e : 0 < 2 ^ e) by (apply Z.pow_pos_nonneg; lia).
    assert (Hm : 1 <= rne v (2 ^ e)).
    { pose proof (rne_lower v (2 ^ e) ltac:(lia) H2e) as Hlow.
      assert (1 <= v / 2 ^ e); [|lia].
      apply Z.div_le_lower_bound; [lia|].
      rewrite Z.mul_1_r.
      apply Z.le_trans with (2 ^ Z.log2 v); [|lia].
      apply Z.pow_le_mono_r; lia. }
    destruct ((971 <? e) || ((e =? 971) && (2 ^ 53 <=? rne v (2 ^ e)))); [reflexivity|].
    unfold pow2Q.
    replace (0 <=? e) with true by (symmetry; apply Z.leb_le; lia).
    cbn [Qnum inject_Z].
    replace (rne v (2 ^ e) * 2 ^ e =? 0) with false
      by (symmetry; apply Z.eqb_neq; nia).
    reflexivity.
Qed.

(** The double of a non-negative integer is a non-negative integer or
    [Infinity]; it is 0 only for 0, and finite below 2^1023. *)
Lemma round_int_shape v :
  0 <= v ->
  (round (inject_Z v) = Infinity false /\ 2 ^ 1023 <= v) \/
  exists w, round (inject_Z v) = Real (inject_Z w) /\
            0 <= w /\ (1 <= v -> 1 <= w) /\ (v = 0 -> w = 0).
Proof.
  intros Hv. destruct (Z.eq_dec v 0) as [->|Hne].
  { right. exists 0. repeat split; try lia; reflexivity. }
  rewrite round_int_eval by lia. cbv zeta.
  pose proof (Z.log2_nonneg v) as Hl.
  pose proof (Z.log2_spec v ltac:(lia)) as [Hl1 Hl2].
  set (e := Z.log2 v - 52) in *.
  destruct (Z.ltb_spec e 0) as [He|He].
  { right. exists v. repeat split; lia. }
  assert (H2e : 0 < 2 ^ e) by (apply Z.pow_pos_nonneg; lia).
  assert (Hm : 1 <= rne v (2 ^ e)).
  { pose proof (rne_lower v (2 ^ e) ltac:(lia) H2e) as Hlow.
    assert (1 <= v / 2 ^ e); [|lia].
    apply Z.div_le_lower_bound; [lia|].
    rewrite Z.mul_1_r.
    apply Z.le_trans with (2 ^ Z.log2 v); [|lia].
    apply Z.pow_le_mono_r; lia. }
  destruct ((971 <? e) || ((e =? 971) && (2 ^ 53 <=? rne v (2 ^ e)))) eqn:Eo.
  - left. split; [reflexivity|].
    assert (971 <= e).
    { apply orb_true_iff in Eo as [Eo|Eo]; [apply Z.ltb_lt in Eo; lia|].
      apply andb_true_iff in Eo as [Eo _]. apply Z.eqb_eq in Eo. lia. }
    apply Z.le_trans with (2 ^ Z.log2 v); [|lia].
    apply Z.pow_le_mono_r; lia.
  - right. exists (rne v (2 ^ e) * 2 ^ e). repeat split; nia.
Qed.

(** [Number(s)] for the decimal string of any non-negative integer *)
Lemma Number_of_string_integer v :
  0 <= v -> Number_of_string (BigInt_toString v) = round (inject_Z v).
Proof.
  intros Hv. rewrite BigInt_toString_nonneg by assumption.
  set (s := natToString v).
  assert (Hd : allDigits s = true) by (apply allDigits_natToString; lia).
  assert (Hne : exists c r, s = String c r) by (apply natToString_nonempty; lia).
  assert (Hval : digitsValue 10 0 s = Some v) by (apply digitsValue_natToString; lia).
  unfold Number_of_string.
  rewrite (trim_digits _ Hd), (radixLiteral_digits _ Hd).
  assert (E : match s with
              | EmptyString => Real 0
              | String "-" r => signedNumber true r
              | String "+" r => signedNumber false r
              | _ => signedNumber false s
              end = signedNumber false s).
  { destruct Hne as [c [r Hs]]. rewrite Hs in *. cbn [allDigits] in Hd.
    apply andb_true_iff in Hd as [Hc _].
    by_ascii c. }
  rewrite E. clear E. unfold signedNumber.
  assert (E : String.eqb s "Infinity" = false).
  { destruct Hne as [c [r Hs]]. rewrite Hs in *. cbn [allDigits] in Hd.
    apply andb_true_iff in Hd as [Hc _].
    by_ascii c. }
  rewrite E. clear E. unfold unsignedDecimal.
  rewrite (spanDigits_digits _ Hd).
  assert (E : (String.length s =? 0)%nat = false).
  { destruct Hne as [c [r ->]]. reflexivity. }
  rewrite E. clear E. cbn [andb exponentPart String.length].
  rewrite app_empty_r. unfold decimalValue. rewrite Hval.
  rewrite (round_Qeq _ (inject_Z v)).
  2:{ change (pow10Q (0 - Z.of_nat 0)) with (inject_Z 1). ring. }
  destruct (round_int_shape v Hv) as [[-> _]|[w [-> [Hw [_ _]]]]]; [reflexivity|].
  cbn [Qnum inject_Z]. destruct (Z.eqb_spec w 0) as [->|]; reflexivity.
Qed.

Lemma BigInt_toString_is_zero f :
  0 <= f -> String.eqb (BigInt_toString f) "0" = (f =? 0).
Proof.
  intros Hf. destruct (Z.eqb_spec f 0) as [->|Hne]; [reflexivity|].
  apply String.eqb_neq. intros E.
  rewrite BigInt_toString_nonneg in E by assumption.
  pose proof (digitsValue_natToString f Hf) as H. rewrite E in H.
  vm_compute in H. inversion H. lia.
Qed.

(** a sum of fees: a non-negative integer or [Infinity] *)
Lemma add_fee_shape acc f :
  0 <= f ->
  (acc = Infinity false \/ exists w, acc = Real (inject_Z w) /\ 0 <= w) ->
  let r := add acc (Number_of_string (BigInt_toString f)) in
  (r = Infinity false \/ exists w, r = Real (inject_Z w) /\ 0 <= w) /\
  isZero r = isZero acc && (f =? 0).
Proof.
  intros Hf Hacc r. unfold r. rewrite Number_of_string_integer by assumption.
  destruct Hacc as [->|[w [-> Hw]]].
  - destruct (round_int_shape f Hf) as [[-> _]|[w2 [-> _]]];
      (split; [left; reflexivity|reflexivity]).
  - destruct (round_int_shape f Hf) as [[-> Hbig]|[w2 [-> [Hw2 [Hpos Hzero]]]]].
    + split; [left; reflexivity|]. cbn [add isZero].
      assert (0 < 2 ^ 1023) by (apply Z.pow_pos_nonneg; lia).
      replace (f =? 0) with false by (symmetry; apply Z.eqb_neq; lia).
      now rewrite andb_false_r.
    + cbn [add]. rewrite (round_Qeq _ (inject_Z (w + w2)))
        by (rewrite inject_Z_plus; reflexivity).
      destruct (round_int_shape (w + w2) ltac:(lia))
        as [[-> Hbig]|[w3 [-> [Hw3 [Hpos3 Hzero3]]]]].
      * split; [left; reflexivity|]. cbn [isZero Qnum inject_Z].
        assert (0 < 2 ^ 1023) by (apply Z.pow_pos_nonneg; lia).
        destruct (Z.eqb_spec w 0) as [->|]; [|reflexivity].
        destruct (Z.eqb_spec f 0) as [->|]; [|reflexivity].
        specialize (Hzero eq_refl). lia.
      * split; [right; exists w3; split; [reflexivity|assumption]|].
        cbn [isZero Qnum inject_Z].
        destruct (Z.eqb_spec w 0) as [->|Hw0].
        -- destruct (Z.eqb_spec f 0) as [->|Hf0].
           ++ specialize (Hzero eq_refl). subst w2.
              specialize (Hzero3 eq_refl). subst w3. reflexivity.
           ++ specialize (Hpos ltac:(lia)). specialize (Hpos3 ltac:(lia)).
              cbn [andb]. apply Z.eqb_neq. lia.
        -- specialize (Hpos3 ltac:(lia)). cbn [andb]. apply Z.eqb_neq. lia.
Qed.

Lemma fold_fees_shape (feeEvents : list PoolFeesEvent) : forall acc,
  Forall (fun event => exists f, 0 <= f /\ fee event = BigInt_toString f) feeEvents ->
  (acc = Infinity false \/ exists w, acc = Real (inject_Z w) /\ 0 <= w) ->
  let r := fold_left (fun t event => add t (Number_of_string (fee event)))
             feeEvents acc in
  (r = Infinity false \/ exists w, r = Real (inject_Z w) /\ 0 <= w) /\
  isZero r = isZero acc && forallb (fun event => String.eqb (fee event) "0") feeEvents.
Proof.
  induction feeEvents as [|ev l IH]; intros acc Hall Hacc.
  - cbn. split; [exact Hacc|]. now rewrite andb_true_r.
  - inversion Hall as [|? ? [f [Hf Hfee]] Hl]; subst.
    cbn [fold_left forallb]. rewrite Hfee.
    destruct (add_fee_shape acc f Hf Hacc) as [Hshape Hzero].
    destruct (IH _ Hl Hshape) as [Hr Hz].
    split; [exact Hr|]. cbv zeta in Hz. rewrite Hz, Hzero.
    rewrite BigInt_toString_is_zero by assumption.
    now rewrite andb_assoc.
Qed.

(** equal finite timestamps: a window of [+0] days *)
Lemma window_of_no_length t :
  div (sub (Real t) (Real t)) (mul (mul (ofZ 60) (ofZ 60)) (ofZ 24)) = Real 0.
Proof.
  assert (Hs : exists q, sub (Real t) (Real t) = Real q /\ Qnum q = 0).
  { unfold sub, neg. destruct (Z.eqb_spec (Qnum t) 0) as [E|NE].
    - exists t. split; [reflexivity|exact E].
    - exists 0%Q. split; [|reflexivity]. cbn [add]. unfold round.
      assert (Hz : Qred (t + - t) = 0%Q).
      { change 0%Q with (Qred 0). apply Qred_complete. apply Qplus_opp_r. }
      rewrite Hz. reflexivity. }
  destruct Hs as [q [-> Hq]].
  change (mul (mul (ofZ 60) (ofZ 60)) (ofZ 24)) with (Real (inject_Z 86400)).
  unfold div. cbn [isZero isNeg Qnum inject_Z]. rewrite Hq. reflexivity.
Qed.

(** [getYield] needs a window of some length.  On an empty list it
    throws the [TypeError] of reading [timestamp] of [undefined].  On fee
    events whose first and last timestamps are the same finite number --
    a single event, or events of one block -- the window is 0 days and
    the division by it is not guarded: whatever the fees are (decimal
    strings of non-negative integers of any size) and for every total
    liquidity below 2^1023 wei, the yield is [Infinity] when some fee is
    not 0 and [NaN] when all of them are 0; the APR [getPool] derives from
    either is [Infinity], respectively [NaN]. *)
Theorem getYield_window_of_no_length :
  (forall totalLiquidity,
     getYield [] totalLiquidity = Throw (TypeError_undefined "timestamp")) /\
  (forall (feeEvents : list PoolFeesEvent) (first final : PoolFeesEvent)
          (t : Q) (liquidity : Z),
     head feeEvents = Some first -> last feeEvents = Some final ->
     timestamp first = Real t -> timestamp final = Real t ->
     Forall (fun event => exists f, 0 <= f /\ fee event = BigInt_toString f)
       feeEvents ->
     0 <= liquidity < 2 ^ 1023 ->
     getYield feeEvents (BigInt_toString liquidity)
     = Ok (if forallb (fun event => String.eqb (fee event) "0") feeEvents
           then NaN else Infinity false)) /\
  Number_of_string (getAPR (Number_toString (Infinity false))) = Infinity false /\
  Number_of_string (getAPR (Number_toString NaN)) = NaN.
Proof.
  split; [reflexivity|]. split; [|split; vm_compute; reflexivity].
  intros feeEvents first final t liquidity Hhead Hlast Hfirst Hfinal Hfees Hliq.
  unfold getYield. rewrite Hhead, Hlast, Hfirst, Hfinal.
  rewrite window_of_no_length.
  rewrite Number_of_string_integer by lia.
  assert (Hden : mul (Real 0) (round (inject_Z liquidity)) = Real 0).
  { destruct (round_int_shape liquidity ltac:(lia)) as [[_ Hbig]|[w [-> [Hw _]]]];
      [lia|].
    unfold mul. cbn [isZero isNeg Qnum inject_Z orb].
    replace (w <? 0) with false by (symmetry; apply Z.ltb_ge; lia). reflexivity. }
  rewrite Hden.
  destruct (fold_fees_shape feeEvents (Real 0) Hfees) as [Hshape Hzero].
  { right. exists 0. split; [reflexivity|lia]. }
  cbv zeta in Hshape, Hzero. cbn [isZero Qnum andb] in Hzero.
  change (0 =? 0) with true in Hzero. cbn [andb] in Hzero.
  set (total := fold_left _ feeEvents (Real 0)) in *.
  rewrite <- Hzero. f_equal.
  destruct Hshape as [->|[w [-> Hw]]]; [reflexivity|].
  unfold div. cbn [isZero isNeg Qnum inject_Z].
  replace (w <? 0) with false by (symmetry; apply Z.ltb_ge; lia).
  destruct (w =? 0); reflexivity.
Qed.

(** A single fee event of 5 wei and a total liquidity of 100 ether. *)
Lemma getYield_window_of_no_length_witness :
  getYield [ {| timestamp := int 1700000000000; fee := "5" |} ]
    "100000000000000000000"
  = Ok (Infinity false).
Proof.
  assert (Hl : 0 <= 100000000000000000000 < 2 ^ 1023).
  { split; [lia|]. apply Z.lt_trans with (2 ^ 70); [reflexivity|].
    apply Z.pow_lt_mono_r; lia. }
  assert (Hf : Forall (fun event => exists f, 0 <= f /\ fee event = BigInt_toString f)
                 [ {| timestamp := int 1700000000000; fee := "5" |} ]).
  { constructor; [|constructor]. exists 5. split; [lia|reflexivity]. }
  exact (proj1 (proj2 getYield_window_of_no_length)
           [ {| timestamp := int 1700000000000; fee := "5" |} ]
           {| timestamp := int 1700000000000; fee := "5" |}
           {| timestamp := int 1700000000000; fee := "5" |}
           (inject_Z 1700000000000) 100000000000000000000
           eq_refl eq_refl eq_refl eq_refl Hf Hl).
Defined.

(** ** The average price *)

Lemma add_comm x y : add x y = add y x.
Proof.
  destruct x as [| s | | a], y as [| t | | b]; try reflexivity.
  - destruct s, t; reflexivity.
  - cbn [add]. apply round_Qeq. apply Qplus_comm.
Qed.

Lemma ilog10_from_ratio fuel : forall p d e E,
  0 < d -> 0 <= e <= E -> d * 10 ^ E <= p < d * 10 ^ (E + 1) ->
  E - e < Z.of_nat fuel ->
  ilog10_from fuel p d e = E.
Proof.
  induction fuel as [|f IH]; intros p d e E Hd He Hp Hf; [simpl in Hf; lia|].
  cbn [ilog10_from].
  assert (Hle : 10 ^ e <= 10 ^ E) by (apply Z.pow_le_mono_r; lia).
  replace (0 <=? e) with true by (symmetry; apply Z.leb_le; lia).
  replace (p <? d * 10 ^ e) with false by (symmetry; apply Z.ltb_ge; nia).
  replace (0 <=? e + 1) with true by (symmetry; apply Z.leb_le; lia).
  destruct (Z.eq_dec e E) as [->|Hne].
  - replace (d * 10 ^ (E + 1) <=? p) with false by (symmetry; apply Z.leb_gt; lia).
    reflexivity.
  - assert (10 ^ (e + 1) <= 10 ^ E) by (apply Z.pow_le_mono_r; lia).
    replace (d * 10 ^ (e + 1) <=? p) with true by (symmetry; apply Z.leb_le; nia).
    apply IH; lia.
Qed.

Lemma Qred_half n : Qred ((2 * n + 1) # 2) = (2 * n + 1) # 2.
Proof.
  apply Qred_identity. cbn [Qnum Qden].
  rewrite Z.gcd_comm. rewrite Z.add_comm, Z.mul_comm, Z.gcd_add_mult_diag_r.
  reflexivity.
Qed.

Lemma round_half_odd n :
  0 <= n < 2 ^ 52 -> round ((2 * n + 1) # 2) = Real ((2 * n + 1) # 2).
Proof.
  intros Hn. rewrite (round_half _ (2 * n + 1)); [|reflexivity|lia|lia].
  now rewrite Qred_half.
Qed.

Section Half.

Variables (n E : Z).
Hypothesis Hn : 1 <= n < 2 ^ 52.
Hypothesis HE : 0 <= E.
Hypothesis HnE : 10 ^ E <= n < 10 ^ (E + 1).

Lemma digitsAt_half_none k :
  1 <= k <= E + 1 -> digitsAt ((2 * n + 1) # 2) (E + 1) k = None.
Proof.
  set (q := (2 * n + 1) # 2). set (L := E + 1).
  intros Hk. unfold digitsAt, pow10Q.
  replace (0 <=? L - k) with true by (symmetry; apply Z.leb_le; lia).
  set (m := 10 ^ (L - k)).
  assert (Hm : 0 < m) by (apply Z.pow_pos_nonneg; lia).
  assert (Hm1 : m <= 10 ^ E).
  { unfold m, L. apply Z.pow_le_mono_r; lia. }
  assert (Hfl : Qfloor (q / inject_Z m) = (2 * n + 1) / (2 * m)).
  { unfold q. destruct m as [|pm|pm] eqn:Em; try lia.
    unfold Qdiv, Qinv, Qmult, inject_Z, Qfloor. cbn [Qnum Qden].
    rewrite Z.mul_1_r. reflexivity. }
  rewrite Hfl. set (lo := (2 * n + 1) / (2 * m)).
  assert (Hlo : 0 <= lo /\ lo * m <= n).
  { unfold lo. split; [apply Z.div_pos; lia|].
    pose proof (Z.div_mod (2 * n + 1) (2 * m) ltac:(lia)) as Hdm.
    pose proof (Z.mod_pos_bound (2 * n + 1) (2 * m) ltac:(lia)). nia. }
  assert (Hr : forall c, 0 <= c <= lo + 1 ->
                 match round (inject_Z c * inject_Z m) with
                 | Real a => Qeq_bool a q
                 | _ => false
                 end = false).
  { intros c Hc. rewrite (round_int _ (c * m)).
    - unfold int, q, Qeq_bool, inject_Z. cbn [Qnum Qden].
      apply Z.eqb_neq. lia.
    - rewrite inject_Z_mult. reflexivity.
    - nia. }
  rewrite (Hr lo) by lia. rewrite (Hr (lo + 1)) by lia. reflexivity.
Qed.

Lemma digitsAt_half_some :
  digitsAt ((2 * n + 1) # 2) (E + 1) (E + 1 + 1) = Some (10 * n + 5, E + 1).
Proof.
  set (q := (2 * n + 1) # 2). set (L := E + 1).
  unfold digitsAt, pow10Q.
  replace (L - (L + 1)) with (-1) by lia.
  change (0 <=? -1) with false. cbv iota.
  change (1 # Z.to_pos (10 ^ (- -1))) with (1 # 10).
  assert (Hfl : Qfloor (q / (1 # 10)) = 10 * n + 5).
  { unfold q, Qdiv, Qinv, Qmult, Qfloor. cbn [Qnum Qden].
    change (Z.pos (2 * 1)) with 2.
    replace ((2 * n + 1) * 10) with ((10 * n + 5) * 2) by ring.
    apply Z.div_mul. lia. }
  rewrite Hfl.
  assert (Hback : round (inject_Z (10 * n + 5) * (1 # 10)) = Real q).
  { rewrite (round_Qeq _ q).
    - apply round_half_odd. lia.
    - unfold q, Qeq, Qmult, inject_Z. cbn [Qnum Qden]. lia. }
  rewrite Hback. rewrite Qeq_bool_refl.
  assert (Hd : (Qabs_diff (inject_Z (10 * n + 5) * (1 # 10)) q
                ?= Qabs_diff (inject_Z (10 * n + 5 + 1) * (1 # 10)) q)%Q = Lt).
  { unfold Qabs_diff. apply Qlt_alt.
    assert (H0 : (inject_Z (10 * n + 5) * (1 # 10) - q == 0)%Q).
    { unfold q, Qeq, Qminus, Qplus, Qopp, Qmult, inject_Z. cbn [Qnum Qden]. lia. }
    assert (H1 : (inject_Z (10 * n + 5 + 1) * (1 # 10) - q == 1 # 10)%Q).
    { unfold q, Qeq, Qminus, Qplus, Qopp, Qmult, inject_Z. cbn [Qnum Qden]. lia. }
    rewrite H0, H1. reflexivity. }
  rewrite Hd.
  assert (Hlt : 10 * n + 5 < 10 ^ (L + 1)).
  { unfold L. rewrite (Z.pow_add_r 10 (E + 1) 1) by lia. change (10 ^ 1) with 10. lia. }
  replace (10 * n + 5 =? 10 ^ (L + 1)) with false by (symmetry; apply Z.eqb_neq; lia).
  destruct (match round (inject_Z (10 * n + 5 + 1) * (1 # 10)) with
            | Real a => Qeq_bool a q
            | _ => false
            end); reflexivity.
Qed.

Lemma shortestDigits_half fuel : forall k,
  1 <= k <= E + 1 + 1 -> E + 1 + 1 - k < Z.of_nat fuel ->
  shortestDigits fuel ((2 * n + 1) # 2) (E + 1) k = (10 * n + 5, E + 1).
Proof.
  induction fuel as [|f IH]; intros k Hk Hf; [simpl in Hf; lia|].
  cbn [shortestDigits].
  destruct (Z.eq_dec k (E + 1 + 1)) as [->|Hne].
  - rewrite digitsAt_half_some. reflexivity.
  - rewrite digitsAt_half_none by lia. apply IH; lia.
Qed.

Lemma positiveToString_half :
  positiveToString ((2 * n + 1) # 2) = natToString n +:+ ".5".
Proof.
  assert (HE16 : E < 16).
  { apply (Z.pow_lt_mono_r_iff 10); [lia|lia|].
    change (10 ^ 16) with 10000000000000000.
    change (2 ^ 52) with 4503599627370496 in Hn. lia. }
  unfold positiveToString. rewrite !Qred_half. cbn [Qnum Qden].
  unfold ilog10_ratio.
  rewrite (ilog10_from_ratio 400 (2 * n + 1) 2 0 E) by (simpl; lia).
  rewrite (shortestDigits_half 17 1) by (simpl; lia).
  set (L := E + 1).
  rewrite BigInt_toString_nonneg by lia.
  assert (Hdig : natToString (10 * n + 5) = natToString n +:+ "5").
  { rewrite natToString_step by lia.
    replace (10 * n + 5) with (5 + n * 10) by ring.
    rewrite Z.div_add, Z.mod_add by lia. reflexivity. }
  rewrite Hdig.
  assert (Hlen : Z.of_nat (String.length (natToString n)) = L).
  { apply length_natToString; unfold L; [lia|].
    replace (E + 1 - 1) with E by lia. exact HnE. }
  rewrite length_app_s. cbn [String.length]. rewrite Nat2Z.inj_add, Hlen.
  replace (L + Z.of_nat 1 <=? L) with false by (symmetry; apply Z.leb_gt; lia).
  replace (0 <? L) with true by (symmetry; apply Z.ltb_lt; unfold L; lia).
  replace (L <=? 21) with true by (symmetry; apply Z.leb_le; unfold L; lia).
  cbn [andb].
  assert (HL : Z.to_nat L = String.length (natToString n)) by lia.
  rewrite HL. unfold slice, slice_from.
  rewrite Nat.sub_0_r, substring_prefix.
  rewrite length_app_s.
  replace (String.length (natToString n) + String.length "5"
           - String.length (natToString n))%nat with (String.length "5") by lia.
  rewrite substring_suffix. reflexivity.
Qed.

End Half.

Lemma Number_toString_half n :
  0 <= n < 2 ^ 52 ->
  Number_toString (Real ((2 * n + 1) # 2)) = natToString n +:+ ".5".
Proof.
  intros Hn. destruct (Z.eq_dec n 0) as [->|Hne]; [vm_compute; reflexivity|].
  unfold Number_toString. cbn [Qnum].
  replace (2 * n + 1 =? 0) with false by (symmetry; apply Z.eqb_neq; lia).
  replace (2 * n + 1 <? 0) with false by (symmetry; apply Z.ltb_ge; lia).
  destruct (decimal_order n) as [E [HE HnE]]; [lia|].
  apply (positiveToString_half n E); [lia|assumption|assumption].
Qed.

Lemma isIntegerString_app_dot s t : isIntegerString (s +:+ "." +:+ t) = false.
Proof.
  assert (Hd : forall u, allDigits (u +:+ "." +:+ t) = false).
  { induction u as [|c u IH]; [reflexivity|].
    rewrite app_cons. cbn [allDigits]. rewrite IH. apply andb_false_r. }
  destruct s as [|c s]; [reflexivity|].
  rewrite app_cons.
  assert (Hc : (isDigit c && allDigits (s +:+ "." +:+ t))%bool = false)
    by (rewrite Hd; apply andb_false_r).
  unfold isIntegerString.
  destruct (Ascii.eqb_spec c "-") as [->|Hne].
  - destruct s as [|c' s]; [reflexivity|].
    rewrite app_cons. rewrite Hd. apply andb_false_r.
  - destruct c as [[|] [|] [|] [|] [|] [|] [|] [|]]; try exact Hc; congruence.
Qed.

Lemma getAvgPrice_eval x y :
  0 <= x -> 0 <= y -> x + y < 2 ^ 53 ->
  getAvgPrice (BigInt_toString x) (BigInt_toString y)
  = natToString ((x + y) / 2) +:+ (if Z.even (x + y) then "" else ".5").
Proof.
  intros Hx Hy Hs. unfold getAvgPrice.
  rewrite !BigInt_toString_nonneg by assumption.
  rewrite !Number_of_string_natToString by lia.
  rewrite add_int by lia. rewrite (ofZ_int 2) by (simpl; lia).
  pose proof (Z.div_mod (x + y) 2 ltac:(lia)) as Hdm.
  pose proof (Z.mod_pos_bound (x + y) 2 ltac:(lia)) as Hmod.
  set (h := (x + y) / 2) in *.
  assert (Hh : 0 <= h < 2 ^ 52).
  { change (2 ^ 53) with (2 * 2 ^ 52) in Hs. lia. }
  destruct (Z.even (x + y)) eqn:Ev.
  - assert (Hm : (x + y) mod 2 = 0).
    { rewrite Zeven_mod in Ev. apply Z.eqb_eq in Ev. exact Ev. }
    assert (Hdiv : div (int (x + y)) (int 2) = int h).
    { destruct (Z.eq_dec (x + y) 0) as [E0|NE0].
      - rewrite E0. assert (h = 0) by lia. subst h. rewrite H. reflexivity.
      - unfold div, int. cbn [isZero Qnum inject_Z Js.value].
        replace (x + y =? 0) with false by (symmetry; apply Z.eqb_neq; lia).
        cbn [Z.eqb]. apply round_int; [|lia].
        unfold Qeq, Qdiv, Qmult, Qinv, inject_Z. cbn [Qnum Qden]. lia. }
    rewrite Hdiv, Number_toString_int by lia. now rewrite app_empty_r.
  - assert (Hm : (x + y) mod 2 = 1).
    { rewrite Zeven_mod in Ev. apply Z.eqb_neq in Ev. lia. }
    assert (Hdiv : div (int (x + y)) (int 2) = Real ((2 * h + 1) # 2)).
    { unfold div, int. cbn [isZero Qnum inject_Z Js.value].
      replace (x + y =? 0) with false by (symmetry; apply Z.eqb_neq; lia).
      cbn [Z.eqb]. rewrite (round_Qeq _ ((2 * h + 1) # 2)).
      - apply round_half_odd. lia.
      - unfold Qeq, Qdiv, Qmult, Qinv, inject_Z. cbn [Qnum Qden]. lia. }
    rewrite Hdiv. apply Number_toString_half. lia.
Qed.

(** [getAvgPrice] does not depend on the order of its two prices, and
    on prices that are decimal integers with a sum below 2^53 it returns
    the exact mean: the decimal integer [(buy + sell) / 2] when the sum is
    even, and that integer followed by [".5"] when the sum is odd -- so
    it is the text of an integer exactly when the sum of the two prices
    is even. *)
Theorem getAvgPrice_is_the_exact_mean :
  (forall buyPrice sellPrice,
     getAvgPrice buyPrice sellPrice = getAvgPrice sellPrice buyPrice) /\
  (forall x y,
     0 <= x -> 0 <= y -> x + y < 2 ^ 53 ->
     getAvgPrice (BigInt_toString x) (BigInt_toString y)
     = BigInt_toString ((x + y) / 2) +:+ (if Z.even (x + y) then "" else ".5") /\
     isIntegerString (getAvgPrice (BigInt_toString x) (BigInt_toString y))
     = Z.even (x + y)).
Proof.
  split.
  - intros a b. unfold getAvgPrice. now rewrite add_comm.
  - intros x y Hx Hy Hs. rewrite getAvgPrice_eval by assumption.
    assert (Hh : 0 <= (x + y) / 2) by (apply Z.div_pos; lia).
    rewrite BigInt_toString_nonneg by assumption. split; [reflexivity|].
    destruct (Z.even (x + y)).
    + rewrite app_empty_r. rewrite <- BigInt_toString_nonneg by assumption.
      apply isIntegerString_BigInt_toString.
    + apply (isIntegerString_app_dot _ "5").
Qed.

Lemma getAvgPrice_is_the_exact_mean_witness :
  getAvgPrice "200" "101" = "150.5" /\ isIntegerString (getAvgPrice "200" "101") = false.
Proof.
  exact (proj2 getAvgPrice_is_the_exact_mean 200 101
           ltac:(lia) ltac:(lia) ltac:(reflexivity)).
Defined.

(** ** The cost of the block search *)

Section SearchCost.

Variables (pc : PublicClient) (latest : Z) (ts : Z -> Z).
Hypothesis Hlatest : 0 <= latest < 2 ^ 52.
Hypothesis Hblocks : forall b, 0 <= b <= latest -> getBlock pc b = Ok (ts b).

Lemma get24hBeforeBlock_loop_cost fuel :
  forall k low high st,
    publicClient (self st) = Some pc ->
    0 <= low -> high <= latest -> low <= high + 1 ->
    0 <= k -> high - low + 1 < 2 ^ k -> (Z.to_nat k < fuel)%nat ->
    exists b blocks,
      get24hBeforeBlock_loop fuel low high st = (Ok b, after st (map GetBlock blocks)) /\
      low <= b <= high + 1 /\
      Z.of_nat (length blocks) <= k /\
      Forall (fun x => low <= x <= high) blocks.
Proof.
  induction fuel as [|fuel IH]; intros k low high st Hpc Hlow Hhigh Hle Hk Hsize Hfuel.
  - lia.
  - simpl get24hBeforeBlock_loop.
    destruct (Z.leb_spec low high) as [Hlh|Hlh].
    2:{ exists low, []. cbn [map]. rewrite after_nil.
        repeat split; try lia. cbn. lia. constructor. }
    assert (Hk1 : 1 <= k).
    { destruct (Z.eq_dec k 0) as [->|]; [simpl in Hsize; lia|lia]. }
    assert (Hpow : 2 ^ k = 2 * 2 ^ (k - 1)).
    { rewrite <- Z.pow_succ_r by lia. f_equal. lia. }
    assert (H2 : 2 ^ 52 + 2 ^ 52 = 2 ^ 53) by reflexivity.
    rewrite Number_of_BigInt_int by lia.
    rewrite Math_round_half by lia.
    set (mid := (low + high + 1) / 2).
    pose proof (Z.div_mod (low + high + 1) 2 ltac:(lia)) as Hdm.
    pose proof (Z.mod_pos_bound (low + high + 1) 2 ltac:(lia)) as Hmod.
    fold mid in Hdm.
    assert (Hmid : low <= mid <= high) by lia.
    unfold bind at 1. unfold lift at 1. rewrite BigInt_of_Number_int.
    erewrite bind_Ok;
      [|apply (getBlockTimestamp_eval st pc mid (ts mid) Hpc); apply Hblocks; lia].
    unfold bind at 1. unfold Date_now at 1.
    destruct (lt _ _).
    + destruct (IH (k - 1) low (mid - 1) (after st [GetBlock mid]))
        as [b [blocks [Heq [Hb [Hlen Hall]]]]]; try assumption; try lia.
      exists b, (mid :: blocks). cbn [map].
      change (GetBlock mid :: map GetBlock blocks)
        with ([GetBlock mid] ++ map GetBlock blocks).
      rewrite <- after_after. split; [exact Heq|].
      split; [lia|]. split; [cbn [length]; lia|].
      constructor; [lia|].
      eapply List.Forall_impl; [|exact Hall]. cbn. intros; lia.
    + destruct (IH (k - 1) (mid + 1) high (after st [GetBlock mid]))
        as [b [blocks [Heq [Hb [Hlen Hall]]]]]; try assumption; try lia.
      exists b, (mid :: blocks). cbn [map].
      change (GetBlock mid :: map GetBlock blocks)
        with ([GetBlock mid] ++ map GetBlock blocks).
      rewrite <- after_after. split; [exact Heq|].
      split; [lia|]. split; [cbn [length]; lia|].
      constructor; [lia|].
      eapply List.Forall_impl; [|exact Hall]. cbn. intros; lia.
Qed.

End SearchCost.

(** The search for the block of 24 hours ago is a bisection and costs a
    logarithmic number of requests.  On a chain whose latest block number
    is below 2^52 (where halving a sum of two block numbers is exact) and
    whose blocks [0..latestBlock] can be fetched, whatever their
    timestamps and the current time are -- in order or not, of any size --
    [get24hBeforeBlock] terminates: after the one [getBlockNumber] request
    it fetches at most [log2 (latestBlock + 1) + 1] blocks, all of them in
    [0..latestBlock], does nothing else, and returns a block in
    [0..latestBlock + 1]. *)
Theorem get24hBeforeBlock_is_logarithmic :
  forall (st : State) (pc : PublicClient) (latest : Z) (ts : Z -> Z) (fuel : nat),
    publicClient (self st) = Some pc ->
    getBlockNumber pc = Ok latest ->
    0 <= latest < 2 ^ 52 ->
    (forall b, 0 <= b <= latest -> getBlock pc b = Ok (ts b)) ->
    (Z.to_nat (Z.log2 (latest + 1)) + 1 < fuel)%nat ->
    exists b blocks,
      get24hBeforeBlock fuel st
      = (Ok b, after st (GetBlockNumber :: map GetBlock blocks)) /\
      0 <= b <= latest + 1 /\
      Z.of_nat (length blocks) <= Z.log2 (latest + 1) + 1 /\
      Forall (fun x => 0 <= x <= latest) blocks.
Proof.
  intros st pc latest ts fuel Hpc Hnum Hlatest Hblocks Hfuel.
  unfold get24hBeforeBlock.
  erewrite bind_Ok; [|rewrite (getBlockNumber_bang_eval st pc Hpc), Hnum; reflexivity].
  pose proof (Z.log2_nonneg (latest + 1)) as Hl0.
  pose proof (Z.log2_spec (latest + 1) ltac:(lia)) as [_ Hl1].
  replace (Z.succ (Z.log2 (latest + 1))) with (Z.log2 (latest + 1) + 1) in Hl1 by lia.
  destruct (get24hBeforeBlock_loop_cost pc latest ts Hlatest Hblocks
              fuel (Z.log2 (latest + 1) + 1) 0 latest (after st [GetBlockNumber]))
    as [b [blocks [Heq [Hb [Hlen Hall]]]]]; try assumption; try reflexivity; try lia.
  exists b, blocks. rewrite Heq, after_after. cbn [app].
  repeat split; try lia; assumption.
Qed.

(** A chain of 21 blocks whose timestamps run backwards, read at a time
    before any of them: five blocks at most are fetched. *)
Lemma get24hBeforeBlock_is_logarithmic_witness :
  exists b blocks,
    get24hBeforeBlock 7
      (start (wallet accepting (quietLedger 20 (fun b => 10 ^ 30 - b))) 0)
    = (Ok b, after (start (wallet accepting (quietLedger 20 (fun b => 10 ^ 30 - b))) 0)
               (GetBlockNumber :: map GetBlock blocks)) /\
    0 <= b <= 21 /\ Z.of_nat (length blocks) <= 5.
Proof.
  assert (E52 : 2 ^ 52 = 4503599627370496) by reflexivity.
  destruct (get24hBeforeBlock_is_logarithmic
              (start (wallet accepting (quietLedger 20 (fun b => 10 ^ 30 - b))) 0)
              (syntheticClient (quietLedger 20 (fun b => 10 ^ 30 - b))) 20
              (fun b => 10 ^ 30 - b) 7)
    as [b [blocks [H1 [H2 [H3 _]]]]].
  - reflexivity.
  - reflexivity.
  - lia.
  - intros b _. reflexivity.
  - simpl. lia.
  - exists b, blocks. split; [exact H1|]. split; [exact H2|exact H3].
Defined.

(** ** Seconds on the ledger, milliseconds in the client *)

Section Milliseconds.

Context (CA : gmap Z Address).

Lemma seconds_to_ms s :
  0 <= s -> s * 1000 < 2 ^ 53 -> mul (Number_of_BigInt s) (ofZ 1000) = int (s * 1000).
Proof.
  intros H0 H1. rewrite Number_of_BigInt_int by lia.
  rewrite (ofZ_int 1000) by (simpl; lia). apply mul_int; lia.
Qed.

Lemma map_feeEvent_ms items :
  Forall (fun it => 0 <= fst it /\ fst it * 1000 < 2 ^ 53) items ->
  map (fun item => {| timestamp := mul (Number_of_BigInt (fst item)) (ofZ 1000);
                      fee := BigInt_toString (snd item) |}) items
  = map (fun item => {| timestamp := int (fst item * 1000);
                        fee := BigInt_toString (snd item) |}) items.
Proof.
  induction 1 as [|it items [H0 H1] _ IH]; [reflexivity|].
  cbn [map]. rewrite IH, seconds_to_ms by assumption. reflexivity.
Qed.

(** Every time the client hands out is in milliseconds: the block
    timestamp, the time of the last exchange and the time of a fee event
    are the ledger's seconds times 1000, exactly, as long as the product
    is below 2^53.  [getPoolFeeEvents] returns one event per item of the
    contract's list, in the order of the list, and [getBlockTimestamp]
    rethrows a failure of the block request under the prefix ["Error
    fetching block timestamp: "]. *)
Theorem client_times_are_milliseconds :
  forall (st : State) (pc : PublicClient),
    canRead CA (self st) = true ->
    publicClient (self st) = Some pc ->
    (forall b s,
       getBlock pc b = Ok s -> 0 <= s -> s * 1000 < 2 ^ 53 ->
       getBlockTimestamp b st = (Ok (int (s * 1000)), after st [GetBlock b])) /\
    (forall b e,
       getBlock pc b = Throw e ->
       getBlockTimestamp b st
       = (Throw (ErrorObject ("Error fetching block timestamp: "
                              +:+ message_in_template e)),
          after st [GetBlock b])) /\
    (forall tok x y s,
       read_pools pc (contractAddress (self st)) (address tok) = Ok (Some (x, y, s)) ->
       0 <= s -> s * 1000 < 2 ^ 53 ->
       fst (getLastExchangeTimestamp CA tok st) = Ok (int (s * 1000))) /\
    (forall tok i j items,
       read_getPoolFeeList pc (contractAddress (self st)) (address tok) i j
       = Ok (Some items) ->
       Forall (fun it => 0 <= fst it /\ fst it * 1000 < 2 ^ 53) items ->
       fst (getPoolFeeEvents CA tok (int i) (int j) st)
       = Ok (map (fun it => {| timestamp := int (fst it * 1000);
                               fee := BigInt_toString (snd it) |}) items)).
Proof.
  intros st pc Hg Hpc. split; [|split; [|split]].
  - intros b s Hb H0 H1. rewrite (getBlockTimestamp_eval st pc b s Hpc Hb).
    now rewrite seconds_to_ms.
  - intros b e Hb. unfold getBlockTimestamp, tryCatch, bind, this.
    rewrite Hpc, emit_after. unfold lift. rewrite Hb. reflexivity.
  - intros tok x y s Hread H0 H1. unfold getLastExchangeTimestamp.
    erewrite safeRead_returns; [reflexivity|exact Hg|].
    unfold bind at 1. unfold this at 1. unfold bind at 1.
    rewrite (readContract_bang_some _ _ st pc Hpc), Hread.
    unfold ret. now rewrite seconds_to_ms.
  - intros tok i j items Hread Hall. unfold getPoolFeeEvents.
    erewrite safeRead_returns; [reflexivity|exact Hg|].
    unfold bind at 1. unfold this at 1. unfold bind at 1.
    rewrite (publicClient_bang_eval _ st pc Hpc).
    unfold bind at 1. unfold lift at 1. rewrite BigInt_of_Number_int.
    unfold bind at 1. unfold lift at 1. rewrite BigInt_of_Number_int.
    unfold bind at 1. rewrite emit_after.
    unfold bind at 1. unfold lift at 1. rewrite Hread.
    unfold ret. now rewrite map_feeEvent_ms.
Qed.

End Milliseconds.

Lemma client_times_are_milliseconds_witness :
  getBlockTimestamp 20 (start (wallet accepting feeLedger) steadyNow)
  = (Ok (int 1000240000),
     after (start (wallet accepting feeLedger) steadyNow) [GetBlock 20]) /\
  fst (getPoolFeeEvents CONTRACT_ADDRESSES TKN (int 0) (int 1)
         (start (wallet accepting feeLedger) steadyNow))
  = Ok [ {| timestamp := int 0; fee := "5" |};
         {| timestamp := int 86400000; fee := "5" |} ].
Proof.
  destruct (client_times_are_milliseconds CONTRACT_ADDRESSES
              (start (wallet accepting feeLedger) steadyNow)
              (syntheticClient feeLedger))
    as [H1 [_ [_ H4]]].
  - vm_compute. reflexivity.
  - reflexivity.
  - split.
    + apply (H1 20 1000240); [reflexivity|lia|reflexivity].
    + apply (H4 TKN 0 1 [(0, 5); (86400, 5)]); [reflexivity|].
      repeat constructor; cbn; try lia; reflexivity.
Defined.

(** ** Pages of the pool list *)

Lemma bind_Ok_inv {A B} (m : M A) (f : A -> M B) st r st' :
  bind m f st = (Ok r, st') ->
  exists a s1, m st = (Ok a, s1) /\ f a s1 = (Ok r, st').
Proof.
  unfold bind. destruct (m st) as [[a|e|] s1]; try discriminate. eauto.
Qed.

Lemma lift_Ok_inv {A} (o : Outcome A) st r st' :
  lift o st = (Ok r, st') -> o = Ok r /\ st' = st.
Proof. unfold lift. intros H. inversion H. auto. Qed.

Lemma settleAll_inv {X A} (f : X -> M A) (R : X -> A -> Prop) :
  (forall x st y st', f x st = (Ok y, st') -> R x y) ->
  forall xs st os st',
    settleAll (map f xs) st = (Ok os, st') ->
    Forall2 (fun x o => forall y, o = Ok y -> R x y) xs os.
Proof.
  intros HR. induction xs as [|x xs IH]; intros st os st' H.
  - cbn in H. inversion H. constructor.
  - cbn [map settleAll] in H.
    apply bind_Ok_inv in H as [o [s1 [Ho H]]].
    apply bind_Ok_inv in H as [os' [s2 [Hos H]]].
    inversion H; subst. constructor; [|eapply IH; exact Hos].
    intros y ->. unfold settle in Ho.
    destruct (f x st) as [r s] eqn:Hf. inversion Ho; subst.
    eapply HR. exact Hf.
Qed.

Lemma sequenceO_inv {A} (os : list (Outcome A)) ys :
  sequenceO os = Ok ys -> Forall2 (fun o y => o = Ok y) os ys.
Proof.
  revert ys. induction os as [|o os IH]; intros ys H.
  - inversion H. constructor.
  - cbn [sequenceO] in H. destruct o as [y|e|]; try discriminate.
    cbn [Viem.bindO] in H. destruct (sequenceO os) as [ys'|e|]; try discriminate.
    inversion H; subst. constructor; [reflexivity|]. now apply IH.
Qed.

Lemma sequenceO_map_inv {X A} (g : X -> Outcome A) (P : A -> Prop) :
  (forall x y, g x = Ok y -> P y) ->
  forall xs ys, sequenceO (map g xs) = Ok ys -> Forall P ys /\ length ys = length xs.
Proof.
  intros HP. induction xs as [|x xs IH]; intros ys H.
  - inversion H. split; [constructor|reflexivity].
  - cbn [map sequenceO] in H. destruct (g x) as [y|e|] eqn:Hg; try discriminate.
    cbn [Viem.bindO] in H.
    destruct (sequenceO (map g xs)) as [ys'|e|]; try discriminate.
    inversion H; subst. destruct (IH ys' eq_refl) as [H1 H2].
    split; [constructor; [eapply HP; exact Hg|exact H1]|cbn; congruence].
Qed.

Lemma Promise_all_inv {X A} (f : X -> M A) (R : X -> A -> Prop) :
  (forall x st y st', f x st = (Ok y, st') -> R x y) ->
  forall xs st ys st',
    Promise_all (map f xs) st = (Ok ys, st') -> Forall2 R xs ys.
Proof.
  intros HR xs st ys st' H. unfold Promise_all in H.
  apply bind_Ok_inv in H as [os [s1 [Hos H]]].
  apply lift_Ok_inv in H as [Hseq _].
  pose proof (settleAll_inv f R HR xs st os s1 Hos) as H1.
  pose proof (sequenceO_inv os ys Hseq) as H2.
  clear -H1 H2. revert ys H2. induction H1 as [|x o xs os Hxo _ IH]; intros ys H2.
  - inversion H2. constructor.
  - inversion H2; subst. constructor; [now apply Hxo|now apply IH].
Qed.

Lemma Forall2_length_eq {A B} (R : A -> B -> Prop) xs ys :
  Forall2 R xs ys -> length xs = length ys.
Proof. induction 1; cbn; congruence. Qed.

Lemma Forall2_right {A B} (P : B -> Prop) (xs : list A) (ys : list B) :
  Forall2 (fun _ y => P y) xs ys -> Forall P ys.
Proof. induction 1; constructor; assumption. Qed.

Lemma Forall2_map_eq {A B C} (g : B -> C) (h : A -> C) (xs : list A) (ys : list B) :
  Forall2 (fun x y => g y = h x) xs ys -> map g ys = map h xs.
Proof. induction 1; cbn; congruence. Qed.

Section Pages.

Context (CA : gmap Z Address) (views : PublicClient -> PoolViews).

Lemma getToken_address a st tok st' : getToken a st = (Ok tok, st') -> address tok = a.
Proof.
  intros H. unfold getToken, tryCatch in H.
  match type of H with
  | match ?m st with _ => _ end = _ => destruct (m st) as [[t|e|] s1] eqn:Hm
  end; try discriminate.
  inversion H; subst. clear H.
  apply bind_Ok_inv in Hm as [[[d s] n] [s2 [_ Hm]]].
  inversion Hm. reflexivity.
Qed.

(** what [rowData] returns: the tokens of the addresses, in order, and
    as many prices and liquidity figures, all decimal integers *)
Lemma rowData_inv addrs st tokens buyPrices sellPrices liquidity st' :
  rowData CA addrs st = (Ok (tokens, buyPrices, sellPrices, liquidity), st') ->
  map address tokens = addrs /\
  length buyPrices = length tokens /\
  length sellPrices = length tokens /\
  length liquidity = length tokens /\
  Forall (fun s => isIntegerString s = true) buyPrices /\
  Forall (fun s => isIntegerString s = true) sellPrices /\
  Forall (fun s => isIntegerString s = true) liquidity.
Proof.
  intros H. unfold rowData in H.
  apply bind_Ok_inv in H as [tokens0 [s1 [Htok H]]].
  apply bind_Ok_inv in H as [bp [s2 [Hbp H]]].
  apply bind_Ok_inv in H as [sp [s3 [Hsp H]]].
  apply bind_Ok_inv in H as [rs [s4 [Hrs H]]].
  apply bind_Ok_inv in H as [liq [s5 [Hliq H]]].
  inversion H; subst. clear H.
  apply lift_Ok_inv in Hliq as [Hliq _].
  pose proof (Promise_all_inv getToken (fun a t => address t = a)
                getToken_address _ _ _ _ Htok) as Ht.
  pose proof (Promise_all_inv (getBuyPrice CA) (fun _ s => isIntegerString s = true)
                (fun x st y st' => readAmount_integer CA _ _ x _ st y st') _ _ _ _ Hbp)
    as Hb.
  pose proof (Promise_all_inv (getSellPrice CA) (fun _ s => isIntegerString s = true)
                (fun x st y st' => readAmount_integer CA _ _ x _ st y st') _ _ _ _ Hsp)
    as Hs.
  pose proof (Promise_all_inv (getReserves CA) (fun _ _ => True)
                (fun _ _ _ _ _ => I) _ _ _ _ Hrs) as Hr.
  apply (sequenceO_map_inv _ (fun s => isIntegerString s = true)) in Hliq;
    [|intros x y Hx; eapply getTotalLiquidity_integer; exact Hx].
  destruct Hliq as [Hliq Ll].
  pose proof (Forall2_length_eq _ _ _ Ht) as Lt.
  pose proof (Forall2_length_eq _ _ _ Hb) as Lb.
  pose proof (Forall2_length_eq _ _ _ Hs) as Ls.
  pose proof (Forall2_length_eq _ _ _ Hr) as Lr.
  rewrite !length_combine in Ll.
  repeat split.
  - rewrite <- (map_id addrs). apply Forall2_map_eq.
    eapply Forall2_impl; [exact Ht|]. cbn. auto.
  - lia.
  - lia.
  - lia.
  - eapply Forall2_right; exact Hb.
  - eapply Forall2_right; exact Hs.
  - exact Hliq.
Qed.

Lemma publicClient_bang_inv p st pc st' :
  publicClient_bang p st = (Ok pc, st') -> publicClient (self st) = Some pc /\ st' = st.
Proof.
  unfold publicClient_bang, bind, this, defined.
  destruct (publicClient (self st)) as [pc0|]; [|discriminate].
  unfold ret. intros H. inversion H. auto.
Qed.

Lemma emit_inv ev st u st' : emit ev st = (Ok u, st') -> st' = after st [ev].
Proof. rewrite emit_after. intros H. inversion H. reflexivity. Qed.

Lemma this_inv st c st' : this st = (Ok c, st') -> c = self st /\ st' = st.
Proof. unfold this. intros H. inversion H. auto. Qed.

(** rows made of four columns of one length *)
Lemma rows_of_columns (lp : option LiquidityPoolToken) :
  forall (tokens : list Token) (bp sp liq : list string),
    length bp = length tokens -> length sp = length tokens ->
    length liq = length tokens ->
    Forall (fun s => isIntegerString s = true) bp ->
    Forall (fun s => isIntegerString s = true) sp ->
    Forall (fun s => isIntegerString s = true) liq ->
    let rows := map (rowPool lp) (combine (combine (combine tokens bp) sp) liq) in
    map row_token rows = tokens /\
    Forall (fun r => row_lpToken r = lp /\
                     isIntegerString (row_buyPrice r) = true /\
                     isIntegerString (row_sellPrice r) = true /\
                     isIntegerString (row_totalLiquidity r) = true) rows.
Proof.
  induction tokens as [|t tokens IH]; intros bp sp liq Lb Ls Ll Hb Hs Hl.
  - cbn. split; constructor.
  - destruct bp as [|b bp]; [discriminate|]. destruct sp as [|s sp]; [discriminate|].
    destruct liq as [|l liq]; [discriminate|].
    inversion Hb as [|? ? Hb1 Hb2]; subst. inversion Hs as [|? ? Hs1 Hs2]; subst.
    inversion Hl as [|? ? Hl1 Hl2]; subst.
    cbn [length] in *. cbn [combine map].
    destruct (IH bp sp liq) as [K1 K2]; try assumption; try lia.
    split.
    + cbn [rowPool row_token fst]. f_equal. exact K1.
    + constructor; [cbn; auto|exact K2].
Qed.

Lemma rows_with_lp_tokens :
  forall (cols : list (Token * string * string * string))
         (lps : list LiquidityPoolToken),
    length lps = length cols ->
    Forall (fun lp => isIntegerString (totalSupply lp) = true /\
                      isIntegerString (balance lp) = true) lps ->
    Forall (fun x => isIntegerString (snd (fst (fst x))) = true /\
                     isIntegerString (snd (fst x)) = true /\
                     isIntegerString (snd x) = true) cols ->
    let rows := map (fun x => rowPool (Some (snd x)) (fst x)) (combine cols lps) in
    map row_token rows = map (fun x => fst (fst (fst x))) cols /\
    Forall (fun r => (exists lp, row_lpToken r = Some lp /\
                                 isIntegerString (totalSupply lp) = true /\
                                 isIntegerString (balance lp) = true) /\
                     isIntegerString (row_buyPrice r) = true /\
                     isIntegerString (row_sellPrice r) = true /\
                     isIntegerString (row_totalLiquidity r) = true) rows.
Proof.
  induction cols as [|x cols IH]; intros lps Hl Hlp Hc.
  - cbn. split; constructor.
  - destruct lps as [|lp lps]; [discriminate|].
    inversion Hlp as [|? ? Hlp1 Hlp2]; subst. inversion Hc as [|? ? Hc1 Hc2]; subst.
    cbn [length] in Hl. cbn [combine map].
    destruct (IH lps) as [K1 K2]; try assumption; try lia.
    split.
    + cbn [rowPool row_token fst snd]. f_equal. exact K1.
    + constructor; [|exact K2]. cbn [rowPool row_lpToken row_buyPrice row_sellPrice
                                     row_totalLiquidity fst snd].
      split; [exists lp; tauto|tauto].
Qed.

Lemma columns_combined :
  forall (tokens : list Token) (bp sp liq : list string),
    length bp = length tokens -> length sp = length tokens ->
    length liq = length tokens ->
    Forall (fun s => isIntegerString s = true) bp ->
    Forall (fun s => isIntegerString s = true) sp ->
    Forall (fun s => isIntegerString s = true) liq ->
    let cols := combine (combine (combine tokens bp) sp) liq in
    length cols = length tokens /\
    map (fun x => fst (fst (fst x))) cols = tokens /\
    Forall (fun x => isIntegerString (snd (fst (fst x))) = true /\
                     isIntegerString (snd (fst x)) = true /\
                     isIntegerString (snd x) = true) cols.
Proof.
  induction tokens as [|t tokens IH]; intros bp sp liq Lb Ls Ll Hb Hs Hl.
  - cbn. repeat split; constructor.
  - destruct bp as [|b bp]; [discriminate|]. destruct sp as [|s sp]; [discriminate|].
    destruct liq as [|l liq]; [discriminate|].
    inversion Hb as [|? ? Hb1 Hb2]; subst. inversion Hs as [|? ? Hs1 Hs2]; subst.
    inversion Hl as [|? ? Hl1 Hl2]; subst.
    cbn [length] in *. cbn [combine map].
    destruct (IH bp sp liq) as [K0 [K1 K2]]; try assumption; try lia.
    repeat split.
    + cbn [length]. congruence.
    + cbn [fst]. f_equal. exact K1.
    + constructor; [cbn; auto|exact K2].
Qed.

(** A page of the pool list follows the registry.  When a page of
    [getPools] is not empty it has one row per address the [getPoolList]
    read returned, in the registry's order, and the token of each row
    carries that address; the prices and the liquidity of every row are
    decimal integers and no row has an LP token.  The same holds for
    [getUserPools] and the [getUserPools] read, where every row carries
    the LP token of its pool, with a decimal supply and balance.  A page
    is never partial.  (The columns are fetched one after the other and
    put together by index.) *)
Theorem pool_pages_follow_the_registry :
  (forall (startIndex offset : Number) (st : State) (rows : list RowPool),
     fst (getPools CA views startIndex offset st) = Ok rows ->
     rows = [] \/
     exists pc i j addresses,
       publicClient (self st) = Some pc /\
       BigInt_of_Number startIndex = Ok i /\
       BigInt_of_Number offset = Ok j /\
       read_getPoolList (views pc) (contractAddress (self st)) i j
       = Ok (Some addresses) /\
       map (fun r => address (row_token r)) rows = addresses /\
       Forall (fun r => row_lpToken r = None /\
                        isIntegerString (row_buyPrice r) = true /\
                        isIntegerString (row_sellPrice r) = true /\
                        isIntegerString (row_totalLiquidity r) = true) rows) /\
  (forall (user : Address) (startIndex offset : Number) (st : State)
          (rows : list RowPool),
     fst (getUserPools CA views user startIndex offset st) = Ok rows ->
     rows = [] \/
     exists pc i j addresses,
       publicClient (self st) = Some pc /\
       BigInt_of_Number startIndex = Ok i /\
       BigInt_of_Number offset = Ok j /\
       read_getUserPools (views pc) (contractAddress (self st)) user i j
       = Ok (Some addresses) /\
       map (fun r => address (row_token r)) rows = addresses /\
       Forall (fun r => (exists lp, row_lpToken r = Some lp /\
                                    isIntegerString (totalSupply lp) = true /\
                                    isIntegerString (balance lp) = true) /\
                        isIntegerString (row_buyPrice r) = true /\
                        isIntegerString (row_sellPrice r) = true /\
                        isIntegerString (row_totalLiquidity r) = true) rows).
Proof.
  split.
  - intros si off st rows H.
    destruct (getPools CA views si off st) as [r st'] eqn:E. cbn [fst] in H. subst r.
    unfold getPools in E. apply safeRead_Ok_inv in E.
    destruct E as [->|[st1 E]]; [now left|].
    apply bind_Ok_inv in E as [c [s1 [Hc E]]]. apply this_inv in Hc as [-> ->].
    apply bind_Ok_inv in E as [pc [s1 [Hpc E]]].
    apply publicClient_bang_inv in Hpc as [Hpc ->].
    apply bind_Ok_inv in E as [i [s1 [Hi E]]]. apply lift_Ok_inv in Hi as [Hi ->].
    apply bind_Ok_inv in E as [j [s1 [Hj E]]]. apply lift_Ok_inv in Hj as [Hj ->].
    apply bind_Ok_inv in E as [u [s1 [Hu E]]]. apply emit_inv in Hu. subst s1.
    apply bind_Ok_inv in E as [data [s1 [Hd E]]]. apply lift_Ok_inv in Hd as [Hd ->].
    destruct data as [addresses|].
    2:{ cbn in E. inversion E. now left. }
    destruct (Nat.eqb (length addresses) 0).
    { inversion E. now left. }
    apply bind_Ok_inv in E as [[[[tokens bp] sp] liq] [s1 [Hrow E]]].
    inversion E; subst. clear E.
    apply rowData_inv in Hrow as [Ha [Lb [Ls [Ll [Hb [Hs Hl]]]]]].
    destruct (rows_of_columns None tokens bp sp liq Lb Ls Ll Hb Hs Hl) as [H1 H2].
    right. exists pc, i, j, addresses. repeat split; try assumption.
    rewrite <- Ha. rewrite <- (List.map_map row_token address). f_equal. exact H1.
  - intros user si off st rows H.
    destruct (getUserPools CA views user si off st) as [r st'] eqn:E.
    cbn [fst] in H. subst r.
    unfold getUserPools in E. apply safeRead_Ok_inv in E.
    destruct E as [->|[st1 E]]; [now left|].
    apply bind_Ok_inv in E as [c [s1 [Hc E]]]. apply this_inv in Hc as [-> ->].
    apply bind_Ok_inv in E as [pc [s1 [Hpc E]]].
    apply publicClient_bang_inv in Hpc as [Hpc ->].
    apply bind_Ok_inv in E as [i [s1 [Hi E]]]. apply lift_Ok_inv in Hi as [Hi ->].
    apply bind_Ok_inv in E as [j [s1 [Hj E]]]. apply lift_Ok_inv in Hj as [Hj ->].
    apply bind_Ok_inv in E as [u [s1 [Hu E]]]. apply emit_inv in Hu. subst s1.
    apply bind_Ok_inv in E as [data [s1 [Hd E]]]. apply lift_Ok_inv in Hd as [Hd ->].
    destruct data as [addresses|].
    2:{ cbn in E. inversion E. now left. }
    destruct (Nat.eqb (length addresses) 0).
    { inversion E. now left. }
    apply bind_Ok_inv in E as [[[[tokens bp] sp] liq] [s1 [Hrow E]]].
    apply bind_Ok_inv in E as [lps [s2 [Hlps E]]].
    inversion E; subst. clear E.
    apply rowData_inv in Hrow as [Ha [Lb [Ls [Ll [Hb [Hs Hl]]]]]].
    pose proof (Promise_all_inv (fun token => getLPToken token user)
                  (fun _ lp => isIntegerString (totalSupply lp) = true /\
                               isIntegerString (balance lp) = true)
                  (fun x st y st' => getLPToken_integer x user st y st')
                  _ _ _ _ Hlps) as Hlp.
    pose proof (Forall2_length_eq _ _ _ Hlp) as Llp.
    apply Forall2_right in Hlp.
    destruct (columns_combined tokens bp sp liq Lb Ls Ll Hb Hs Hl) as [C0 [C1 C2]].
    assert (Lc : length lps = length (combine (combine (combine tokens bp) sp) liq))
      by lia.
    destruct (rows_with_lp_tokens _ lps Lc Hlp C2) as [H1 H2].
    right. exists pc, i, j, addresses. repeat split; try assumption.
    rewrite <- Ha. rewrite <- (List.map_map row_token address). f_equal.
    rewrite H1. exact C1.
Qed.

End Pages.

(** two pools listed on the steady ledger *)
Lemma pool_pages_follow_the_registry_witness :
  let rows :=
    [ {| row_token := metadata (address TKN); row_buyPrice := "200";
         row_sellPrice := "100"; row_totalLiquidity := "5000000000000001000";
         row_lpToken := None |};
      {| row_token := metadata OTHER; row_buyPrice := "200";
         row_sellPrice := "100"; row_totalLiquidity := "5000000000000001000";
         row_lpToken := None |} ] in
  fst (getPools CONTRACT_ADDRESSES (Listing.registry [address TKN; OTHER])
         (int 0) (int 20) (start (wallet accepting steadyLedger) steadyNow))
  = Ok rows /\
  (rows = [] \/
   exists pc i j addresses,
     publicClient (self (start (wallet accepting steadyLedger) steadyNow)) = Some pc /\
     BigInt_of_Number (int 0) = Ok i /\
     BigInt_of_Number (int 20) = Ok j /\
     read_getPoolList (Listing.registry [address TKN; OTHER] pc)
       (contractAddress (self (start (wallet accepting steadyLedger) steadyNow))) i j
     = Ok (Some addresses) /\
     map (fun r => address (row_token r)) rows = addresses /\
     Forall (fun r => row_lpToken r = None /\
                      isIntegerString (row_buyPrice r) = true /\
                      isIntegerString (row_sellPrice r) = true /\
                      isIntegerString (row_totalLiquidity r) = true) rows).
Proof.
  intros rows.
  assert (H : fst (getPools CONTRACT_ADDRESSES (Listing.registry [address TKN; OTHER])
                     (int 0) (int 20) (start (wallet accepting steadyLedger) steadyNow))
              = Ok rows) by (vm_compute; reflexivity).
  split; [exact H|].
  exact (proj1 (pool_pages_follow_the_registry CONTRACT_ADDRESSES
                  (Listing.registry [address TKN; OTHER])) (int 0) (int 20)
           (start (wallet accepting steadyLedger) steadyNow) rows H).
Defined.

Section DroppedPage.

Context (CA : gmap Z Address) (views : PublicClient -> PoolViews).

Lemma settleAll_getToken pc : forall addrs st,
  publicClient (self st) = Some pc ->
  settleAll (map getToken addrs) st
  = (Ok (map (tokenOutcome pc) addrs), after st (flat_map metadataReads addrs)).
Proof.
  induction addrs as [|a addrs IH]; intros st Hpc.
  - cbn. unfold ret. now rewrite after_nil.
  - cbn [map settleAll flat_map]. unfold bind at 1. unfold settle.
    rewrite (getToken_eval a st pc Hpc). fold (tokenOutcome pc a).
    unfold bind at 1. rewrite (IH (after st (metadataReads a))) by exact Hpc.
    unfold ret. rewrite after_after. reflexivity.
Qed.

Lemma tokenOutcome_benign pc a :
  (answers (read_decimals pc a) \/ failsAsExpected (read_decimals pc a)) ->
  (answers (read_symbol pc a) \/ failsAsExpected (read_symbol pc a)) ->
  (answers (read_name pc a) \/ failsAsExpected (read_name pc a)) ->
  answers (tokenOutcome pc a) \/ failsAsExpected (tokenOutcome pc a).
Proof.
  unfold tokenOutcome.
  intros [[d ->]|[m [-> Hm]]].
  2:{ intros _ _. right. eexists. split; [reflexivity|].
      now apply isExpectedReadFailure_prefixed. }
  intros [[s ->]|[m [-> Hm]]].
  2:{ intros _. right. eexists. split; [reflexivity|].
      now apply isExpectedReadFailure_prefixed. }
  intros [[n ->]|[m [-> Hm]]].
  - left. eexists. reflexivity.
  - right. eexists. split; [reflexivity|].
    now apply isExpectedReadFailure_prefixed.
Qed.

Lemma tokenOutcome_fails pc a :
  (answers (read_decimals pc a) \/ failsAsExpected (read_decimals pc a)) ->
  (answers (read_symbol pc a) \/ failsAsExpected (read_symbol pc a)) ->
  (answers (read_name pc a) \/ failsAsExpected (read_name pc a)) ->
  (failsAsExpected (read_decimals pc a) \/ failsAsExpected (read_symbol pc a) \/
   failsAsExpected (read_name pc a)) ->
  failsAsExpected (tokenOutcome pc a).
Proof.
  intros Hd Hs Hn Hf.
  destruct (tokenOutcome_benign pc a Hd Hs Hn) as [[tok Hok]|H]; [|exact H].
  exfalso. unfold tokenOutcome in Hok.
  destruct Hf as [[m [E _]]|[[m [E _]]|[m [E _]]]]; rewrite E in Hok.
  - discriminate.
  - destruct (read_decimals pc a); discriminate.
  - destruct (read_decimals pc a); try discriminate.
    destruct (read_symbol pc a); discriminate.
Qed.

Lemma sequenceO_some_failure {A} (l : list (Outcome A)) :
  Forall (fun o => answers o \/ failsAsExpected o) l ->
  Exists (fun o => failsAsExpected o) l ->
  failsAsExpected (sequenceO l).
Proof.
  induction l as [|o l IH]; intros Hall Hex; [inversion Hex|].
  inversion Hall as [|? ? Ho Hl]; subst.
  cbn [sequenceO].
  destruct Ho as [[x ->]|[m [-> Hm]]].
  - cbn [Viem.bindO].
    assert (Hex' : Exists (fun o => failsAsExpected o) l).
    { inversion Hex as [? ? [m [E _]]|? ? H]; subst; [discriminate|exact H]. }
    destruct (IH Hl Hex') as [m [-> Hm]]. exists m. split; [reflexivity|exact Hm].
  - exists m. split; [reflexivity|exact Hm].
Qed.

(** One token whose metadata cannot be read empties the page.  When
    every metadata read ([decimals], [symbol], [name]) of the tokens the
    registry lists either answers or fails with an expected failure, and
    at least one of them fails, [getPools] returns no row at all -- not
    the rows of the tokens that read fine.  (Whichever of the failures
    [Promise.all] reports, it is rethrown under the prefix of [getToken],
    still counts as expected, and the fallback of [getPools] is the empty
    list; the property does not depend on the order in which the pending
    reads are answered.) *)
Theorem getPools_one_unreadable_token_empties_the_page :
  forall (startIndex offset : Number) (st : State) (pc : PublicClient) (i j : Z)
         (addresses : list Address),
    canRead CA (self st) = true ->
    publicClient (self st) = Some pc ->
    BigInt_of_Number startIndex = Ok i ->
    BigInt_of_Number offset = Ok j ->
    read_getPoolList (views pc) (contractAddress (self st)) i j
    = Ok (Some addresses) ->
    (forall a, In a addresses ->
       (answers (read_decimals pc a) \/ failsAsExpected (read_decimals pc a)) /\
       (answers (read_symbol pc a) \/ failsAsExpected (read_symbol pc a)) /\
       (answers (read_name pc a) \/ failsAsExpected (read_name pc a))) ->
    (exists a, In a addresses /\
       (failsAsExpected (read_decimals pc a) \/ failsAsExpected (read_symbol pc a) \/
        failsAsExpected (read_name pc a))) ->
    fst (getPools CA views startIndex offset st) = Ok [].
Proof.
  intros si off st pc i j addresses Hg Hpc Hi Hj Hread Hall [bad [Hin Hbad]].
  unfold getPools.
  assert (Hseq : failsAsExpected (sequenceO (map (tokenOutcome pc) addresses))).
  { apply sequenceO_some_failure.
    - apply List.Forall_forall. intros o Ho. apply in_map_iff in Ho as [a [<- Ha]].
      destruct (Hall a Ha) as [Hd [Hs Hn]]. now apply tokenOutcome_benign.
    - apply List.Exists_exists. exists (tokenOutcome pc bad). split.
      + apply in_map. exact Hin.
      + destruct (Hall bad Hin) as [Hd [Hs Hn]]. now apply tokenOutcome_fails. }
  destruct Hseq as [m [Hseq Hm]].
  match goal with
  | |- fst (safeRead CA ?n ?fb ?fn st) = _ =>
      assert (Hfn : exists st1, fn st = (Throw (ErrorObject m), st1))
  end.
  { unfold bind at 1. unfold this at 1. unfold bind at 1.
    rewrite (publicClient_bang_eval _ st pc Hpc).
    unfold bind at 1. unfold lift at 1. rewrite Hi.
    unfold bind at 1. unfold lift at 1. rewrite Hj.
    unfold bind at 1. rewrite emit_after.
    unfold bind at 1. unfold lift at 1.
    change (contractAddress (self (after st _))) with (contractAddress (self st)).
    rewrite Hread.
    assert (Hlen : Nat.eqb (length addresses) 0 = false).
    { destruct addresses; [destruct Hin|reflexivity]. }
    rewrite Hlen. unfold bind at 1. unfold rowData. unfold bind at 1.
    unfold Promise_all. unfold bind at 1.
    rewrite (settleAll_getToken pc) by exact Hpc.
    unfold lift at 1. rewrite Hseq. eexists. reflexivity. }
  destruct Hfn as [st1 Hfn].
  match goal with
  | |- fst (safeRead CA ?n ?fb ?fn st) = _ =>
      destruct (safeRead_fallback CA n fb fn st _ st1 Hg Hfn Hm) as [w ->]
  end.
  reflexivity.
Qed.

End DroppedPage.

(** ** What every pool returned by [getPool] satisfies *)

Section PoolInvariant.

Context (CA : gmap Z Address).

(** The fields of a pool that [getPool] returns fit together, on the
    regular path and on the placeholder alike: the pool is about the
    token asked for, its [avgPrice] is [getAvgPrice] of its own buy and
    sell price, its [totalLiquidty] is [getTotalLiquidity] of its own
    [avgPrice] and reserve, and its prices, token ratio, reserves, total
    liquidity and the supply and balance of its LP token are decimal
    integers. *)
Theorem getPool_fields_fit_together :
  forall (fuel : nat) (tok : Token) (user : Address) (st : State) (p : Pool),
    fst (getPool CA fuel tok user st) = Ok p ->
    token p = tok /\
    avgPrice p = getAvgPrice (buyPrice p) (sellPrice p) /\
    getTotalLiquidity (avgPrice p) (reserve p) = Ok (totalLiquidty p) /\
    isIntegerString (buyPrice p) = true /\
    isIntegerString (sellPrice p) = true /\
    isIntegerString (tokenRatio p) = true /\
    isIntegerString (tokenReserve (reserve p)) = true /\
    isIntegerString (ethReserve (reserve p)) = true /\
    isIntegerString (totalLiquidty p) = true /\
    isIntegerString (totalSupply (lpToken p)) = true /\
    isIntegerString (balance (lpToken p)) = true.
Proof.
  intros fuel tok user st p H.
  destruct (getPool CA fuel tok user st) as [r st'] eqn:E. cbn [fst] in H. subst r.
  unfold getPool in E.
  apply bind_Ok_inv in E as [fallback [s0 [Hfb E]]].
  unfold buildDefaultPool, bind, Date_now, ret in Hfb. inversion Hfb; subst. clear Hfb.
  apply safeRead_Ok_inv in E. destruct E as [->|[st1 E]].
  { cbn. repeat split; reflexivity. }
  apply bind_Ok_inv in E as [lp [s1 [Hlp E]]].
  apply bind_Ok_inv in E as [rs [s2 [Hrs E]]].
  apply bind_Ok_inv in E as [bp [s3 [Hbp E]]].
  apply bind_Ok_inv in E as [sp [s4 [Hsp E]]].
  apply bind_Ok_inv in E as [ratio [s5 [Hratio E]]].
  apply bind_Ok_inv in E as [vol [s6 [Hvol E]]].
  apply bind_Ok_inv in E as [liq [s7 [Hliq E]]].
  apply lift_Ok_inv in Hliq as [Hliq ->].
  apply bind_Ok_inv in E as [count [s8 [Hcount E]]].
  apply bind_Ok_inv in E as [events [s9 [Hevents E]]].
  apply bind_Ok_inv in E as [yield [s10 [Hyield E]]].
  apply bind_Ok_inv in E as [ts [s11 [Hts E]]].
  apply bind_Ok_inv in E as [now [s12 [Hnow E]]].
  unfold ret in E. inversion E; subst. clear E.
  cbn [token avgPrice buyPrice sellPrice reserve totalLiquidty tokenRatio lpToken].
  destruct (getLPToken_integer _ _ _ _ _ Hlp) as [Hl1 Hl2].
  destruct (getReserves_integer CA _ _ _ _ Hrs) as [Hr1 Hr2].
  repeat split; try assumption; try reflexivity.
  - eapply readAmount_integer; exact Hbp.
  - eapply readAmount_integer; exact Hsp.
  - eapply readAmount_integer; exact Hratio.
  - eapply getTotalLiquidity_integer; exact Hliq.
Qed.

End PoolInvariant.

Lemma getPool_fields_fit_together_witness :
  exists p,
    fst (getPool CONTRACT_ADDRESSES 30 TKN USER
           (start (wallet accepting steadyLedger) steadyNow)) = Ok p /\
    token p = TKN /\
    avgPrice p = "150" /\ buyPrice p = "200" /\ sellPrice p = "100" /\
    getTotalLiquidity (avgPrice p) (reserve p) = Ok (totalLiquidty p).
Proof.
  destruct (fst (getPool CONTRACT_ADDRESSES 30 TKN USER
                   (start (wallet accepting steadyLedger) steadyNow)))
    as [p|e|] eqn:E.
  - exists p. split; [reflexivity|].
    destruct (getPool_fields_fit_together CONTRACT_ADDRESSES 30 TKN USER
                (start (wallet accepting steadyLedger) steadyNow) p E)
      as [H1 [H2 [H3 _]]].
    split; [exact H1|].
    assert (Hb : buyPrice p = "200" /\ sellPrice p = "100").
    { vm_compute in E. inversion E. split; reflexivity. }
    destruct Hb as [Hb Hs]. rewrite H2, Hb, Hs.
    repeat split. rewrite <- H3, H2, Hb, Hs. reflexivity.
  - vm_compute in E. discriminate E.
  - vm_compute in E. discriminate E.
Defined.

(** ** [deposit]: when the value is parsed *)

(** [deposit] hands the wallet at most two calls and nothing else, the
    allowance of [tokenAmount] to the pool contract and then ['deposit']
    carrying [ethAmount] as the value sent; the ETH amount is parsed only
    after the approval: when it is malformed the approval has already
    been submitted and accepted, ['deposit'] is not submitted and the
    caller gets a deposit failure. *)
Theorem deposit_parses_value_after_approval :
  forall (req : DepositRequest) (st : State),
    (exists tr,
       snd (deposit req st) = after st tr /\
       (tr = [] \/
        exists amount,
          BigInt (tokenAmount req) = Ok amount /\
          (tr = [WriteContract (approvalCall (self st) req amount)] \/
           exists v,
             BigInt (ethAmount req) = Ok v /\
             tr = [WriteContract (approvalCall (self st) req amount);
                   WriteContract (depositCall (self st) req v)]))) /\
    (forall amount h e,
       BigInt (tokenAmount req) = Ok amount ->
       writeContract (self st) (approvalCall (self st) req amount) = Ok h ->
       BigInt (ethAmount req) = Throw e ->
       deposit req st
       = (Throw (ErrorObject ("Deposit failed: " +:+ message_in_template e)),
          after st [WriteContract (approvalCall (self st) req amount)])) /\
    (forall e,
       BigInt (tokenAmount req) = Throw e ->
       deposit req st
       = (Throw (ErrorObject ("Deposit failed: " +:+ message_in_template e)), st)).
Proof.
  intros req st. rewrite deposit_eval. split; [|split].
  - destruct (BigInt (tokenAmount req)) as [amount|e|];
      try (exists []; rewrite after_nil; auto; fail).
    destruct (writeContract (self st) (approvalCall _ _ _)) as [h|e|];
      try (eexists; split; [reflexivity|]; right; exists amount; auto; fail).
    destruct (BigInt (ethAmount req)) as [v|e|];
      try (eexists; split; [reflexivity|]; right; exists amount; auto; fail).
    destruct (writeContract (self st) (depositCall _ _ _)) as [h2|e|];
      eexists; (split; [reflexivity|]); right; exists amount;
      (split; [reflexivity|]); right; exists v; auto.
  - intros amount h e Ha Hw Hv. rewrite Ha, Hw, Hv. reflexivity.
  - intros e Ha. rewrite Ha. reflexivity.
Qed.

(** ** The registry's counters and fee totals *)

Section RegistryReads.

Context (CA : gmap Z Address) (views : PublicClient -> PoolViews).

Lemma readCount_eval methodName f a answer st pc :
  canRead CA (self st) = true -> publicClient (self st) = Some pc ->
  forall data, answer pc (contractAddress (self st)) = Ok data ->
  fst (readCount CA methodName f a answer st)
  = Ok (match data with Some d => Number_of_BigInt d | None => Real 0 end).
Proof.
  intros Hg Hpc data Hd. unfold readCount.
  erewrite safeRead_returns; [reflexivity|exact Hg|].
  unfold bind at 1. unfold this at 1. unfold bind at 1.
  rewrite (readContract_bang_some _ _ st pc Hpc), Hd. reflexivity.
Qed.

Lemma readCount_fallback methodName f a answer st pc e :
  canRead CA (self st) = true -> publicClient (self st) = Some pc ->
  answer pc (contractAddress (self st)) = Throw e ->
  isExpectedReadFailure e = true ->
  fst (readCount CA methodName f a answer st) = Ok (Real 0).
Proof.
  intros Hg Hpc Hd He. unfold readCount.
  match goal with
  | |- fst (safeRead CA ?n ?fb ?fn st) = _ =>
      assert (Hfn : fn st = (Throw e, after st [ReadContract (poolCall (self st) f a)]))
  end.
  { unfold bind at 1. unfold this at 1. unfold bind at 1.
    rewrite (readContract_bang_some _ _ st pc Hpc), Hd. reflexivity. }
  destruct (safeRead_fallback CA methodName (Real 0) _ st e _ Hg Hfn He) as [w ->].
  reflexivity.
Qed.

(** On a client that passes the Connection Guard, [getPoolCount] and
    [getUserPoolCount] each return the registry's counter as a number,
    exactly when it is below 2^53, and each returns 0 when its read
    answers nothing or fails with an expected failure: to the caller an
    undeployed registry and a registry without pools look the same. *)
Theorem pool_counts_default_to_zero :
  forall (st : State) (pc : PublicClient),
    canRead CA (self st) = true ->
    publicClient (self st) = Some pc ->
    (forall n,
       read_getTotalPools (views pc) (contractAddress (self st)) = Ok (Some n) ->
       Z.abs n < 2 ^ 53 ->
       fst (getPoolCount CA views st) = Ok (int n)) /\
    (forall user n,
       read_getUserTotalPools (views pc) (contractAddress (self st)) user = Ok (Some n) ->
       Z.abs n < 2 ^ 53 ->
       fst (getUserPoolCount CA views user st) = Ok (int n)) /\
    (read_getTotalPools (views pc) (contractAddress (self st)) = Ok None ->
     fst (getPoolCount CA views st) = Ok (int 0)) /\
    (forall user,
       read_getUserTotalPools (views pc) (contractAddress (self st)) user = Ok None ->
       fst (getUserPoolCount CA views user st) = Ok (int 0)) /\
    (forall e,
       read_getTotalPools (views pc) (contractAddress (self st)) = Throw e ->
       isExpectedReadFailure e = true ->
       fst (getPoolCount CA views st) = Ok (int 0)) /\
    (forall user e,
       read_getUserTotalPools (views pc) (contractAddress (self st)) user = Throw e ->
       isExpectedReadFailure e = true ->
       fst (getUserPoolCount CA views user st) = Ok (int 0)).
Proof.
  intros st pc Hg Hpc. split; [|split; [|split; [|split; [|split]]]].
  - intros n Hn Hb. unfold getPoolCount.
    rewrite (readCount_eval _ _ _ _ st pc Hg Hpc (Some n) Hn).
    now rewrite Number_of_BigInt_int.
  - intros user n Hn Hb. unfold getUserPoolCount.
    rewrite (readCount_eval _ _ _ _ st pc Hg Hpc (Some n) Hn).
    now rewrite Number_of_BigInt_int.
  - intros Hn. unfold getPoolCount.
    rewrite (readCount_eval _ _ _ _ st pc Hg Hpc None Hn). reflexivity.
  - intros user Hn. unfold getUserPoolCount.
    rewrite (readCount_eval _ _ _ _ st pc Hg Hpc None Hn). reflexivity.
  - intros e Hn He. unfold getPoolCount.
    apply (readCount_fallback _ _ _ _ st pc e Hg Hpc Hn He).
  - intros user e Hn He. unfold getUserPoolCount.
    apply (readCount_fallback _ _ _ _ st pc e Hg Hpc Hn He).
Qed.

Lemma getTotalFees_integer st s st' :
  getTotalFees CA views st = (Ok s, st') -> isIntegerString s = true.
Proof.
  intros H. apply safeRead_Ok_inv in H. destruct H as [->|[st1 H]]; [reflexivity|].
  unfold bind, this, readContract_bang, publicClient_bang, bind, this, defined in H.
  destruct (publicClient (self st)) as [pc|]; [|discriminate].
  unfold ret in H. rewrite emit_after in H. unfold lift in H.
  destruct (read_totalFees (views pc) _) as [[d|]| |]; try discriminate;
    inversion H; (apply isIntegerString_BigInt_toString || reflexivity).
Qed.

Lemma getUserBalance_integer tok user st r st' :
  getUserBalance views tok user st = (Ok r, st') ->
  isIntegerString (tokenReserve r) = true /\ isIntegerString (ethReserve r) = true.
Proof.
  intros H. unfold getUserBalance, tryCatch in H.
  match type of H with
  | match ?m st with _ => _ end = _ => destruct (m st) as [[r0|e|] s1] eqn:Hm
  end; try discriminate.
  inversion H; subst. clear H.
  apply bind_Ok_inv in Hm as [c [s2 [_ Hm]]].
  apply bind_Ok_inv in Hm as [data [s3 [_ Hm]]].
  apply bind_Ok_inv in Hm as [d [s4 [_ Hm]]].
  inversion Hm. cbn. split; apply isIntegerString_BigInt_toString.
Qed.

Lemma getDepositEventLogs_integer a b tok user st l st' :
  getDepositEventLogs CA views a b tok user st = (Ok l, st') ->
  Forall (fun d => isIntegerString (de_ethAmount d) = true /\
                   isIntegerString (de_tokenAmount d) = true /\
                   isIntegerString (lpTokensMinted d) = true) l.
Proof.
  intros H. apply safeRead_Ok_inv in H. destruct H as [->|[st1 H]]; [constructor|].
  apply bind_Ok_inv in H as [pc [s1 [_ H]]].
  apply bind_Ok_inv in H as [c [s2 [_ H]]].
  apply bind_Ok_inv in H as [fb [s3 [_ H]]].
  apply bind_Ok_inv in H as [tb [s4 [_ H]]].
  apply bind_Ok_inv in H as [u [s5 [_ H]]].
  apply bind_Ok_inv in H as [logs [s6 [_ H]]].
  apply bind_Ok_inv in H as [stamps [s7 [_ H]]].
  destruct tok as [tok|].
  - inversion H. apply List.Forall_forall. intros d Hin.
    apply in_map_iff in Hin as [x [<- _]]. cbn.
    repeat split; apply isIntegerString_BigInt_toString.
  - apply bind_Ok_inv in H as [toks [s8 [_ H]]].
    inversion H. apply List.Forall_forall. intros d Hin.
    apply in_map_iff in Hin as [x [<- _]]. cbn.
    repeat split; apply isIntegerString_BigInt_toString.
Qed.

Lemma getWithdrawEventLogs_integer a b tok user st l st' :
  getWithdrawEventLogs CA views a b tok user st = (Ok l, st') ->
  Forall (fun d => isIntegerString (wi_ethAmount d) = true /\
                   isIntegerString (wi_tokenAmount d) = true /\
                   isIntegerString (lpTokensBurnt d) = true) l.
Proof.
  intros H. apply safeRead_Ok_inv in H. destruct H as [->|[st1 H]]; [constructor|].
  apply bind_Ok_inv in H as [pc [s1 [_ H]]].
  apply bind_Ok_inv in H as [c [s2 [_ H]]].
  apply bind_Ok_inv in H as [fb [s3 [_ H]]].
  apply bind_Ok_inv in H as [tb [s4 [_ H]]].
  apply bind_Ok_inv in H as [u [s5 [_ H]]].
  apply bind_Ok_inv in H as [logs [s6 [_ H]]].
  apply bind_Ok_inv in H as [stamps [s7 [_ H]]].
  destruct tok as [tok|].
  - inversion H. apply List.Forall_forall. intros d Hin.
    apply in_map_iff in Hin as [x [<- _]]. cbn.
    repeat split; apply isIntegerString_BigInt_toString.
  - apply bind_Ok_inv in H as [toks [s8 [_ H]]].
    inversion H. apply List.Forall_forall. intros d Hin.
    apply in_map_iff in Hin as [x [<- _]]. cbn.
    repeat split; apply isIntegerString_BigInt_toString.
Qed.

(** The other amounts the client hands out are decimal integers too:
    whenever they return, [getTotalFees] and [getTotalPoolFee] return the
    text of an integer, [getUserBalance] a pair of them, and every record
    of [getDepositEventLogs] and [getWithdrawEventLogs] carries integer
    amounts of ether, tokens and LP tokens. *)
Theorem fee_totals_balances_and_liquidity_events_are_integer_strings :
  (forall st s st',
     getTotalFees CA views st = (Ok s, st') -> isIntegerString s = true) /\
  (forall tok st s st',
     getTotalPoolFee CA views tok st = (Ok s, st') -> isIntegerString s = true) /\
  (forall tok user st r st',
     getUserBalance views tok user st = (Ok r, st') ->
     isIntegerString (tokenReserve r) = true /\
     isIntegerString (ethReserve r) = true) /\
  (forall a b tok user st l st',
     getDepositEventLogs CA views a b tok user st = (Ok l, st') ->
     Forall (fun d => isIntegerString (de_ethAmount d) = true /\
                      isIntegerString (de_tokenAmount d) = true /\
                      isIntegerString (lpTokensMinted d) = true) l) /\
  (forall a b tok user st l st',
     getWithdrawEventLogs CA views a b tok user st = (Ok l, st') ->
     Forall (fun d => isIntegerString (wi_ethAmount d) = true /\
                      isIntegerString (wi_tokenAmount d) = true /\
                      isIntegerString (lpTokensBurnt d) = true) l).
Proof.
  split; [|split; [|split; [|split]]].
  - apply getTotalFees_integer.
  - intros tok st s st'. apply readAmount_integer.
  - apply getUserBalance_integer.
  - apply getDepositEventLogs_integer.
  - apply getWithdrawEventLogs_integer.
Qed.

(** *** Liquidity events of one token *)

Lemma timestampsOf_answered {L} (bn : L -> Z) (ts : Z -> Z) pc logs st :
  publicClient (self st) = Some pc ->
  (forall b, getBlock pc b = Ok (ts b)) ->
  timestampsOf bn logs st
  = (Ok (map (fun x => mul (Number_of_BigInt (ts (bn x))) (ofZ 1000)) logs),
     after st (flat_map (fun x => [GetBlock (bn x)]) logs)).
Proof.
  intros Hpc Hb. unfold timestampsOf.
  apply (Promise_all_map (fun s => publicClient (self s) = Some pc)
           (fun log => getBlockTimestamp (bn log))
           (fun x => mul (Number_of_BigInt (ts (bn x))) (ofZ 1000))
           (fun x => [GetBlock (bn x)])).
  - intros s tr Hs. exact Hs.
  - intros x s Hs. apply (getBlockTimestamp_eval s pc); [exact Hs|apply Hb].
  - exact Hpc.
Qed.

(** Asked for the liquidity events of one token, the client passes
    the block range, the token's address and the user on to the node,
    fetches the block of every log returned, one after the other, and
    nothing else (the token's metadata is not read again); it returns one
    record per log, in the node's order, each with the amounts of its
    log, the token it was asked about and the timestamp of the log's own
    block in milliseconds. *)
Theorem liquidity_events_of_one_token :
  forall (st : State) (pc : PublicClient) (ts : Z -> Z) (a b : Z)
         (tok : Token) (user : option Address),
    canRead CA (self st) = true ->
    publicClient (self st) = Some pc ->
    (forall blk, getBlock pc blk = Ok (ts blk)) ->
    (forall logs,
       getLogs_Deposit (views pc) (contractAddress (self st)) a b
         (Some (address tok)) user = Ok logs ->
       getDepositEventLogs CA views (int a) (int b) (Some tok) user st
       = (Ok (map (fun log =>
                     depositEvent log tok
                       (mul (Number_of_BigInt (ts (dl_blockNumber log))) (ofZ 1000)))
                  logs),
          after st (GetLogs "Deposit" a b
                    :: map (fun log => GetBlock (dl_blockNumber log)) logs))) /\
    (forall logs,
       getLogs_Withdraw (views pc) (contractAddress (self st)) a b
         (Some (address tok)) user = Ok logs ->
       getWithdrawEventLogs CA views (int a) (int b) (Some tok) user st
       = (Ok (map (fun log =>
                     withdrawEvent log tok
                       (mul (Number_of_BigInt (ts (vl_blockNumber log))) (ofZ 1000)))
                  logs),
          after st (GetLogs "Withdraw" a b
                    :: map (fun log => GetBlock (vl_blockNumber log)) logs))).
Proof.
  intros st pc ts a b tok user Hg Hpc Hb.
  assert (Hfm : forall {L} (bn : L -> Z) (logs : list L),
             flat_map (fun x => [GetBlock (bn x)]) logs
             = map (fun x => GetBlock (bn x)) logs).
  { intros L bn logs. induction logs as [|x logs IH]; cbn; congruence. }
  split; intros logs Hlogs.
  - unfold getDepositEventLogs.
    apply safeRead_returns; [exact Hg|].
    erewrite bind_Ok; [|apply publicClient_bang_eval; exact Hpc].
    erewrite bind_Ok; [|reflexivity].
    rewrite !BigInt_of_Number_int.
    erewrite bind_Ok; [|reflexivity].
    erewrite bind_Ok; [|reflexivity].
    erewrite bind_Ok; [|apply emit_after].
    erewrite bind_Ok; [|unfold lift; cbn [option_map]; rewrite Hlogs; reflexivity].
    erewrite bind_Ok; [|apply (timestampsOf_answered _ ts pc); [exact Hpc|exact Hb]].
    unfold ret. rewrite after_after, Hfm.
    rewrite (map_combine_map (fun x t => depositEvent x tok t)).
    reflexivity.
  - unfold getWithdrawEventLogs.
    apply safeRead_returns; [exact Hg|].
    erewrite bind_Ok; [|apply publicClient_bang_eval; exact Hpc].
    erewrite bind_Ok; [|reflexivity].
    rewrite !BigInt_of_Number_int.
    erewrite bind_Ok; [|reflexivity].
    erewrite bind_Ok; [|reflexivity].
    erewrite bind_Ok; [|apply emit_after].
    erewrite bind_Ok; [|unfold lift; cbn [option_map]; rewrite Hlogs; reflexivity].
    erewrite bind_Ok; [|apply (timestampsOf_answered _ ts pc); [exact Hpc|exact Hb]].
    unfold ret. rewrite after_after, Hfm.
    rewrite (map_combine_map (fun x t => withdrawEvent x tok t)).
    reflexivity.
Qed.

Lemma tokensOf_answered {L} (ta : L -> Address) (tk : Address -> Token) pc logs st :
  publicClient (self st) = Some pc ->
  (forall a, tokenOutcome pc a = Ok (tk a)) ->
  tokensOf ta logs st
  = (Ok (map (fun x => tk (ta x)) logs),
     after st (flat_map (fun x => metadataReads (ta x)) logs)).
Proof.
  intros Hpc Ht. unfold tokensOf.
  apply (Promise_all_map (fun s => publicClient (self s) = Some pc)
           (fun log => getToken (ta log))
           (fun x => tk (ta x)) (fun x => metadataReads (ta x))).
  - intros s tr Hs. exact Hs.
  - intros x s Hs. rewrite (getToken_eval (ta x) s pc Hs).
    fold (tokenOutcome pc (ta x)). rewrite Ht. reflexivity.
  - exact Hpc.
Qed.

(** Asked for the liquidity events of all tokens (no token given),
    the client fetches the block of every log first and then the
    metadata of every log's token, three reads per log also when logs
    share a token: n logs cost one log query, n block requests and 3n
    metadata reads, in this order.  Each record carries the token read
    for its own log and the amounts and block time of that log. *)
Theorem liquidity_events_of_all_tokens :
  forall (st : State) (pc : PublicClient) (ts : Z -> Z) (tk : Address -> Token)
         (a b : Z) (user : option Address),
    canRead CA (self st) = true ->
    publicClient (self st) = Some pc ->
    (forall blk, getBlock pc blk = Ok (ts blk)) ->
    (forall t, tokenOutcome pc t = Ok (tk t)) ->
    (forall logs,
       getLogs_Deposit (views pc) (contractAddress (self st)) a b None user = Ok logs ->
       getDepositEventLogs CA views (int a) (int b) None user st
       = (Ok (map (fun log =>
                     depositEvent log (tk (dl_token log))
                       (mul (Number_of_BigInt (ts (dl_blockNumber log))) (ofZ 1000)))
                  logs),
          after st (GetLogs "Deposit" a b
                    :: map (fun log => GetBlock (dl_blockNumber log)) logs
                    ++ flat_map (fun log => metadataReads (dl_token log)) logs)) /\
       length (events (snd (getDepositEventLogs CA views (int a) (int b) None user st)))
       = (length (events st) + 1 + 4 * length logs)%nat) /\
    (forall logs,
       getLogs_Withdraw (views pc) (contractAddress (self st)) a b None user = Ok logs ->
       getWithdrawEventLogs CA views (int a) (int b) None user st
       = (Ok (map (fun log =>
                     withdrawEvent log (tk (vl_token log))
                       (mul (Number_of_BigInt (ts (vl_blockNumber log))) (ofZ 1000)))
                  logs),
          after st (GetLogs "Withdraw" a b
                    :: map (fun log => GetBlock (vl_blockNumber log)) logs
                    ++ flat_map (fun log => metadataReads (vl_token log)) logs)) /\
       length (events (snd (getWithdrawEventLogs CA views (int a) (int b) None user st)))
       = (length (events st) + 1 + 4 * length logs)%nat).
Proof.
  intros st pc ts tk a b user Hg Hpc Hb Ht.
  assert (Hfm : forall {L} (bn : L -> Z) (logs : list L),
             flat_map (fun x => [GetBlock (bn x)]) logs
             = map (fun x => GetBlock (bn x)) logs).
  { intros L bn logs. induction logs as [|x logs IH]; cbn; congruence. }
  assert (Hlen : forall {L} (ta : L -> Address) (logs : list L),
             length (flat_map (fun x => metadataReads (ta x)) logs)
             = (3 * length logs)%nat).
  { intros L ta logs. induction logs as [|x logs IH]; [reflexivity|].
    cbn [flat_map]. rewrite length_app, IH. cbn [metadataReads length]. lia. }
  split; intros logs Hlogs.
  - assert (E : getDepositEventLogs CA views (int a) (int b) None user st
                = (Ok (map (fun log =>
                              depositEvent log (tk (dl_token log))
                                (mul (Number_of_BigInt (ts (dl_blockNumber log)))
                                   (ofZ 1000)))
                           logs),
                   after st (GetLogs "Deposit" a b
                             :: map (fun log => GetBlock (dl_blockNumber log)) logs
                             ++ flat_map (fun log => metadataReads (dl_token log)) logs))).
    { unfold getDepositEventLogs.
      apply safeRead_returns; [exact Hg|].
      erewrite bind_Ok; [|apply publicClient_bang_eval; exact Hpc].
      erewrite bind_Ok; [|reflexivity].
      rewrite !BigInt_of_Number_int.
      erewrite bind_Ok; [|reflexivity].
      erewrite bind_Ok; [|reflexivity].
      erewrite bind_Ok; [|apply emit_after].
      erewrite bind_Ok; [|unfold lift; cbn [option_map]; rewrite Hlogs; reflexivity].
      erewrite bind_Ok; [|apply (timestampsOf_answered _ ts pc); [exact Hpc|exact Hb]].
      erewrite bind_Ok; [|apply (tokensOf_answered _ tk pc); [exact Hpc|exact Ht]].
      unfold ret. rewrite !after_after, Hfm.
      rewrite (map_combine_map2 (fun x t t' => depositEvent x t t')).
      reflexivity. }
    split; [exact E|]. rewrite E. cbn [snd after events length].
    rewrite length_app. cbn [length]. rewrite length_app, length_map, Hlen. lia.
  - assert (E : getWithdrawEventLogs CA views (int a) (int b) None user st
                = (Ok (map (fun log =>
                              withdrawEvent log (tk (vl_token log))
                                (mul (Number_of_BigInt (ts (vl_blockNumber log)))
                                   (ofZ 1000)))
                           logs),
                   after st (GetLogs "Withdraw" a b
                             :: map (fun log => GetBlock (vl_blockNumber log)) logs
                             ++ flat_map (fun log => metadataReads (vl_token log)) logs))).
    { unfold getWithdrawEventLogs.
      apply safeRead_returns; [exact Hg|].
      erewrite bind_Ok; [|apply publicClient_bang_eval; exact Hpc].
      erewrite bind_Ok; [|reflexivity].
      rewrite !BigInt_of_Number_int.
      erewrite bind_Ok; [|reflexivity].
      erewrite bind_Ok; [|reflexivity].
      erewrite bind_Ok; [|apply emit_after].
      erewrite bind_Ok; [|unfold lift; cbn [option_map]; rewrite Hlogs; reflexivity].
      erewrite bind_Ok; [|apply (timestampsOf_answered _ ts pc); [exact Hpc|exact Hb]].
      erewrite bind_Ok; [|apply (tokensOf_answered _ tk pc); [exact Hpc|exact Ht]].
      unfold ret. rewrite !after_after, Hfm.
      rewrite (map_combine_map2 (fun x t t' => withdrawEvent x t t')).
      reflexivity. }
    split; [exact E|]. rewrite E. cbn [snd after events length].
    rewrite length_app. cbn [length]. rewrite length_app, length_map, Hlen. lia.
Qed.

End RegistryReads.

(** ** The properties above on concrete clients *)

(** The default chain 63 with a read handle. *)
Lemma constructed_client_passes_chain_test_witness :
  constructor CONTRACT_ADDRESSES accepting (Some (syntheticClient steadyLedger)) None
  = (Ok (wallet accepting steadyLedger), []) /\
  chainId (wallet accepting steadyLedger) = 63 /\
  ensureCanRead CONTRACT_ADDRESSES (start (wallet accepting steadyLedger) 0)
  = (Ok tt, start (wallet accepting steadyLedger) 0).
Proof.
  assert (H : constructor CONTRACT_ADDRESSES accepting
                (Some (syntheticClient steadyLedger)) None
              = (Ok (wallet accepting steadyLedger), [])) by reflexivity.
  split; [exact H|].
  destruct (constructed_client_passes_chain_test CONTRACT_ADDRESSES accepting
              (Some (syntheticClient steadyLedger)) None
              (wallet accepting steadyLedger) [] H)
    as [_ [Hc [_ [_ [_ Hg]]]]].
  split; [exact Hc|].
  apply (Hg (start (wallet accepting steadyLedger) 0) eq_refl). discriminate.
Defined.

(** The no-data revert inside a longer message. *)
Lemma isExpectedReadFailure_inside_longer_message_witness :
  isExpectedReadFailure (ErrorObject "The contract function returned no data (0x).")
  = true /\
  isExpectedReadFailure
    (ErrorObject ("getPool: " +:+ "The contract function returned no data (0x)."
                  +:+ " Retry later."))
  = true.
Proof.
  assert (H : isExpectedReadFailure
                (ErrorObject "The contract function returned no data (0x).") = true)
    by (vm_compute; reflexivity).
  split; [exact H|].
  exact (proj1 (isExpectedReadFailure_inside_longer_message
                  "The contract function returned no data (0x)." H)
           "getPool: " " Retry later.").
Defined.

(** A pool contract that lists no LP token. *)
Lemma getPool_rethrows_missing_lp_token_witness :
  read_poolToken (syntheticClient Listing.unlistedLedger)
    "0x00000000000000000000000000000000000000c1" (address TKN) = Ok None /\
  fst (getPool CONTRACT_ADDRESSES 30 TKN USER
         (start (wallet accepting Listing.unlistedLedger) steadyNow))
  = Throw (ErrorObject
             "Error fetching LP token data: No LP token found for the given token.").
Proof.
  split; [reflexivity|].
  exact (proj2 (proj2
           (getPool_rethrows_missing_lp_token CONTRACT_ADDRESSES 30 TKN USER
              (start (wallet accepting Listing.unlistedLedger) steadyNow)
              (syntheticClient Listing.unlistedLedger)
              eq_refl eq_refl (or_introl eq_refl)))).
Defined.

(** A page of three tokens, the second of which does not answer
    [decimals]. *)
Lemma getPools_one_unreadable_token_empties_the_page_witness :
  read_decimals (Listing.unreadable OTHER) OTHER
  = Throw (ErrorObject "The contract function returned no data (0x).") /\
  fst (getPools CONTRACT_ADDRESSES (Listing.registry [address TKN; OTHER; LP_ADDRESS])
         (int 0) (int 3) (start (Listing.onUnreadable OTHER) 0))
  = Ok [].
Proof.
  split; [reflexivity|].
  assert (He : isExpectedReadFailure
                 (ErrorObject "The contract function returned no data (0x).") = true)
    by (vm_compute; reflexivity).
  apply (getPools_one_unreadable_token_empties_the_page CONTRACT_ADDRESSES
           (Listing.registry [address TKN; OTHER; LP_ADDRESS]) (int 0) (int 3)
           (start (Listing.onUnreadable OTHER) 0) (Listing.unreadable OTHER) 0 3
           [address TKN; OTHER; LP_ADDRESS]).
  - reflexivity.
  - reflexivity.
  - apply BigInt_of_Number_int.
  - apply BigInt_of_Number_int.
  - reflexivity.
  - intros a Ha. split; [|split].
    + destruct Ha as [<-|[<-|[<-|[]]]].
      * left. eexists. reflexivity.
      * right. eexists. split; [reflexivity|exact He].
      * left. eexists. reflexivity.
    + left. eexists. reflexivity.
    + left. eexists. reflexivity.
  - exists OTHER. split; [right; left; reflexivity|].
    left. eexists. split; [reflexivity|exact He].
Defined.

(** A registry of two pools, and one whose counter read reverts without data. *)
Lemma pool_counts_default_to_zero_witness :
  fst (getPoolCount CONTRACT_ADDRESSES (Listing.registry [address TKN; OTHER])
         (start (wallet accepting steadyLedger) 0)) = Ok (int 2) /\
  fst (getPoolCount CONTRACT_ADDRESSES Listing.noFees
         (start (wallet accepting steadyLedger) 0)) = Ok (int 0) /\
  fst (getUserPoolCount CONTRACT_ADDRESSES Listing.noFees USER
         (start (wallet accepting steadyLedger) 0)) = Ok (int 0).
Proof.
  split; [|split].
  - apply (proj1 (pool_counts_default_to_zero CONTRACT_ADDRESSES
                    (Listing.registry [address TKN; OTHER])
                    (start (wallet accepting steadyLedger) 0)
                    (syntheticClient steadyLedger) eq_refl eq_refl) 2).
    + reflexivity.
    + cbn. lia.
  - apply (proj1 (proj2 (proj2 (proj2 (proj2
             (pool_counts_default_to_zero CONTRACT_ADDRESSES Listing.noFees
                (start (wallet accepting steadyLedger) 0)
                (syntheticClient steadyLedger) eq_refl eq_refl)))))
             (ErrorObject "The contract function returned no data (0x).")).
    + reflexivity.
    + vm_compute. reflexivity.
  - apply (proj1 (proj2 (proj2 (proj2
             (pool_counts_default_to_zero CONTRACT_ADDRESSES Listing.noFees
                (start (wallet accepting steadyLedger) 0)
                (syntheticClient steadyLedger) eq_refl eq_refl)))) USER).
    reflexivity.
Defined.

(** The one deposit of the registry, asked for by token and user. *)
Lemma liquidity_events_of_one_token_witness :
  getDepositEventLogs CONTRACT_ADDRESSES (Listing.registry []) (int 0) (int 20)
    (Some TKN) (Some USER) (start (wallet accepting steadyLedger) 0)
  = (Ok [ {| de_token := TKN; de_ethAmount := "5"; de_tokenAmount := "50";
             lpTokensMinted := "9";
             de_timestamp := mul (Number_of_BigInt (steadyTime 7)) (ofZ 1000) |} ],
     after (start (wallet accepting steadyLedger) 0)
       [GetLogs "Deposit" 0 20; GetBlock 7]).
Proof.
  apply (proj1 (liquidity_events_of_one_token CONTRACT_ADDRESSES (Listing.registry [])
                  (start (wallet accepting steadyLedger) 0)
                  (syntheticClient steadyLedger) steadyTime 0 20 TKN (Some USER)
                  eq_refl eq_refl (fun blk => eq_refl))
           [ {| dl_blockNumber := 7;
                dl_token := "0x00000000000000000000000000000000000000a1";
                dl_user := "0x00000000000000000000000000000000000000e1";
                dl_amountEther := 5; dl_amountToken := 50;
                dl_lpTokensMinted := 9 |} ]).
  reflexivity.
Defined.

(** The one deposit of the registry, asked for without a token: five requests. *)
Lemma liquidity_events_of_all_tokens_witness :
  length (events (snd (getDepositEventLogs CONTRACT_ADDRESSES (Listing.registry [])
                         (int 0) (int 20) None None
                         (start (wallet accepting steadyLedger) 0)))) = 5%nat.
Proof.
  exact (proj2 (proj1 (liquidity_events_of_all_tokens CONTRACT_ADDRESSES
                         (Listing.registry [])
                         (start (wallet accepting steadyLedger) 0)
                         (syntheticClient steadyLedger) steadyTime metadata 0 20 None
                         eq_refl eq_refl (fun blk => eq_refl) (fun t => eq_refl))
                  [ {| dl_blockNumber := 7;
                       dl_token := "0x00000000000000000000000000000000000000a1";
                       dl_user := "0x00000000000000000000000000000000000000e1";
                       dl_amountEther := 5; dl_amountToken := 50;
                       dl_lpTokensMinted := 9 |} ] eq_refl)).
Defined.

(** A user who rejects the approval of a withdrawal. *)
Lemma withdraw_approves_then_withdraws_witness :
  let req := {| wd_token := TKN;
                wd_lpToken := {| lp_address := LP_ADDRESS; lp_symbol := Some "LP";
                                 lp_name := Some "LP Token";
                                 lp_decimals := Some (int 18);
                                 totalSupply := "1000"; balance := "10" |};
                lpTokenAmount := "5" |} in
  let st := start (wallet rejectingApproval steadyLedger) 0 in
  withdraw req st
  = (Throw (ErrorObject "Withdraw failed: Token approval failed: User rejected the request."),
     after st [WriteContract (approveCall (self st) LP_ADDRESS 5)]).
Proof.
  intros req st.
  exact (proj1 (proj2 (proj2 (withdraw_approves_then_withdraws req st)))
           5 (ErrorObject "User rejected the request.") eq_refl eq_refl).
Defined.

(** A swap with a fractional minimum output. *)
Lemma swap_approves_then_swaps_witness :
  let req := {| sw_tokenIn := TKN; sw_tokenOut := metadata OTHER;
                sw_amountIn := "5"; minimumTokenOut := "1.5" |} in
  let st := start (wallet accepting steadyLedger) 0 in
  swap req st
  = (Throw (ErrorObject "Swap failed: Cannot convert 1.5 to a BigInt"),
     after st [WriteContract (approveCall (self st) (address TKN) 5)]).
Proof.
  intros req st.
  exact (proj2 (proj2 (proj2 (swap_approves_then_swaps req st)))
           5 "0xhash" (ErrorObject "Cannot convert 1.5 to a BigInt")
           eq_refl eq_refl eq_refl).
Defined.

(** A sale with a fractional minimum of ether. *)
Lemma sell_approves_then_sells_witness :
  let req := {| sr_token := TKN; sr_amountIn := "5"; minimumEthAmount := "1.5" |} in
  let st := start (wallet accepting steadyLedger) 0 in
  sell req st
  = (Throw (ErrorObject "Sell failed: Cannot convert 1.5 to a BigInt"),
     after st [WriteContract (approveCall (self st) (address TKN) 5)]).
Proof.
  intros req st.
  exact (proj2 (proj2 (proj2 (sell_approves_then_sells req st)))
           5 "0xhash" (ErrorObject "Cannot convert 1.5 to a BigInt")
           eq_refl eq_refl eq_refl).
Defined.

(** A purchase with a fractional amount of ether. *)
Lemma buy_submits_one_call_witness :
  let req := {| br_token := TKN; minimumAmountToBuy := "1"; br_amountIn := "1.5" |} in
  let st := start (wallet accepting steadyLedger) 0 in
  fst (buy req st) = Throw (ErrorObject "Buy failed: Cannot convert 1.5 to a BigInt") /\
  exists m, ErrorObject "Buy failed: Cannot convert 1.5 to a BigInt"
            = ErrorObject ("Buy failed: " +:+ m).
Proof.
  intros req st. split; [reflexivity|].
  apply (proj2 (proj2 (proj2 (buy_submits_one_call req st))) _ st).
  reflexivity.
Defined.

(** A pool initialised with a fractional buy price. *)
Lemma initializePool_approves_then_initializes_witness :
  let p := {| init_token := address TKN; init_tokenAmount := "5";
              initialBuyPrice := "1.5"; initialSellPrice := "1";
              init_ethAmount := "1" |} in
  let st := start (wallet accepting steadyLedger) 0 in
  initializePool p st
  = (Throw (ErrorObject "Pool initialization failed: Cannot convert 1.5 to a BigInt"),
     after st [WriteContract (approveCall (self st) (address TKN) 5)]).
Proof.
  intros p st.
  exact (proj2 (proj2 (proj2 (initializePool_approves_then_initializes p st)))
           5 "0xhash" (ErrorObject "Cannot convert 1.5 to a BigInt")
           eq_refl eq_refl eq_refl).
Defined.

(** A deposit with a fractional amount of ether. *)
Lemma deposit_parses_value_after_approval_witness :
  let req := {| dep_token := TKN; tokenAmount := "5"; ethAmount := "1.5" |} in
  let st := start (wallet accepting steadyLedger) 0 in
  deposit req st
  = (Throw (ErrorObject "Deposit failed: Cannot convert 1.5 to a BigInt"),
     after st [WriteContract (approvalCall (self st) req 5)]).
Proof.
  intros req st.
  exact (proj1 (proj2 (deposit_parses_value_after_approval req st))
           5 "0xhash" (ErrorObject "Cannot convert 1.5 to a BigInt")
           eq_refl eq_refl eq_refl).
Defined.

(** A client that ended up on chain 1. *)
Lemma safeRead_stopped_by_guard_witness :
  let st := start {| contractAddress := "0x00000000000000000000000000000000000000c1";
                     writeContract := accepting;
                     publicClient := Some (syntheticClient steadyLedger);
                     chainId := 1 |} 0 in
  safeRead CONTRACT_ADDRESSES "getTokenRatio" "0" (ret "7") st
  = (Throw (ErrorObject UNSUPPORTED_CHAIN),
     after st [ConsoleError "[ContractClient] Unsupported chain."]).
Proof.
  intros st.
  exact (proj1 (safeRead_stopped_by_guard CONTRACT_ADDRESSES string
                  "getTokenRatio" "0" (ret "7") st) eq_refl).
Defined.

(** A client without a read handle. *)
Lemma getToken_reads_three_fields_witness :
  let st := start {| contractAddress := "0x00000000000000000000000000000000000000c1";
                     writeContract := accepting;
                     publicClient := None;
                     chainId := 63 |} 0 in
  getToken OTHER st
  = (Ok {| address := OTHER; symbol := None; name := None; decimals := None |}, st).
Proof.
  intros st. exact (proj1 (getToken_reads_three_fields OTHER st) eq_refl).
Defined.

(** A balance read that reverts without data. *)
Lemma getUserBalance_never_falls_back_witness :
  fst (getUserBalance Listing.noFees TKN USER (start (wallet accepting steadyLedger) 0))
  = Throw (ErrorObject
             "Error fetching user reserves: The contract function returned no data (0x).").
Proof.
  exact (proj2 (proj2 (proj2 (proj2
           (getUserBalance_never_falls_back Listing.noFees TKN USER
              (start (wallet accepting steadyLedger) 0))
           (syntheticClient steadyLedger) eq_refl)))
           (ErrorObject "The contract function returned no data (0x).") eq_refl).
Defined.

(** The fee total of the registry. *)
Lemma fee_totals_balances_and_liquidity_events_are_integer_strings_witness :
  fst (getTotalFees CONTRACT_ADDRESSES (Listing.registry [])
         (start (wallet accepting steadyLedger) 0)) = Ok "12" /\
  isIntegerString "12" = true.
Proof.
  assert (H : fst (getTotalFees CONTRACT_ADDRESSES (Listing.registry [])
                     (start (wallet accepting steadyLedger) 0)) = Ok "12")
    by (vm_compute; reflexivity).
  split; [exact H|].
  apply (proj1 (fee_totals_balances_and_liquidity_events_are_integer_strings
                  CONTRACT_ADDRESSES (Listing.registry []))
           (start (wallet accepting steadyLedger) 0) "12"
           (snd (getTotalFees CONTRACT_ADDRESSES (Listing.registry [])
                   (start (wallet accepting steadyLedger) 0)))).
  rewrite <- H. apply surjective_pairing.
Defined.

(** ** Where the derived amounts leave the integers *)

(** C6.  The amounts the client derives are texts of doubles, not
    integers in minor units.  On a chain whose last 24 hours hold one
    purchase of 1000 ether (the ledger's amount is the integer 10^21) and
    whose prices are 200 and 101, [getPool] returns the volume ["1e+21"]
    and the average price ["150.5"]; neither is the decimal string of an
    integer, and [BigInt], which the interface applies to [volume24h],
    throws on the first.  A swap of 3 units at the price 5 * 10^17 gives
    the volume ["1.5"]. *)
Theorem derived_amounts_are_texts_of_doubles :
  option_map (map buy_ethAmount)
    (match fst (getBuyTradeEventLogs CONTRACT_ADDRESSES (int 11) (int 20) (Some TKN) None
                  (start (wallet accepting Listing.largeBuyLedger) steadyNow))
     with Ok l => Some l | _ => None end)
  = Some ["1000000000000000000000"] /\
  match fst (getPool CONTRACT_ADDRESSES 30 TKN USER
               (start (wallet accepting Listing.largeBuyLedger) steadyNow)) with
  | Ok p =>
      buyPrice p = "200" /\ sellPrice p = "101" /\
      avgPrice p = "150.5" /\ volume24h p = "1e+21" /\
      isIntegerString (avgPrice p) = false /\
      isIntegerString (volume24h p) = false /\
      BigInt (volume24h p) = Throw (ErrorObject "Cannot convert 1e+21 to a BigInt")
  | _ => False
  end /\
  fst (get24hVolume CONTRACT_ADDRESSES 30 TKN
         (start (wallet accepting Listing.smallSwapLedger) steadyNow)) = Ok "1.5" /\
  isIntegerString "1.5" = false /\
  BigInt "1.5" = Throw (ErrorObject "Cannot convert 1.5 to a BigInt").
Proof.
  split; [vm_compute; reflexivity|].
  split; [vm_compute; repeat split; reflexivity|].
  split; [vm_compute; reflexivity|].
  split; vm_compute; reflexivity.
Qed.

(** C5.  [getTotalLiquidity] computes in doubles and prints the double
    before it parses it back.  With 7 tokens and 5 ether in the pool and an
    average price of 150 wei the formula gives 5 * 10^18 + 1050 wei and
    the function returns 5 * 10^18 + 1000; with one wei more than an ether
    in the pool the wei is lost; and with one wei of ether and no tokens,
    where the formula gives 1, the double 1e-18 is printed in exponent
    notation, which [parseEther] refuses: the function throws, and so does
    [getPool] for such a pool. *)
Theorem getTotalLiquidity_drops_wei_and_throws_on_dust :
  (getTotalLiquidity "150"
     {| tokenReserve := "7000000000000000000"; ethReserve := "5000000000000000000" |}
   = Ok "5000000000000001000" /\
   Qeq (spec_totalLiquidity 150 7000000000000000000 5000000000000000000)
       (inject_Z 5000000000000001050)) /\
  (getTotalLiquidity "0"
     {| tokenReserve := "0"; ethReserve := "1000000000000000001" |}
   = Ok "1000000000000000000" /\
   Qeq (spec_totalLiquidity 0 0 1000000000000000001) (inject_Z 1000000000000000001)) /\
  ((exists e, getTotalLiquidity "150" {| tokenReserve := "0"; ethReserve := "1" |}
              = Throw e) /\
   Qeq (spec_totalLiquidity 150 0 1) (inject_Z 1)) /\
  (fst (getReserves CONTRACT_ADDRESSES TKN
          (start (wallet accepting Listing.dustLedger) steadyNow))
   = Ok {| tokenReserve := "0"; ethReserve := "1" |} /\
   exists e, fst (getPool CONTRACT_ADDRESSES 30 TKN USER
                    (start (wallet accepting Listing.dustLedger) steadyNow))
             = Throw e).
Proof.
  split; [split; vm_compute; reflexivity|].
  split; [split; vm_compute; reflexivity|].
  split; [split; [eexists|]; vm_compute; reflexivity|].
  split; [vm_compute; reflexivity|].
  eexists. vm_compute. reflexivity.
Qed.
